(** * The instruction simplifier of the sparse IR (simplify.c, linearize.h)

    A shallow embedding of the peephole simplifier: pseudos, instructions,
    use lists, the cascading kill, the integer evaluator, canonicalization
    and the per-opcode rewriters, followed by the properties checked against
    the specification.

    Conventions of the embedding.
    - [long long] values are integers of Z in the signed 64-bit range; every
      arithmetic result is brought back into that range by [s64] (two's
      complement wrap-around), [unsigned long long] values by [u64].
    - Pointers to pseudos are the values of [pseudo_t]: VAL pseudos are
      interned by [value_pseudo], so pointer equality is equality of values.
    - Instructions and basic blocks live in arenas and are named by handles.
    - An operand slot address [&insn->src1] is the pair of the instruction
      handle and the field name.
    - An operand slot always holds a pseudo: where the source stores a null
      pointer into a slot it has just unbound ([simplify_branch] clearing
      [cond] of the branch it turns into OP_BR), the slot keeps VOID.
    - Stateful code runs in the monad [M]: a state transformer that can stop
      on a failed assert, on behaviour the C host leaves undefined, or when
      the recursion budget of the cascading kill is exhausted. *)

From stdpp Require Import gmap list strings.
From Stdlib Require Import ZArith Lia.

Local Open Scope Z_scope.

(** ** Host integers *)

Module Host.

(** Conversion to [long long]: wrap into [-2^63, 2^63). *)
Definition s64 (z : Z) : Z := (z + 2^63) mod 2^64 - 2^63.

(** Conversion to [unsigned long long]: wrap into [0, 2^64). *)
Definition u64 (z : Z) : Z := z mod 2^64.

(** Conversion to [int] and [unsigned int]. *)
Definition s32 (z : Z) : Z := (z + 2^31) mod 2^32 - 2^31.
Definition u32 (z : Z) : Z := z mod 2^32.

Definition in_s64 (z : Z) : Prop := - 2^63 <= z < 2^63.

(** C truth value of a comparison. *)
Definition b2z (b : bool) : Z := if b then 1 else 0.

(** C truth test of an integer. *)
Definition truthy (z : Z) : bool := negb (z =? 0).

End Host.
Import Host.

(** ** Pseudos (linearize.h) *)

Inductive pseudo_type :=
| PSEUDO_VOID | PSEUDO_REG | PSEUDO_SYM | PSEUDO_VAL | PSEUDO_ARG | PSEUDO_PHI.

Global Instance pseudo_type_eq_dec : EqDecision pseudo_type.
Proof. solve_decision. Defined.

(** A [pseudo_t] is a pointer to a [struct pseudo]; the pointee is named by
    its kind and its number ([nr]), symbol or value.  [VOID] is
    [&void_pseudo]. *)
Inductive pseudo_t :=
| VOID
| REG (nr : nat)
| SYM (sym : nat)
| VAL (value : Z)
| ARG (nr : nat)
| PHI (nr : nat).

Global Instance pseudo_eq_dec : EqDecision pseudo_t.
Proof. solve_decision. Defined.

Definition pseudo_enc (p : pseudo_t) : nat + (nat + (nat + (Z + (nat + nat)))) :=
  match p with
  | VOID => inl 0%nat
  | REG n => inr (inl n)
  | SYM n => inr (inr (inl n))
  | VAL v => inr (inr (inr (inl v)))
  | ARG n => inr (inr (inr (inr (inl n))))
  | PHI n => inr (inr (inr (inr (inr n))))
  end.

Definition pseudo_dec (x : nat + (nat + (nat + (Z + (nat + nat))))) : pseudo_t :=
  match x with
  | inl _ => VOID
  | inr (inl n) => REG n
  | inr (inr (inl n)) => SYM n
  | inr (inr (inr (inl v))) => VAL v
  | inr (inr (inr (inr (inl n)))) => ARG n
  | inr (inr (inr (inr (inr n)))) => PHI n
  end.

Global Instance pseudo_countable : Countable pseudo_t.
Proof. apply (inj_countable' pseudo_enc pseudo_dec). by intros []. Defined.

Definition ptype (p : pseudo_t) : pseudo_type :=
  match p with
  | VOID => PSEUDO_VOID
  | REG _ => PSEUDO_REG
  | SYM _ => PSEUDO_SYM
  | VAL _ => PSEUDO_VAL
  | ARG _ => PSEUDO_ARG
  | PHI _ => PSEUDO_PHI
  end.

Definition has_use_list (p : pseudo_t) : bool :=
  negb (bool_decide (ptype p = PSEUDO_VOID)) && negb (bool_decide (ptype p = PSEUDO_VAL)).

Definition constant (p : pseudo_t) : bool := bool_decide (ptype p = PSEUDO_VAL).

Definition simple_pseudo (p : pseudo_t) : bool :=
  bool_decide (ptype p = PSEUDO_VAL) || bool_decide (ptype p = PSEUDO_SYM).

(** [p->value]: the member of the union that a VAL pseudo holds.  For the
    other kinds the union holds a pointer ([def] or [sym]); [void_pseudo] is
    a zeroed static object.  The only place that reads [value] of a pseudo
    that may not be a VAL ([simplify_select]) uses it as a truth value. *)
Definition pvalue (p : pseudo_t) : Z :=
  match p with
  | VAL v => v
  | VOID => 0
  | _ => 1
  end.

Definition is_zero (p : pseudo_t) : bool :=
  match p with VAL v => v =? 0 | _ => false end.

Definition is_nonzero (p : pseudo_t) : bool :=
  match p with VAL v => negb (v =? 0) | _ => false end.

(** Modelled from the spec: [value_pseudo] (defined outside the excerpt)
    wraps an integer as a VAL pseudo; equal values give the same pseudo. *)
Definition value_pseudo (val : Z) : pseudo_t := VAL val.

(** ** Opcodes (linearize.h) *)

Inductive opcode :=
| OP_BADOP
| OP_ENTRY
| OP_RET | OP_BR | OP_CBR | OP_SWITCH | OP_COMPUTEDGOTO
| OP_ADD | OP_SUB | OP_MUL | OP_DIVU | OP_DIVS | OP_MODU | OP_MODS
| OP_SHL | OP_LSR | OP_ASR
| OP_FADD | OP_FSUB | OP_FMUL | OP_FDIV
| OP_AND | OP_OR | OP_XOR | OP_AND_BOOL | OP_OR_BOOL
| OP_FCMP_ORD | OP_FCMP_OEQ | OP_FCMP_ONE | OP_FCMP_OLE | OP_FCMP_OGE
| OP_FCMP_OLT | OP_FCMP_OGT | OP_FCMP_UEQ | OP_FCMP_UNE | OP_FCMP_ULE
| OP_FCMP_UGE | OP_FCMP_ULT | OP_FCMP_UGT | OP_FCMP_UNO
| OP_SET_EQ | OP_SET_NE | OP_SET_LE | OP_SET_GE | OP_SET_LT | OP_SET_GT
| OP_SET_B | OP_SET_A | OP_SET_BE | OP_SET_AE
| OP_NOT | OP_NEG | OP_FNEG
| OP_SEL
| OP_LOAD | OP_STORE | OP_SETVAL | OP_SETFVAL | OP_SYMADDR
| OP_PHI | OP_PHISOURCE | OP_CAST | OP_SCAST | OP_FPCAST | OP_PTRCAST
| OP_INLINED_CALL | OP_CALL | OP_SLICE | OP_NOP | OP_DEATHNOTE | OP_ASM
| OP_CONTEXT | OP_RANGE
| OP_COPY
| OP_LAST.

Global Instance opcode_eq_dec : EqDecision opcode.
Proof. solve_decision. Defined.

(** The enumeration value of each opcode. *)
Definition opcode_nr (op : opcode) : Z :=
  match op with
  | OP_BADOP => 0
  | OP_ENTRY => 1
  | OP_RET => 2 | OP_BR => 3 | OP_CBR => 4 | OP_SWITCH => 5 | OP_COMPUTEDGOTO => 6
  | OP_ADD => 7 | OP_SUB => 8 | OP_MUL => 9 | OP_DIVU => 10 | OP_DIVS => 11
  | OP_MODU => 12 | OP_MODS => 13 | OP_SHL => 14 | OP_LSR => 15 | OP_ASR => 16
  | OP_FADD => 17 | OP_FSUB => 18 | OP_FMUL => 19 | OP_FDIV => 20
  | OP_AND => 21 | OP_OR => 22 | OP_XOR => 23 | OP_AND_BOOL => 24 | OP_OR_BOOL => 25
  | OP_FCMP_ORD => 26 | OP_FCMP_OEQ => 27 | OP_FCMP_ONE => 28 | OP_FCMP_OLE => 29
  | OP_FCMP_OGE => 30 | OP_FCMP_OLT => 31 | OP_FCMP_OGT => 32 | OP_FCMP_UEQ => 33
  | OP_FCMP_UNE => 34 | OP_FCMP_ULE => 35 | OP_FCMP_UGE => 36 | OP_FCMP_ULT => 37
  | OP_FCMP_UGT => 38 | OP_FCMP_UNO => 39
  | OP_SET_EQ => 40 | OP_SET_NE => 41 | OP_SET_LE => 42 | OP_SET_GE => 43
  | OP_SET_LT => 44 | OP_SET_GT => 45 | OP_SET_B => 46 | OP_SET_A => 47
  | OP_SET_BE => 48 | OP_SET_AE => 49
  | OP_NOT => 50 | OP_NEG => 51 | OP_FNEG => 52
  | OP_SEL => 53
  | OP_LOAD => 54 | OP_STORE => 55 | OP_SETVAL => 56 | OP_SETFVAL => 57
  | OP_SYMADDR => 58
  | OP_PHI => 59 | OP_PHISOURCE => 60 | OP_CAST => 61 | OP_SCAST => 62
  | OP_FPCAST => 63 | OP_PTRCAST => 64 | OP_INLINED_CALL => 65 | OP_CALL => 66
  | OP_SLICE => 67 | OP_NOP => 68 | OP_DEATHNOTE => 69 | OP_ASM => 70
  | OP_CONTEXT => 71 | OP_RANGE => 72
  | OP_COPY => 73
  | OP_LAST => 74
  end.

Definition OP_TERMINATOR := OP_RET.
Definition OP_TERMINATOR_END := OP_COMPUTEDGOTO.
Definition OP_BINARY := OP_ADD.
Definition OP_BINARY_END := OP_OR_BOOL.
Definition OP_FPCMP := OP_FCMP_ORD.
Definition OP_FPCMP_END := OP_FCMP_UNO.
Definition OP_BINCMP := OP_SET_EQ.
Definition OP_BINCMP_END := OP_SET_AE.

(** [case lo ... hi:] of a switch on an opcode. *)
Definition op_in_range (lo hi op : opcode) : bool :=
  (opcode_nr lo <=? opcode_nr op) && (opcode_nr op <=? opcode_nr hi).

(** Modelled from the spec: [opcode_table] (defined outside the excerpt)
    gives, per comparison opcode, its swap counterpart (the comparison that
    holds of the operands in the other order: [<] becomes [>]) and its negate
    counterpart (the logical negation).  Entries of the other opcodes are
    left zero, which is [OP_BADOP]. *)
Definition opcode_swap (op : opcode) : opcode :=
  match op with
  | OP_SET_EQ => OP_SET_EQ | OP_SET_NE => OP_SET_NE
  | OP_SET_LE => OP_SET_GE | OP_SET_GE => OP_SET_LE
  | OP_SET_LT => OP_SET_GT | OP_SET_GT => OP_SET_LT
  | OP_SET_B => OP_SET_A | OP_SET_A => OP_SET_B
  | OP_SET_BE => OP_SET_AE | OP_SET_AE => OP_SET_BE
  | OP_FCMP_ORD => OP_FCMP_ORD | OP_FCMP_UNO => OP_FCMP_UNO
  | OP_FCMP_OEQ => OP_FCMP_OEQ | OP_FCMP_ONE => OP_FCMP_ONE
  | OP_FCMP_UEQ => OP_FCMP_UEQ | OP_FCMP_UNE => OP_FCMP_UNE
  | OP_FCMP_OLE => OP_FCMP_OGE | OP_FCMP_OGE => OP_FCMP_OLE
  | OP_FCMP_OLT => OP_FCMP_OGT | OP_FCMP_OGT => OP_FCMP_OLT
  | OP_FCMP_ULE => OP_FCMP_UGE | OP_FCMP_UGE => OP_FCMP_ULE
  | OP_FCMP_ULT => OP_FCMP_UGT | OP_FCMP_UGT => OP_FCMP_ULT
  | _ => OP_BADOP
  end.

Definition opcode_negate (op : opcode) : opcode :=
  match op with
  | OP_SET_EQ => OP_SET_NE | OP_SET_NE => OP_SET_EQ
  | OP_SET_LE => OP_SET_GT | OP_SET_GT => OP_SET_LE
  | OP_SET_GE => OP_SET_LT | OP_SET_LT => OP_SET_GE
  | OP_SET_B => OP_SET_AE | OP_SET_AE => OP_SET_B
  | OP_SET_A => OP_SET_BE | OP_SET_BE => OP_SET_A
  | OP_FCMP_ORD => OP_FCMP_UNO | OP_FCMP_UNO => OP_FCMP_ORD
  | OP_FCMP_OEQ => OP_FCMP_UNE | OP_FCMP_UNE => OP_FCMP_OEQ
  | OP_FCMP_ONE => OP_FCMP_UEQ | OP_FCMP_UEQ => OP_FCMP_ONE
  | OP_FCMP_OLE => OP_FCMP_UGT | OP_FCMP_UGT => OP_FCMP_OLE
  | OP_FCMP_OGE => OP_FCMP_ULT | OP_FCMP_ULT => OP_FCMP_OGE
  | OP_FCMP_OLT => OP_FCMP_UGE | OP_FCMP_UGE => OP_FCMP_OLT
  | OP_FCMP_OGT => OP_FCMP_ULE | OP_FCMP_ULE => OP_FCMP_OGT
  | _ => OP_BADOP
  end.

(** ** The integer evaluator (eval_insn) *)

(** What [eval_insn] hands back: a VAL pseudo, a null pointer (no fold), or
    nothing at all when the host expression has no defined value (a shift of
    a 64-bit integer by a count outside 0..63). *)
Inductive eval_result :=
| Folded (v : Z)
| NoFold
| HostUndefined.

Global Instance eval_result_eq_dec : EqDecision eval_result.
Proof. solve_decision. Defined.

(** [mask = 1ULL << (size-1)] as a [long long]. *)
Definition sign_mask (size : Z) : Z := s64 (Z.shiftl 1 (size - 1)).

(** [bits = mask | (mask-1)]. *)
Definition all_bits (size : Z) : Z :=
  let mask := sign_mask size in Z.lor mask (s64 (mask - 1)).

(** [if (x & mask) x |= ~bits;] *)
Definition extend (size x : Z) : Z :=
  if Z.land x (sign_mask size) =? 0 then x
  else Z.lor x (Z.lnot (all_bits size)).

(** The switch of [eval_insn], on the extended operands [left], [right] and
    their unsigned counterparts [ul], [ur]; the result before [res &= bits]. *)
Definition eval_op (op : opcode) (mask left right ul ur : Z) : eval_result :=
  match op with
  | OP_ADD => Folded (s64 (left + right))
  | OP_SUB => Folded (s64 (left - right))
  | OP_MUL => Folded (s64 (u64 (ul * ur)))
  | OP_DIVU => if ur =? 0 then NoFold else Folded (s64 (ul / ur))
  | OP_DIVS =>
      if right =? 0 then NoFold
      else if (left =? mask) && (right =? -1) then NoFold
      else Folded (s64 (Z.quot left right))
  | OP_MODU => if ur =? 0 then NoFold else Folded (s64 (ul mod ur))
  | OP_MODS =>
      if right =? 0 then NoFold
      else if (left =? mask) && (right =? -1) then NoFold
      else Folded (s64 (Z.rem left right))
  | OP_SHL =>
      if (0 <=? right) && (right <? 64) then Folded (s64 (Z.shiftl left right))
      else HostUndefined
  | OP_LSR =>
      if ur <? 64 then Folded (s64 (Z.shiftr ul ur)) else HostUndefined
  | OP_ASR =>
      if (0 <=? right) && (right <? 64) then Folded (Z.shiftr left right)
      else HostUndefined
  | OP_AND => Folded (Z.land left right)
  | OP_OR => Folded (Z.lor left right)
  | OP_XOR => Folded (Z.lxor left right)
  | OP_AND_BOOL => Folded (b2z (truthy left && truthy right))
  | OP_OR_BOOL => Folded (b2z (truthy left || truthy right))
  | OP_SET_EQ => Folded (b2z (left =? right))
  | OP_SET_NE => Folded (b2z (negb (left =? right)))
  | OP_SET_LE => Folded (b2z (left <=? right))
  | OP_SET_GE => Folded (b2z (left >=? right))
  | OP_SET_LT => Folded (b2z (left <? right))
  | OP_SET_GT => Folded (b2z (left >? right))
  | OP_SET_B => Folded (b2z (ul <? ur))
  | OP_SET_A => Folded (b2z (ul >? ur))
  | OP_SET_BE => Folded (b2z (ul <=? ur))
  | OP_SET_AE => Folded (b2z (ul >=? ur))
  | _ => NoFold
  end.

(** [eval_insn] on the fields it reads: [insn->size], [insn->opcode],
    [insn->src1->value] and [insn->src2->value]. *)
Definition eval_insn (size : Z) (op : opcode) (v1 v2 : Z) : eval_result :=
  if (1 <=? size) && (size <=? 64) then
    let mask := sign_mask size in
    let bits := all_bits size in
    let left := extend size v1 in
    let right := extend size v2 in
    let ul := u64 (Z.land left bits) in
    let ur := u64 (Z.land right bits) in
    match eval_op op mask left right ul ur with
    | Folded res => Folded (Z.land res bits)
    | r => r
    end
  else HostUndefined.

(** ** Instructions, basic blocks and the simplifier state *)

(** The fields of an instruction that hold a pseudo.  [src], [cond],
    [phi_src], [symbol], [func] and [base] are the first word of the union
    and share the address of [src1]; the entries of [phi_list] and
    [arguments] live in list nodes owned by the instruction. *)
Inductive slot :=
| Src1 | Src2 | Src3 | Target
| PhiEntry (k : nat)
| ArgEntry (k : nat).

Global Instance slot_eq_dec : EqDecision slot.
Proof. solve_decision. Defined.

(** The address of an operand slot: [&insn->src1], [THIS_ADDRESS(p)]. *)
Definition addr : Type := nat * slot.

(** [struct pseudo_user]. *)
Record pseudo_user := { pu_insn : nat; userp : addr }.

Global Instance pseudo_user_eq_dec : EqDecision pseudo_user.
Proof. solve_decision. Defined.

(** What the simplifier reads of a [struct symbol] used as a type:
    [bit_size], the modifier bits it tests ([x & MOD_F] is non-zero exactly
    when the flag is set) and the answers of the external predicates
    [is_ptr_type] and [is_float_type]. *)
Record symbol := {
  bit_size : Z;
  mod_signed : bool;
  mod_volatile : bool;
  mod_pure : bool;
  is_ptr_type : bool;
  is_float_type : bool;
}.

(** [struct multijmp]. *)
Record multijmp := {
  mj_target : nat;
  mj_begin : Z;
  mj_end : Z;
}.

(** [struct instruction].  A null [bb] is [None]. *)
Record instruction := {
  i_opcode : opcode;
  i_size : Z;
  i_bb : option nat;
  i_pos : nat;
  i_type : symbol;
  i_target : pseudo_t;
  i_src1 : pseudo_t;
  i_src2 : pseudo_t;
  i_src3 : pseudo_t;
  i_bb_true : option nat;
  i_bb_false : option nat;
  i_multijmp_list : list multijmp;
  i_phi_list : list pseudo_t;
  i_orig_type : option symbol;
  i_offset : Z;
  i_arguments : list pseudo_t;
}.

Definition set_opcode (op : opcode) (ins : instruction) : instruction :=
  {| i_opcode := op; i_size := i_size ins; i_bb := i_bb ins; i_pos := i_pos ins;
     i_type := i_type ins; i_target := i_target ins; i_src1 := i_src1 ins;
     i_src2 := i_src2 ins; i_src3 := i_src3 ins; i_bb_true := i_bb_true ins;
     i_bb_false := i_bb_false ins; i_multijmp_list := i_multijmp_list ins;
     i_phi_list := i_phi_list ins; i_orig_type := i_orig_type ins;
     i_offset := i_offset ins; i_arguments := i_arguments ins |}.

Definition set_bb (b : option nat) (ins : instruction) : instruction :=
  {| i_opcode := i_opcode ins; i_size := i_size ins; i_bb := b; i_pos := i_pos ins;
     i_type := i_type ins; i_target := i_target ins; i_src1 := i_src1 ins;
     i_src2 := i_src2 ins; i_src3 := i_src3 ins; i_bb_true := i_bb_true ins;
     i_bb_false := i_bb_false ins; i_multijmp_list := i_multijmp_list ins;
     i_phi_list := i_phi_list ins; i_orig_type := i_orig_type ins;
     i_offset := i_offset ins; i_arguments := i_arguments ins |}.

Definition set_branches (t f : option nat) (ins : instruction) : instruction :=
  {| i_opcode := i_opcode ins; i_size := i_size ins; i_bb := i_bb ins; i_pos := i_pos ins;
     i_type := i_type ins; i_target := i_target ins; i_src1 := i_src1 ins;
     i_src2 := i_src2 ins; i_src3 := i_src3 ins; i_bb_true := t;
     i_bb_false := f; i_multijmp_list := i_multijmp_list ins;
     i_phi_list := i_phi_list ins; i_orig_type := i_orig_type ins;
     i_offset := i_offset ins; i_arguments := i_arguments ins |}.

Definition set_offset (o : Z) (ins : instruction) : instruction :=
  {| i_opcode := i_opcode ins; i_size := i_size ins; i_bb := i_bb ins; i_pos := i_pos ins;
     i_type := i_type ins; i_target := i_target ins; i_src1 := i_src1 ins;
     i_src2 := i_src2 ins; i_src3 := i_src3 ins; i_bb_true := i_bb_true ins;
     i_bb_false := i_bb_false ins; i_multijmp_list := i_multijmp_list ins;
     i_phi_list := i_phi_list ins; i_orig_type := i_orig_type ins;
     i_offset := o; i_arguments := i_arguments ins |}.

(** [*slot] of an instruction; an entry past the end of a list has no
    address. *)
Definition slot_get (ins : instruction) (s : slot) : option pseudo_t :=
  match s with
  | Src1 => Some (i_src1 ins)
  | Src2 => Some (i_src2 ins)
  | Src3 => Some (i_src3 ins)
  | Target => Some (i_target ins)
  | PhiEntry k => i_phi_list ins !! k
  | ArgEntry k => i_arguments ins !! k
  end.

(** [*slot = p]. *)
Definition slot_set (ins : instruction) (s : slot) (p : pseudo_t) : instruction :=
  {| i_opcode := i_opcode ins; i_size := i_size ins; i_bb := i_bb ins; i_pos := i_pos ins;
     i_type := i_type ins;
     i_target := match s with Target => p | _ => i_target ins end;
     i_src1 := match s with Src1 => p | _ => i_src1 ins end;
     i_src2 := match s with Src2 => p | _ => i_src2 ins end;
     i_src3 := match s with Src3 => p | _ => i_src3 ins end;
     i_bb_true := i_bb_true ins; i_bb_false := i_bb_false ins;
     i_multijmp_list := i_multijmp_list ins;
     i_phi_list := match s with PhiEntry k => <[k:=p]> (i_phi_list ins) | _ => i_phi_list ins end;
     i_orig_type := i_orig_type ins; i_offset := i_offset ins;
     i_arguments := match s with ArgEntry k => <[k:=p]> (i_arguments ins) | _ => i_arguments ins end |}.

(** [struct basic_block]: predecessors, successors and the instruction
    list. *)
Record basic_block := {
  bb_parents : list nat;
  bb_children : list nat;
  bb_insns : list nat;
}.

(** A diagnostic: the position and the message given to [warning]. *)
Definition diagnostic : Type := nat * string.

(** Everything the simplifier reads and writes: the instruction arena, the
    use list of every pseudo ([p->users]; an absent key is the null list),
    the definition of every REG, PHI and ARG pseudo ([p->def]; an absent key
    is a null pointer), the blocks, the symbol behind every SYM pseudo
    ([p->sym]), the global [repeat_phase], the diagnostics emitted so far
    and the flag [Wtautological_compare]. *)
Record state := {
  insns : gmap nat instruction;
  users : gmap pseudo_t (list pseudo_user);
  defs : gmap pseudo_t nat;
  blocks : gmap nat basic_block;
  symtab : nat -> symbol;
  repeat_phase : Z;
  warnings : list diagnostic;
  Wtautological_compare : bool;
}.

Definition with_insns (m : gmap nat instruction) (st : state) : state :=
  {| insns := m; users := users st; defs := defs st; blocks := blocks st;
     symtab := symtab st; repeat_phase := repeat_phase st;
     warnings := warnings st; Wtautological_compare := Wtautological_compare st |}.

Definition with_users (m : gmap pseudo_t (list pseudo_user)) (st : state) : state :=
  {| insns := insns st; users := m; defs := defs st; blocks := blocks st;
     symtab := symtab st; repeat_phase := repeat_phase st;
     warnings := warnings st; Wtautological_compare := Wtautological_compare st |}.

Definition with_defs (m : gmap pseudo_t nat) (st : state) : state :=
  {| insns := insns st; users := users st; defs := m; blocks := blocks st;
     symtab := symtab st; repeat_phase := repeat_phase st;
     warnings := warnings st; Wtautological_compare := Wtautological_compare st |}.

Definition with_blocks (m : gmap nat basic_block) (st : state) : state :=
  {| insns := insns st; users := users st; defs := defs st; blocks := m;
     symtab := symtab st; repeat_phase := repeat_phase st;
     warnings := warnings st; Wtautological_compare := Wtautological_compare st |}.

Definition with_repeat_phase (r : Z) (st : state) : state :=
  {| insns := insns st; users := users st; defs := defs st; blocks := blocks st;
     symtab := symtab st; repeat_phase := r;
     warnings := warnings st; Wtautological_compare := Wtautological_compare st |}.

Definition with_warnings (w : list diagnostic) (st : state) : state :=
  {| insns := insns st; users := users st; defs := defs st; blocks := blocks st;
     symtab := symtab st; repeat_phase := repeat_phase st;
     warnings := w; Wtautological_compare := Wtautological_compare st |}.

(** Modelled from the spec: the phase-mask bits (their macros are defined
    outside the excerpt) are three fixed, distinct bits. *)
Definition REPEAT_CSE : Z := 1.
Definition REPEAT_SYMBOL_CLEANUP : Z := 2.
Definition REPEAT_CFG_CLEANUP : Z := 4.

(** ** The monad of the simplifier *)

Inductive error :=
| AssertFailed   (* a failed [assert] *)
| Undefined      (* a wild or dangling pointer is followed *)
| OutOfFuel.     (* the recursion budget is spent *)

Global Instance error_eq_dec : EqDecision error.
Proof. solve_decision. Defined.

Inductive result (A : Type) :=
| Ok (a : A) (st : state)
| Err (e : error).

Arguments Ok {A} a st.
Arguments Err {A} e.

Definition M (A : Type) : Type := state -> result A.

Definition ret {A : Type} (a : A) : M A := fun st => Ok a st.

Definition bind {A B : Type} (m : M A) (f : A -> M B) : M B :=
  fun st => match m st with
            | Ok a st' => f a st'
            | Err e => Err e
            end.

Notation "'let*' x ':=' c1 'in' c2" := (bind c1 (fun x => c2))
  (at level 10, x name, c1 at level 100, c2 at level 200).

Definition fail {A : Type} (e : error) : M A := fun _ => Err e.

Definition get_state : M state := fun st => Ok st st.

(** [*insn]: following a pointer into the arena. *)
Definition load_insn (i : nat) : M instruction :=
  fun st => match insns st !! i with
            | Some ins => Ok ins st
            | None => Err Undefined
            end.

Definition store_insn (i : nat) (ins : instruction) : M unit :=
  fun st => Ok tt (with_insns (<[i:=ins]> (insns st)) st).

Definition update_insn (i : nat) (f : instruction -> instruction) : M unit :=
  let* ins := load_insn i in store_insn i (f ins).

(** [*usep] and [*usep = p]. *)
Definition read_slot (a : addr) : M pseudo_t :=
  let* ins := load_insn a.1 in
  match slot_get ins a.2 with
  | Some p => ret p
  | None => fail Undefined
  end.

Definition write_slot (a : addr) (p : pseudo_t) : M unit :=
  let* ins := load_insn a.1 in
  match slot_get ins a.2 with
  | Some _ => store_insn a.1 (slot_set ins a.2 p)
  | None => fail Undefined
  end.

(** [p->users]. *)
Definition users_of (st : state) (p : pseudo_t) : list pseudo_user :=
  default [] (users st !! p).

Definition get_users (p : pseudo_t) : M (list pseudo_user) :=
  fun st => Ok (users_of st p) st.

Definition set_users (p : pseudo_t) (l : list pseudo_user) : M unit :=
  fun st => Ok tt (with_users (<[p:=l]> (users st)) st).

(** [has_users]. *)
Definition has_users (st : state) (p : pseudo_t) : bool :=
  negb (bool_decide (length (users_of st p) = 0%nat)).

(** [repeat_phase |= bits], whose value is the new mask. *)
Definition or_repeat_phase (bits : Z) : M Z :=
  fun st => let r := Z.lor (repeat_phase st) bits in Ok r (with_repeat_phase r st).

Definition warning (pos : nat) (msg : string) : M unit :=
  fun st => Ok tt (with_warnings (warnings st ++ [(pos, msg)]) st).

(** A pointer to an instruction: null, a handle of the arena, or a word that
    is no instruction at all. *)
Inductive insn_ptr :=
| NullInsn
| InsnAt (i : nat)
| WildInsn.

Global Instance insn_ptr_eq_dec : EqDecision insn_ptr.
Proof. solve_decision. Defined.

(** [p->def] read as an instruction pointer.  The union member is a
    definition for REG, PHI and ARG pseudos and null in [void_pseudo]; in a
    SYM pseudo the word is the symbol and in a VAL pseudo the value, neither
    of which is an instruction. *)
Definition pseudo_def (st : state) (p : pseudo_t) : insn_ptr :=
  match p with
  | REG _ | PHI _ | ARG _ =>
      match defs st !! p with
      | Some i => InsnAt i
      | None => NullInsn
      end
  | VOID => NullInsn
  | VAL v => if v =? 0 then NullInsn else WildInsn
  | SYM _ => WildInsn
  end.

(** [*ptr]: following an instruction pointer that the code takes to be
    valid. *)
Definition deref (ptr : insn_ptr) : M (nat * instruction) :=
  match ptr with
  | InsnAt i => let* ins := load_insn i in ret (i, ins)
  | _ => fail Undefined
  end.

(** ** Use-list maintenance *)

(** The loop of [delete_pseudo_user_list_entry]: the list without the
    entries marked deleted, the remaining count, and whether the loop was
    left by [goto out]. *)
Fixpoint delete_scan (l : list pseudo_user) (entry : addr) (count : Z)
  : list pseudo_user * Z * bool :=
  match l with
  | [] => ([], count, false)
  | pu :: l' =>
      if decide (userp pu = entry) then
        if count - 1 =? 0 then (l', count - 1, true)
        else delete_scan l' entry (count - 1)
      else
        let '(r, c, out) := delete_scan l' entry count in (pu :: r, c, out)
  end.

Definition delete_pseudo_user_list_entry (p : pseudo_t) (entry : addr) (count : Z) : M Z :=
  let* l := get_users p in
  let '(l', c, out) := delete_scan l entry count in
  if out || (c <=? 0) then
    let* _ := set_users p l' in ret c
  else fail AssertFailed.

(** [use_pseudo]. *)
Definition use_pseudo (insn : nat) (p : pseudo_t) (pp : addr) : M unit :=
  let* _ := write_slot pp p in
  if has_use_list p then
    let* l := get_users p in
    set_users p (l ++ [{| pu_insn := insn; userp := pp |}])
  else ret tt.

Section Kill.

(** [kill_instruction], as seen from the use-list helpers it is mutually
    recursive with. *)
Variable kill_instruction : insn_ptr -> M Z.

Definition rem_usage_with (p : pseudo_t) (usep : addr) (kill : bool) : M unit :=
  if has_use_list p then
    let* _ := (if bool_decide (ptype p = PSEUDO_SYM)
               then or_repeat_phase REPEAT_SYMBOL_CLEANUP else ret 0) in
    let* _ := delete_pseudo_user_list_entry p usep 1 in
    let* l := get_users p in
    if kill && bool_decide (l = []) then
      let* st := get_state in
      let* _ := kill_instruction (pseudo_def st p) in ret tt
    else ret tt
  else ret tt.

Definition kill_use_with (usep : option addr) : M unit :=
  match usep with
  | Some a =>
      let* p := read_slot a in
      let* _ := write_slot a VOID in
      rem_usage_with p a true
  | None => ret tt
  end.

(** [FOR_EACH_PTR(list, p) { if (p == VOID) continue; kill_use(THIS_ADDRESS(p)); }]
    over the entries [ks] of a list of [insn]; each entry is read when the
    loop reaches it. *)
Fixpoint kill_use_list_loop (insn : nat) (entry : nat -> slot) (ks : list nat) : M unit :=
  match ks with
  | [] => ret tt
  | k :: ks' =>
      let* p := read_slot (insn, entry k) in
      let* _ := (if decide (p = VOID) then ret tt
                 else kill_use_with (Some (insn, entry k))) in
      kill_use_list_loop insn entry ks'
  end.

(** [kill_use_list(insn->phi_list)] and [kill_use_list(insn->arguments)]. *)
Definition kill_use_list_phi (insn : nat) : M unit :=
  let* ins := load_insn insn in
  kill_use_list_loop insn PhiEntry (seq 0 (length (i_phi_list ins))).

Definition kill_use_list_args (insn : nat) : M unit :=
  let* ins := load_insn insn in
  kill_use_list_loop insn ArgEntry (seq 0 (length (i_arguments ins))).

(** The end of [kill_insn]: [insn->bb = NULL; return repeat_phase |= REPEAT_CSE]. *)
Definition kill_finish (insn : nat) : M Z :=
  let* _ := update_insn insn (set_bb None) in
  or_repeat_phase REPEAT_CSE.

(** The body of [kill_insn]. *)
Definition kill_insn_body (insn : insn_ptr) (force : bool) : M Z :=
  match insn with
  | NullInsn => ret 0
  | WildInsn => fail Undefined
  | InsnAt i =>
      let* ins := load_insn i in
      match i_bb ins with
      | None => ret 0
      | Some _ =>
          let op := i_opcode ins in
          match op with
          | OP_SEL | OP_RANGE =>
              let* _ := kill_use_with (Some (i, Src3)) in
              let* _ := kill_use_with (Some (i, Src2)) in
              let* _ := kill_use_with (Some (i, Src1)) in
              kill_finish i
          | OP_CAST | OP_SCAST | OP_FPCAST | OP_PTRCAST | OP_SETVAL
          | OP_NOT | OP_NEG | OP_SLICE =>
              let* _ := kill_use_with (Some (i, Src1)) in
              kill_finish i
          | OP_PHI =>
              let* _ := kill_use_list_phi i in
              kill_finish i
          | OP_PHISOURCE =>
              let* _ := kill_use_with (Some (i, Src1)) in
              kill_finish i
          | OP_SYMADDR =>
              let* _ := or_repeat_phase REPEAT_SYMBOL_CLEANUP in
              kill_finish i
          | OP_CBR | OP_COMPUTEDGOTO =>
              let* _ := kill_use_with (Some (i, Src1)) in
              kill_finish i
          | OP_CALL =>
              let* st := get_state in
              if negb force && negb (bool_decide (ptype (i_src1 ins) = PSEUDO_SYM)) then ret 0
              else if negb force &&
                      negb (match i_src1 ins with
                            | SYM s => mod_pure (symtab st s)
                            | _ => false
                            end) then ret 0
              else
                let* _ := kill_use_list_args i in
                let* ins' := load_insn i in
                let* _ := (if bool_decide (ptype (i_src1 ins') = PSEUDO_REG)
                           then kill_use_with (Some (i, Src1)) else ret tt) in
                kill_finish i
          | OP_LOAD =>
              if negb force && mod_volatile (i_type ins) then ret 0
              else
                let* _ := kill_use_with (Some (i, Src1)) in
                kill_finish i
          | OP_STORE =>
              if negb force then ret 0
              else
                let* _ := kill_use_with (Some (i, Src1)) in
                let* _ := kill_use_with (Some (i, Target)) in
                kill_finish i
          | OP_ENTRY => ret 0
          | _ =>
              if op_in_range OP_BINARY OP_BINCMP_END op then
                let* _ := kill_use_with (Some (i, Src2)) in
                let* _ := kill_use_with (Some (i, Src1)) in
                kill_finish i
              else kill_finish i
          end
      end
  end.

End Kill.

(** [kill_insn]; the budget bounds the depth of the cascade. *)
Fixpoint kill_insn (fuel : nat) (insn : insn_ptr) (force : bool) : M Z :=
  match fuel with
  | O => fail OutOfFuel
  | S n => kill_insn_body (fun d => kill_insn n d false) insn force
  end.

(** Modelled from the spec: [kill_instruction] (defined outside the
    excerpt) is the kill without force. *)
Definition kill_instruction (fuel : nat) (insn : insn_ptr) : M Z :=
  kill_insn fuel insn false.

Definition rem_usage (fuel : nat) (p : pseudo_t) (usep : addr) (kill : bool) : M unit :=
  rem_usage_with (kill_instruction fuel) p usep kill.

Definition remove_usage (fuel : nat) (p : pseudo_t) (usep : addr) : M unit :=
  rem_usage fuel p usep true.

Definition kill_use (fuel : nat) (usep : option addr) : M unit :=
  kill_use_with (kill_instruction fuel) usep.

(** Like [kill_use] but without the cascade. *)
Definition remove_use (fuel : nat) (usep : addr) : M unit :=
  let* p := read_slot usep in
  let* _ := write_slot usep VOID in
  rem_usage fuel p usep false.

Definition kill_use_list_phi_list (fuel : nat) (insn : nat) : M unit :=
  kill_use_list_phi (kill_instruction fuel) insn.

(** Modelled from the spec: [convert_instruction_target] (defined outside
    the excerpt) is the retarget of the use-list maintenance: for every
    [(user, slot)] in the users of the old target, write the new pseudo into
    [*slot] and move the entry into the new pseudo's users (nothing is added
    there when the new pseudo is a VAL or VOID); the old target's users end
    up cleared.  Moving takes the entries off the old list and appends them
    to the new one. *)
Fixpoint retarget_slots (l : list pseudo_user) (src : pseudo_t) : M unit :=
  match l with
  | [] => ret tt
  | pu :: l' =>
      let* _ := write_slot (userp pu) src in
      retarget_slots l' src
  end.

Definition convert_instruction_target (insn : nat) (src : pseudo_t) : M unit :=
  let* ins := load_insn insn in
  let target := i_target ins in
  let* l := get_users target in
  let* _ := retarget_slots l src in
  let* _ := set_users target [] in
  if has_use_list src then
    let* l' := get_users src in set_users src (l' ++ l)
  else ret tt.

(** ** Dead instructions and replacement *)

Definition dead_insn (fuel : nat) (insn : nat) (src1 src2 src3 : option addr) : M Z :=
  let* ins := load_insn insn in
  let* st := get_state in
  if has_users st (i_target ins) then ret 0
  else
    let* _ := update_insn insn (set_bb None) in
    let* _ := kill_use fuel src1 in
    let* _ := kill_use fuel src2 in
    let* _ := kill_use fuel src3 in
    ret REPEAT_CSE.

Definition replace_with_pseudo (fuel : nat) (insn : nat) (pseudo : pseudo_t) : M Z :=
  let* _ := convert_instruction_target insn pseudo in
  let* ins := load_insn insn in
  let op := i_opcode ins in
  let* _ :=
    match op with
    | OP_SEL | OP_RANGE =>
        let* _ := kill_use fuel (Some (insn, Src3)) in
        let* _ := kill_use fuel (Some (insn, Src2)) in
        kill_use fuel (Some (insn, Src1))
    | OP_NOT | OP_NEG | OP_SYMADDR
    | OP_CAST | OP_SCAST | OP_FPCAST | OP_PTRCAST =>
        kill_use fuel (Some (insn, Src1))
    | _ =>
        if op_in_range OP_BINARY OP_BINCMP_END op then
          let* _ := kill_use fuel (Some (insn, Src2)) in
          kill_use fuel (Some (insn, Src1))
        else fail AssertFailed
    end in
  let* _ := update_insn insn (set_bb None) in
  ret REPEAT_CSE.

(** ** Sizes of operands *)

Definition value_size (value : Z) : Z :=
  let value := Z.shiftr value 8 in
  if value =? 0 then 8
  else
    let value := Z.shiftr value 8 in
    if value =? 0 then 16
    else
      let value := Z.shiftr value 16 in
      if value =? 0 then 32 else 64.

Definition operand_size (insn : nat) (pseudo : pseudo_t) : M Z :=
  let* ins := load_insn insn in
  let* st := get_state in
  let size := i_size ins in
  let* size :=
    (if bool_decide (ptype pseudo = PSEUDO_REG) then
       match pseudo_def st pseudo with
       | NullInsn => ret size
       | src =>
           let* d := deref src in
           match i_opcode d.2, i_orig_type d.2 with
           | OP_CAST, Some ot =>
               let orig_size := u32 (bit_size ot) in
               ret (if orig_size <? size then orig_size else size)
           | _, _ => ret size
           end
       end
     else ret size) in
  match pseudo with
  | VAL value =>
      let orig_size := value_size value in
      ret (if orig_size <? size then orig_size else size)
  | _ => ret size
  end.

(** ** Binary operations with a constant operand *)

Definition simplify_asr (fuel : nat) (insn : nat) (pseudo : pseudo_t) (value : Z) : M Z :=
  let* size := operand_size insn pseudo in
  if value >=? size then
    let* ins := load_insn insn in
    let* _ := warning (i_pos ins) "right shift by bigger than source value" in
    replace_with_pseudo fuel insn (value_pseudo 0)
  else if value =? 0 then replace_with_pseudo fuel insn pseudo
  else ret 0.

Definition simplify_mul_div (fuel : nat) (insn : nat) (value : Z) : M Z :=
  let* ins := load_insn insn in
  if negb ((1 <=? i_size ins) && (i_size ins <=? 64)) then fail Undefined
  else
    let sbit := Z.shiftl 1 (i_size ins - 1) in
    let bits := Z.lor sbit (sbit - 1) in
    if value =? 1 then replace_with_pseudo fuel insn (i_src1 ins)
    else
      let sign_case :=
        if Z.land value sbit =? 0 then ret 0
        else
          let value := Z.lor value (Z.lnot bits) in
          if value =? -1 then
            let* _ := update_insn insn (set_opcode OP_NEG) in
            ret REPEAT_CSE
          else ret 0 in
      match i_opcode ins with
      | OP_MUL =>
          if value =? 0 then replace_with_pseudo fuel insn (i_src2 ins)
          else sign_case
      | OP_DIVS => sign_case
      | _ => ret 0
      end.

Definition simplify_seteq_setne (fuel : nat) (insn : nat) (value : Z) : M Z :=
  let* ins := load_insn insn in
  let old := i_src1 ins in
  let* st := get_state in
  let def := pseudo_def st old in
  if negb (value =? 0) && negb (value =? 1) then ret 0
  else
    match def with
    | NullInsn => ret 0
    | _ =>
        let inverse := b2z (bool_decide (i_opcode ins = OP_SET_NE)) =? value in
        let* d := deref def in
        let opcode := i_opcode d.2 in
        if op_in_range OP_FPCMP OP_BINCMP_END opcode then
          let src1 := i_src1 d.2 in
          let src2 := i_src2 d.2 in
          let* _ := update_insn insn
                      (set_opcode (if inverse then opcode_negate opcode else opcode)) in
          let* _ := use_pseudo insn src1 (insn, Src1) in
          let* _ := use_pseudo insn src2 (insn, Src2) in
          let* _ := remove_usage fuel old (insn, Src1) in
          ret REPEAT_CSE
        else ret 0
    end.

Definition simplify_constant_rightside (fuel : nat) (insn : nat) : M Z :=
  let* ins := load_insn insn in
  let value := pvalue (i_src2 ins) in
  let case_neutral_zero :=
    if value =? 0 then replace_with_pseudo fuel insn (i_src1 ins) else ret 0 in
  match i_opcode ins with
  | OP_OR_BOOL =>
      if value =? 1 then replace_with_pseudo fuel insn (i_src2 ins)
      else case_neutral_zero
  | OP_SUB =>
      if negb (value =? 0) then
        let* _ := update_insn insn (set_opcode OP_ADD) in
        let* _ := write_slot (insn, Src2) (value_pseudo (s64 (- value))) in
        ret REPEAT_CSE
      else case_neutral_zero
  | OP_ADD | OP_OR | OP_XOR | OP_SHL | OP_LSR => case_neutral_zero
  | OP_ASR => simplify_asr fuel insn (i_src1 ins) value
  | OP_MODU | OP_MODS =>
      if value =? 1 then replace_with_pseudo fuel insn (value_pseudo 0)
      else ret 0
  | OP_DIVU | OP_DIVS | OP_MUL => simplify_mul_div fuel insn value
  | OP_AND_BOOL =>
      if value =? 1 then replace_with_pseudo fuel insn (i_src1 ins)
      else if value =? 0 then replace_with_pseudo fuel insn (i_src2 ins)
      else ret 0
  | OP_AND =>
      if value =? 0 then replace_with_pseudo fuel insn (i_src2 ins)
      else ret 0
  | OP_SET_NE | OP_SET_EQ => simplify_seteq_setne fuel insn value
  | _ => ret 0
  end.

Definition simplify_constant_leftside (fuel : nat) (insn : nat) : M Z :=
  let* ins := load_insn insn in
  let value := pvalue (i_src1 ins) in
  match i_opcode ins with
  | OP_ADD | OP_OR | OP_XOR =>
      if value =? 0 then replace_with_pseudo fuel insn (i_src2 ins) else ret 0
  | OP_SHL | OP_LSR | OP_ASR | OP_AND | OP_MUL =>
      if value =? 0 then replace_with_pseudo fuel insn (i_src1 ins) else ret 0
  | _ => ret 0
  end.

Definition simplify_constant_binop (fuel : nat) (insn : nat) : M Z :=
  let* ins := load_insn insn in
  match eval_insn (i_size ins) (i_opcode ins) (pvalue (i_src1 ins)) (pvalue (i_src2 ins)) with
  | HostUndefined => fail Undefined
  | NoFold => ret 0
  | Folded res =>
      let* _ := replace_with_pseudo fuel insn (value_pseudo res) in
      ret REPEAT_CSE
  end.

Definition simplify_binop_same_args (fuel : nat) (insn : nat) (arg : pseudo_t) : M Z :=
  let* ins := load_insn insn in
  let* st := get_state in
  match i_opcode ins with
  | OP_SET_NE | OP_SET_LT | OP_SET_GT | OP_SET_B | OP_SET_A =>
      let* _ := (if Wtautological_compare st
                 then warning (i_pos ins) "self-comparison always evaluates to false"
                 else ret tt) in
      replace_with_pseudo fuel insn (value_pseudo 0)
  | OP_SUB | OP_XOR =>
      replace_with_pseudo fuel insn (value_pseudo 0)
  | OP_SET_EQ | OP_SET_LE | OP_SET_GE | OP_SET_BE | OP_SET_AE =>
      let* _ := (if Wtautological_compare st
                 then warning (i_pos ins) "self-comparison always evaluates to true"
                 else ret tt) in
      replace_with_pseudo fuel insn (value_pseudo 1)
  | OP_AND | OP_OR =>
      replace_with_pseudo fuel insn arg
  | OP_AND_BOOL | OP_OR_BOOL =>
      let* _ := remove_usage fuel arg (insn, Src2) in
      let* _ := write_slot (insn, Src2) (value_pseudo 0) in
      let* _ := update_insn insn (set_opcode OP_SET_NE) in
      ret REPEAT_CSE
  | _ => ret 0
  end.

Definition simplify_binop (fuel : nat) (insn : nat) : M Z :=
  let* dead := dead_insn fuel insn (Some (insn, Src1)) (Some (insn, Src2)) None in
  if negb (dead =? 0) then ret REPEAT_CSE
  else
    let* ins := load_insn insn in
    if constant (i_src1 ins) then
      if constant (i_src2 ins) then simplify_constant_binop fuel insn
      else simplify_constant_leftside fuel insn
    else if constant (i_src2 ins) then simplify_constant_rightside fuel insn
    else if decide (i_src1 ins = i_src2 ins) then
      simplify_binop_same_args fuel insn (i_src1 ins)
    else ret 0.

(** ** Canonicalization *)

Definition switch_pseudo (fuel : nat) (insn1 : nat) (pp1 : addr) (insn2 : nat) (pp2 : addr) : M unit :=
  let* p1 := read_slot pp1 in
  let* p2 := read_slot pp2 in
  let* _ := use_pseudo insn1 p2 pp1 in
  let* _ := use_pseudo insn2 p1 pp2 in
  let* _ := remove_usage fuel p1 pp1 in
  remove_usage fuel p2 pp2.

Definition canonical_order (p1 p2 : pseudo_t) : bool :=
  if bool_decide (ptype p1 = PSEUDO_VAL) then bool_decide (ptype p2 = PSEUDO_VAL)
  else if bool_decide (ptype p1 = PSEUDO_SYM) then
    bool_decide (ptype p2 = PSEUDO_SYM) || bool_decide (ptype p2 = PSEUDO_VAL)
  else true.

Definition canonicalize_commutative (fuel : nat) (insn : nat) : M Z :=
  let* ins := load_insn insn in
  if canonical_order (i_src1 ins) (i_src2 ins) then ret 0
  else
    let* _ := switch_pseudo fuel insn (insn, Src1) insn (insn, Src2) in
    or_repeat_phase REPEAT_CSE.

Definition canonicalize_compare (fuel : nat) (insn : nat) : M Z :=
  let* ins := load_insn insn in
  if canonical_order (i_src1 ins) (i_src2 ins) then ret 0
  else
    let* _ := switch_pseudo fuel insn (insn, Src1) insn (insn, Src2) in
    let* ins' := load_insn insn in
    let* _ := store_insn insn (set_opcode (opcode_swap (i_opcode ins')) ins') in
    or_repeat_phase REPEAT_CSE.

Definition simplify_associative_binop (fuel : nat) (insn : nat) : M Z :=
  let* ins := load_insn insn in
  let pseudo := i_src1 ins in
  if negb (simple_pseudo (i_src2 ins)) then ret 0
  else if negb (bool_decide (ptype pseudo = PSEUDO_REG)) then ret 0
  else
    let* st := get_state in
    let def := pseudo_def st pseudo in
    if decide (def = InsnAt insn) then ret 0
    else
      let* d := deref def in
      if negb (bool_decide (i_opcode d.2 = i_opcode ins)) then ret 0
      else if negb (simple_pseudo (i_src2 d.2)) then ret 0
      else if negb (bool_decide (length (users_of st (i_target d.2)) = 1%nat)) then ret 0
      else
        let* _ := switch_pseudo fuel d.1 (d.1, Src1) insn (insn, Src2) in
        ret REPEAT_CSE.

(** ** Unary operations *)

Definition simplify_constant_unop (fuel : nat) (insn : nat) : M Z :=
  let* ins := load_insn insn in
  let val := pvalue (i_src1 ins) in
  let fold res :=
    if negb ((1 <=? i_size ins) && (i_size ins <=? 64)) then fail Undefined
    else
      let res := Z.land res (all_bits (i_size ins)) in
      let* _ := replace_with_pseudo fuel insn (value_pseudo res) in
      ret REPEAT_CSE in
  match i_opcode ins with
  | OP_NOT => fold (Z.lnot val)
  | OP_NEG => fold (s64 (- val))
  | _ => ret 0
  end.

Definition simplify_unop (fuel : nat) (insn : nat) : M Z :=
  let* dead := dead_insn fuel insn (Some (insn, Src1)) None None in
  if negb (dead =? 0) then ret REPEAT_CSE
  else
    let* ins := load_insn insn in
    if constant (i_src1 ins) then simplify_constant_unop fuel insn
    else
      let involution op :=
        let* st := get_state in
        match pseudo_def st (i_src1 ins) with
        | NullInsn => ret 0
        | def =>
            let* d := deref def in
            if bool_decide (i_opcode d.2 = op)
            then replace_with_pseudo fuel insn (i_src1 d.2)
            else ret 0
        end in
      match i_opcode ins with
      | OP_NOT => involution OP_NOT
      | OP_NEG => involution OP_NEG
      | _ => ret 0
      end.

(** ** Memory operations *)

Definition simplify_one_memop (fuel : nat) (insn : nat) (orig : pseudo_t) : M Z :=
  let* ins := load_insn insn in
  let addr := i_src1 ins in
  if bool_decide (ptype addr = PSEUDO_REG) then
    let* st := get_state in
    let* d := deref (pseudo_def st addr) in
    let offset (new off : pseudo_t) : M Z :=
      let* st := get_state in
      let stop := bool_decide (new = orig) &&
                  (bool_decide (new = VOID) ||
                   negb (Z.land (repeat_phase st) REPEAT_CFG_CLEANUP =? 0)) in
      if stop then ret 0
      else
        let* new :=
          (if bool_decide (new = orig) then
             let* _ := warning (i_pos ins) "crazy programmer" in ret VOID
           else ret new) in
        let* _ := update_insn insn (fun x => set_offset (u32 (i_offset x + pvalue off)) x) in
        let* _ := use_pseudo insn new (insn, Src1) in
        let* _ := remove_usage fuel addr (insn, Src1) in
        ret (Z.lor REPEAT_CSE REPEAT_SYMBOL_CLEANUP) in
    match i_opcode d.2 with
    | OP_SYMADDR =>
        let* _ := kill_use fuel (Some (insn, Src1)) in
        let* d' := load_insn d.1 in
        let* _ := use_pseudo insn (i_src1 d') (insn, Src1) in
        ret (Z.lor REPEAT_CSE REPEAT_SYMBOL_CLEANUP)
    | OP_ADD =>
        if constant (i_src2 d.2) then offset (i_src1 d.2) (i_src2 d.2)
        else if constant (i_src1 d.2) then offset (i_src2 d.2) (i_src1 d.2)
        else ret 0
    | _ => ret 0
    end
  else ret 0.

(** The [do ... while (one)] loop of [simplify_memop], with a bound on the
    number of rounds. *)
Fixpoint simplify_memop_loop (rounds : nat) (fuel : nat) (insn : nat) (orig : pseudo_t) (r : Z) : M Z :=
  match rounds with
  | O => fail OutOfFuel
  | S n =>
      let* one := simplify_one_memop fuel insn orig in
      let r := Z.lor r one in
      if negb (one =? 0) then simplify_memop_loop n fuel insn orig r
      else ret r
  end.

Definition simplify_memop (fuel : nat) (insn : nat) : M Z :=
  let* ins := load_insn insn in
  simplify_memop_loop fuel fuel insn (i_src1 ins) 0.

(** ** Casts *)

(** [1 << k] on [int]. *)
Definition int_shl1 (k : Z) : option Z :=
  if (0 <=? k) && (k <=? 31) then Some (s32 (Z.shiftl 1 k)) else None.

Definition get_cast_value (val old_size new_size : Z) (sign : bool) : option Z :=
  let extended :=
    if sign && (new_size >? old_size) then
      match int_shl1 (old_size - 1) with
      | Some mask =>
          Some (if Z.land val mask =? 0 then val
                else Z.lor val (Z.lnot (Z.lor mask (s64 (mask - 1)))))
      | None => None
      end
    else Some val in
  match extended, int_shl1 (new_size - 1) with
  | Some val, Some mask => Some (Z.land val (Z.lor mask (s64 (mask - 1))))
  | _, _ => None
  end.

Definition simplify_cast (fuel : nat) (insn : nat) : M Z :=
  let* dead := dead_insn fuel insn (Some (insn, Src1)) None None in
  if negb (dead =? 0) then ret REPEAT_CSE
  else
    let* ins := load_insn insn in
    match i_orig_type ins with
    | None => ret 0
    | Some orig_type =>
        if is_ptr_type orig_type || is_ptr_type (i_type ins) then ret 0
        else if is_float_type orig_type && negb (is_float_type (i_type ins)) then ret 0
        else
          let orig_size := bit_size orig_type in
          let size := i_size ins in
          let src := i_src1 ins in
          let same_size :=
            if size =? orig_size then
              let op := if mod_signed orig_type then OP_SCAST else OP_CAST in
              if bool_decide (i_opcode ins = op) then replace_with_pseudo fuel insn src
              else if bool_decide (i_opcode ins = OP_FPCAST) && is_float_type orig_type
              then replace_with_pseudo fuel insn src
              else ret 0
            else ret 0 in
          match src with
          | VAL value =>
              match get_cast_value value orig_size size (mod_signed orig_type) with
              | Some val => replace_with_pseudo fuel insn (value_pseudo val)
              | None => fail Undefined
              end
          | REG _ =>
              let* st := get_state in
              let* d := deref (pseudo_def st src) in
              if bool_decide (i_opcode d.2 = OP_AND) && (i_size d.2 >=? size) then
                match i_src2 d.2 with
                | VAL value =>
                    if negb ((0 <=? size - 1) && (size - 1 <? 64)) then fail Undefined
                    else if Z.shiftr (u64 value) (size - 1) =? 0
                    then replace_with_pseudo fuel insn src
                    else same_size
                | _ => same_size
                end
              else same_size
          | _ => same_size
          end
    end.

(** ** Select and range *)

(** The truth value of the union word [p->value] of any pseudo: a VAL holds
    its value, the other kinds hold a pointer ([def], [sym]), null in
    [void_pseudo] and in a pseudo without definition. *)
Definition ptruth (st : state) (p : pseudo_t) : bool :=
  match p with
  | VAL v => truthy v
  | VOID => false
  | SYM _ => true
  | REG _ | PHI _ | ARG _ => bool_decide (is_Some (defs st !! p))
  end.

Definition simplify_select (fuel : nat) (insn : nat) : M Z :=
  let* dead := dead_insn fuel insn (Some (insn, Src1)) (Some (insn, Src2)) (Some (insn, Src3)) in
  if negb (dead =? 0) then ret REPEAT_CSE
  else
    let* ins := load_insn insn in
    let cond := i_src1 ins in
    let src1 := i_src2 ins in
    let src2 := i_src3 ins in
    if constant cond || bool_decide (src1 = src2) then
      let* _ := kill_use fuel (Some (insn, Src1)) in
      let* st := get_state in
      let take := if ptruth st cond then src1 else src2 in
      let kill := if ptruth st cond then (insn, Src3) else (insn, Src2) in
      let* _ := kill_use fuel (Some kill) in
      let* _ := replace_with_pseudo fuel insn take in
      ret REPEAT_CSE
    else
      let zero_one :=
        match src1, src2 with
        | VAL val1, VAL val2 => Z.lor val1 val2 =? 1
        | _, _ => false
        end in
      if zero_one then
        let opcode := if truthy (pvalue src1) then OP_SET_NE else OP_SET_EQ in
        let zero := if truthy (pvalue src1) then src2 else src1 in
        let* _ := update_insn insn (set_opcode opcode) in
        let* _ := write_slot (insn, Src2) zero in
        ret REPEAT_CSE
      else if bool_decide (cond = src2) && is_zero src1 then
        let* _ := kill_use fuel (Some (insn, Src1)) in
        let* _ := kill_use fuel (Some (insn, Src3)) in
        let* _ := replace_with_pseudo fuel insn (value_pseudo 0) in
        ret REPEAT_CSE
      else ret 0.

Definition is_in_range (src : pseudo_t) (low high : Z) : bool :=
  match src with
  | VAL value => (value >=? low) && (value <=? high)
  | _ => false
  end.

Definition simplify_range (fuel : nat) (insn : nat) : M Z :=
  let* ins := load_insn insn in
  match i_src2 ins, i_src3 ins with
  | VAL low, VAL high =>
      if is_in_range (i_src1 ins) low high then
        let* _ := kill_instruction fuel (InsnAt insn) in
        ret REPEAT_CSE
      else ret 0
  | _, _ => ret 0
  end.

(** ** Control flow *)

Definition load_bb (b : option nat) : M basic_block :=
  fun st => match b with
            | Some n => match blocks st !! n with
                        | Some blk => Ok blk st
                        | None => Err Undefined
                        end
            | None => Err Undefined
            end.

Definition update_bb (b : nat) (f : basic_block -> basic_block) : M unit :=
  let* blk := load_bb (Some b) in
  fun st => Ok tt (with_blocks (<[b := f blk]> (blocks st)) st).

(** Modelled from the spec: [remove_bb_from_list] rests on
    [delete_ptr_list_entry] (defined outside the excerpt), the list
    counterpart of [delete_pseudo_user_list_entry]: the first [count]
    occurrences of the block are removed and a missing one is an invariant
    violation. *)
Fixpoint delete_bb_scan (l : list nat) (entry : nat) (count : Z) : list nat * Z * bool :=
  match l with
  | [] => ([], count, false)
  | b :: l' =>
      if decide (b = entry) then
        if count - 1 =? 0 then (l', count - 1, true)
        else delete_bb_scan l' entry (count - 1)
      else
        let '(r, c, out) := delete_bb_scan l' entry count in (b :: r, c, out)
  end.

Definition remove_bb_from_list (l : list nat) (entry : nat) (count : Z) : M (list nat) :=
  let '(l', c, out) := delete_bb_scan l entry count in
  if out || (c <=? 0) then ret l' else fail AssertFailed.

(** Modelled from the spec: [insert_branch] (defined outside the excerpt)
    converts the block's terminator into an unconditional branch to the
    taken target and detaches every other edge: each child of the block
    other than the target is removed from the block's children, and the
    block from that child's parents. *)
Fixpoint detach_edges (bb : nat) (children : list nat) (target : option nat)
  : M (list nat) :=
  match children with
  | [] => ret []
  | child :: rest =>
      if decide (Some child = target) then
        let* kept := detach_edges bb rest target in ret (child :: kept)
      else
        let* c := load_bb (Some child) in
        let* ps := remove_bb_from_list (bb_parents c) bb 1 in
        let* _ := update_bb child
                    (fun x => {| bb_parents := ps; bb_children := bb_children x;
                                 bb_insns := bb_insns x |}) in
        detach_edges bb rest target
  end.

Definition insert_branch (bb : option nat) (jmp : nat) (target : option nat) : M unit :=
  let* blk := load_bb bb in
  let* _ := update_insn jmp (fun x => set_branches target None (set_opcode OP_BR x)) in
  let* kept := detach_edges (default 0%nat bb) (bb_children blk) target in
  update_bb (default 0%nat bb)
    (fun x => {| bb_parents := bb_parents x; bb_children := kept; bb_insns := bb_insns x |}).

Definition simplify_cond_branch (fuel : nat) (br : nat) (cond : pseudo_t) (def : nat) (pp : addr) : M Z :=
  let* p := read_slot pp in
  let* _ := use_pseudo br p (br, Src1) in
  let* _ := remove_usage fuel cond (br, Src1) in
  let* d := load_insn def in
  let* _ := (if bool_decide (i_opcode d = OP_SET_EQ) then
               update_insn br (fun x => set_branches (i_bb_false x) (i_bb_true x) x)
             else ret tt) in
  ret REPEAT_CSE.

Definition simplify_branch (fuel : nat) (insn : nat) : M Z :=
  let* ins := load_insn insn in
  let cond := i_src1 ins in
  if constant cond then
    let* _ := insert_branch (i_bb ins) insn
                (if truthy (pvalue cond) then i_bb_true ins else i_bb_false ins) in
    ret REPEAT_CSE
  else if decide (i_bb_true ins = i_bb_false ins) then
    let* tb := load_bb (i_bb_false ins) in
    let* sb := load_bb (i_bb ins) in
    let target := default 0%nat (i_bb_false ins) in
    let bb := default 0%nat (i_bb ins) in
    let* ps := remove_bb_from_list (bb_parents tb) bb 1 in
    let* _ := update_bb target
                (fun x => {| bb_parents := ps; bb_children := bb_children x;
                             bb_insns := bb_insns x |}) in
    let* sb' := load_bb (i_bb ins) in
    let* cs := remove_bb_from_list (bb_children sb') target 1 in
    let* _ := update_bb bb
                (fun x => {| bb_parents := bb_parents x; bb_children := cs;
                             bb_insns := bb_insns x |}) in
    let* _ := update_insn insn (fun x => set_branches (i_bb_true x) None x) in
    let* _ := kill_use fuel (Some (insn, Src1)) in
    let* _ := update_insn insn (set_opcode OP_BR) in
    ret REPEAT_CSE
  else if bool_decide (ptype cond = PSEUDO_REG) then
    let* st := get_state in
    let* d := deref (pseudo_def st cond) in
    let def := d.2 in
    let cast_case :=
      if bool_decide (i_opcode def = OP_CAST) || bool_decide (i_opcode def = OP_SCAST) then
        let orig_size := match i_orig_type def with Some t => bit_size t | None => 0 end in
        if i_size def >? orig_size then
          let* _ := use_pseudo insn (i_src1 def) (insn, Src1) in
          let* _ := remove_usage fuel cond (insn, Src1) in
          ret REPEAT_CSE
        else ret 0
      else ret 0 in
    let sel_case :=
      if bool_decide (i_opcode def = OP_SEL) && constant (i_src2 def) && constant (i_src3 def) then
        let val1 := pvalue (i_src2 def) in
        let val2 := pvalue (i_src3 def) in
        if negb (truthy val1) && negb (truthy val2) then
          let* _ := insert_branch (i_bb ins) insn (i_bb_false ins) in
          ret REPEAT_CSE
        else if truthy val1 && truthy val2 then
          let* _ := insert_branch (i_bb ins) insn (i_bb_true ins) in
          ret REPEAT_CSE
        else
          let* _ := (if truthy val2 then
                       update_insn insn (fun x => set_branches (i_bb_false x) (i_bb_true x) x)
                     else ret tt) in
          let* _ := use_pseudo insn (i_src1 def) (insn, Src1) in
          let* _ := remove_usage fuel cond (insn, Src1) in
          ret REPEAT_CSE
      else cast_case in
    if bool_decide (i_opcode def = OP_SET_NE) || bool_decide (i_opcode def = OP_SET_EQ) then
      if constant (i_src1 def) && negb (truthy (pvalue (i_src1 def))) then
        simplify_cond_branch fuel insn cond d.1 (d.1, Src2)
      else if constant (i_src2 def) && negb (truthy (pvalue (i_src2 def))) then
        simplify_cond_branch fuel insn cond d.1 (d.1, Src1)
      else sel_case
    else sel_case
  else ret 0.

(** The search of [simplify_switch] for the first case that is the default
    ([begin > end]) or holds [val]. *)
Fixpoint find_multijmp (l : list multijmp) (val : Z) : option multijmp :=
  match l with
  | [] => None
  | jmp :: l' =>
      if mj_begin jmp >? mj_end jmp then Some jmp
      else if (val >=? mj_begin jmp) && (val <=? mj_end jmp) then Some jmp
      else find_multijmp l' val
  end.

Definition simplify_switch (insn : nat) : M Z :=
  let* ins := load_insn insn in
  let cond := i_src1 ins in
  if negb (constant cond) then ret 0
  else
    let val := pvalue cond in
    match find_multijmp (i_multijmp_list ins) val with
    | Some jmp =>
        let* _ := insert_branch (i_bb ins) insn (Some (mj_target jmp)) in
        ret REPEAT_CSE
    | None =>
        let* _ := warning (i_pos ins) "Impossible case statement" in
        ret 0
    end.

(** ** Phi nodes *)

(** [phi_parent]. *)
Definition phi_parent (source : nat) (pseudo : pseudo_t) : M nat :=
  let* st := get_state in
  let* defined_here :=
    (if bool_decide (ptype pseudo = PSEUDO_REG) then
       let* d := deref (pseudo_def st pseudo) in
       ret (bool_decide (i_bb d.2 = Some source))
     else ret false) in
  if defined_here then ret source
  else
    let* blk := load_bb (Some source) in
    match bb_children blk, bb_parents blk with
    | [_], [parent] => ret parent
    | _, _ => ret source
    end.

(** The loop of [get_phisources]: the sources found so far are [acc]. *)
Fixpoint get_phisources_loop (l : list pseudo_t) (nbr : nat) (acc : list (nat * instruction))
  : M (Z * list (nat * instruction)) :=
  match l with
  | [] => ret (Z.of_nat (length acc) - Z.of_nat nbr, acc)
  | phi :: l' =>
      if decide (phi = VOID) then get_phisources_loop l' nbr acc
      else if bool_decide (nbr <= length acc)%nat then ret (1, acc)
      else
        let* st := get_state in
        let* d := deref (pseudo_def st phi) in
        if bool_decide (i_opcode d.2 = OP_PHISOURCE)
        then get_phisources_loop l' nbr (acc ++ [d])
        else fail AssertFailed
  end.

Definition get_phisources (nbr : nat) (insn : nat) : M (Z * list (nat * instruction)) :=
  let* ins := load_insn insn in
  if bool_decide (i_opcode ins = OP_PHI)
  then get_phisources_loop (i_phi_list ins) nbr []
  else fail AssertFailed.

(** Modelled from the spec: [insert_select] (defined outside the excerpt)
    inserts a [SEL cond, if_true, if_false] in the block just before its
    branch, binding the three operands, and makes the select the definition
    of the phi-node's target, whose users are unchanged. *)
Definition fresh_insn (st : state) : nat :=
  S (map_fold (fun k _ acc => Nat.max k acc) 0%nat (insns st)).

Definition insert_before_last (l : list nat) (x : nat) : list nat :=
  match reverse l with
  | [] => [x]
  | last :: front => reverse front ++ [x; last]
  end.

Definition insert_select (bb : nat) (br : nat) (phi_node : nat) (if_true if_false : pseudo_t) : M unit :=
  let* b := load_insn br in
  let* phi := load_insn phi_node in
  let* st := get_state in
  let select := fresh_insn st in
  let* _ := store_insn select
              {| i_opcode := OP_SEL; i_size := i_size phi; i_bb := Some bb;
                 i_pos := i_pos phi; i_type := i_type phi; i_target := i_target phi;
                 i_src1 := VOID; i_src2 := VOID; i_src3 := VOID;
                 i_bb_true := None; i_bb_false := None; i_multijmp_list := [];
                 i_phi_list := []; i_orig_type := None; i_offset := 0;
                 i_arguments := [] |} in
  let* _ := use_pseudo select (i_src1 b) (select, Src1) in
  let* _ := (fun st => Ok tt (with_defs (<[i_target phi := select]> (defs st)) st)) in
  let* _ := use_pseudo select if_true (select, Src2) in
  let* _ := use_pseudo select if_false (select, Src3) in
  update_bb bb (fun x => {| bb_parents := bb_parents x; bb_children := bb_children x;
                            bb_insns := insert_before_last (bb_insns x) select |}).

Definition if_convert_phi (fuel : nat) (insn : nat) : M Z :=
  let* ins := load_insn insn in
  let* got := get_phisources 2 insn in
  if negb (got.1 =? 0) then ret 0
  else
    let* blk := load_bb (i_bb ins) in
    match got.2, bb_parents blk with
    | [a0; a1], [parent0; parent1] =>
        let p1 := i_src1 a0.2 in
        let bb1 := i_bb a0.2 in
        let p2 := i_src1 a1.2 in
        let bb2 := i_bb a1.2 in
        if (negb (bool_decide (bb1 = Some parent0)) || negb (bool_decide (bb2 = Some parent1))) &&
           (negb (bool_decide (bb1 = Some parent1)) || negb (bool_decide (bb2 = Some parent0)))
        then ret 0
        else
          let* source := phi_parent (default 0%nat bb1) p1 in
          let* source2 := phi_parent (default 0%nat bb2) p2 in
          if negb (bool_decide (source = source2)) then ret 0
          else
            let* sblk := load_bb (Some source) in
            match last (bb_insns sblk) with
            | None => ret 0
            | Some br =>
                let* b := load_insn br in
                if negb (bool_decide (i_opcode b = OP_CBR)) then ret 0
                else if bool_decide (i_bb_false b = None) then fail AssertFailed
                else
                  let swap := bool_decide (i_bb_true b = bb2) || bool_decide (i_bb_false b = bb1) in
                  let* _ := insert_select source br insn
                              (if swap then p2 else p1) (if swap then p1 else p2) in
                  let* _ := kill_instruction fuel (InsnAt insn) in
                  ret REPEAT_CSE
            end
    | _, _ => ret 0
    end.

(** The loop of [clean_up_phi]: [last] is the first live source seen and
    [same] tells whether every later one carries the same pseudo. *)
Fixpoint clean_up_phi_loop (l : list pseudo_t) (last : option instruction) (same : bool)
  : M (option instruction * bool) :=
  match l with
  | [] => ret (last, same)
  | phi :: l' =>
      if decide (phi = VOID) then clean_up_phi_loop l' last same
      else
        let* st := get_state in
        let* d := deref (pseudo_def st phi) in
        let def := d.2 in
        if bool_decide (i_src1 def = VOID) || bool_decide (i_bb def = None)
        then clean_up_phi_loop l' last same
        else
          match last with
          | Some lst =>
              clean_up_phi_loop l' last
                (if bool_decide (i_src1 lst = i_src1 def) then same else false)
          | None => clean_up_phi_loop l' (Some def) same
          end
  end.

Definition clean_up_phi (fuel : nat) (insn : nat) : M Z :=
  let* ins := load_insn insn in
  let* r := clean_up_phi_loop (i_phi_list ins) None true in
  if r.2 then
    let pseudo := match r.1 with Some lst => i_src1 lst | None => VOID end in
    let* _ := convert_instruction_target insn pseudo in
    let* _ := kill_instruction fuel (InsnAt insn) in
    ret REPEAT_CSE
  else if_convert_phi fuel insn.

(** ** The dispatcher *)

Definition simplify_instruction (fuel : nat) (insn : nat) : M Z :=
  let* ins := load_insn insn in
  match i_bb ins with
  | None => ret 0
  | Some _ =>
      match i_opcode ins with
      | OP_ADD | OP_MUL | OP_AND | OP_OR | OP_XOR | OP_AND_BOOL | OP_OR_BOOL =>
          let* _ := canonicalize_commutative fuel insn in
          let* r := simplify_binop fuel insn in
          if negb (r =? 0) then ret REPEAT_CSE
          else simplify_associative_binop fuel insn
      | OP_SET_EQ | OP_SET_NE =>
          let* _ := canonicalize_commutative fuel insn in
          simplify_binop fuel insn
      | OP_SET_LE | OP_SET_GE | OP_SET_LT | OP_SET_GT
      | OP_SET_B | OP_SET_A | OP_SET_BE | OP_SET_AE =>
          let* _ := canonicalize_compare fuel insn in
          simplify_binop fuel insn
      | OP_SUB | OP_DIVU | OP_DIVS | OP_MODU | OP_MODS
      | OP_SHL | OP_LSR | OP_ASR =>
          simplify_binop fuel insn
      | OP_NOT | OP_NEG => simplify_unop fuel insn
      | OP_LOAD =>
          let* st := get_state in
          if negb (has_users st (i_target ins)) then kill_instruction fuel (InsnAt insn)
          else simplify_memop fuel insn
      | OP_STORE => simplify_memop fuel insn
      | OP_SYMADDR =>
          let* dead := dead_insn fuel insn None None None in
          if negb (dead =? 0) then ret (Z.lor REPEAT_CSE REPEAT_SYMBOL_CLEANUP)
          else replace_with_pseudo fuel insn (i_src1 ins)
      | OP_CAST | OP_SCAST | OP_FPCAST | OP_PTRCAST => simplify_cast fuel insn
      | OP_PHI =>
          let* dead := dead_insn fuel insn None None None in
          if negb (dead =? 0) then
            let* _ := kill_use_list_phi_list fuel insn in
            ret REPEAT_CSE
          else clean_up_phi fuel insn
      | OP_PHISOURCE =>
          let* dead := dead_insn fuel insn (Some (insn, Src1)) None None in
          if negb (dead =? 0) then ret REPEAT_CSE else ret 0
      | OP_SEL => simplify_select fuel insn
      | OP_CBR => simplify_branch fuel insn
      | OP_SWITCH => simplify_switch insn
      | OP_RANGE => simplify_range fuel insn
      | _ => ret 0
      end
  end.

(** ** Sample IR used by the examples and witnesses *)

Module Sample.

Definition int_type : symbol :=
  {| bit_size := 32; mod_signed := true; mod_volatile := false; mod_pure := false;
     is_ptr_type := false; is_float_type := false |}.

Definition volatile_int : symbol :=
  {| bit_size := 32; mod_signed := true; mod_volatile := true; mod_pure := false;
     is_ptr_type := false; is_float_type := false |}.

Definition uchar_type : symbol :=
  {| bit_size := 8; mod_signed := false; mod_volatile := false; mod_pure := false;
     is_ptr_type := false; is_float_type := false |}.

(** An instruction of block 0 with the given opcode, width, target and
    operands. *)
Definition mk (op : opcode) (size : Z) (target s1 s2 s3 : pseudo_t) : instruction :=
  {| i_opcode := op; i_size := size; i_bb := Some 0%nat; i_pos := 0%nat;
     i_type := int_type; i_target := target; i_src1 := s1; i_src2 := s2; i_src3 := s3;
     i_bb_true := None; i_bb_false := None; i_multijmp_list := [];
     i_phi_list := []; i_orig_type := None; i_offset := 0; i_arguments := [] |}.

Definition use (i : nat) (s : slot) : pseudo_user := {| pu_insn := i; userp := (i, s) |}.

Definition mk_state (il : list (nat * instruction))
  (us : list (pseudo_t * list pseudo_user)) (ds : list (pseudo_t * nat)) : state :=
  {| insns := list_to_map il; users := list_to_map us; defs := list_to_map ds;
     blocks := {[ 0%nat := {| bb_parents := []; bb_children := []; bb_insns := il.*1 |} ]};
     symtab := fun _ => int_type; repeat_phase := 0; warnings := [];
     Wtautological_compare := false |}.

(** [%r1 = add.32 %arg0, $0; ret %r1]. *)
Definition add_zero : state :=
  mk_state
    [ (1%nat, mk OP_ADD 32 (REG 1) (ARG 0) (VAL 0) VOID);
      (2%nat, mk OP_RET 32 VOID (REG 1) VOID VOID) ]
    [ (ARG 0, [use 1 Src1]); (REG 1, [use 2 Src1]) ]
    [ (REG 1, 1%nat) ].

(** [%r1 = setlt.32 $5, %arg0; ret %r1]. *)
Definition lt_const : state :=
  mk_state
    [ (1%nat, mk OP_SET_LT 32 (REG 1) (VAL 5) (ARG 0) VOID);
      (2%nat, mk OP_RET 32 VOID (REG 1) VOID VOID) ]
    [ (ARG 0, [use 1 Src2]); (REG 1, [use 2 Src1]) ]
    [ (REG 1, 1%nat) ].

End Sample.

(** ** Predicates on states used by the properties *)

(** [*a] in a state, when the address is valid. *)
Definition slot_of (st : state) (a : addr) : option pseudo_t :=
  match insns st !! a.1 with
  | Some ins => slot_get ins a.2
  | None => None
  end.

(** The number of entries of a use list whose [userp] is [a]. *)
Definition count_slot (a : addr) (l : list pseudo_user) : nat :=
  length (filter (fun pu => userp pu = a) l).

(** An instruction is live when its [bb] is not null. *)
Definition is_live (ins : instruction) : bool :=
  match i_bb ins with Some _ => true | None => false end.

Definition live (st : state) (i : nat) : Prop :=
  exists ins, insns st !! i = Some ins /\ is_live ins = true.

(** The slots of an instruction that hold an operand: every pseudo field but
    [target], which is an operand (the stored value) only in a store. *)
Definition tracked (ins : instruction) (s : slot) : bool :=
  match s with
  | Target => bool_decide (i_opcode ins = OP_STORE)
  | _ => true
  end.

(** What a kill may do to one instruction: clear [bb] and overwrite slots
    with VOID; nothing else changes. *)
Record kins (ins ins' : instruction) : Prop := {
  kins_opcode : i_opcode ins' = i_opcode ins;
  kins_size : i_size ins' = i_size ins;
  kins_pos : i_pos ins' = i_pos ins;
  kins_type : i_type ins' = i_type ins;
  kins_true : i_bb_true ins' = i_bb_true ins;
  kins_false : i_bb_false ins' = i_bb_false ins;
  kins_multijmp : i_multijmp_list ins' = i_multijmp_list ins;
  kins_orig_type : i_orig_type ins' = i_orig_type ins;
  kins_offset : i_offset ins' = i_offset ins;
  kins_bb : i_bb ins' = i_bb ins \/ i_bb ins' = None;
  kins_slot : forall s,
    slot_get ins' s = slot_get ins s \/
    (is_Some (slot_get ins s) /\ slot_get ins' s = Some VOID);
}.

(** What a kill may do to a state: instructions change as [kins] allows,
    every use list loses exactly the entries of the slots that held its
    pseudo and were overwritten, and nothing else changes but the bits added
    to [repeat_phase]. *)
Record kstep (st st' : state) : Prop := {
  ks_insns : forall i ins, insns st !! i = Some ins ->
             exists ins', insns st' !! i = Some ins' /\ kins ins ins';
  ks_dom : forall i, insns st !! i = None -> insns st' !! i = None;
  ks_count : forall p a, has_use_list p = true ->
             (count_slot a (users_of st' p) +
              (if bool_decide (slot_of st a = Some p /\ slot_of st' a <> Some p)
               then 1 else 0))%nat
             = count_slot a (users_of st p);
  ks_sublist : forall p, sublist (users_of st' p) (users_of st p);
  ks_defs : defs st' = defs st;
  ks_blocks : blocks st' = blocks st;
  ks_symtab : symtab st' = symtab st;
  ks_warnings : warnings st' = warnings st;
  ks_flag : Wtautological_compare st' = Wtautological_compare st;
  ks_phase : Z.land (repeat_phase st) (repeat_phase st') = repeat_phase st;
}.

(** ** The kill contract in the words of the specification *)

(** The refusals of a kill: an entry always; without force also a load of
    volatile type, a store, and a call whose callee is not a pure symbol. *)
Definition refused (st : state) (force : bool) (ins : instruction) : bool :=
  match i_opcode ins with
  | OP_ENTRY => true
  | OP_LOAD => negb force && mod_volatile (i_type ins)
  | OP_STORE => negb force
  | OP_CALL =>
      negb force &&
      negb (match i_src1 ins with
            | SYM s => mod_pure (symtab st s)
            | _ => false
            end)
  | _ => false
  end.

(** The operand slots a kill unbinds, opcode by opcode, as the specification
    lists them: the [src*] slots of binary operations, compares, the unary
    operations NOT and NEG, casts, setval, slice, select and range; every
    entry of the phi-list; [phi_src]; [cond] of a conditional branch or
    computed goto; every argument of a call and its function pointer when
    the callee is a computed pseudo; the address of a load; the address and
    the stored value of a store; nothing for any other opcode. *)
Definition kill_slots (ins : instruction) : list slot :=
  match i_opcode ins with
  | OP_SEL | OP_RANGE => [Src1; Src2; Src3]
  | OP_NOT | OP_NEG | OP_CAST | OP_SCAST | OP_FPCAST | OP_PTRCAST
  | OP_SETVAL | OP_SLICE => [Src1]
  | OP_PHI => PhiEntry <$> seq 0 (length (i_phi_list ins))
  | OP_PHISOURCE => [Src1]
  | OP_CBR | OP_COMPUTEDGOTO => [Src1]
  | OP_CALL =>
      (ArgEntry <$> seq 0 (length (i_arguments ins))) ++
      (if bool_decide (ptype (i_src1 ins) = PSEUDO_REG) then [Src1] else [])
  | OP_LOAD => [Src1]
  | OP_STORE => [Src1; Target]
  | op => if op_in_range OP_BINARY OP_BINCMP_END op then [Src1; Src2] else []
  end.

(** ** States on which a kill runs to completion *)

(** The number of use-list entries of a state. *)
Definition total_uses (st : state) : nat :=
  sum_list_with (fun x => length x.2) (map_to_list (users st)).

(** A state is ready for a kill when every slot a kill may unbind that holds
    a pseudo with a use list has its entry there, every definition is an
    instruction of the arena, and no such slot holds a SYM pseudo (whose
    [def] word is no instruction). *)
Record kill_ready (st : state) : Prop := {
  kr_entry : forall i ins s p,
    insns st !! i = Some ins -> s ∈ kill_slots ins ->
    slot_get ins s = Some p -> has_use_list p = true ->
    (0 < count_slot (i, s) (users_of st p))%nat;
  kr_defs : forall p j, defs st !! p = Some j -> is_Some (insns st !! j);
  kr_nosym : forall i ins s x,
    insns st !! i = Some ins -> s ∈ kill_slots ins ->
    slot_get ins s <> Some (SYM x);
}.

(** An instruction pointer that can be followed: null, or a handle of the
    arena. *)
Definition ptr_ok (st : state) (ptr : insn_ptr) : Prop :=
  match ptr with
  | NullInsn => True
  | InsnAt i => is_Some (insns st !! i)
  | WildInsn => False
  end.

(** A run that ends well: the computation returns, and its result and final
    state satisfy [Q]. *)
Definition runs_to {A : Type} (m : M A) (st : state) (Q : A -> state -> Prop) : Prop :=
  exists a st', m st = Ok a st' /\ Q a st'.

(** What one step of a chain of kills establishes for the next. *)
Definition kpost {A : Type} (st : state) : A -> state -> Prop :=
  fun _ st' => kstep st st' /\ (total_uses st' <= total_uses st)%nat.

(** ** Checking readiness by evaluation *)

Definition is_sym (p : pseudo_t) : bool :=
  match p with SYM _ => true | _ => false end.

(** The conditions of [kill_ready] on one slot. *)
Definition slot_ready (st : state) (i : nat) (ins : instruction) (s : slot) : bool :=
  match slot_get ins s with
  | Some p =>
      (negb (has_use_list p) || bool_decide (0 < count_slot (i, s) (users_of st p))%nat)
      && negb (is_sym p)
  | None => true
  end.

Definition kill_ready_check (st : state) : bool :=
  bool_decide (map_Forall (fun i ins => forallb (slot_ready st i ins) (kill_slots ins) = true)
                 (insns st))
  && bool_decide (map_Forall (fun (_ : pseudo_t) j => is_Some (insns st !! j)) (defs st)).

(** ** Further sample IR *)

Module Scenario.

Definition set_type (ty : symbol) (ins : instruction) : instruction :=
  {| i_opcode := i_opcode ins; i_size := i_size ins; i_bb := i_bb ins; i_pos := i_pos ins;
     i_type := ty; i_target := i_target ins; i_src1 := i_src1 ins; i_src2 := i_src2 ins;
     i_src3 := i_src3 ins; i_bb_true := i_bb_true ins; i_bb_false := i_bb_false ins;
     i_multijmp_list := i_multijmp_list ins; i_phi_list := i_phi_list ins;
     i_orig_type := i_orig_type ins; i_offset := i_offset ins;
     i_arguments := i_arguments ins |}.

(** S5: [%r1 = load.32 [%arg0]] of volatile type, [%r1] unused. *)
Definition volatile_load_insn : instruction :=
  set_type Sample.volatile_int (Sample.mk OP_LOAD 32 (REG 1) (ARG 0) VOID VOID).

Definition volatile_load : state :=
  Sample.mk_state [ (1%nat, volatile_load_insn) ]
    [ (ARG 0, [Sample.use 1 Src1]) ] [ (REG 1, 1%nat) ].

(** [%r1 = add.32 %arg0, %arg1; %r2 = neg.32 %r1], [%r2] unused. *)
Definition neg_of_add : state :=
  Sample.mk_state
    [ (1%nat, Sample.mk OP_ADD 32 (REG 1) (ARG 0) (ARG 1) VOID);
      (2%nat, Sample.mk OP_NEG 32 (REG 2) (REG 1) VOID VOID) ]
    [ (ARG 0, [Sample.use 1 Src1]); (ARG 1, [Sample.use 1 Src2]);
      (REG 1, [Sample.use 2 Src1]) ]
    [ (REG 1, 1%nat); (REG 2, 2%nat) ].

End Scenario.

(** ** What a cascade leaves of the definitions it reaches *)

(** The instruction behind a pointer has been dealt with by a kill without
    force: it is dead, or of a kind such a kill refuses. *)
Definition target_reaped (st : state) (d : insn_ptr) : Prop :=
  match d with
  | InsnAt j =>
      exists ins, insns st !! j = Some ins /\
                  (i_bb ins = None \/ refused st false ins = true)
  | _ => True
  end.

Definition reaped (st : state) (p : pseudo_t) : Prop :=
  target_reaped st (pseudo_def st p).

(** No use list was emptied from [st] to [st'] without a kill of the
    pseudo's definition. *)
Definition orphan_free (st st' : state) : Prop :=
  forall p, has_use_list p = true ->
            users_of st' p = [] -> users_of st p <> [] -> reaped st' p.

(** A frame step that reaps what it orphans. *)
Definition kreap (st st' : state) : Prop := kstep st st' /\ orphan_free st st'.

(** ** The kill of a φ-node in the words of the specification *)

(** "Non-cascading": whatever the kill of the φ-node [i] does, the live
    instruction defining a non-VOID entry of its list stays live. *)
Definition phi_kill_keeps_sources (fuel : nat) (st : state) (i : nat) : Prop :=
  forall ins r st' k p j src,
    insns st !! i = Some ins -> i_opcode ins = OP_PHI -> is_live ins = true ->
    kill_insn fuel (InsnAt i) false st = Ok r st' ->
    i_phi_list ins !! k = Some p -> p <> VOID ->
    pseudo_def st p = InsnAt j -> insns st !! j = Some src -> is_live src = true ->
    exists src', insns st' !! j = Some src' /\ is_live src' = true.

Module PhiScenario.

Definition mk_phi (target : pseudo_t) (l : list pseudo_t) : instruction :=
  {| i_opcode := OP_PHI; i_size := 32; i_bb := Some 0%nat; i_pos := 0%nat;
     i_type := Sample.int_type; i_target := target; i_src1 := VOID; i_src2 := VOID;
     i_src3 := VOID; i_bb_true := None; i_bb_false := None; i_multijmp_list := [];
     i_phi_list := l; i_orig_type := None; i_offset := 0; i_arguments := [] |}.

(** [phisrc.32 %phi1 <- %arg0; %r2 = phi.32 %phi1], [%r2] unused. *)
Definition phi_single : state :=
  Sample.mk_state
    [ (1%nat, Sample.mk OP_PHISOURCE 32 (PHI 1) (ARG 0) VOID VOID);
      (2%nat, mk_phi (REG 2) [PHI 1]) ]
    [ (ARG 0, [Sample.use 1 Src1]); (PHI 1, [Sample.use 2 (PhiEntry 0)]) ]
    [ (PHI 1, 1%nat); (REG 2, 2%nat) ].

End PhiScenario.

(** ** The use-list invariant *)

(** An address is a live operand when it is a tracked slot of a live
    instruction. *)
Definition live_operand (st : state) (a : addr) : Prop :=
  exists ins, insns st !! a.1 = Some ins /\ is_live ins = true /\ tracked ins a.2 = true.

(** The use lists agree with the operand slots up to [sur]: at every live
    operand, a pseudo with a use list has one entry when the slot holds it
    and none otherwise, plus the surplus [sur] that a rebinding in progress
    has not yet taken off (or minus the entry it has not yet added). *)
Definition counts_ok (st : state) (sur : pseudo_t -> addr -> Z) : Prop :=
  forall p a, has_use_list p = true -> live_operand st a ->
    Z.of_nat (count_slot a (users_of st p)) =
    b2z (bool_decide (slot_of st a = Some p)) + sur p a.

(** Every entry of a use list points at a slot of an instruction of the
    arena. *)
Definition entries_valid (st : state) : Prop :=
  forall p pu, pu ∈ users_of st p -> is_Some (slot_of st (userp pu)).

(** VOID and VAL pseudos have no users. *)
Definition no_lists (st : state) : Prop :=
  forall p, has_use_list p = false -> users_of st p = [].

Definition lists_ok (st : state) (sur : pseudo_t -> addr -> Z) : Prop :=
  counts_ok st sur /\ entries_valid st /\ no_lists st.

(** The invariant of the data model: for every pseudo [p] with a use list
    and every live instruction, the operand slots of the instruction that
    hold [p] are exactly the entries of [p]'s use list that point into the
    instruction, one entry per slot. *)
Definition use_lists_ok (st : state) : Prop := lists_ok st (fun _ _ => 0).

(** Instructions keep their block and opcode, and the arena its handles. *)
Definition same_shape (st st' : state) : Prop :=
  forall i, match insns st !! i, insns st' !! i with
            | Some x, Some y => i_bb y = i_bb x /\ i_opcode y = i_opcode x
            | None, None => True
            | _, _ => False
            end.

(** ** Checking the use-list invariant by evaluation *)

Definition live_operand_b (st : state) (a : addr) : bool :=
  match insns st !! a.1 with
  | Some ins => is_live ins && tracked ins a.2
  | None => false
  end.

(** The slots an instruction has. *)
Definition slots_of (ins : instruction) : list slot :=
  [Src1; Src2; Src3; Target] ++
  (PhiEntry <$> seq 0 (length (i_phi_list ins))) ++
  (ArgEntry <$> seq 0 (length (i_arguments ins))).

(** Every entry of the list [l] of [p] points at a slot, and at a live
    operand only if the slot holds [p] and is listed once. *)
Definition entry_ok (st : state) (p : pseudo_t) (l : list pseudo_user) (pu : pseudo_user) : bool :=
  match slot_of st (userp pu) with
  | Some q =>
      negb (live_operand_b st (userp pu))
      || (bool_decide (q = p) && bool_decide (count_slot (userp pu) l = 1%nat))
  | None => false
  end.

(** Every live operand of [ins] that holds a pseudo with a use list is
    listed once. *)
Definition operand_ok (st : state) (i : nat) (ins : instruction) (s : slot) : bool :=
  match slot_get ins s with
  | Some p =>
      negb (is_live ins && tracked ins s && has_use_list p)
      || bool_decide (count_slot (i, s) (users_of st p) = 1%nat)
  | None => true
  end.

Definition use_lists_check (st : state) : bool :=
  bool_decide (map_Forall (fun p l =>
     (has_use_list p || bool_decide (l = [])) && forallb (entry_ok st p l) l = true) (users st))
  && bool_decide (map_Forall (fun i ins =>
     forallb (operand_ok st i ins) (slots_of ins) = true) (insns st)).

(** ** Associative reordering in the words of the specification *)

(** The commutative-associative opcodes the dispatcher sends to
    [simplify_associative_binop]. *)
Definition assoc_opcode (op : opcode) : bool :=
  match op with
  | OP_ADD | OP_MUL | OP_AND | OP_OR | OP_XOR | OP_AND_BOOL | OP_OR_BOOL => true
  | _ => false
  end.

(** The reordering as stated: whenever [insn] and the instruction defining
    its [src1] have the same opcode and simple right operands, the left
    operand of the definition and the right operand of [insn] are exchanged
    and a re-pass is signalled. *)
Definition assoc_reorders (fuel : nat) (st : state) (i : nat) : Prop :=
  forall ins d def,
    insns st !! i = Some ins -> assoc_opcode (i_opcode ins) = true ->
    simple_pseudo (i_src2 ins) = true -> ptype (i_src1 ins) = PSEUDO_REG ->
    pseudo_def st (i_src1 ins) = InsnAt d -> insns st !! d = Some def ->
    i_opcode def = i_opcode ins -> simple_pseudo (i_src2 def) = true ->
    exists r st',
      simplify_associative_binop fuel i st = Ok r st' /\ r <> 0 /\
      slot_of st' (d, Src1) = Some (i_src2 ins) /\
      slot_of st' (i, Src2) = Some (i_src1 def).

Module AssocScenario.

(** [%r1 = add %arg0, $1; %r2 = add %r1, $2]. *)
Definition single : state :=
  Sample.mk_state
    [ (1%nat, Sample.mk OP_ADD 32 (REG 1) (ARG 0) (VAL 1) VOID);
      (2%nat, Sample.mk OP_ADD 32 (REG 2) (REG 1) (VAL 2) VOID) ]
    [ (ARG 0, [Sample.use 1 Src1]); (REG 1, [Sample.use 2 Src1]) ]
    [ (REG 1, 1%nat); (REG 2, 2%nat) ].

(** The same with a second user of [%r1]: [%r3 = neg %r1]. *)
Definition shared : state :=
  Sample.mk_state
    [ (1%nat, Sample.mk OP_ADD 32 (REG 1) (ARG 0) (VAL 1) VOID);
      (2%nat, Sample.mk OP_ADD 32 (REG 2) (REG 1) (VAL 2) VOID);
      (3%nat, Sample.mk OP_NEG 32 (REG 3) (REG 1) VOID VOID) ]
    [ (ARG 0, [Sample.use 1 Src1]);
      (REG 1, [Sample.use 2 Src1; Sample.use 3 Src1]) ]
    [ (REG 1, 1%nat); (REG 2, 2%nat); (REG 3, 3%nat) ].

End AssocScenario.

(** ** What a retarget may do *)

(** What the retarget to [src] may do to one instruction: overwrite slots
    with [src]; nothing else changes. *)
Record wins (src : pseudo_t) (ins ins' : instruction) : Prop := {
  wins_opcode : i_opcode ins' = i_opcode ins;
  wins_size : i_size ins' = i_size ins;
  wins_bb : i_bb ins' = i_bb ins;
  wins_pos : i_pos ins' = i_pos ins;
  wins_type : i_type ins' = i_type ins;
  wins_true : i_bb_true ins' = i_bb_true ins;
  wins_false : i_bb_false ins' = i_bb_false ins;
  wins_multijmp : i_multijmp_list ins' = i_multijmp_list ins;
  wins_orig_type : i_orig_type ins' = i_orig_type ins;
  wins_offset : i_offset ins' = i_offset ins;
  wins_slot : forall s,
    slot_get ins' s = slot_get ins s \/
    (is_Some (slot_get ins s) /\ slot_get ins' s = Some src);
}.

(** The slots written are those of the entries [l]; the use lists are as
    [us] says. *)
Record wstep (src : pseudo_t) (l : list pseudo_user)
    (us : gmap pseudo_t (list pseudo_user)) (st st' : state) : Prop := {
  ws_insns : forall i ins, insns st !! i = Some ins ->
             exists ins', insns st' !! i = Some ins' /\ wins src ins ins';
  ws_dom : forall i, insns st !! i = None -> insns st' !! i = None;
  ws_slot : forall b, slot_of st' b =
              if decide (b ∈ userp <$> l) then Some src else slot_of st b;
  ws_users : users st' = us;
  ws_defs : defs st' = defs st;
  ws_blocks : blocks st' = blocks st;
  ws_symtab : symtab st' = symtab st;
  ws_warnings : warnings st' = warnings st;
  ws_flag : Wtautological_compare st' = Wtautological_compare st;
  ws_phase : repeat_phase st' = repeat_phase st;
}.

(** The use lists after [convert_instruction_target]: the entries of the
    old target are moved to the end of the list of [src], or dropped when
    [src] has no use list. *)
Definition converted_users (st : state) (target src : pseudo_t)
  : gmap pseudo_t (list pseudo_user) :=
  let l := users_of st target in
  let us := <[target := []]> (users st) in
  if has_use_list src then <[src := default [] (us !! src) ++ l]> us else us.

(** The opcodes [replace_with_pseudo] accepts and whose operands the kill
    of the instruction would unbind as well. *)
Definition replaceable (op : opcode) : bool :=
  match op with
  | OP_SEL | OP_RANGE | OP_NOT | OP_NEG
  | OP_CAST | OP_SCAST | OP_FPCAST | OP_PTRCAST => true
  | _ => op_in_range OP_BINARY OP_BINCMP_END op
  end.

(** ** Replacement in the words of the specification *)

(** The instruction [i] of [st], which was [ins], has been replaced by the
    pseudo [src] in [st']: the users of its target were retargeted to [src]
    (every slot the use list of the target pointed at holds [src], unless a
    later kill has unbound it; the entries have moved to the list of [src];
    the target has no users left), then operands were unbound with cascading
    kills, the instruction is dead and the use lists are consistent. *)
Definition replaced_with (st : state) (i : nat) (ins : instruction) (src : pseudo_t)
    (st' : state) : Prop :=
  (exists st1,
     wstep src (users_of st (i_target ins)) (converted_users st (i_target ins) src) st st1 /\
     kstep st1 st') /\
  (forall pu, pu ∈ users_of st (i_target ins) ->
     slot_of st' (userp pu) = Some src \/ slot_of st' (userp pu) = Some VOID) /\
  (i_target ins <> src -> users_of st' (i_target ins) = []) /\
  (exists ins', insns st' !! i = Some ins' /\ i_bb ins' = None) /\
  use_lists_ok st'.

(** ** Cast-of-AND elision in the words of the specification *)

(** The casts [simplify_cast] does not refuse: the original type is known,
    neither side is a pointer type, and the cast is not from a float type to
    a non-float type. *)
Definition cast_accepted (ins : instruction) : bool :=
  match i_orig_type ins with
  | Some orig_type =>
      negb (is_ptr_type orig_type || is_ptr_type (i_type ins))
      && negb (is_float_type orig_type && negb (is_float_type (i_type ins)))
  | None => false
  end.

(** The elision as stated: an accepted cast of a REG defined by an AND with
    a VAL that fits in the new width is dropped. *)
Definition cast_of_and_dropped (fuel : nat) (st : state) (i : nat) : Prop :=
  forall ins d def v,
    insns st !! i = Some ins -> i_opcode ins ∈ [OP_CAST; OP_SCAST] ->
    cast_accepted ins = true ->
    ptype (i_src1 ins) = PSEUDO_REG ->
    pseudo_def st (i_src1 ins) = InsnAt d -> insns st !! d = Some def ->
    i_opcode def = OP_AND -> i_src2 def = VAL v -> 0 <= v < 2 ^ i_size ins ->
    exists r st',
      simplify_cast fuel i st = Ok r st' /\ r <> 0 /\
      exists ins', insns st' !! i = Some ins' /\ i_bb ins' = None.

Module CastScenario.

Definition uint_type : symbol :=
  {| bit_size := 32; mod_signed := false; mod_volatile := false; mod_pure := false;
     is_ptr_type := false; is_float_type := false |}.

Definition mk_cast (size : Z) (target src : pseudo_t) : instruction :=
  {| i_opcode := OP_CAST; i_size := size; i_bb := Some 0%nat; i_pos := 0%nat;
     i_type := Sample.uchar_type; i_target := target; i_src1 := src; i_src2 := VOID;
     i_src3 := VOID; i_bb_true := None; i_bb_false := None; i_multijmp_list := [];
     i_phi_list := []; i_orig_type := Some uint_type; i_offset := 0; i_arguments := [] |}.

(** [%r1 = and.32 %arg0, $mask; %r2 = cast.8 %r1; ret %r2]. *)
Definition cast_of_and (mask : Z) : state :=
  Sample.mk_state
    [ (1%nat, Sample.mk OP_AND 32 (REG 1) (ARG 0) (VAL mask) VOID);
      (2%nat, mk_cast 8 (REG 2) (REG 1));
      (3%nat, Sample.mk OP_RET 8 VOID (REG 2) VOID VOID) ]
    [ (ARG 0, [Sample.use 1 Src1]); (REG 1, [Sample.use 2 Src1]);
      (REG 2, [Sample.use 3 Src1]) ]
    [ (REG 1, 1%nat); (REG 2, 2%nat) ].

End CastScenario.

(** ** φ-nodes without a live source *)

(** Every entry of the list is VOID or the target of a φ-source whose value
    is VOID or which is dead. *)
Definition no_live_source (st : state) (l : list pseudo_t) : Prop :=
  forall p, p ∈ l ->
    p = VOID \/
    exists d def, pseudo_def st p = InsnAt d /\ insns st !! d = Some def /\
                  (i_src1 def = VOID \/ i_bb def = None).

Module PhiVoidScenario.

Definition dead_source : instruction :=
  set_bb None (Sample.mk OP_PHISOURCE 32 (PHI 1) (ARG 0) VOID VOID).

(** A dead [phisrc %phi1 <- %arg0], [%r2 = phi %phi1] and [ret %r2]. *)
Definition phi_dead_source : state :=
  Sample.mk_state
    [ (1%nat, dead_source);
      (2%nat, PhiScenario.mk_phi (REG 2) [PHI 1]);
      (3%nat, Sample.mk OP_RET 32 VOID (REG 2) VOID VOID) ]
    [ (ARG 0, [Sample.use 1 Src1]); (PHI 1, [Sample.use 2 (PhiEntry 0)]);
      (REG 2, [Sample.use 3 Src1]) ]
    [ (PHI 1, 1%nat); (REG 2, 2%nat) ].

End PhiVoidScenario.

(** ** Switch folding *)

(** A case of a switch takes the value [v]: it is the default case
    ([begin > end]) or its range holds [v]. *)
Definition takes (v : Z) (jmp : multijmp) : bool :=
  (mj_begin jmp >? mj_end jmp) || ((v >=? mj_begin jmp) && (v <=? mj_end jmp)).

(** A step that changes nothing but the blocks. *)
Definition bstep (st st' : state) : Prop :=
  insns st' = insns st /\ users st' = users st /\ defs st' = defs st /\
  symtab st' = symtab st /\ repeat_phase st' = repeat_phase st /\
  warnings st' = warnings st /\ Wtautological_compare st' = Wtautological_compare st /\
  (forall n, is_Some (blocks st !! n) -> is_Some (blocks st' !! n)).

(** The edges out of block [b] are well formed: its children are distinct
    blocks of the arena that list [b] among their parents. *)
Definition edges_ok (st : state) (b : nat) : Prop :=
  exists blk, blocks st !! b = Some blk /\ NoDup (bb_children blk) /\
              forall c, c ∈ bb_children blk ->
                exists cb, blocks st !! c = Some cb /\ b ∈ bb_parents cb.

Module SwitchScenario.

Definition mk_switch (cond : pseudo_t) (l : list multijmp) : instruction :=
  {| i_opcode := OP_SWITCH; i_size := 32; i_bb := Some 0%nat; i_pos := 0%nat;
     i_type := Sample.int_type; i_target := VOID; i_src1 := cond; i_src2 := VOID;
     i_src3 := VOID; i_bb_true := None; i_bb_false := None; i_multijmp_list := l;
     i_phi_list := []; i_orig_type := None; i_offset := 0; i_arguments := [] |}.

Definition block (ps cs : list nat) (il : list nat) : basic_block :=
  {| bb_parents := ps; bb_children := cs; bb_insns := il |}.

(** S6: block 0 ends in [switch $7 { 1..5 -> 1, 6..10 -> 2, default -> 3 }],
    blocks 1 (A), 2 (B) and 3 (D) are its children. *)
Definition cases : list multijmp :=
  [ {| mj_target := 1%nat; mj_begin := 1; mj_end := 5 |};
    {| mj_target := 2%nat; mj_begin := 6; mj_end := 10 |};
    {| mj_target := 3%nat; mj_begin := 1; mj_end := 0 |} ].

Definition switch_on (v : Z) (l : list multijmp) : state :=
  with_blocks
    {[ 0%nat := block [] [1%nat; 2%nat; 3%nat] [1%nat];
       1%nat := block [0%nat] [] []; 2%nat := block [0%nat] [] [];
       3%nat := block [0%nat] [] [] ]}
    (Sample.mk_state [ (1%nat, mk_switch (VAL v) l) ] [] []).

End SwitchScenario.

(** ** Constants at a width *)

(** The VAL of width [n] that stands for the integer [v]: its low [n] bits,
    which is what [res &= bits] leaves (at 64 bits, the whole [long long]). *)
Definition canon (n v : Z) : Z := if n <? 64 then v mod 2 ^ n else s64 v.

(** The integers an [n]-bit pattern stands for. *)
Definition signed_of (n v : Z) : Z := (v + 2 ^ (n - 1)) mod 2 ^ n - 2 ^ (n - 1).

Definition unsigned_of (n v : Z) : Z := v mod 2 ^ n.

(** A [long long] that is a constant of width [n], given as the [n]-bit
    pattern or sign-extended. *)
Definition operand_of (n v : Z) : Prop := in_s64 v /\ - 2 ^ (n - 1) <= v < 2 ^ n.

(** ** Sample IR for the further properties *)

Module Extra.

(** A state with [-Wtautological-compare] on. *)
Definition warn_on (st : state) : state :=
  {| insns := insns st; users := users st; defs := defs st; blocks := blocks st;
     symtab := symtab st; repeat_phase := repeat_phase st;
     warnings := warnings st; Wtautological_compare := true |}.

(** [%r1 = op.32 $c, %arg0; ret %r1]. *)
Definition const_left (op : opcode) (c : Z) : state :=
  Sample.mk_state
    [ (1%nat, Sample.mk op 32 (REG 1) (VAL c) (ARG 0) VOID);
      (2%nat, Sample.mk OP_RET 32 VOID (REG 1) VOID VOID) ]
    [ (ARG 0, [Sample.use 1 Src2]); (REG 1, [Sample.use 2 Src1]) ]
    [ (REG 1, 1%nat) ].

(** [%r1 = op.32 %arg0, $c; ret %r1]. *)
Definition const_right (op : opcode) (c : Z) : state :=
  Sample.mk_state
    [ (1%nat, Sample.mk op 32 (REG 1) (ARG 0) (VAL c) VOID);
      (2%nat, Sample.mk OP_RET 32 VOID (REG 1) VOID VOID) ]
    [ (ARG 0, [Sample.use 1 Src1]); (REG 1, [Sample.use 2 Src1]) ]
    [ (REG 1, 1%nat) ].

(** [%r1 = op.32 %arg0, %arg0; ret %r1]. *)
Definition same_args (op : opcode) : state :=
  Sample.mk_state
    [ (1%nat, Sample.mk op 32 (REG 1) (ARG 0) (ARG 0) VOID);
      (2%nat, Sample.mk OP_RET 32 VOID (REG 1) VOID VOID) ]
    [ (ARG 0, [Sample.use 1 Src1; Sample.use 1 Src2]); (REG 1, [Sample.use 2 Src1]) ]
    [ (REG 1, 1%nat) ].

(** [%r1 = op.32 $c; ret %r1]. *)
Definition unop_const (op : opcode) (c : Z) : state :=
  Sample.mk_state
    [ (1%nat, Sample.mk op 32 (REG 1) (VAL c) VOID VOID);
      (2%nat, Sample.mk OP_RET 32 VOID (REG 1) VOID VOID) ]
    [ (REG 1, [Sample.use 2 Src1]) ]
    [ (REG 1, 1%nat) ].

(** [%r1 = op.32 %arg0; %r2 = op.32 %r1; ret %r2]. *)
Definition unop_twice (op : opcode) : state :=
  Sample.mk_state
    [ (1%nat, Sample.mk op 32 (REG 1) (ARG 0) VOID VOID);
      (2%nat, Sample.mk op 32 (REG 2) (REG 1) VOID VOID);
      (3%nat, Sample.mk OP_RET 32 VOID (REG 2) VOID VOID) ]
    [ (ARG 0, [Sample.use 1 Src1]); (REG 1, [Sample.use 2 Src1]);
      (REG 2, [Sample.use 3 Src1]) ]
    [ (REG 1, 1%nat); (REG 2, 2%nat) ].

(** [%r1 = sel.32 cond, a, b; ret %r1] over the arguments. *)
Definition select_of (cond a b : pseudo_t) (us : list (pseudo_t * list pseudo_user)) : state :=
  Sample.mk_state
    [ (1%nat, Sample.mk OP_SEL 32 (REG 1) cond a b);
      (2%nat, Sample.mk OP_RET 32 VOID (REG 1) VOID VOID) ]
    (us ++ [ (REG 1, [Sample.use 2 Src1]) ])
    [ (REG 1, 1%nat) ].

(** [cbr %r1 ? .L1 : .L2] on [%r1 = op.32 %arg0, $0], in block 0 with the
    two blocks as its children. *)
Definition branch_on_compare (op : opcode) : state :=
  Sample.mk_state
    [ (1%nat, Sample.mk op 32 (REG 1) (ARG 0) (VAL 0) VOID);
      (2%nat, set_branches (Some 1%nat) (Some 2%nat)
                (Sample.mk OP_CBR 32 VOID (REG 1) VOID VOID)) ]
    [ (ARG 0, [Sample.use 1 Src1]); (REG 1, [Sample.use 2 Src1]) ]
    [ (REG 1, 1%nat) ].

(** An instruction as a cast from the type [t]. *)
Definition cast_from (t : symbol) (ins : instruction) : instruction :=
  {| i_opcode := i_opcode ins; i_size := i_size ins; i_bb := i_bb ins; i_pos := i_pos ins;
     i_type := i_type ins; i_target := i_target ins; i_src1 := i_src1 ins;
     i_src2 := i_src2 ins; i_src3 := i_src3 ins; i_bb_true := i_bb_true ins;
     i_bb_false := i_bb_false ins; i_multijmp_list := i_multijmp_list ins;
     i_phi_list := i_phi_list ins; i_orig_type := Some t;
     i_offset := i_offset ins; i_arguments := i_arguments ins |}.

(** [%r1 = cast.8 (32) $c; ret %r1]. *)
Definition cast_of_constant (c : Z) : state :=
  Sample.mk_state
    [ (1%nat, cast_from Sample.int_type (Sample.mk OP_CAST 8 (REG 1) (VAL c) VOID VOID));
      (2%nat, Sample.mk OP_RET 8 VOID (REG 1) VOID VOID) ]
    [ (REG 1, [Sample.use 2 Src1]) ]
    [ (REG 1, 1%nat) ].

(** [%r1 = op.8 $a, $b; ret %r1]. *)
Definition two_constants (op : opcode) (a b : Z) : state :=
  Sample.mk_state
    [ (1%nat, Sample.mk op 8 (REG 1) (VAL a) (VAL b) VOID);
      (2%nat, Sample.mk OP_RET 8 VOID (REG 1) VOID VOID) ]
    [ (REG 1, [Sample.use 2 Src1]) ]
    [ (REG 1, 1%nat) ].

(** [%r1 = cast.32 (8) %arg0; %r2 = asr.32 %r1, $8; ret %r2]. *)
Definition shift_of_cast : state :=
  Sample.mk_state
    [ (1%nat, cast_from Sample.uchar_type (Sample.mk OP_CAST 32 (REG 1) (ARG 0) VOID VOID));
      (2%nat, Sample.mk OP_ASR 32 (REG 2) (REG 1) (VAL 8) VOID);
      (3%nat, Sample.mk OP_RET 32 VOID (REG 2) VOID VOID) ]
    [ (ARG 0, [Sample.use 1 Src1]); (REG 1, [Sample.use 2 Src1]);
      (REG 2, [Sample.use 3 Src1]) ]
    [ (REG 1, 1%nat); (REG 2, 2%nat) ].

End Extra.

(** ** What a kill spares *)

(** No pseudo is defined by instruction [j]. *)
Definition defines_nothing (st : state) (j : nat) : Prop :=
  forall q, pseudo_def st q <> InsnAt j.

(** The instructions a kill starts from. *)
Definition ptr_roots (ptr : insn_ptr) : list nat :=
  match ptr with InsnAt i => [i] | _ => [] end.

(** A step spares what a cascade cannot reach: every instruction apart from
    [roots] that defines no pseudo is as it was, and no instruction but a
    store has another target. *)
Definition spares (roots : list nat) (st st' : state) : Prop :=
  (forall j, j ∉ roots -> defines_nothing st j -> insns st' !! j = insns st !! j) /\
  (forall j ins, insns st !! j = Some ins -> i_opcode ins <> OP_STORE ->
     exists ins', insns st' !! j = Some ins' /\ i_target ins' = i_target ins).

(** [defines_nothing] by evaluation. *)
Definition defines_nothing_b (st : state) (j : nat) : bool :=
  bool_decide (map_Forall (fun (_ : pseudo_t) d => d <> j) (defs st)).

(** * Properties *)

(** ** Sanity checks of the embedding on the scenarios of the specification *)

Example eval_insn_S1 : eval_insn 32 OP_ADD 5 7 = Folded 12.
Proof. reflexivity. Qed.

Example eval_insn_div0 : eval_insn 32 OP_DIVS 5 0 = NoFold.
Proof. reflexivity. Qed.

Example eval_insn_min64 : eval_insn 64 OP_DIVS (- 2^63) (-1) = NoFold.
Proof. reflexivity. Qed.

Example simplify_add_zero :
  match simplify_instruction 3 1 Sample.add_zero with
  | Ok r st' =>
      r = REPEAT_CSE /\
      (i_bb <$> insns st' !! 1%nat) = Some None /\
      (i_src1 <$> insns st' !! 2%nat) = Some (ARG 0) /\
      users_of st' (ARG 0) = [Sample.use 2 Src1] /\
      users_of st' (REG 1) = []
  | Err _ => False
  end.
Proof. vm_compute. repeat split; reflexivity. Qed.

Example simplify_lt_const :
  match simplify_instruction 3 1 Sample.lt_const with
  | Ok r st' =>
      (i_opcode <$> insns st' !! 1%nat) = Some OP_SET_GT /\
      (i_src1 <$> insns st' !! 1%nat) = Some (ARG 0) /\
      (i_src2 <$> insns st' !! 1%nat) = Some (VAL 5) /\
      users_of st' (ARG 0) = [Sample.use 1 Src1]
  | Err _ => False
  end.
Proof. vm_compute. repeat split; reflexivity. Qed.

(** ** The monad *)

Lemma bind_Ok {A B : Type} (m : M A) (f : A -> M B) st b st2 :
  bind m f st = Ok b st2 <-> exists a st1, m st = Ok a st1 /\ f a st1 = Ok b st2.
Proof.
  unfold bind. destruct (m st) as [a st1|e]; split.
  - intros H. by exists a, st1.
  - intros (a' & st1' & [= -> ->] & H). done.
  - done.
  - intros (a' & st1' & [=] & _).
Qed.

Lemma bind_eq {A B : Type} (m : M A) (f : A -> M B) st a st1 :
  m st = Ok a st1 -> bind m f st = f a st1.
Proof. unfold bind. by intros ->. Qed.

Lemma ret_Ok {A : Type} (a b : A) st st' : ret a st = Ok b st' <-> a = b /\ st = st'.
Proof. unfold ret. split; [by intros [= -> ->] | by intros [-> ->]]. Qed.

Lemma load_insn_Ok i st ins st' :
  load_insn i st = Ok ins st' <-> insns st !! i = Some ins /\ st' = st.
Proof.
  unfold load_insn. destruct (insns st !! i); split; try done.
  - by intros [= -> ->].
  - by intros [[= ->] ->].
  - by intros [? _].
Qed.

Lemma load_insn_eq i st ins : insns st !! i = Some ins -> load_insn i st = Ok ins st.
Proof. unfold load_insn. by intros ->. Qed.

(** Decompose a successful run, one bind at a time. *)
Ltac inv_run :=
  repeat match goal with
  | H : bind _ _ _ = Ok _ _ |- _ =>
      let a := fresh "a" in let st := fresh "st" in
      let H1 := fresh "Hrun" in let H2 := fresh "Hrun" in
      apply bind_Ok in H; destruct H as (a & st & H1 & H2)
  | H : ret _ _ = Ok _ _ |- _ => apply ret_Ok in H; destruct H as [? ?]; subst
  | H : load_insn _ _ = Ok _ _ |- _ => apply load_insn_Ok in H; destruct H as [H ?]; subst
  | H : get_state _ = Ok _ _ |- _ => unfold get_state in H; injection H as ? ?; subst
  | H : fail _ _ = Ok _ _ |- _ => discriminate H
  | H : Err _ = Ok _ _ |- _ => discriminate H
  | H : Ok _ _ = Ok _ _ |- _ => injection H as ? ?; subst
  end.

(** ** Counting the entries of a slot *)

Lemma count_slot_nil a : count_slot a [] = 0%nat.
Proof. done. Qed.

Lemma count_slot_cons a pu l :
  count_slot a (pu :: l) =
  ((if decide (userp pu = a) then 1 else 0) + count_slot a l)%nat.
Proof.
  unfold count_slot. rewrite filter_cons. by destruct (decide (userp pu = a)).
Qed.

Lemma count_slot_app a l1 l2 :
  count_slot a (l1 ++ l2) = (count_slot a l1 + count_slot a l2)%nat.
Proof. unfold count_slot. by rewrite filter_app, length_app. Qed.

Lemma count_slot_pos a l :
  (0 < count_slot a l)%nat <-> exists pu, pu ∈ l /\ userp pu = a.
Proof.
  induction l as [|pu l IH].
  - split; [rewrite count_slot_nil; lia|]. intros (pu & Hin & _). by apply elem_of_nil in Hin.
  - rewrite count_slot_cons. destruct (decide (userp pu = a)) as [He|Hne].
    + split; [|lia]. intros _. exists pu. split; [left|done].
    + rewrite IH. split.
      * intros (pu' & Hin & He). exists pu'. split; [by right|done].
      * intros (pu' & Hin & He). apply elem_of_cons in Hin as [->|Hin]; [done|]. by exists pu'.
Qed.

Lemma count_slot_zero a l :
  count_slot a l = 0%nat <-> forall pu, pu ∈ l -> userp pu <> a.
Proof.
  split.
  - intros H pu Hin He. assert (0 < count_slot a l)%nat; [|lia].
    apply count_slot_pos. by exists pu.
  - intros H. destruct (count_slot a l) eqn:E; [done|].
    assert (0 < count_slot a l)%nat as Hp by lia.
    apply count_slot_pos in Hp as (pu & Hin & He). by destruct (H pu Hin).
Qed.

Lemma count_slot_sublist a l1 l2 :
  sublist l1 l2 -> (count_slot a l1 <= count_slot a l2)%nat.
Proof.
  induction 1; rewrite ?count_slot_cons; [done| |]; destruct (decide _); lia.
Qed.

(** ** The scan that deletes one entry *)

(** The list without its first entry for [a]. *)
Lemma delete_scan_found l a :
  (0 < count_slot a l)%nat ->
  exists l', delete_scan l a 1 = (l', 0, true) /\
             sublist l' l /\ S (length l') = length l /\
             (forall b, count_slot b l' =
                        (count_slot b l - (if decide (b = a) then 1 else 0))%nat).
Proof.
  induction l as [|pu l IH]; [rewrite count_slot_nil; lia|].
  intros Hpos. simpl. destruct (decide (userp pu = a)) as [He|Hne].
  - exists l. simpl. split; [done|]. split; [by constructor|]. split; [done|].
    intros b. rewrite count_slot_cons. subst a.
    destruct (decide (userp pu = b)), (decide (b = userp pu)); try congruence; lia.
  - rewrite count_slot_cons in Hpos. destruct (decide (userp pu = a)); [done|].
    destruct (IH Hpos) as (l' & -> & Hsub & Hlen & Hcnt).
    exists (pu :: l'). split; [done|]. split; [by constructor|].
    split; [simpl; lia|].
    intros b. rewrite !count_slot_cons, Hcnt.
    destruct (decide (userp pu = b)), (decide (b = a)); try congruence; try lia.
Qed.

Lemma delete_scan_missing l a :
  count_slot a l = 0%nat -> delete_scan l a 1 = (l, 1, false).
Proof.
  induction l as [|pu l IH]; [done|].
  rewrite count_slot_cons. simpl. destruct (decide (userp pu = a)); [lia|].
  intros H. by rewrite IH.
Qed.

(** [delete_pseudo_user_list_entry] with count 1: it succeeds exactly when
    the list has an entry for the slot, and then removes the first one. *)
Lemma delete_entry_Ok p a st c st' :
  delete_pseudo_user_list_entry p a 1 st = Ok c st' ->
  exists l', c = 0 /\ st' = with_users (<[p:=l']> (users st)) st /\
             (0 < count_slot a (users_of st p))%nat /\
             sublist l' (users_of st p) /\
             S (length l') = length (users_of st p) /\
             (forall b, count_slot b l' =
                        (count_slot b (users_of st p) - (if decide (b = a) then 1 else 0))%nat).
Proof.
  unfold delete_pseudo_user_list_entry. intros H. inv_run.
  unfold get_users in Hrun. injection Hrun as <- <-.
  destruct (decide (count_slot a (users_of st p) = 0%nat)) as [Hz|Hnz].
  - rewrite (delete_scan_missing _ _ Hz) in Hrun0. simpl in Hrun0. discriminate.
  - destruct (delete_scan_found (users_of st p) a) as (l' & Hscan & Hsub & Hlen & Hcnt); [lia|].
    rewrite Hscan in Hrun0. simpl in Hrun0. inv_run.
    unfold set_users in Hrun. injection Hrun as _ <-.
    exists l'. repeat split; [lia|done|done|done].
Qed.

Lemma delete_entry_total p a st :
  (0 < count_slot a (users_of st p))%nat ->
  exists l', delete_pseudo_user_list_entry p a 1 st =
               Ok 0 (with_users (<[p:=l']> (users st)) st) /\
             sublist l' (users_of st p) /\
             S (length l') = length (users_of st p) /\
             (forall b, count_slot b l' =
                        (count_slot b (users_of st p) - (if decide (b = a) then 1 else 0))%nat).
Proof.
  intros Hpos. destruct (delete_scan_found _ _ Hpos) as (l' & Hscan & Hsub & Hlen & Hcnt).
  exists l'. split; [|done].
  unfold delete_pseudo_user_list_entry, bind, get_users. rewrite Hscan. done.
Qed.

(** ** Slots *)

Lemma slot_get_set_eq ins s p :
  is_Some (slot_get ins s) -> slot_get (slot_set ins s p) s = Some p.
Proof.
  destruct s; simpl; try done.
  - intros [q Hq]. apply list_lookup_insert_eq. by eapply lookup_lt_Some.
  - intros [q Hq]. apply list_lookup_insert_eq. by eapply lookup_lt_Some.
Qed.

Lemma slot_get_set_ne ins s s' p :
  s <> s' -> slot_get (slot_set ins s p) s' = slot_get ins s'.
Proof.
  intros Hne. destruct s, s'; simpl; try done.
  - apply list_lookup_insert_ne. congruence.
  - apply list_lookup_insert_ne. congruence.
Qed.

Lemma slot_get_set ins s s' p :
  is_Some (slot_get ins s) ->
  slot_get (slot_set ins s p) s' = if decide (s = s') then Some p else slot_get ins s'.
Proof.
  intros H. destruct (decide (s = s')) as [<-|Hne].
  - by apply slot_get_set_eq.
  - by apply slot_get_set_ne.
Qed.

Lemma users_of_insert st p l q :
  users_of (with_users (<[p:=l]> (users st)) st) q =
  if decide (p = q) then l else users_of st q.
Proof.
  unfold users_of. simpl. rewrite lookup_insert. by destruct (decide (p = q)).
Qed.

Lemma slot_of_insert st i ins a :
  slot_of (with_insns (<[i:=ins]> (insns st)) st) a =
  if decide (i = a.1) then slot_get ins a.2 else slot_of st a.
Proof.
  unfold slot_of. simpl. rewrite lookup_insert. by destruct (decide (i = a.1)).
Qed.

Lemma read_slot_Ok a st p st' :
  read_slot a st = Ok p st' <-> slot_of st a = Some p /\ st' = st.
Proof.
  unfold read_slot, slot_of, bind, load_insn.
  destruct (insns st !! a.1) as [ins|]; [|split; [done|by intros [? _]]].
  destruct (slot_get ins a.2) as [q|]; simpl.
  - unfold ret. split; [by intros [= -> ->]|by intros [[= ->] ->]].
  - split; [done|by intros [? _]].
Qed.

Lemma write_slot_Ok a p st u st' :
  write_slot a p st = Ok u st' <->
  exists ins, insns st !! a.1 = Some ins /\ is_Some (slot_get ins a.2) /\
              st' = with_insns (<[a.1 := slot_set ins a.2 p]> (insns st)) st.
Proof.
  unfold write_slot, bind, load_insn.
  destruct (insns st !! a.1) as [ins|]; [|split; [done|by intros (? & ? & _)]].
  destruct (slot_get ins a.2) as [q|] eqn:E; simpl.
  - unfold store_insn. split.
    + intros [= <-]. exists ins. by rewrite E.
    + intros (ins' & [= <-] & _ & ->). by destruct u.
  - split; [done|]. intros (ins' & [= <-] & [? H] & _). congruence.
Qed.

(** ** The frame of a kill *)

Lemma kins_refl ins : kins ins ins.
Proof. constructor; auto. Qed.

Lemma kins_trans ins1 ins2 ins3 : kins ins1 ins2 -> kins ins2 ins3 -> kins ins1 ins3.
Proof.
  intros K1 K2. constructor.
  - by rewrite (kins_opcode _ _ K2), (kins_opcode _ _ K1).
  - by rewrite (kins_size _ _ K2), (kins_size _ _ K1).
  - by rewrite (kins_pos _ _ K2), (kins_pos _ _ K1).
  - by rewrite (kins_type _ _ K2), (kins_type _ _ K1).
  - by rewrite (kins_true _ _ K2), (kins_true _ _ K1).
  - by rewrite (kins_false _ _ K2), (kins_false _ _ K1).
  - by rewrite (kins_multijmp _ _ K2), (kins_multijmp _ _ K1).
  - by rewrite (kins_orig_type _ _ K2), (kins_orig_type _ _ K1).
  - by rewrite (kins_offset _ _ K2), (kins_offset _ _ K1).
  - destruct (kins_bb _ _ K2) as [-> | ->]; [apply (kins_bb _ _ K1)|by right].
  - intros s. destruct (kins_slot _ _ K1 s) as [H1|[H1 H1']], (kins_slot _ _ K2 s) as [H2|[H2 H2']].
    + left. congruence.
    + right. split; [|done]. by rewrite <- H1.
    + right. split; [done|congruence].
    + right. done.
Qed.

Lemma kstep_slot st st' a :
  kstep st st' ->
  slot_of st' a = slot_of st a \/ (is_Some (slot_of st a) /\ slot_of st' a = Some VOID).
Proof.
  intros K. unfold slot_of. destruct (insns st !! a.1) as [ins|] eqn:E.
  - destruct (ks_insns _ _ K _ _ E) as (ins' & -> & Hk). apply (kins_slot _ _ Hk).
  - rewrite (ks_dom _ _ K _ E). by left.
Qed.

Lemma kstep_refl st : kstep st st.
Proof.
  constructor; try done.
  - intros i ins H. exists ins. split; [done|apply kins_refl].
  - intros p a _. rewrite bool_decide_eq_false_2; [lia|]. by intros [-> ?].
  - apply Z.land_diag.
Qed.

Lemma land_mono_trans x y z : Z.land x y = x -> Z.land y z = y -> Z.land x z = x.
Proof. intros H1 H2. rewrite <- H1. by rewrite <- Z.land_assoc, H2. Qed.

Lemma kstep_trans st1 st2 st3 : kstep st1 st2 -> kstep st2 st3 -> kstep st1 st3.
Proof.
  intros K1 K2. constructor.
  - intros i ins H. destruct (ks_insns _ _ K1 _ _ H) as (ins2 & H2 & Hk2).
    destruct (ks_insns _ _ K2 _ _ H2) as (ins3 & H3 & Hk3).
    exists ins3. split; [done|by eapply kins_trans].
  - intros i H. apply (ks_dom _ _ K2), (ks_dom _ _ K1), H.
  - intros p a Hp. rewrite <- (ks_count _ _ K1 p a Hp), <- (ks_count _ _ K2 p a Hp).
    assert (Some p <> Some VOID) as Hv by (intros [= ->]; done).
    destruct (kstep_slot _ _ a K1) as [E1|[_ E1]], (kstep_slot _ _ a K2) as [E2|[_ E2]];
      revert E1 E2 Hv;
      generalize (slot_of st1 a), (slot_of st2 a), (slot_of st3 a);
      intros s1 s2 s3 E1 E2 Hv; subst;
      repeat case_bool_decide; try lia; exfalso; intuition congruence.
  - intros p. etrans; [apply (ks_sublist _ _ K2)|apply (ks_sublist _ _ K1)].
  - by rewrite (ks_defs _ _ K2), (ks_defs _ _ K1).
  - by rewrite (ks_blocks _ _ K2), (ks_blocks _ _ K1).
  - by rewrite (ks_symtab _ _ K2), (ks_symtab _ _ K1).
  - by rewrite (ks_warnings _ _ K2), (ks_warnings _ _ K1).
  - by rewrite (ks_flag _ _ K2), (ks_flag _ _ K1).
  - eapply land_mono_trans; [apply (ks_phase _ _ K1)|apply (ks_phase _ _ K2)].
Qed.

Lemma land_lor_absorb x b : Z.land x (Z.lor x b) = x.
Proof.
  apply Z.bits_inj'. intros n Hn. rewrite Z.land_spec, Z.lor_spec.
  by destruct (Z.testbit x n), (Z.testbit b n).
Qed.

(** One unbinding ([*a = VOID] and the removal of the slot's entry from the
    use list of the pseudo it held) stays within the frame of a kill. *)
Lemma kstep_unbind st st' a p ins :
  insns st !! a.1 = Some ins ->
  slot_get ins a.2 = Some p ->
  insns st' = <[a.1 := slot_set ins a.2 VOID]> (insns st) ->
  (if has_use_list p then
     exists l', users st' = <[p:=l']> (users st) /\
                (0 < count_slot a (users_of st p))%nat /\
                sublist l' (users_of st p) /\
                (forall b, count_slot b l' =
                   (count_slot b (users_of st p) - (if decide (b = a) then 1 else 0))%nat)
   else users st' = users st) ->
  defs st' = defs st -> blocks st' = blocks st -> symtab st' = symtab st ->
  warnings st' = warnings st -> Wtautological_compare st' = Wtautological_compare st ->
  Z.land (repeat_phase st) (repeat_phase st') = repeat_phase st ->
  kstep st st'.
Proof.
  intros Hins Hslot Hi Hu Hd Hb Hs Hw Hf Hp.
  assert (forall b, slot_of st' b = if decide (b = a) then Some VOID else slot_of st b) as Hso.
  { intros b. unfold slot_of. rewrite Hi, lookup_insert.
    destruct (decide (a.1 = b.1)) as [E|E].
    - destruct (decide (b = a)) as [->|Hne].
      + apply slot_get_set_eq. by rewrite Hslot.
      + rewrite <- E, Hins. apply slot_get_set_ne. intros E2. apply Hne.
        destruct a, b; simpl in *; congruence.
    - destruct (decide (b = a)) as [->|Hne]; [done|]. done. }
  assert (slot_of st a = Some p) as Hsa by (unfold slot_of; by rewrite Hins).
  assert (forall i ins0, insns st !! i = Some ins0 ->
            exists ins', insns st' !! i = Some ins' /\ kins ins0 ins') as Hki.
  { intros i ins0 H0. rewrite Hi, lookup_insert. destruct (decide (a.1 = i)) as [<-|Hne].
    - rewrite Hins in H0. injection H0 as <-. eexists; split; [done|].
      constructor; try done; [by left|].
      intros s. destruct (decide (a.2 = s)) as [<-|Hs'].
      + right. rewrite Hslot. split; [done|]. apply slot_get_set_eq. by rewrite Hslot.
      + left. by apply slot_get_set_ne.
    - exists ins0. split; [done|apply kins_refl]. }
  assert (forall i, insns st !! i = None -> insns st' !! i = None) as Hkd.
  { intros i H0. rewrite Hi, lookup_insert_ne; [done|]. intros <-. congruence. }
  destruct (has_use_list p) eqn:Hup.
  - destruct Hu as (l' & Hl' & Hpos & Hsub & Hcnt).
    assert (forall q, users_of st' q = if decide (p = q) then l' else users_of st q) as Huo.
    { intros q. unfold users_of. rewrite Hl', lookup_insert. by destruct (decide (p = q)). }
    constructor; try done.
    + intros q b Hq. rewrite Hso, Huo. destruct (decide (p = q)) as [<-|Hqp].
      * rewrite Hcnt. destruct (decide (b = a)) as [->|Hne].
        -- rewrite Hsa. rewrite bool_decide_eq_true_2; [lia|]. split; [done|].
           intros [= <-]. done.
        -- rewrite bool_decide_eq_false_2; [lia|]. by intros [? ?].
      * rewrite bool_decide_eq_false_2; [lia|]. intros [H1 H2].
        destruct (decide (b = a)) as [->|Hne]; [|done]. rewrite Hsa in H1. congruence.
    + intros q. rewrite Huo. by destruct (decide (p = q)) as [<-|].
  - assert (forall q, users_of st' q = users_of st q) as Huo.
    { intros q. unfold users_of. by rewrite Hu. }
    constructor; try done.
    + intros q b Hq. rewrite Hso, Huo. rewrite bool_decide_eq_false_2; [lia|].
      intros [H1 H2]. destruct (decide (b = a)) as [->|Hne]; [|done].
      rewrite Hsa in H1. injection H1 as ->. congruence.
    + intros q. by rewrite Huo.
Qed.

Lemma kstep_phase st bits : kstep st (with_repeat_phase (Z.lor (repeat_phase st) bits) st).
Proof.
  constructor; try done.
  - intros i ins H. exists ins. split; [done|apply kins_refl].
  - intros p a _. rewrite bool_decide_eq_false_2; [by rewrite Nat.add_0_r|]. intros [H1 H2]. exact (H2 H1).
  - apply land_lor_absorb.
Qed.

Lemma or_repeat_phase_Ok bits st r st' :
  or_repeat_phase bits st = Ok r st' ->
  r = Z.lor (repeat_phase st) bits /\ st' = with_repeat_phase r st.
Proof. unfold or_repeat_phase. by intros [= <- <-]. Qed.

Lemma kstep_set_bb st i ins :
  insns st !! i = Some ins ->
  kstep st (with_insns (<[i := set_bb None ins]> (insns st)) st).
Proof.
  intros Hi. constructor; try done.
  - intros j ins0 H0. simpl. rewrite lookup_insert. destruct (decide (i = j)) as [<-|Hne].
    + rewrite Hi in H0. injection H0 as <-. eexists; split; [done|].
      constructor; try done; [by right|by left].
    + exists ins0. split; [done|apply kins_refl].
  - intros j H0. simpl. rewrite lookup_insert_ne; [done|]. intros <-. congruence.
  - intros p a _. rewrite bool_decide_eq_false_2; [by rewrite Nat.add_0_r|]. intros [H1 H2]. apply H2.
    rewrite slot_of_insert. destruct (decide (i = a.1)) as [->|]; [|done].
    unfold slot_of in H1. by rewrite Hi in H1.
  - apply Z.land_diag.
Qed.

Lemma update_insn_Ok i f st u st' :
  update_insn i f st = Ok u st' ->
  exists ins, insns st !! i = Some ins /\ st' = with_insns (<[i := f ins]> (insns st)) st.
Proof.
  unfold update_insn. intros H. inv_run. unfold store_insn in Hrun0.
  injection Hrun0 as _ <-. by exists a.
Qed.

Lemma kill_finish_Ok i st r st' :
  kill_finish i st = Ok r st' ->
  kstep st st' /\ Z.land r REPEAT_CSE = REPEAT_CSE /\
  exists ins', insns st' !! i = Some ins' /\ i_bb ins' = None.
Proof.
  unfold kill_finish. intros H. inv_run.
  apply update_insn_Ok in Hrun as (ins & Hi & ->).
  apply or_repeat_phase_Ok in Hrun0 as [-> ->].
  split; [|split].
  - eapply kstep_trans; [by apply kstep_set_bb|apply kstep_phase].
  - simpl. rewrite Z.land_comm. rewrite Z.lor_comm. apply land_lor_absorb.
  - simpl. rewrite lookup_insert_eq. by eexists.
Qed.

(** Compose the frames found among the hypotheses. *)
Ltac kchain :=
  first [ eassumption
        | apply kstep_refl
        | eapply kstep_trans; [eassumption | kchain] ].

Section KillFrame.

Variable k : insn_ptr -> M Z.
Hypothesis k_frame : forall d st r st', k d st = Ok r st' -> kstep st st'.

Lemma sym_phase_Ok p st r st' :
  (if bool_decide (ptype p = PSEUDO_SYM)
   then or_repeat_phase REPEAT_SYMBOL_CLEANUP else ret 0) st = Ok r st' ->
  exists x, st' = with_repeat_phase x st /\
            Z.land (repeat_phase st) x = repeat_phase st.
Proof.
  destruct (bool_decide _); intros H.
  - apply or_repeat_phase_Ok in H as [-> ->]. eexists. split; [done|apply land_lor_absorb].
  - apply ret_Ok in H as [_ <-]. exists (repeat_phase st). split; [|apply Z.land_diag].
    by destruct st.
Qed.

(** What a successful [rem_usage] did: nothing for a pseudo without use
    list; otherwise it removed the first entry of the slot and, when asked to
    and the list became empty, went on to kill the definition. *)
Lemma rem_usage_with_Ok p a kill st u st' :
  rem_usage_with k p a kill st = Ok u st' ->
  if has_use_list p then
    exists x l',
      let st3 := with_users (<[p:=l']> (users st)) (with_repeat_phase x st) in
      Z.land (repeat_phase st) x = repeat_phase st /\
      (0 < count_slot a (users_of st p))%nat /\
      sublist l' (users_of st p) /\
      S (length l') = length (users_of st p) /\
      (forall b, count_slot b l' =
         (count_slot b (users_of st p) - (if decide (b = a) then 1 else 0))%nat) /\
      ((st' = st3 /\ (kill = false \/ l' <> [])) \/
       (kill = true /\ l' = [] /\ exists r, k (pseudo_def st3 p) st3 = Ok r st'))
  else st' = st.
Proof.
  unfold rem_usage_with. destruct (has_use_list p); [|by intros [_ <-]%ret_Ok].
  intros H.
  apply bind_Ok in H as (r1 & s1 & H1 & H).
  apply sym_phase_Ok in H1 as (x & -> & Hx).
  apply bind_Ok in H as (c & s2 & H2 & H).
  apply delete_entry_Ok in H2 as (l' & -> & -> & Hpos & Hsub & Hlen & Hcnt).
  apply bind_Ok in H as (l & s3 & H3 & H).
  unfold get_users in H3. injection H3 as Hl <-.
  assert (l = l') as ->.
  { rewrite <- Hl. unfold users_of. simpl. by rewrite lookup_insert_eq. }
  exists x, l'. simpl. repeat split; try done.
  destruct kill; simpl in H.
  - destruct (decide (l' = [])) as [He|He].
    + rewrite bool_decide_eq_true_2 in H by done.
      right. repeat split; try done.
      apply bind_Ok in H as (st3 & s4 & H4 & H). unfold get_state in H4.
      injection H4 as <- <-.
      apply bind_Ok in H as (r & s5 & H5 & H). apply ret_Ok in H as [_ <-]. by exists r.
    + rewrite bool_decide_eq_false_2 in H by done.
      left. apply ret_Ok in H as [_ <-]. split; [done|by right].
  - left. apply ret_Ok in H as [_ <-]. split; [done|by left].
Qed.

Lemma rem_usage_with_kstep_after_write p a kill st0 ins st u st' :
  insns st0 !! a.1 = Some ins ->
  slot_get ins a.2 = Some p ->
  st = with_insns (<[a.1 := slot_set ins a.2 VOID]> (insns st0)) st0 ->
  rem_usage_with k p a kill st = Ok u st' ->
  kstep st0 st'.
Proof using k_frame.
  intros Hins Hslot -> H. apply rem_usage_with_Ok in H.
  destruct (has_use_list p) eqn:Hup.
  - destruct H as (x & l' & Hx & Hpos & Hsub & Hlen & Hcnt & Hend).
    match type of Hend with (_ = ?s /\ _) \/ _ => assert (kstep st0 s) as K1 end.
    { eapply (kstep_unbind _ _ a p ins); try done. rewrite Hup. by exists l'. }
    destruct Hend as [[-> _]|(_ & _ & r & Hk)]; [done|].
    apply k_frame in Hk. kchain.
  - subst st'. eapply (kstep_unbind _ _ a p ins); try done.
    + by rewrite Hup.
    + apply Z.land_diag.
Qed.

Lemma kill_use_with_kstep usep st u st' :
  kill_use_with k usep st = Ok u st' -> kstep st st'.
Proof using k_frame.
  destruct usep as [a|]; simpl; [|intros [_ <-]%ret_Ok; apply kstep_refl].
  intros H.
  apply bind_Ok in H as (p & s1 & H1 & H). apply read_slot_Ok in H1 as [Hp ->].
  apply bind_Ok in H as (u1 & s2 & H2 & H).
  apply write_slot_Ok in H2 as (ins & Hins & Hsome & ->).
  eapply rem_usage_with_kstep_after_write; [done| |done|done].
  unfold slot_of in Hp. by rewrite Hins in Hp.
Qed.

Lemma kill_use_list_loop_kstep insn entry ks st u st' :
  kill_use_list_loop k insn entry ks st = Ok u st' -> kstep st st'.
Proof using k_frame.
  revert st. induction ks as [|x ks IH]; intros st H; cbn [kill_use_list_loop] in H.
  - apply ret_Ok in H as [_ <-]. apply kstep_refl.
  - apply bind_Ok in H as (p & s1 & H1 & H). apply read_slot_Ok in H1 as [_ ->].
    apply bind_Ok in H as (u1 & s2 & H2 & H). apply IH in H.
    destruct (decide (p = VOID)).
    + apply ret_Ok in H2 as [_ <-]. done.
    + apply kill_use_with_kstep in H2. kchain.
Qed.

Lemma kill_insn_body_kstep insn force st r st' :
  kill_insn_body k insn force st = Ok r st' -> kstep st st'.
Proof using k_frame.
  unfold kill_insn_body, kill_use_list_phi, kill_use_list_args.
  destruct insn as [|i|]; [intros H; inv_run; apply kstep_refl| |done].
  intros H. inv_run.
  destruct (i_bb a); [|inv_run; apply kstep_refl].
  destruct (i_opcode a);
    repeat first
      [ progress inv_run
      | match goal with
        | H : (if ?c then _ else _) _ = Ok _ _ |- _ => destruct c eqn:?
        | H : kill_use_with _ _ _ = Ok _ _ |- _ => apply kill_use_with_kstep in H
        | H : kill_use_list_loop _ _ _ _ _ = Ok _ _ |- _ => apply kill_use_list_loop_kstep in H
        | H : kill_finish _ _ = Ok _ _ |- _ => apply kill_finish_Ok in H as (H & _ & _)
        | H : or_repeat_phase _ _ = Ok _ _ |- _ => apply or_repeat_phase_Ok in H as [-> ->]
        end ];
    try (apply kstep_refl); try kchain;
    try (eapply kstep_trans; [apply kstep_phase|kchain]).
Qed.

End KillFrame.

(** Every kill stays within the frame. *)
Lemma kill_insn_kstep fuel insn force st r st' :
  kill_insn fuel insn force st = Ok r st' -> kstep st st'.
Proof.
  revert insn force st r st'. induction fuel as [|n IH]; [done|].
  intros insn force st r st'. simpl. apply kill_insn_body_kstep.
  intros d s r' s'. apply IH.
Qed.

Lemma kill_instruction_kstep fuel insn st r st' :
  kill_instruction fuel insn st = Ok r st' -> kstep st st'.
Proof. apply kill_insn_kstep. Qed.

Lemma kill_use_kstep fuel usep st u st' :
  kill_use fuel usep st = Ok u st' -> kstep st st'.
Proof. apply kill_use_with_kstep. intros ????. apply kill_instruction_kstep. Qed.

(** ** What a kill leaves behind *)

Lemma kstep_void st st' a :
  kstep st st' -> slot_of st a = Some VOID -> slot_of st' a = Some VOID.
Proof. intros K H. destruct (kstep_slot _ _ a K) as [->|[_ ->]]; done. Qed.

(** Propagate [slot_of _ a = Some VOID] along the frames among the
    hypotheses. *)
Ltac norm_range :=
  repeat match goal with
  | |- context [op_in_range ?a ?b ?c] =>
      let v := eval vm_compute in (op_in_range a b c) in
      change (op_in_range a b c) with v
  | H : context [op_in_range ?a ?b ?c] |- _ =>
      let v := eval vm_compute in (op_in_range a b c) in
      change (op_in_range a b c) with v in H
  end.

Ltac void_chain :=
  first [ eassumption
        | eapply kstep_void; [eassumption | void_chain] ].

Section KillPost.

Variable k : insn_ptr -> M Z.
Hypothesis k_frame : forall d st r st', k d st = Ok r st' -> kstep st st'.

Lemma kill_use_with_void a st u st' :
  kill_use_with k (Some a) st = Ok u st' -> slot_of st' a = Some VOID.
Proof using k_frame.
  simpl. intros H.
  apply bind_Ok in H as (p & s1 & H1 & H). apply read_slot_Ok in H1 as [Hp ->].
  apply bind_Ok in H as (u1 & s2 & H2 & H).
  apply write_slot_Ok in H2 as (ins & Hins & Hsome & ->).
  apply rem_usage_with_Ok in H.
  assert (forall x m, slot_of (with_users m (with_repeat_phase x
            (with_insns (<[a.1:=slot_set ins a.2 VOID]> (insns st)) st))) a = Some VOID) as Hv.
  { intros x m. unfold slot_of. simpl. rewrite lookup_insert_eq. by apply slot_get_set_eq. }
  destruct (has_use_list p).
  - destruct H as (x & l' & _ & _ & _ & _ & _ & [[-> _]|(_ & _ & r & Hk)]); [apply Hv|].
    apply k_frame in Hk. eapply kstep_void; [done|apply Hv].
  - subst st'. unfold slot_of. simpl. rewrite lookup_insert_eq. by apply slot_get_set_eq.
Qed.

Lemma kill_use_list_loop_void insn entry ks st u st' :
  kill_use_list_loop k insn entry ks st = Ok u st' ->
  forall x, x ∈ ks -> slot_of st' (insn, entry x) = Some VOID.
Proof using k_frame.
  revert st. induction ks as [|y ks IH]; intros st H x Hx; [by apply elem_of_nil in Hx|].
  cbn [kill_use_list_loop] in H.
  apply bind_Ok in H as (p & s1 & H1 & H). apply read_slot_Ok in H1 as [Hp ->].
  apply bind_Ok in H as (u1 & s2 & H2 & H).
  apply elem_of_cons in Hx as [->|Hx]; [|by eapply IH].
  apply kill_use_list_loop_kstep in H; [|done].
  destruct (decide (p = VOID)) as [->|Hne].
  - apply ret_Ok in H2 as [_ <-]. by eapply kstep_void.
  - apply kill_use_with_void in H2. by eapply kstep_void.
Qed.

(** After a kill that was not refused the instruction is dead, the slots
    the specification lists hold VOID and the result has the re-CSE bit. *)
Lemma kill_insn_body_post i force st r st' ins :
  insns st !! i = Some ins ->
  is_live ins = true ->
  refused st force ins = false ->
  kill_insn_body k (InsnAt i) force st = Ok r st' ->
  (forall s, s ∈ kill_slots ins -> slot_of st' (i, s) = Some VOID) /\
  (exists ins', insns st' !! i = Some ins' /\ i_bb ins' = None) /\
  Z.land r REPEAT_CSE = REPEAT_CSE.
Proof using k_frame.
  intros Hi Hlive Hok H.
  unfold kill_insn_body in H. rewrite (bind_eq _ _ _ _ _ (load_insn_eq _ _ _ Hi)) in H.
  unfold is_live in Hlive. destruct (i_bb ins) as [b|] eqn:Hbb; [clear Hlive|done].
  unfold kill_slots, refused in *.
  assert (forall s, slot_of st (i, s) = slot_get ins s) as Hso.
  { intros s. unfold slot_of. simpl. by rewrite Hi. }
  destruct (i_opcode ins) eqn:Hop; norm_range; try discriminate Hok;
    unfold kill_use_list_phi, kill_use_list_args in H;
    rewrite ?(bind_eq _ _ _ _ _ (load_insn_eq _ _ _ Hi)) in H.
  all: repeat first
      [ progress inv_run
      | match goal with
        | H : (if ?c then _ else _) _ = Ok _ _ |- _ => destruct c eqn:?
        | H : kill_use_with _ (Some ?a) _ = Ok _ _ |- _ =>
            pose proof (kill_use_with_void _ _ _ _ H);
            apply (kill_use_with_kstep _ k_frame) in H
        | H : kill_use_list_loop _ _ _ _ _ = Ok _ _ |- _ =>
            pose proof (kill_use_list_loop_void _ _ _ _ _ _ H);
            apply (kill_use_list_loop_kstep _ k_frame) in H
        | H : kill_finish _ _ = Ok _ _ |- _ => apply kill_finish_Ok in H as (H & ? & ?)
        | H : or_repeat_phase _ _ = Ok _ _ |- _ => apply or_repeat_phase_Ok in H as [-> ->]
        end ].
  all: try (split; [|split; [eassumption|assumption]]).
  all: try (intros s Hs).
  all: try (by apply elem_of_nil in Hs).
  all: repeat (apply elem_of_cons in Hs as [->|Hs]); try (by apply elem_of_nil in Hs).
  all: try void_chain.
  all: try discriminate.
  all: repeat match goal with
       | H1 : insns ?s !! ?j = Some ?x, H2 : insns ?s !! ?j = Some ?y |- _ =>
           rewrite H1 in H2; injection H2 as <-
       end.
  - apply list_elem_of_fmap in Hs as (x & -> & Hx).
    match goal with H : forall x, _ -> _ |- _ => specialize (H x Hx) end. void_chain.
  - exfalso. destruct force; [done|].
    destruct (i_src1 ins); vm_compute in Heqb0; simpl in Hok; congruence.
  - apply elem_of_app in Hs as [Hs|Hs].
    + apply list_elem_of_fmap in Hs as (x & -> & Hx).
      match goal with H : forall x, _ -> _ |- _ => specialize (H x Hx) end. void_chain.
    + destruct (bool_decide (ptype (i_src1 ins) = PSEUDO_REG)); [|by apply elem_of_nil in Hs].
      apply list_elem_of_singleton in Hs as ->. void_chain.
  - apply elem_of_app in Hs as [Hs|Hs].
    + apply list_elem_of_fmap in Hs as (x & -> & Hx).
      match goal with H : forall x, _ -> _ |- _ => specialize (H x Hx) end. void_chain.
    + destruct (bool_decide (ptype (i_src1 ins) = PSEUDO_REG)) eqn:Hreg;
        [|by apply elem_of_nil in Hs].
      apply list_elem_of_singleton in Hs as ->.
      match goal with K : kstep ?s0 ?s2, H : insns ?s2 !! i = Some ?a0 |- _ =>
        destruct (kstep_slot _ _ (i, Src1) K) as [E|[_ E]] end.
      * exfalso. unfold slot_of in E. simpl in E. rewrite Hi, Hrun0 in E. simpl in E.
        injection E as E. rewrite E in Heqb2. congruence.
      * void_chain.
Qed.


End KillPost.

(** ** Termination of the cascade *)

Lemma total_uses_insert st p l' r :
  (total_uses (with_users (<[p:=l']> (users st)) (with_repeat_phase r st)) +
   length (users_of st p))%nat
  = (total_uses st + length l')%nat.
Proof.
  unfold total_uses, users_of. simpl.
  destruct (users st !! p) as [l|] eqn:E; simpl.
  - rewrite <- (insert_delete_eq (users st)).
    rewrite map_to_list_insert by apply lookup_delete_eq.
    rewrite <- (map_to_list_delete _ _ _ E). simpl. lia.
  - rewrite map_to_list_insert by done. simpl. lia.
Qed.

Lemma kill_slots_some ins s : s ∈ kill_slots ins -> is_Some (slot_get ins s).
Proof.
  unfold kill_slots. intros Hs.
  assert (forall (T : Type) (l : list T) (f : nat -> slot),
            s ∈ f <$> seq 0 (length l) -> exists k, s = f k /\ (k < length l)%nat) as Hseq.
  { intros T l f (k & -> & Hk)%list_elem_of_fmap. exists k. split; [done|].
    apply elem_of_seq in Hk. lia. }
  destruct (i_opcode ins); norm_range;
    repeat match goal with
    | H : _ ∈ _ ++ _ |- _ => apply elem_of_app in H as [H|H]
    | H : _ ∈ (if ?c then _ else _) |- _ => destruct c
    | H : _ ∈ _ :: _ |- _ => apply elem_of_cons in H as [->|H]
    | H : _ ∈ [] |- _ => by apply elem_of_nil in H
    | H : _ ∈ _ <$> seq 0 _ |- _ => apply Hseq in H as (k & -> & Hk)
    end; simpl; try done; by apply lookup_lt_is_Some.
Qed.

Lemma kins_kill_slots ins ins' s p :
  kins ins ins' -> s ∈ kill_slots ins' -> slot_get ins' s = Some p -> p <> VOID ->
  s ∈ kill_slots ins /\ slot_get ins s = Some p.
Proof.
  intros K Hs Hp Hv.
  assert (slot_get ins s = Some p) as Hp0.
  { destruct (kins_slot _ _ K s) as [E|[_ E]]; congruence. }
  split; [|done]. revert Hs. unfold kill_slots. rewrite (kins_opcode _ _ K).
  assert (forall s0, is_Some (slot_get ins' s0) <-> is_Some (slot_get ins s0)) as Hsome.
  { intros s0. destruct (kins_slot _ _ K s0) as [->|[? ->]]; [done|]. split; [done|by eexists]. }
  assert (length (i_phi_list ins') = length (i_phi_list ins)) as ->.
  { apply Nat.le_antisymm; apply Nat.nlt_ge; intros Hlt.
    - apply lookup_lt_is_Some in Hlt. apply (Hsome (PhiEntry _)) in Hlt.
      simpl in Hlt. apply lookup_lt_is_Some in Hlt. lia.
    - apply lookup_lt_is_Some in Hlt. apply (Hsome (PhiEntry _)) in Hlt.
      simpl in Hlt. apply lookup_lt_is_Some in Hlt. lia. }
  assert (length (i_arguments ins') = length (i_arguments ins)) as ->.
  { apply Nat.le_antisymm; apply Nat.nlt_ge; intros Hlt.
    - apply lookup_lt_is_Some in Hlt. apply (Hsome (ArgEntry _)) in Hlt.
      simpl in Hlt. apply lookup_lt_is_Some in Hlt. lia.
    - apply lookup_lt_is_Some in Hlt. apply (Hsome (ArgEntry _)) in Hlt.
      simpl in Hlt. apply lookup_lt_is_Some in Hlt. lia. }
  destruct (i_opcode ins); try done.
  rewrite !elem_of_app. intros [H|H]; [by left|]. right.
  destruct (bool_decide (ptype (i_src1 ins') = PSEUDO_REG)) eqn:E; [|by apply elem_of_nil in H].
  apply list_elem_of_singleton in H as ->. simpl in Hp, Hp0.
  injection Hp as Hp. injection Hp0 as Hp0. rewrite Hp0, <- Hp, E. by left.
Qed.

Lemma kstep_kill_ready st st' : kstep st st' -> kill_ready st -> kill_ready st'.
Proof.
  intros K R. constructor.
  - intros i ins' s p Hi Hs Hp Hup.
    assert (p <> VOID) as Hv by (by intros ->).
    destruct (insns st !! i) as [ins|] eqn:E; [|rewrite (ks_dom _ _ K _ E) in Hi; done].
    destruct (ks_insns _ _ K _ _ E) as (ins2 & Hi2 & Hk). rewrite Hi in Hi2.
    injection Hi2 as <-.
    destruct (kins_kill_slots _ _ _ _ Hk Hs Hp Hv) as [Hs0 Hp0].
    pose proof (kr_entry _ R _ _ _ _ E Hs0 Hp0 Hup) as Hc.
    rewrite <- (ks_count _ _ K p (i, s) Hup) in Hc.
    rewrite bool_decide_eq_false_2 in Hc; [lia|].
    intros [_ Hn]. apply Hn. unfold slot_of. simpl. by rewrite Hi.
  - intros p j Hd. rewrite (ks_defs _ _ K) in Hd. destruct (kr_defs _ R _ _ Hd) as [ins E].
    destruct (ks_insns _ _ K _ _ E) as (ins' & -> & _). done.
  - intros i ins' s x Hi Hs Hp.
    destruct (insns st !! i) as [ins|] eqn:E; [|rewrite (ks_dom _ _ K _ E) in Hi; done].
    destruct (ks_insns _ _ K _ _ E) as (ins2 & Hi2 & Hk). rewrite Hi in Hi2.
    injection Hi2 as <-.
    destruct (kins_kill_slots _ _ _ _ Hk Hs Hp) as [Hs0 Hp0]; [done|].
    by eapply (kr_nosym _ R).
Qed.

Lemma runs_bind {A B : Type} (m : M A) (f : A -> M B) st Q :
  runs_to m st (fun a st1 => runs_to (f a) st1 Q) -> runs_to (bind m f) st Q.
Proof.
  intros (a & st1 & Hm & b & st2 & Hf & HQ). exists b, st2. split; [|done].
  by rewrite (bind_eq _ _ _ _ _ Hm).
Qed.

Lemma runs_ret {A : Type} (a : A) st (Q : A -> state -> Prop) :
  Q a st -> runs_to (ret a) st Q.
Proof. intros HQ. by exists a, st. Qed.

Lemma runs_weaken {A : Type} (m : M A) st (Q Q' : A -> state -> Prop) :
  runs_to m st Q -> (forall a st', Q a st' -> Q' a st') -> runs_to m st Q'.
Proof. intros (a & st' & Hm & HQ) H. exists a, st'. auto. Qed.

Lemma read_slot_eq a st p : slot_of st a = Some p -> read_slot a st = Ok p st.
Proof. intros H. by apply read_slot_Ok. Qed.

Lemma write_slot_eq a p st ins :
  insns st !! a.1 = Some ins -> is_Some (slot_get ins a.2) ->
  write_slot a p st = Ok tt (with_insns (<[a.1 := slot_set ins a.2 p]> (insns st)) st).
Proof. intros H1 H2. apply write_slot_Ok. by exists ins. Qed.

Lemma total_uses_users st st' p l' :
  users st' = <[p:=l']> (users st) ->
  (total_uses st' + length (users_of st p))%nat = (total_uses st + length l')%nat.
Proof.
  intros E. rewrite <- (total_uses_insert st p l' (repeat_phase st)).
  unfold total_uses. simpl. by rewrite E.
Qed.

Lemma pseudo_def_ok st p :
  kill_ready st -> has_use_list p = true -> (forall x, p <> SYM x) ->
  ptr_ok st (pseudo_def st p).
Proof.
  intros R Hup Hs. destruct p; simpl; try done.
  - destruct (defs st !! REG nr) eqn:E; [|done]. by eapply (kr_defs _ R).
  - by destruct (Hs sym).
  - destruct (defs st !! ARG nr) eqn:E; [|done]. by eapply (kr_defs _ R).
  - destruct (defs st !! PHI nr) eqn:E; [|done]. by eapply (kr_defs _ R).
Qed.

Lemma kins_lengths ins ins' :
  kins ins ins' ->
  length (i_phi_list ins') = length (i_phi_list ins) /\
  length (i_arguments ins') = length (i_arguments ins).
Proof.
  intros K.
  assert (forall s0, is_Some (slot_get ins' s0) <-> is_Some (slot_get ins s0)) as Hsome.
  { intros s0. destruct (kins_slot _ _ K s0) as [->|[? ->]]; [done|]. split; [done|by eexists]. }
  split.
  - apply Nat.le_antisymm; apply Nat.nlt_ge; intros Hlt.
    + apply lookup_lt_is_Some in Hlt. apply (Hsome (PhiEntry _)) in Hlt.
      simpl in Hlt. apply lookup_lt_is_Some in Hlt. lia.
    + apply lookup_lt_is_Some in Hlt. apply (Hsome (PhiEntry _)) in Hlt.
      simpl in Hlt. apply lookup_lt_is_Some in Hlt. lia.
  - apply Nat.le_antisymm; apply Nat.nlt_ge; intros Hlt.
    + apply lookup_lt_is_Some in Hlt. apply (Hsome (ArgEntry _)) in Hlt.
      simpl in Hlt. apply lookup_lt_is_Some in Hlt. lia.
    + apply lookup_lt_is_Some in Hlt. apply (Hsome (ArgEntry _)) in Hlt.
      simpl in Hlt. apply lookup_lt_is_Some in Hlt. lia.
Qed.

(** Membership in the slots to unbind survives a kill, the function pointer
    of a call apart (it is unbound only while it is a REG). *)
Lemma kstep_slot_member st st' i ins s :
  kstep st st' -> insns st !! i = Some ins -> s ∈ kill_slots ins ->
  (i_opcode ins = OP_CALL -> s <> Src1) ->
  exists ins', insns st' !! i = Some ins' /\ s ∈ kill_slots ins'.
Proof.
  intros K Hi Hs Hc. destruct (ks_insns _ _ K _ _ Hi) as (ins' & Hi' & Hk).
  exists ins'. split; [done|]. revert Hs Hc. unfold kill_slots.
  rewrite (kins_opcode _ _ Hk). destruct (kins_lengths _ _ Hk) as [-> ->].
  destruct (i_opcode ins); try done.
  rewrite !elem_of_app. intros [H|H] Hc; [by left|].
  destruct (bool_decide _); [|by apply elem_of_nil in H].
  apply list_elem_of_singleton in H. by destruct Hc.
Qed.

Section KillTotal.

Variable k : insn_ptr -> M Z.
Variable n : nat.
Hypothesis k_total : forall ptr st,
  ptr_ok st ptr -> kill_ready st -> (total_uses st < n)%nat ->
  runs_to (k ptr) st
    (fun _ st' => kstep st st' /\ (total_uses st' <= total_uses st)%nat).

(** One [kill_use] of the chain that kills an instruction: [st0] is the
    state the chain started from. *)
Lemma kill_use_with_total st0 st i s :
  kill_ready st0 -> (total_uses st0 <= n)%nat ->
  kstep st0 st -> (total_uses st <= total_uses st0)%nat ->
  (exists ins, insns st !! i = Some ins /\ s ∈ kill_slots ins) ->
  runs_to (kill_use_with k (Some (i, s))) st
    (fun _ st' => kstep st0 st' /\ (total_uses st' <= total_uses st0)%nat).
Proof using k_total.
  intros R0 Hn K0 Hm (ins & Hi & Hs).
  pose proof (kstep_kill_ready _ _ K0 R0) as R.
  destruct (kill_slots_some _ _ Hs) as [p Hp].
  assert (slot_of st (i, s) = Some p) as Hso by (unfold slot_of; simpl; by rewrite Hi).
  unfold kill_use_with.
  apply runs_bind. exists p, st. split; [by apply read_slot_eq|].
  apply runs_bind. eexists tt, _. split; [apply (write_slot_eq (i, s) VOID st ins); by eauto|].
  set (st1 := with_insns _ st).
  unfold rem_usage_with. destruct (has_use_list p) eqn:Hup.
  - assert (forall x, p <> SYM x) as Hns.
    { intros x ->. by apply (kr_nosym _ R _ _ _ x Hi Hs). }
    rewrite bool_decide_eq_false_2 by (destruct p; try done; by destruct (Hns sym)).
    apply runs_bind. apply runs_ret.
    pose proof (kr_entry _ R _ _ _ _ Hi Hs Hp Hup) as Hpos.
    destruct (delete_entry_total p (i, s) st1 Hpos) as (l' & Hdel & Hsub & Hlen & Hcnt).
    apply runs_bind. eexists 0, _. split; [exact Hdel|].
    set (st3 := with_users _ st1).
    assert (kstep st st3) as K3.
    { eapply (kstep_unbind _ _ (i, s) p ins); try done.
      - rewrite Hup. by exists l'.
      - apply Z.land_diag. }
    assert (S (total_uses st3) = total_uses st) as Hm3.
    { pose proof (total_uses_users st st3 p l' eq_refl) as E.
      change (users_of st1 p) with (users_of st p) in Hlen.
      rewrite <- Hlen in E. revert E.
      generalize (total_uses st3), (total_uses st), (length l'). intros; lia. }
    apply runs_bind. exists l', st3. split.
    { unfold get_users, users_of, st3. simpl. by rewrite lookup_insert_eq. }
    simpl. destruct (decide (l' = [])) as [->|Hne].
    + rewrite bool_decide_eq_true_2 by done.
      apply runs_bind. apply runs_ret.
      apply runs_bind.
      assert (kill_ready st3) as R3 by (by eapply kstep_kill_ready).
      eapply runs_weaken; [apply k_total; [by apply pseudo_def_ok|done|lia]|].
      intros r st' [K Hle]. apply runs_ret. split; [|lia].
      eapply kstep_trans; [exact K0|]. eapply kstep_trans; [exact K3|exact K].
    + rewrite bool_decide_eq_false_2 by done. apply runs_ret. split; [|lia].
      eapply kstep_trans; [exact K0|exact K3].
  - apply runs_ret. split; [|done].
    eapply kstep_trans; [exact K0|].
    eapply (kstep_unbind _ _ (i, s) p ins); try done.
    + by rewrite Hup.
    + apply Z.land_diag.
Qed.

Lemma runs_seq_k {B : Type} (m : M unit) (f : unit -> M B) st (Q : B -> state -> Prop) :
  runs_to m st (kpost st) ->
  (forall st1, kstep st st1 -> (total_uses st1 <= total_uses st)%nat ->
     runs_to (f tt) st1 Q) ->
  runs_to (bind m f) st Q.
Proof.
  intros Hm Hf. apply runs_bind. eapply runs_weaken; [exact Hm|].
  intros [] st1 [K M1]. by apply Hf.
Qed.

Lemma kill_use_total st i s :
  kill_ready st -> (total_uses st <= n)%nat ->
  (exists ins, insns st !! i = Some ins /\ s ∈ kill_slots ins) ->
  runs_to (kill_use_with k (Some (i, s))) st (kpost st).
Proof using k_total.
  intros R Hn Hi. apply (kill_use_with_total st st); auto using kstep_refl.
Qed.

Lemma kill_use_list_loop_total i entry ks : forall st,
  kill_ready st -> (total_uses st <= n)%nat ->
  (forall st', kstep st st' ->
     exists ins, insns st' !! i = Some ins /\ forall x, x ∈ ks -> entry x ∈ kill_slots ins) ->
  runs_to (kill_use_list_loop k i entry ks) st (kpost st).
Proof using k_total.
  induction ks as [|x ks IH]; intros st R Hn Hks; cbn [kill_use_list_loop].
  - apply runs_ret. split; [apply kstep_refl|done].
  - destruct (Hks st (kstep_refl st)) as (ins & Hi & Hin).
    destruct (kill_slots_some ins (entry x)) as [p Hp]; [apply Hin; by left|].
    apply runs_bind. exists p, st. split.
    { apply read_slot_eq. unfold slot_of. simpl. by rewrite Hi. }
    assert (runs_to (if decide (p = VOID) then ret tt
                     else kill_use_with k (Some (i, entry x))) st (kpost st)) as Hstep.
    { destruct (decide (p = VOID)).
      - apply runs_ret. split; [apply kstep_refl|done].
      - apply kill_use_total; [done|done|]. exists ins. split; [done|]. apply Hin. by left. }
    apply runs_seq_k; [exact Hstep|]. intros st1 K1 M1.
    eapply runs_weaken.
    + apply IH; [by eapply kstep_kill_ready|lia|].
      intros st' K'. destruct (Hks st' (kstep_trans _ _ _ K1 K')) as (ins' & Hi' & Hin').
      exists ins'. split; [done|]. intros y Hy. apply Hin'. by right.
    + intros [] st2 [K2 M2]. split; [by eapply kstep_trans|lia].
Qed.

Lemma kill_finish_total st i :
  is_Some (insns st !! i) -> runs_to (kill_finish i) st (kpost st).
Proof.
  intros [ins Hi]. unfold kill_finish, update_insn.
  apply runs_bind. eexists tt, _. split.
  { rewrite (bind_eq _ _ _ _ _ (load_insn_eq _ _ _ Hi)). reflexivity. }
  eexists _, _. split; [reflexivity|]. split; [|done].
  eapply kstep_trans; [by apply kstep_set_bb|apply kstep_phase].
Qed.

Lemma kill_insn_body_total ptr force st :
  ptr_ok st ptr -> kill_ready st -> (total_uses st <= n)%nat ->
  runs_to (kill_insn_body k ptr force) st (kpost st).
Proof using k_total.
  intros Hptr R Hn. unfold kill_insn_body.
  destruct ptr as [|i|]; [apply runs_ret; split; [apply kstep_refl|done]| |done].
  destruct Hptr as [ins Hi].
  apply runs_bind. exists ins, st. split; [by apply load_insn_eq|].
  destruct (i_bb ins); [|apply runs_ret; split; [apply kstep_refl|done]].
  assert (forall st', kstep st st' -> kill_ready st') as HR
    by (intros; by eapply kstep_kill_ready).
  assert (forall st', kstep st st' -> is_Some (insns st' !! i)) as HI.
  { intros st' K. destruct (ks_insns _ _ K _ _ Hi) as (ins' & -> & _). done. }
  destruct (i_opcode ins) eqn:Hop; norm_range; cbv iota.
  all: try (apply runs_ret; split; [apply kstep_refl|done]).
  all: repeat first
    [ match goal with
      | |- runs_to (if ?c then _ else _) _ _ => destruct c eqn:?
      | |- runs_to (ret _) _ _ => apply runs_ret; split; [kchain|lia]
      | |- runs_to (bind (kill_use_with _ (Some (_, ?s))) _) _ _ =>
          apply runs_seq_k;
          [ apply kill_use_total;
            [ apply HR; kchain | lia
            | apply (kstep_slot_member st _ i ins s);
              [ kchain | exact Hi
              | unfold kill_slots; rewrite Hop; norm_range; set_solver
              | rewrite Hop; done ] ]
          | intros ? ? ? ]
      | |- runs_to (bind (or_repeat_phase _) _) _ _ =>
          apply runs_bind; eexists _, _; split; [reflexivity|];
          pose proof (kstep_phase st REPEAT_SYMBOL_CLEANUP)
      | |- runs_to (kill_finish _) _ _ =>
          eapply runs_weaken; [apply kill_finish_total; apply HI; kchain|];
          intros ? ? [? ?]; split; [kchain|lia]
      end ].
  - (* OP_SYMADDR *)
    eapply runs_weaken; [apply kill_finish_total; apply HI; kchain|].
    intros ? ? [? Hle]; split; [kchain|exact Hle].
  - (* OP_PHI *)
    apply runs_seq_k.
    + unfold kill_use_list_phi. apply runs_bind. exists ins, st.
      split; [by apply load_insn_eq|].
      apply kill_use_list_loop_total; [done|done|].
      intros st' K'. destruct (ks_insns _ _ K' i ins Hi) as (ins' & Hi' & Ki).
      exists ins'. split; [done|]. intros x Hx.
      unfold kill_slots. rewrite (kins_opcode _ _ Ki), Hop.
      destruct (kins_lengths _ _ Ki) as [-> _]. by apply list_elem_of_fmap_2.
    + intros st1 K1 M1.
      eapply runs_weaken; [apply kill_finish_total; apply HI; kchain|].
      intros ? ? [? ?]; split; [kchain|lia].
  - (* OP_CALL *)
    apply runs_bind. exists st, st. split; [reflexivity|].
    destruct (negb force && negb (bool_decide (ptype (i_src1 ins) = PSEUDO_SYM)));
      [apply runs_ret; split; [apply kstep_refl|done]|].
    destruct (negb force && negb _);
      [apply runs_ret; split; [apply kstep_refl|done]|].
    apply runs_seq_k.
    + unfold kill_use_list_args. apply runs_bind. exists ins, st.
      split; [by apply load_insn_eq|].
      apply kill_use_list_loop_total; [done|done|].
      intros st' K'. destruct (ks_insns _ _ K' i ins Hi) as (ins' & Hi' & Ki).
      exists ins'. split; [done|]. intros x Hx.
      unfold kill_slots. rewrite (kins_opcode _ _ Ki), Hop.
      destruct (kins_lengths _ _ Ki) as [_ ->].
      apply elem_of_app. left. by apply list_elem_of_fmap_2.
    + intros st1 K1 M1.
      destruct (ks_insns _ _ K1 i ins Hi) as (ins1 & Hi1 & Ki1).
      apply runs_bind. exists ins1, st1. split; [by apply load_insn_eq|].
      apply runs_seq_k.
      * destruct (bool_decide (ptype (i_src1 ins1) = PSEUDO_REG)) eqn:Hreg.
        -- eapply runs_weaken.
           ++ apply kill_use_total; [by apply HR|lia|].
              exists ins1. split; [done|].
              unfold kill_slots. rewrite (kins_opcode _ _ Ki1), Hop, Hreg.
              apply elem_of_app. right. by left.
           ++ intros [] st2 [K2 M2]. split; [exact K2|exact M2].
        -- apply runs_ret. split; [apply kstep_refl|done].
      * intros st2 K2 M2.
        eapply runs_weaken; [apply kill_finish_total; apply HI; kchain|].
        intros ? ? [? ?]; split; [kchain|lia].
Qed.

End KillTotal.

Lemma kill_insn_total fuel : forall ptr force st,
  ptr_ok st ptr -> kill_ready st -> (total_uses st < fuel)%nat ->
  runs_to (kill_insn fuel ptr force) st (kpost st).
Proof.
  induction fuel as [|fuel IH]; intros ptr force st Hptr R Hn; [lia|].
  cbn [kill_insn].
  apply (kill_insn_body_total (fun d => kill_insn fuel d false) fuel); [|done|done|lia].
  intros d st' Hd R' Hn'. by apply IH.
Qed.

(** ** Readiness by evaluation *)

Lemma kill_ready_check_ok st : kill_ready_check st = true -> kill_ready st.
Proof.
  unfold kill_ready_check. intros [H1 H2]%andb_prop.
  apply bool_decide_eq_true_1 in H1. apply bool_decide_eq_true_1 in H2.
  assert (forall i ins s, insns st !! i = Some ins -> s ∈ kill_slots ins ->
            slot_ready st i ins s = true) as Hs.
  { intros i ins s Hi Hin. specialize (H1 i ins Hi). simpl in H1.
    rewrite forallb_forall in H1. apply H1. by apply list_elem_of_In. }
  constructor.
  - intros i ins s p Hi Hin Hp Hu. specialize (Hs i ins s Hi Hin).
    unfold slot_ready in Hs. rewrite Hp, Hu in Hs. simpl in Hs.
    apply andb_prop in Hs as [Hs _]. by apply bool_decide_eq_true_1 in Hs.
  - intros p j Hp. exact (H2 p j Hp).
  - intros i ins s x Hi Hin Hp. specialize (Hs i ins s Hi Hin).
    unfold slot_ready in Hs. rewrite Hp in Hs. simpl in Hs.
    by rewrite andb_false_r in Hs.
Qed.

Example kill_ready_neg_of_add : kill_ready Scenario.neg_of_add.
Proof. apply kill_ready_check_ok. vm_compute. reflexivity. Qed.

(** ** The kill contract *)

Lemma kill_insn_refused fuel i ins st force :
  insns st !! i = Some ins -> is_live ins = true -> refused st force ins = true ->
  kill_insn (S fuel) (InsnAt i) force st = Ok 0 st.
Proof.
  intros Hi Hlive Href. cbn [kill_insn]. unfold kill_insn_body.
  rewrite (bind_eq _ _ _ _ _ (load_insn_eq _ _ _ Hi)).
  unfold is_live in Hlive. destruct (i_bb ins); [clear Hlive|done].
  unfold refused in Href.
  destruct (i_opcode ins); norm_range; try discriminate Href; try reflexivity.
  all: destruct force; simpl in Href; try discriminate Href; simpl.
  all: rewrite ?Href; try reflexivity.
  (* OP_CALL *)
  unfold bind, get_state. destruct (i_src1 ins); simpl in *; try reflexivity.
  by rewrite Href.
Qed.

Lemma kill_insn_done fuel i ins st force :
  insns st !! i = Some ins -> is_live ins = true ->
  kill_ready st -> (total_uses st < fuel)%nat ->
  refused st force ins = false ->
  exists r st' ins',
    kill_insn fuel (InsnAt i) force st = Ok r st' /\
    kstep st st' /\
    Z.land r REPEAT_CSE = REPEAT_CSE /\
    insns st' !! i = Some ins' /\ i_bb ins' = None /\
    (forall s, s ∈ kill_slots ins -> slot_get ins' s = Some VOID) /\
    (forall s p, s ∈ kill_slots ins -> slot_get ins s = Some p -> has_use_list p = true ->
       S (count_slot (i, s) (users_of st' p)) = count_slot (i, s) (users_of st p)).
Proof.
  intros Hi Hlive R Hn Href.
  destruct (kill_insn_total fuel (InsnAt i) force st) as (r & st' & Hrun & K & _);
    [by eexists|done|done|].
  destruct fuel as [|fuel]; [done|].
  pose proof Hrun as Hpost. cbn [kill_insn] in Hpost.
  apply (kill_insn_body_post _ (fun d s r' s' => kill_insn_kstep fuel d false s r' s')
           i force st r st' ins Hi Hlive Href) in Hpost
    as (Hvoid & (ins' & Hi' & Hdead) & Hcse).
  exists r, st', ins'. do 5 (split; [done|]). split.
  - intros s Hs. specialize (Hvoid s Hs). unfold slot_of in Hvoid. simpl in Hvoid.
    by rewrite Hi' in Hvoid.
  - intros s p Hs Hp Hu. rewrite <- (ks_count _ _ K p (i, s) Hu).
    rewrite bool_decide_eq_true_2; [lia|].
    split.
    + unfold slot_of. simpl. by rewrite Hi.
    + rewrite (Hvoid s Hs). intros [= <-]. done.
Qed.



(** The successful case on [%r1 = add %arg0, %arg1; %r2 = neg %r1]: killing
    the negation cascades into the addition, whose result lost its last
    user. *)
Example kill_neg_of_add :
  match kill_insn 3 (InsnAt 2) false Scenario.neg_of_add with
  | Ok r st' =>
      r = REPEAT_CSE /\
      (i_bb <$> insns st' !! 2%nat) = Some None /\
      (i_src1 <$> insns st' !! 2%nat) = Some VOID /\
      (i_bb <$> insns st' !! 1%nat) = Some None /\
      users_of st' (REG 1) = [] /\ users_of st' (ARG 0) = [] /\ users_of st' (ARG 1) = []
  | Err _ => False
  end.
Proof. vm_compute. repeat split; reflexivity. Qed.

(** ** The cascade reaps the definitions it orphans *)

Lemma refused_kins st st' ins ins' :
  symtab st' = symtab st -> kins ins ins' ->
  refused st false ins = true -> refused st' false ins' = true.
Proof.
  intros Hs K. unfold refused.
  rewrite (kins_opcode _ _ K), (kins_type _ _ K), Hs.
  destruct (i_opcode ins); try done.
  destruct (kins_slot _ _ K Src1) as [E|[_ E]]; simpl in E.
  - by injection E as ->.
  - by injection E as ->.
Qed.

Lemma target_reaped_kstep st st' d :
  kstep st st' -> target_reaped st d -> target_reaped st' d.
Proof.
  intros K. destruct d as [|j|]; try done. simpl.
  intros (ins & Hi & Hd). destruct (ks_insns _ _ K j ins Hi) as (ins' & Hi' & Ki).
  exists ins'. split; [done|]. destruct Hd as [Hd|Hd].
  - left. destruct (kins_bb _ _ Ki) as [E|E]; congruence.
  - right. eapply refused_kins; [apply (ks_symtab _ _ K)|done|done].
Qed.

Lemma pseudo_def_kstep st st' p : kstep st st' -> pseudo_def st' p = pseudo_def st p.
Proof. intros K. unfold pseudo_def. by rewrite (ks_defs _ _ K). Qed.

Lemma reaped_kstep st st' p : kstep st st' -> reaped st p -> reaped st' p.
Proof.
  intros K. unfold reaped. rewrite (pseudo_def_kstep _ _ _ K). by apply target_reaped_kstep.
Qed.

Lemma kreap_refl st : kreap st st.
Proof. split; [apply kstep_refl|]. intros p _ H1 H2. done. Qed.

Lemma kreap_trans st1 st2 st3 : kreap st1 st2 -> kreap st2 st3 -> kreap st1 st3.
Proof.
  intros [K1 O1] [K2 O2]. split; [by eapply kstep_trans|].
  intros p Hu H3 H1. destruct (users_of st2 p) as [|x l] eqn:E.
  - eapply reaped_kstep; [done|]. by apply O1.
  - apply O2; [done|done|]. by rewrite E.
Qed.

Lemma kreap_same_users st st' : kstep st st' -> users st' = users st -> kreap st st'.
Proof.
  intros K E. split; [done|]. intros p _ H1 H2. unfold users_of in *. by rewrite E in H1.
Qed.

Ltac rchain :=
  first [ eassumption
        | apply kreap_refl
        | eapply kreap_trans; [eassumption | rchain] ].

Lemma kill_finish_kreap i st r st' : kill_finish i st = Ok r st' -> kreap st st'.
Proof.
  intros H. apply kreap_same_users; [by apply kill_finish_Ok in H as (H & _)|].
  unfold kill_finish in H. inv_run.
  apply update_insn_Ok in Hrun as (ins & Hi & ->).
  by apply or_repeat_phase_Ok in Hrun0 as [-> ->].
Qed.

Lemma kreap_phase st bits : kreap st (with_repeat_phase (Z.lor (repeat_phase st) bits) st).
Proof. apply kreap_same_users; [apply kstep_phase|done]. Qed.

Section KillReap.

Variable k : insn_ptr -> M Z.
Hypothesis k_reap : forall d st r st',
  k d st = Ok r st' -> kreap st st' /\ target_reaped st' d.

Lemma k_reap_frame d st r st' : k d st = Ok r st' -> kstep st st'.
Proof using k_reap. intros H. by apply k_reap in H as [[K _] _]. Qed.

Lemma kill_use_with_kreap usep st u st' :
  kill_use_with k usep st = Ok u st' -> kreap st st'.
Proof using k_reap.
  intros H. split; [by apply (kill_use_with_kstep k k_reap_frame) in H|].
  destruct usep as [a|]; simpl in H; [|apply ret_Ok in H as [_ <-]; apply kreap_refl].
  apply bind_Ok in H as (p & s1 & H1 & H). apply read_slot_Ok in H1 as [Hp ->].
  apply bind_Ok in H as (u1 & s2 & H2 & H).
  apply write_slot_Ok in H2 as (ins & Hins & Hsome & ->).
  apply rem_usage_with_Ok in H.
  intros q Hq Hq' Hq0.
  destruct (has_use_list p) eqn:Hup; [|subst st'; done].
  destruct H as (x & l' & Hx & Hpos & Hsub & Hlen & Hcnt & Hend).
  assert (forall m y, users_of (with_users (<[p:=l']> m) y) q
                      = if decide (q = p) then l' else default [] (m !! q)) as Hu.
  { intros m y. unfold users_of. simpl. destruct (decide (q = p)) as [->|Hne].
    - by rewrite lookup_insert_eq.
    - by rewrite lookup_insert_ne. }
  destruct Hend as [[-> Hl]|(_ & -> & r & Hk)].
  - rewrite Hu in Hq'. destruct (decide (q = p)).
    + destruct Hl as [?|?]; done.
    + done.
  - apply k_reap in Hk as [[K O] T]. destruct (decide (q = p)) as [->|Hne].
    + unfold reaped. by rewrite (pseudo_def_kstep _ _ _ K).
    + apply O; [done|done|]. rewrite Hu. destruct (decide (q = p)); [done|].
      exact Hq0.
Qed.

Lemma kill_use_list_loop_kreap insn entry ks st u st' :
  kill_use_list_loop k insn entry ks st = Ok u st' -> kreap st st'.
Proof using k_reap.
  revert st. induction ks as [|x ks IH]; intros st H; cbn [kill_use_list_loop] in H.
  - apply ret_Ok in H as [_ <-]. apply kreap_refl.
  - apply bind_Ok in H as (p & s1 & H1 & H). apply read_slot_Ok in H1 as [_ ->].
    apply bind_Ok in H as (u1 & s2 & H2 & H). apply IH in H.
    destruct (decide (p = VOID)).
    + apply ret_Ok in H2 as [_ <-]. done.
    + apply kill_use_with_kreap in H2. rchain.
Qed.

Lemma kill_insn_body_kreap insn force st r st' :
  kill_insn_body k insn force st = Ok r st' -> kreap st st'.
Proof using k_reap.
  unfold kill_insn_body, kill_use_list_phi, kill_use_list_args.
  destruct insn as [|i|]; [intros H; inv_run; apply kreap_refl| |done].
  intros H. inv_run.
  destruct (i_bb a); [|inv_run; apply kreap_refl].
  destruct (i_opcode a);
    repeat first
      [ progress inv_run
      | match goal with
        | H : (if ?c then _ else _) _ = Ok _ _ |- _ => destruct c eqn:?
        | H : kill_use_with _ _ _ = Ok _ _ |- _ => apply kill_use_with_kreap in H
        | H : kill_use_list_loop _ _ _ _ _ = Ok _ _ |- _ => apply kill_use_list_loop_kreap in H
        | H : kill_finish _ _ = Ok _ _ |- _ => apply kill_finish_kreap in H
        | H : or_repeat_phase _ _ = Ok _ _ |- _ => apply or_repeat_phase_Ok in H as [-> ->]
        end ];
    try (apply kreap_refl); try rchain;
    try (eapply kreap_trans; [apply kreap_phase|rchain]).
Qed.

Lemma kill_insn_body_reaped insn st r st' :
  kill_insn_body k insn false st = Ok r st' -> target_reaped st' insn.
Proof using k_reap.
  intros H. destruct insn as [|i|]; [done| |done]. simpl.
  pose proof H as H0. unfold kill_insn_body in H0.
  apply bind_Ok in H0 as (ins & s1 & H1 & H0). apply load_insn_Ok in H1 as [Hi ->].
  destruct (i_bb ins) eqn:Hbb.
  - destruct (refused st false ins) eqn:Href.
    + pose proof (kill_insn_body_kstep k k_reap_frame _ _ _ _ _ H) as K.
      apply (target_reaped_kstep st st' (InsnAt i) K).
      exists ins. split; [done|by right].
    + assert (is_live ins = true) as Hl by (unfold is_live; by rewrite Hbb).
      destruct (kill_insn_body_post k k_reap_frame i false st r st' ins Hi Hl Href H)
        as (_ & (ins' & Hi' & Hd) & _).
      exists ins'. split; [done|by left].
  - apply ret_Ok in H0 as [_ <-]. exists ins. split; [done|by left].
Qed.

End KillReap.

Lemma kill_insn_kreap fuel : forall insn force st r st',
  kill_insn fuel insn force st = Ok r st' ->
  kreap st st' /\ (force = false -> target_reaped st' insn).
Proof.
  induction fuel as [|n IH]; [done|].
  intros insn force st r st' H. cbn [kill_insn] in H.
  assert (forall d s r' s', kill_insn n d false s = Ok r' s' ->
            kreap s s' /\ target_reaped s' d) as Hk.
  { intros d s r' s' Hd. destruct (IH _ _ _ _ _ Hd) as [? ?]. split; [done|auto]. }
  split.
  - by apply (kill_insn_body_kreap _ Hk) in H.
  - intros ->. by apply (kill_insn_body_reaped _ Hk) in H.
Qed.

(** ** The kill of a φ-node *)




(** ** The evaluator on the overflowing signed division *)

Lemma eval_insn_min_by_minus_one_check :
  forallb (fun n => bool_decide
             (eval_insn n OP_DIVS (2 ^ (n - 1)) (2 ^ n - 1) = Folded (2 ^ (n - 1)) /\
              eval_insn n OP_MODS (2 ^ (n - 1)) (2 ^ n - 1) = Folded 0 /\
              eval_insn n OP_DIVS (- 2 ^ (n - 1)) (-1) = Folded (2 ^ (n - 1)) /\
              eval_insn n OP_MODS (- 2 ^ (n - 1)) (-1) = Folded 0))
          (Z.of_nat <$> seq 1 63) = true.
Proof. vm_compute. reflexivity. Qed.

(** C2.  For every width [n] below 64 the evaluator does not abandon the
    fold of DIVS or MODS on the pair (MIN_n, -1), whether the operands are
    given as the [n]-bit patterns [2^(n-1)] and [2^n - 1] or as the
    sign-extended values: the comparison [left == mask] sets the
    sign-extended [left] against the positive [mask], and the fold goes on to
    the VAL [2^(n-1)] (the pattern of MIN_n) for DIVS and to the VAL 0 for
    MODS. *)
Theorem eval_insn_folds_min_by_minus_one n :
  1 <= n < 64 ->
  eval_insn n OP_DIVS (2 ^ (n - 1)) (2 ^ n - 1) = Folded (2 ^ (n - 1)) /\
  eval_insn n OP_MODS (2 ^ (n - 1)) (2 ^ n - 1) = Folded 0 /\
  eval_insn n OP_DIVS (- 2 ^ (n - 1)) (-1) = Folded (2 ^ (n - 1)) /\
  eval_insn n OP_MODS (- 2 ^ (n - 1)) (-1) = Folded 0.
Proof.
  intros Hn. pose proof eval_insn_min_by_minus_one_check as H.
  rewrite forallb_forall in H.
  specialize (H n). apply bool_decide_eq_true_1 in H; [done|].
  apply list_elem_of_In, list_elem_of_fmap. exists (Z.to_nat n). split; [lia|].
  apply elem_of_seq. lia.
Qed.

Lemma eval_insn_folds_min_by_minus_one_witness :
  eval_insn 32 OP_DIVS (2 ^ (32 - 1)) (2 ^ 32 - 1) = Folded (2 ^ (32 - 1)) /\
  eval_insn 32 OP_MODS (2 ^ (32 - 1)) (2 ^ 32 - 1) = Folded 0 /\
  eval_insn 32 OP_DIVS (- 2 ^ (32 - 1)) (-1) = Folded (2 ^ (32 - 1)) /\
  eval_insn 32 OP_MODS (- 2 ^ (32 - 1)) (-1) = Folded 0.
Proof. apply (eval_insn_folds_min_by_minus_one 32). lia. Defined.

(** ** The use-list invariant under the primitives *)

Lemma counts_ok_ext st sur sur' :
  (forall p a, has_use_list p = true -> sur p a = sur' p a) ->
  counts_ok st sur -> counts_ok st sur'.
Proof. intros E H p a Hp Ha. rewrite <- (E p a Hp). by apply H. Qed.

Lemma lists_ok_ext st sur sur' :
  (forall p a, has_use_list p = true -> sur p a = sur' p a) ->
  lists_ok st sur -> lists_ok st sur'.
Proof. intros E (H1 & H2 & H3). split; [by eapply counts_ok_ext|done]. Qed.

Lemma slot_set_bb ins s p : i_bb (slot_set ins s p) = i_bb ins.
Proof. done. Qed.

Lemma slot_set_opcode ins s p : i_opcode (slot_set ins s p) = i_opcode ins.
Proof. done. Qed.

Lemma live_operand_insert st i ins ins' a :
  insns st !! i = Some ins ->
  (is_live ins' = true -> is_live ins = true) ->
  (forall s, is_live ins' = true -> tracked ins' s = true -> tracked ins s = true) ->
  live_operand (with_insns (<[i:=ins']> (insns st)) st) a -> live_operand st a.
Proof.
  intros Hi Hl Ht (x & Hx & Hlx & Htx). simpl in Hx.
  destruct (decide (i = a.1)) as [->|Hne].
  - rewrite lookup_insert_eq in Hx. injection Hx as <-.
    exists ins. split; [done|]. split; [by apply Hl|by apply Ht].
  - rewrite lookup_insert_ne in Hx by done. by exists x.
Qed.

Lemma slot_of_write st a ins q b :
  insns st !! a.1 = Some ins -> is_Some (slot_get ins a.2) ->
  slot_of (with_insns (<[a.1 := slot_set ins a.2 q]> (insns st)) st) b =
  if decide (b = a) then Some q else slot_of st b.
Proof.
  intros Hi Hs. rewrite slot_of_insert. destruct a as [i s], b as [j t]. simpl in *.
  destruct (decide (i = j)) as [->|Hne].
  - rewrite (slot_get_set _ _ _ _ Hs). unfold slot_of. simpl. rewrite Hi.
    destruct (decide (s = t)) as [->|Hst].
    + by rewrite decide_True.
    + rewrite decide_False; [done|]. intros [= ?]. done.
  - rewrite decide_False; [done|]. intros [= ? ?]. done.
Qed.

Lemma entries_valid_insert st i ins ins' :
  insns st !! i = Some ins ->
  (forall s, is_Some (slot_get ins s) -> is_Some (slot_get ins' s)) ->
  entries_valid st -> entries_valid (with_insns (<[i:=ins']> (insns st)) st).
Proof.
  intros Hi Hs H p pu Hin. specialize (H p pu Hin). rewrite slot_of_insert.
  destruct (decide (i = (userp pu).1)) as [->|Hne]; [|done].
  apply Hs. unfold slot_of in H. by rewrite Hi in H.
Qed.

Lemma slot_set_is_Some ins s q t :
  is_Some (slot_get ins t) -> is_Some (slot_get (slot_set ins s q) t).
Proof.
  intros H. destruct (decide (s = t)) as [->|Hne].
  - rewrite slot_get_set_eq; [by eexists|done].
  - by rewrite slot_get_set_ne.
Qed.

(** [*a = q] where the slot held [o]. *)
Lemma lists_ok_write a q st u st' sur o :
  write_slot a q st = Ok u st' -> slot_of st a = Some o ->
  lists_ok st sur ->
  lists_ok st' (fun p b => sur p b +
     if decide (b = a) then b2z (bool_decide (o = p)) - b2z (bool_decide (q = p)) else 0).
Proof.
  intros H Ho (Hc & Hv & Hn).
  apply write_slot_Ok in H as (ins & Hi & Hs & ->).
  split; [|split; [|exact Hn]];
    [|apply (entries_valid_insert _ _ ins); [done| |done];
      intros t; apply slot_set_is_Some].
  intros p b Hp Hb.
  apply (live_operand_insert st a.1 ins _ b Hi) in Hb; [|done|done].
  specialize (Hc p b Hp Hb).
  change (users_of (with_insns _ st) p) with (users_of st p).
  rewrite Hc, (slot_of_write _ _ _ _ _ Hi Hs).
  destruct (decide (b = a)) as [->|Hne]; [|lia].
  rewrite Ho.
  repeat case_bool_decide; simplify_eq; simpl; lia.
Qed.

(** One more entry for [p] at [a]. *)
Lemma lists_ok_append p i a st sur :
  has_use_list p = true -> is_Some (slot_of st a) ->
  lists_ok st sur ->
  lists_ok (with_users (<[p := users_of st p ++ [{| pu_insn := i; userp := a |}]]> (users st)) st)
    (fun q b => sur q b + if decide (q = p /\ b = a) then 1 else 0).
Proof.
  intros Hp Ha (Hc & Hv & Hn). split; [|split].
  - intros q b Hq Hb.
    assert (live_operand st b) as Hb' by exact Hb.
    specialize (Hc q b Hq Hb'). rewrite users_of_insert.
    change (slot_of (with_users _ st) b) with (slot_of st b).
    destruct (decide (p = q)) as [->|Hne].
    + rewrite count_slot_app, count_slot_cons, count_slot_nil. cbn [userp].
      destruct (decide (a = b)) as [->|Hab].
      * rewrite !decide_True by done. lia.
      * rewrite !decide_False by (try intros [_ ?]; done). lia.
    + rewrite decide_False by (intros [? _]; done). lia.
  - intros q pu. rewrite users_of_insert. destruct (decide (p = q)) as [->|Hne].
    + intros [Hin| ->%list_elem_of_singleton]%elem_of_app; [by apply (Hv q)|done].
    + apply (Hv q).
  - intros q Hq. rewrite users_of_insert. destruct (decide (p = q)) as [->|Hne]; [congruence|].
    by apply Hn.
Qed.

(** [use_pseudo(insn, q, a)] where the slot held [o]: the entry of [o] at
    [a] is now in surplus. *)
Lemma use_pseudo_lists_ok i q a st u st' sur o :
  use_pseudo i q a st = Ok u st' -> slot_of st a = Some o ->
  lists_ok st sur ->
  lists_ok st' (fun p b => sur p b + if decide (b = a) then b2z (bool_decide (o = p)) else 0).
Proof.
  intros H Ho L. unfold use_pseudo in H.
  apply bind_Ok in H as ([] & st1 & H1 & H).
  pose proof (lists_ok_write _ _ _ _ _ _ _ H1 Ho L) as L1.
  apply write_slot_Ok in H1 as (ins & Hi & Hs & ->).
  destruct (has_use_list q) eqn:Hq.
  - unfold bind, get_users, set_users in H. injection H as H. subst st'.
    assert (is_Some (slot_of (with_insns (<[a.1:=slot_set ins a.2 q]> (insns st)) st) a))
      as Ha by (rewrite (slot_of_write _ _ _ _ _ Hi Hs), decide_True by done; by eexists).
    pose proof (lists_ok_append q i a _ _ Hq Ha L1) as L2.
    eapply lists_ok_ext; [|exact L2].
    intros p b Hp. simpl. destruct (decide (b = a)) as [->|Hne].
    + destruct (decide (p = q)) as [->|Hpq].
      * rewrite decide_True by done. rewrite (bool_decide_eq_true_2 (q = q)) by done.
        simpl. lia.
      * rewrite decide_False by (intros [? _]; done).
        rewrite (bool_decide_eq_false_2 (q = p)) by done. simpl. lia.
    + rewrite decide_False by (intros [_ ?]; done). lia.
  - apply ret_Ok in H as [_ <-].
    eapply lists_ok_ext; [|exact L1].
    intros p b Hp. simpl. destruct (decide (b = a)); [|done].
    rewrite (bool_decide_eq_false_2 (q = p)) by (intros ->; congruence). simpl. lia.
Qed.

Lemma same_shape_live st st' a : same_shape st st' -> live_operand st' a -> live_operand st a.
Proof.
  intros S (y & Hy & Hl & Ht). specialize (S a.1). rewrite Hy in S.
  destruct (insns st !! a.1) as [x|] eqn:Hx; [|done]. destruct S as [Sb So].
  exists x. split; [done|]. unfold is_live, tracked in *. rewrite <- Sb, <- So. done.
Qed.

Lemma kstep_live st st' a : kstep st st' -> live_operand st' a -> live_operand st a.
Proof.
  intros K (y & Hy & Hl & Ht).
  destruct (insns st !! a.1) as [x|] eqn:Hx; [|by rewrite (ks_dom _ _ K _ Hx) in Hy].
  destruct (ks_insns _ _ K _ _ Hx) as (y' & Hy' & Ki). assert (y' = y) as -> by congruence.
  exists x. split; [done|]. unfold is_live, tracked in *.
  rewrite <- (kins_opcode _ _ Ki). split; [|done].
  destruct (kins_bb _ _ Ki) as [E|E]; rewrite E in Hl; [done|done].
Qed.

(** A frame step keeps the invariant, whatever the surplus. *)
Lemma kstep_lists_ok st st' sur : kstep st st' -> lists_ok st sur -> lists_ok st' sur.
Proof.
  intros K (Hc & Hv & Hn). split; [|split].
  - intros p a Hp Ha. pose proof (kstep_live _ _ _ K Ha) as Ha0.
    specialize (Hc p a Hp Ha0). pose proof (ks_count _ _ K p a Hp) as Hk.
    assert (p <> VOID) as Hvoid by (by intros ->).
    destruct (kstep_slot _ _ a K) as [E|[_ E]]; rewrite E in *.
    + rewrite bool_decide_eq_false_2 in Hk by (intros [? ?]; done). lia.
    + rewrite (bool_decide_eq_false_2 (Some VOID = Some p)) by congruence.
      case_bool_decide as Hd.
      * rewrite bool_decide_eq_true_2 in Hc by (by destruct Hd). simpl in *. lia.
      * assert (slot_of st a <> Some p) as Hne.
        { intros Hs. apply Hd. split; [done|congruence]. }
        rewrite bool_decide_eq_false_2 in Hc by done. simpl in *. lia.
  - intros p pu Hin.
    assert (pu ∈ users_of st p) as Hin0.
    { eapply elem_of_sublist; [done|apply (ks_sublist _ _ K)]. }
    specialize (Hv p pu Hin0).
    destruct (kstep_slot _ _ (userp pu) K) as [E|[_ E]]; rewrite E; [done|by eexists].
  - intros p Hp. pose proof (ks_sublist _ _ K p) as Hs. rewrite (Hn p Hp) in Hs.
    by apply sublist_nil_r in Hs.
Qed.

Lemma lists_ok_delete p a l' x st sur :
  has_use_list p = true ->
  (0 < count_slot a (users_of st p))%nat ->
  sublist l' (users_of st p) ->
  (forall b, count_slot b l' =
     (count_slot b (users_of st p) - (if decide (b = a) then 1 else 0))%nat) ->
  lists_ok st sur ->
  lists_ok (with_users (<[p:=l']> (users st)) (with_repeat_phase x st))
    (fun q b => sur q b - if decide (q = p /\ b = a) then 1 else 0).
Proof.
  intros Hp Hpos Hsub Hcnt (Hc & Hv & Hn). split; [|split].
  - intros q b Hq Hb. specialize (Hc q b Hq Hb).
    change (slot_of (with_users _ _) b) with (slot_of st b).
    assert (users_of (with_users (<[p:=l']> (users st)) (with_repeat_phase x st)) q
            = if decide (p = q) then l' else users_of st q) as ->.
    { unfold users_of. simpl. rewrite lookup_insert. by destruct (decide (p = q)). }
    destruct (decide (p = q)) as [->|Hne].
    + rewrite Hcnt. destruct (decide (b = a)) as [->|Hba].
      * rewrite decide_True by done. lia.
      * rewrite decide_False by (intros [_ ?]; done). lia.
    + rewrite decide_False by (intros [? _]; done). lia.
  - intros q pu.
    assert (users_of (with_users (<[p:=l']> (users st)) (with_repeat_phase x st)) q
            = if decide (p = q) then l' else users_of st q) as ->.
    { unfold users_of. simpl. rewrite lookup_insert. by destruct (decide (p = q)). }
    destruct (decide (p = q)) as [->|Hne]; [|apply (Hv q)].
    intros Hin. apply (Hv q). by eapply elem_of_sublist.
  - intros q Hq.
    assert (users_of (with_users (<[p:=l']> (users st)) (with_repeat_phase x st)) q
            = if decide (p = q) then l' else users_of st q) as ->.
    { unfold users_of. simpl. rewrite lookup_insert. by destruct (decide (p = q)). }
    destruct (decide (p = q)) as [->|Hne]; [congruence|by apply Hn].
Qed.

(** [rem_usage(p, a, kill)]: one entry of [p] at [a] less, whatever the
    cascade does afterwards. *)
Lemma rem_usage_lists_ok fuel p a kill st u st' sur :
  rem_usage fuel p a kill st = Ok u st' -> lists_ok st sur ->
  lists_ok st' (fun q b => sur q b - if decide (q = p /\ b = a) then 1 else 0).
Proof.
  intros H L. unfold rem_usage in H. apply rem_usage_with_Ok in H.
  destruct (has_use_list p) eqn:Hp.
  - destruct H as (x & l' & Hx & Hpos & Hsub & Hlen & Hcnt & Hend).
    pose proof (lists_ok_delete p a l' x st sur Hp Hpos Hsub Hcnt L) as L3.
    destruct Hend as [[-> _]|(_ & _ & r & Hk)]; [exact L3|].
    apply kill_instruction_kstep in Hk. by eapply kstep_lists_ok.
  - subst st'. eapply lists_ok_ext; [|exact L].
    intros q b Hq. simpl. rewrite decide_False; [lia|]. intros [-> _]. congruence.
Qed.

Lemma remove_usage_lists_ok fuel p a st u st' sur :
  remove_usage fuel p a st = Ok u st' -> lists_ok st sur ->
  lists_ok st' (fun q b => sur q b - if decide (q = p /\ b = a) then 1 else 0).
Proof. apply rem_usage_lists_ok. Qed.

(** [kill_use(a)] keeps the invariant. *)
Lemma kill_use_lists_ok fuel usep st u st' sur :
  kill_use fuel usep st = Ok u st' -> lists_ok st sur -> lists_ok st' sur.
Proof.
  intros H L. unfold kill_use in H.
  destruct usep as [a|]; simpl in H; [|by apply ret_Ok in H as [_ <-]].
  apply bind_Ok in H as (p & s1 & H1 & H). apply read_slot_Ok in H1 as [Hp ->].
  apply bind_Ok in H as (u1 & s2 & H2 & H).
  pose proof (lists_ok_write _ _ _ _ _ _ _ H2 Hp L) as L1.
  pose proof (rem_usage_lists_ok fuel p a true s2 u st' _ H L1) as L2.
  eapply lists_ok_ext; [|exact L2].
  intros q b Hq. simpl.
  rewrite (bool_decide_eq_false_2 (VOID = q)) by (intros <-; done).
  destruct (decide (b = a)) as [->|Hne].
  - destruct (decide (q = p)) as [->|Hqp].
    + rewrite decide_True by done. rewrite bool_decide_eq_true_2 by done. simpl. lia.
    + rewrite decide_False by (intros [? _]; done).
      rewrite bool_decide_eq_false_2 by done. simpl. lia.
  - rewrite decide_False by (intros [_ ?]; done). lia.
Qed.

Lemma kill_insn_lists_ok fuel insn force st r st' sur :
  kill_insn fuel insn force st = Ok r st' -> lists_ok st sur -> lists_ok st' sur.
Proof. intros H. apply kstep_lists_ok. by eapply kill_insn_kstep. Qed.

Lemma kill_instruction_lists_ok fuel insn st r st' sur :
  kill_instruction fuel insn st = Ok r st' -> lists_ok st sur -> lists_ok st' sur.
Proof. apply kill_insn_lists_ok. Qed.

(** A change of an instruction that touches no slot and neither revives
    the instruction nor makes its target an operand. *)
Lemma update_insn_lists_ok i f st u st' sur :
  update_insn i f st = Ok u st' ->
  (forall ins s, slot_get (f ins) s = slot_get ins s) ->
  (forall ins, is_live (f ins) = true -> is_live ins = true) ->
  (forall ins s, is_live (f ins) = true -> tracked (f ins) s = true -> tracked ins s = true) ->
  lists_ok st sur -> lists_ok st' sur.
Proof.
  intros H Hs Hl Ht (Hc & Hv & Hn).
  apply update_insn_Ok in H as (ins & Hi & ->).
  split; [|split; [|exact Hn]];
    [|apply (entries_valid_insert _ _ ins); [done| |done]; intros t; by rewrite Hs].
  intros p b Hp Hb.
  apply (live_operand_insert st i ins _ b Hi (Hl ins) (Ht ins)) in Hb.
  specialize (Hc p b Hp Hb).
  change (users_of (with_insns _ st) p) with (users_of st p).
  rewrite Hc. f_equal. f_equal.
  rewrite slot_of_insert. destruct (decide (i = b.1)) as [->|Hne]; [|done].
  unfold slot_of. by rewrite Hi, Hs.
Qed.

Lemma or_repeat_phase_lists_ok bits st r st' sur :
  or_repeat_phase bits st = Ok r st' -> lists_ok st sur -> lists_ok st' sur.
Proof. intros [-> ->]%or_repeat_phase_Ok L. exact L. Qed.

Lemma warning_lists_ok pos msg st u st' sur :
  warning pos msg st = Ok u st' -> lists_ok st sur -> lists_ok st' sur.
Proof. unfold warning. intros [= H] L. subst st'. exact L. Qed.

(** ** Rebinding: [use_pseudo] and [switch_pseudo] *)

(** Decide a pointwise equation between surpluses by cases. *)
Ltac sur_solve :=
  unfold b2z;
  repeat case_decide; repeat case_bool_decide; try lia;
  exfalso; destruct_and?; subst;
  match goal with
  | H : ¬ _ |- _ => destruct H; by repeat split
  | H : has_use_list _ = _ |- _ => by simpl in H
  | _ => congruence
  end.

Lemma use_pseudo_Ok i q a st u st' :
  use_pseudo i q a st = Ok u st' ->
  exists ins, insns st !! a.1 = Some ins /\ is_Some (slot_get ins a.2) /\
              insns st' = <[a.1 := slot_set ins a.2 q]> (insns st) /\
              (forall b, slot_of st' b = if decide (b = a) then Some q else slot_of st b) /\
              (forall p b, count_slot b (users_of st' p) =
                 (count_slot b (users_of st p) +
                  if decide (has_use_list q = true /\ p = q /\ b = a) then 1 else 0)%nat).
Proof.
  intros H. unfold use_pseudo in H.
  apply bind_Ok in H as ([] & st1 & H1 & H).
  apply write_slot_Ok in H1 as (ins & Hi & Hs & ->).
  exists ins. split; [done|]. split; [done|].
  destruct (has_use_list q) eqn:Hq.
  - unfold bind, get_users, set_users in H. injection H as H. subst st'.
    split; [done|]. split.
    + intros b. apply (slot_of_write st a ins q b Hi Hs).
    + intros p b. unfold users_of at 1. simpl. rewrite lookup_insert.
      change (users_of (with_insns (<[a.1:=slot_set ins a.2 q]> (insns st)) st) q)
        with (users_of st q).
      destruct (decide (q = p)) as [->|Hne]; simpl.
      * rewrite count_slot_app, count_slot_cons, count_slot_nil. cbn [userp].
        destruct (decide (a = b)) as [->|Hab].
        -- rewrite decide_True by done. lia.
        -- rewrite decide_False by (intros (_ & _ & ?); done). lia.
      * rewrite decide_False by (intros (_ & ? & _); done). unfold users_of. lia.
  - apply ret_Ok in H as [_ <-]. split; [done|]. split.
    + intros b. apply (slot_of_write st a ins q b Hi Hs).
    + intros p b. rewrite decide_False by (intros (? & _); done).
      change (users_of (with_insns _ st)) with (users_of st). lia.
Qed.

Lemma use_pseudo_total i q a st ins :
  insns st !! a.1 = Some ins -> is_Some (slot_get ins a.2) ->
  exists st', use_pseudo i q a st = Ok tt st'.
Proof.
  intros Hi Hs. unfold use_pseudo.
  rewrite (bind_eq _ _ _ _ _ (write_slot_eq a q st ins Hi Hs)).
  destruct (has_use_list q); by eexists.
Qed.

(** [rem_usage] when another entry stays behind: no kill follows. *)
Lemma rem_usage_keep_from (k : insn_ptr -> M Z) p a b st :
  has_use_list p = true ->
  (0 < count_slot a (users_of st p))%nat ->
  (0 < count_slot b (users_of st p))%nat -> b <> a ->
  exists l',
    (let* _ := delete_pseudo_user_list_entry p a 1 in
     let* l := get_users p in
     if true && bool_decide (l = []) then
       let* s := get_state in
       let* _ := k (pseudo_def s p) in ret tt
     else ret tt) st = Ok tt (with_users (<[p:=l']> (users st)) st) /\
    (forall c, count_slot c l' =
       (count_slot c (users_of st p) - if decide (c = a) then 1 else 0)%nat).
Proof.
  intros Hp Ha Hb Hne.
  destruct (delete_entry_total p a st Ha) as (l' & Hdel & Hsub & Hlen & Hcnt).
  exists l'. split; [|done].
  assert (l' <> []) as Hl.
  { intros ->. specialize (Hcnt b). rewrite count_slot_nil, decide_False in Hcnt by done. lia. }
  rewrite (bind_eq _ _ _ _ _ Hdel).
  unfold bind, get_users. rewrite users_of_insert, decide_True by done.
  by rewrite bool_decide_eq_false_2 by done.
Qed.

Lemma rem_usage_keep fuel p a b st :
  (has_use_list p = true -> (0 < count_slot a (users_of st p))%nat) ->
  (has_use_list p = true -> (0 < count_slot b (users_of st p))%nat) -> b <> a ->
  exists st', rem_usage fuel p a true st = Ok tt st' /\
              insns st' = insns st /\
              Z.land (repeat_phase st) (repeat_phase st') = repeat_phase st /\
              (forall q c, count_slot c (users_of st' q) =
                 (count_slot c (users_of st q) -
                  if decide (has_use_list p = true /\ q = p /\ c = a) then 1 else 0)%nat).
Proof.
  intros Ha Hb Hne. unfold rem_usage, rem_usage_with.
  destruct (has_use_list p) eqn:Hp.
  - specialize (Ha eq_refl). specialize (Hb eq_refl).
    assert (forall s0 l', users s0 = users st ->
              forall q c, count_slot c l' =
                 (count_slot c (users_of st p) - if decide (c = a) then 1 else 0)%nat ->
              count_slot c (users_of (with_users (<[p:=l']> (users s0)) s0) q) =
              (count_slot c (users_of st q) -
                 if decide (true = true /\ q = p /\ c = a) then 1 else 0)%nat) as Hfin.
    { intros s0 l' Hs0 q c Hc. unfold users_of at 1. simpl. rewrite Hs0, lookup_insert.
      destruct (decide (p = q)) as [->|Hpq]; simpl.
      - rewrite Hc. destruct (decide (c = a)) as [->|Hca].
        + by rewrite decide_True.
        + by rewrite decide_False by (intros (_ & _ & ?); done).
      - rewrite decide_False by (intros (_ & ? & _); done). unfold users_of. lia. }
    unfold bind at 1. destruct (bool_decide (ptype p = PSEUDO_SYM)).
    + unfold or_repeat_phase.
      destruct (rem_usage_keep_from (kill_instruction fuel) p a b
                  (with_repeat_phase (Z.lor (repeat_phase st) REPEAT_SYMBOL_CLEANUP) st))
        as (l' & Hrun & Hcnt); try done.
      eexists. split; [exact Hrun|]. split; [done|]. split; [apply land_lor_absorb|].
      intros q c. apply Hfin; [done|]. apply Hcnt.
    + unfold ret at 1.
      destruct (rem_usage_keep_from (kill_instruction fuel) p a b st)
        as (l' & Hrun & Hcnt); try done.
      eexists. split; [exact Hrun|]. split; [done|]. split; [apply Z.land_diag|].
      intros q c. apply Hfin; [done|]. apply Hcnt.
  - exists st. split; [done|]. split; [done|]. split; [apply Z.land_diag|].
    intros q c. rewrite decide_False by (intros (? & _); done). lia.
Qed.

Lemma switch_pseudo_lists_ok fuel i1 pp1 i2 pp2 st u st' sur :
  switch_pseudo fuel i1 pp1 i2 pp2 st = Ok u st' -> lists_ok st sur -> lists_ok st' sur.
Proof.
  intros H L. unfold switch_pseudo in H.
  apply bind_Ok in H as (p1 & s1 & H1 & H). apply read_slot_Ok in H1 as [Hp1 ->].
  apply bind_Ok in H as (p2 & s2 & H2 & H). apply read_slot_Ok in H2 as [Hp2 ->].
  apply bind_Ok in H as ([] & st1 & Hu1 & H).
  apply bind_Ok in H as ([] & st2 & Hu2 & H).
  apply bind_Ok in H as ([] & st3 & Hr1 & Hr2).
  pose proof (use_pseudo_lists_ok _ _ _ _ _ _ _ _ Hu1 Hp1 L) as L1.
  assert (slot_of st1 pp2 = Some p2) as Hp2'.
  { apply use_pseudo_Ok in Hu1 as (ins & _ & _ & _ & Hs & _). rewrite Hs.
    destruct (decide (pp2 = pp1)) as [->|]; [|done]. congruence. }
  pose proof (use_pseudo_lists_ok _ _ _ _ _ _ _ _ Hu2 Hp2' L1) as L2.
  pose proof (remove_usage_lists_ok _ _ _ _ _ _ _ Hr1 L2) as L3.
  pose proof (remove_usage_lists_ok _ _ _ _ _ _ _ Hr2 L3) as L4.
  eapply lists_ok_ext; [|exact L4].
  intros q b Hq. cbv beta. sur_solve.
Qed.

Lemma slot_of_Some_insn st a p :
  slot_of st a = Some p ->
  exists ins, insns st !! a.1 = Some ins /\ slot_get ins a.2 = Some p.
Proof.
  unfold slot_of. destruct (insns st !! a.1) as [ins|]; [|done]. intros H. by exists ins.
Qed.

Lemma use_pseudo_frame i q a st u st' :
  use_pseudo i q a st = Ok u st' ->
  repeat_phase st' = repeat_phase st /\ defs st' = defs st /\ blocks st' = blocks st /\
  symtab st' = symtab st /\ warnings st' = warnings st /\
  Wtautological_compare st' = Wtautological_compare st.
Proof.
  intros H. unfold use_pseudo in H.
  apply bind_Ok in H as ([] & st1 & H1 & H).
  apply write_slot_Ok in H1 as (ins & Hi & Hs & ->).
  destruct (has_use_list q).
  - unfold bind, get_users, set_users in H. injection H as H. by subst st'.
  - by apply ret_Ok in H as [_ <-].
Qed.

(** [switch_pseudo] runs to completion when both slots have their entries,
    and then the two slots have exchanged their pseudos and nothing else of
    the instructions has changed. *)
Lemma switch_pseudo_total fuel i1 pp1 i2 pp2 st p1 p2 :
  slot_of st pp1 = Some p1 -> slot_of st pp2 = Some p2 -> pp1 <> pp2 ->
  (has_use_list p1 = true -> (0 < count_slot pp1 (users_of st p1))%nat) ->
  (has_use_list p2 = true -> (0 < count_slot pp2 (users_of st p2))%nat) ->
  exists st' ins1 ins2,
    switch_pseudo fuel i1 pp1 i2 pp2 st = Ok tt st' /\
    insns st !! pp1.1 = Some ins1 /\
    <[pp1.1 := slot_set ins1 pp1.2 p2]> (insns st) !! pp2.1 = Some ins2 /\
    insns st' = <[pp2.1 := slot_set ins2 pp2.2 p1]>
                  (<[pp1.1 := slot_set ins1 pp1.2 p2]> (insns st)) /\
    Z.land (repeat_phase st) (repeat_phase st') = repeat_phase st.
Proof.
  intros Hp1 Hp2 Hne Hc1 Hc2. unfold switch_pseudo.
  rewrite (bind_eq _ _ _ _ _ (read_slot_eq _ _ _ Hp1)).
  rewrite (bind_eq _ _ _ _ _ (read_slot_eq _ _ _ Hp2)).
  destruct (slot_of_Some_insn _ _ _ Hp1) as (ins1 & Hi1 & Hs1).
  destruct (use_pseudo_total i1 p2 pp1 st ins1 Hi1) as [st1 Hu1]; [by eexists|].
  rewrite (bind_eq _ _ _ _ _ Hu1).
  pose proof (use_pseudo_frame _ _ _ _ _ _ Hu1) as (Hph1 & _).
  apply use_pseudo_Ok in Hu1 as (x1 & Hx1 & _ & Hins1 & Hslot1 & Hcnt1).
  assert (x1 = ins1) as -> by congruence.
  assert (slot_of st1 pp2 = Some p2) as Hp2'.
  { rewrite Hslot1. by rewrite decide_False by done. }
  destruct (slot_of_Some_insn _ _ _ Hp2') as (ins2 & Hi2 & Hs2).
  destruct (use_pseudo_total i2 p1 pp2 st1 ins2 Hi2) as [st2 Hu2]; [by eexists|].
  rewrite (bind_eq _ _ _ _ _ Hu2).
  pose proof (use_pseudo_frame _ _ _ _ _ _ Hu2) as (Hph2 & _).
  apply use_pseudo_Ok in Hu2 as (x2 & Hx2 & _ & Hins2 & Hslot2 & Hcnt2).
  assert (x2 = ins2) as -> by congruence.
  destruct (rem_usage_keep fuel p1 pp1 pp2 st2) as (st3 & Hr1 & Hins3 & Hph3 & Hcnt3);
    [| |done|].
  { intros Hu. specialize (Hc1 Hu). rewrite Hcnt2, Hcnt1. lia. }
  { intros Hu. rewrite Hcnt2. rewrite decide_True by done. lia. }
  unfold remove_usage at 1. rewrite (bind_eq _ _ _ _ _ Hr1).
  destruct (rem_usage_keep fuel p2 pp2 pp1 st3) as (st4 & Hr2 & Hins4 & Hph4 & Hcnt4);
    [| |done|].
  { intros Hu. specialize (Hc2 Hu). rewrite Hcnt3, Hcnt2, Hcnt1.
    rewrite (decide_False (P := _ /\ p2 = p1 /\ pp2 = pp1)) by (intros (_ & _ & ?); done).
    lia. }
  { intros Hu. rewrite Hcnt3, Hcnt2, Hcnt1.
    rewrite (decide_True (P := _ /\ p2 = p2 /\ pp1 = pp1)) by done.
    destruct (decide (p1 = p2)) as [->|Hp].
    - specialize (Hc1 Hu). repeat case_decide; lia.
    - rewrite (decide_False (P := _ /\ p2 = p1 /\ pp1 = pp1)) by (intros (_ & ? & _); done).
      lia. }
  exists st4, ins1, ins2. split; [exact Hr2|]. split; [done|].
  split; [by rewrite <- Hins1|]. split.
  - by rewrite Hins4, Hins3, Hins2, Hins1.
  - apply (land_mono_trans _ (repeat_phase st3)); [|done].
    by rewrite <- Hph1, <- Hph2.
Qed.

(** ** The invariant by evaluation *)

Lemma slots_of_complete ins s : is_Some (slot_get ins s) -> s ∈ slots_of ins.
Proof.
  unfold slots_of. destruct s; simpl; intros H; try set_solver.
  - apply lookup_lt_is_Some in H. do 4 right. apply elem_of_app. left.
    apply list_elem_of_fmap_2, elem_of_seq. lia.
  - apply lookup_lt_is_Some in H. do 4 right. apply elem_of_app. right.
    apply list_elem_of_fmap_2, elem_of_seq. lia.
Qed.

Lemma live_operand_b_spec st a : live_operand_b st a = true <-> live_operand st a.
Proof.
  unfold live_operand_b, live_operand. destruct (insns st !! a.1) as [ins|]; split.
  - intros [? ?]%andb_prop. by exists ins.
  - intros (x & [= <-] & -> & ->). done.
  - done.
  - by intros (x & ? & _).
Qed.

Lemma use_lists_check_ok st : use_lists_check st = true -> use_lists_ok st.
Proof.
  unfold use_lists_check. intros [H1 H2]%andb_prop.
  apply bool_decide_eq_true_1 in H1. apply bool_decide_eq_true_1 in H2.
  assert (forall p pu, pu ∈ users_of st p ->
            has_use_list p = true /\ entry_ok st p (users_of st p) pu = true) as He.
  { intros p pu Hin. unfold users_of in *. destruct (users st !! p) as [l|] eqn:E;
      [|by apply elem_of_nil in Hin]. simpl in *.
    specialize (H1 p l E). cbv beta in H1. apply andb_prop in H1 as [Ha Hb].
    split.
    - apply orb_prop in Ha as [?|Hl]; [done|]. apply bool_decide_eq_true_1 in Hl.
      subst l. by apply elem_of_nil in Hin.
    - rewrite forallb_forall in Hb. apply Hb. by apply list_elem_of_In. }
  split; [|split].
  - intros p a Hp Ha. destruct Ha as (ins & Hi & Hl & Ht).
    case_bool_decide as Hs; simpl.
    + specialize (H2 a.1 ins Hi). cbv beta in H2. rewrite forallb_forall in H2.
      assert (slot_get ins a.2 = Some p) as Hg by (unfold slot_of in Hs; by rewrite Hi in Hs).
      assert (In a.2 (slots_of ins)) as Hin.
      { apply list_elem_of_In, slots_of_complete. by rewrite Hg. }
      specialize (H2 a.2 Hin). unfold operand_ok in H2.
      rewrite Hg, Hl, Ht, Hp in H2. cbn [andb negb orb] in H2.
      assert (a = (a.1, a.2)) as Ea by (by destruct a).
      rewrite <- Ea in H2. by rewrite (bool_decide_eq_true_1 _ H2).
    + destruct (count_slot a (users_of st p)) eqn:Hc; [done|exfalso].
      assert (0 < count_slot a (users_of st p))%nat as Hpos by lia.
      apply count_slot_pos in Hpos as (pu & Hin & Hu).
      destruct (He p pu Hin) as [_ Hok]. unfold entry_ok in Hok. rewrite Hu in Hok.
      destruct (slot_of st a) as [q|] eqn:Hq; [|done].
      assert (live_operand_b st a = true) as Hlb by (apply live_operand_b_spec; by exists ins).
      rewrite Hlb in Hok. simpl in Hok. apply andb_prop in Hok as [Hok _].
      apply bool_decide_eq_true_1 in Hok. congruence.
  - intros p pu Hin. destruct (He p pu Hin) as [_ Hok]. unfold entry_ok in Hok.
    by destruct (slot_of st (userp pu)).
  - intros p Hp. destruct (users_of st p) as [|pu l] eqn:E; [done|].
    destruct (He p pu) as [Hu _]; [rewrite E; by left|congruence].
Qed.

Example use_lists_ok_lt_const : use_lists_ok Sample.lt_const.
Proof. apply use_lists_check_ok. vm_compute. reflexivity. Qed.

(** ** Canonicalization of comparisons *)

Lemma use_lists_ok_entry st i ins s p :
  use_lists_ok st -> insns st !! i = Some ins -> is_live ins = true ->
  tracked ins s = true -> slot_get ins s = Some p -> has_use_list p = true ->
  count_slot (i, s) (users_of st p) = 1%nat.
Proof.
  intros (Hc & _) Hi Hl Ht Hs Hp.
  specialize (Hc p (i, s) Hp). rewrite bool_decide_eq_true_2 in Hc.
  - simpl in Hc. assert (live_operand st (i, s)) as Hlo by (by exists ins). specialize (Hc Hlo). lia.
  - unfold slot_of. simpl. by rewrite Hi.
Qed.

Lemma canonical_order_swapped p1 p2 :
  canonical_order p1 p2 = false -> canonical_order p2 p1 = true.
Proof. unfold canonical_order. destruct p1, p2; done. Qed.

Lemma opcode_swap_not_store op : opcode_swap op <> OP_STORE.
Proof. by destruct op. Qed.

Lemma store_insn_lists_ok i ins f st sur :
  insns st !! i = Some ins ->
  (forall s, slot_get (f ins) s = slot_get ins s) ->
  (is_live (f ins) = true -> is_live ins = true) ->
  (forall s, is_live (f ins) = true -> tracked (f ins) s = true -> tracked ins s = true) ->
  lists_ok st sur -> lists_ok (with_insns (<[i := f ins]> (insns st)) st) sur.
Proof.
  intros Hi Hs Hl Ht (Hc & Hv & Hn).
  split; [|split; [|exact Hn]];
    [|apply (entries_valid_insert _ _ ins); [done| |done]; intros t; by rewrite Hs].
  intros p b Hp Hb.
  apply (live_operand_insert st i ins _ b Hi Hl Ht) in Hb.
  specialize (Hc p b Hp Hb).
  change (users_of (with_insns _ st) p) with (users_of st p).
  rewrite Hc. f_equal. f_equal.
  rewrite slot_of_insert. destruct (decide (i = b.1)) as [->|Hne]; [|done].
  unfold slot_of. by rewrite Hi, Hs.
Qed.

(** C5.  Canonicalization of a comparison.  On a live instruction of a state
    whose use lists are consistent: when the operands are in canonical order
    the canonicalization returns 0 and changes nothing; when they are not (in
    particular a VAL left of a non-VAL, or a SYM left of a REG) it returns
    with the re-CSE bit, the instruction has its two operands exchanged and
    its opcode replaced by the swap counterpart of the table ([<] and [>],
    [<=] and [>=], and their unsigned forms, exchanged), nothing else of the
    instructions has changed, the use lists are consistent again, and a
    second canonicalization changes nothing. *)
Theorem canonicalize_compare_swaps fuel i ins st :
  insns st !! i = Some ins -> is_live ins = true -> use_lists_ok st ->
  (canonical_order (i_src1 ins) (i_src2 ins) = true ->
     canonicalize_compare fuel i st = Ok 0 st) /\
  (canonical_order (i_src1 ins) (i_src2 ins) = false ->
     exists r st',
       canonicalize_compare fuel i st = Ok r st' /\
       Z.land r REPEAT_CSE = REPEAT_CSE /\
       insns st' = <[i := set_opcode (opcode_swap (i_opcode ins))
                            (slot_set (slot_set ins Src1 (i_src2 ins)) Src2 (i_src1 ins))]>
                     (insns st) /\
       use_lists_ok st' /\
       canonicalize_compare fuel i st' = Ok 0 st') /\
  ((ptype (i_src1 ins) = PSEUDO_VAL /\ ptype (i_src2 ins) <> PSEUDO_VAL) \/
   (ptype (i_src1 ins) = PSEUDO_SYM /\ ptype (i_src2 ins) = PSEUDO_REG) ->
   canonical_order (i_src1 ins) (i_src2 ins) = false) /\
  (opcode_swap OP_SET_LT = OP_SET_GT /\ opcode_swap OP_SET_GT = OP_SET_LT /\
   opcode_swap OP_SET_LE = OP_SET_GE /\ opcode_swap OP_SET_GE = OP_SET_LE /\
   opcode_swap OP_SET_B = OP_SET_A /\ opcode_swap OP_SET_A = OP_SET_B /\
   opcode_swap OP_SET_BE = OP_SET_AE /\ opcode_swap OP_SET_AE = OP_SET_BE).
Proof.
  intros Hi Hlive L. split; [|split; [|split]].
  - intros Hc. unfold canonicalize_compare.
    rewrite (bind_eq _ _ _ _ _ (load_insn_eq _ _ _ Hi)). by rewrite Hc.
  - intros Hc.
    assert (slot_of st (i, Src1) = Some (i_src1 ins)) as Hp1
      by (unfold slot_of; simpl; by rewrite Hi).
    assert (slot_of st (i, Src2) = Some (i_src2 ins)) as Hp2
      by (unfold slot_of; simpl; by rewrite Hi).
    destruct (switch_pseudo_total fuel i (i, Src1) i (i, Src2) st _ _ Hp1 Hp2)
      as (st1 & ins1 & ins2 & Hsw & Hi1 & Hi2 & Hins & Hph); [done| | |].
    { intros Hu. rewrite (use_lists_ok_entry st i ins Src1 _ L Hi Hlive eq_refl eq_refl Hu). lia. }
    { intros Hu. rewrite (use_lists_ok_entry st i ins Src2 _ L Hi Hlive eq_refl eq_refl Hu). lia. }
    simpl in Hi1, Hi2, Hins. assert (ins1 = ins) as -> by congruence.
    rewrite lookup_insert_eq in Hi2. injection Hi2 as <-.
    rewrite insert_insert_eq in Hins.
    set (mid := slot_set (slot_set ins Src1 (i_src2 ins)) Src2 (i_src1 ins)) in *.
    assert (insns st1 !! i = Some mid) as Hmid by (by rewrite Hins, lookup_insert_eq).
    pose proof (switch_pseudo_lists_ok _ _ _ _ _ _ _ _ _ Hsw L) as L1.
    set (fin := with_insns (<[i := set_opcode (opcode_swap (i_opcode mid)) mid]> (insns st1)) st1).
    exists (Z.lor (repeat_phase st1) REPEAT_CSE),
           (with_repeat_phase (Z.lor (repeat_phase st1) REPEAT_CSE) fin).
    split; [|split; [|split; [|split]]].
    + unfold canonicalize_compare.
      rewrite (bind_eq _ _ _ _ _ (load_insn_eq _ _ _ Hi)), Hc.
      rewrite (bind_eq _ _ _ _ _ Hsw).
      rewrite (bind_eq _ _ _ _ _ (load_insn_eq _ _ _ Hmid)). reflexivity.
    + rewrite Z.land_comm, Z.lor_comm. apply land_lor_absorb.
    + simpl. by rewrite Hins, insert_insert_eq.
    + apply (store_insn_lists_ok i mid (set_opcode (opcode_swap (i_opcode mid))) st1);
        [done|done|done| |done].
      intros s _. unfold tracked. destruct s; try done. simpl.
      intros Hs. apply bool_decide_eq_true_1 in Hs. by apply opcode_swap_not_store in Hs.
    + unfold canonicalize_compare.
      assert (insns (with_repeat_phase (Z.lor (repeat_phase st1) REPEAT_CSE) fin) !! i
              = Some (set_opcode (opcode_swap (i_opcode mid)) mid)) as Hfin
        by (simpl; by rewrite lookup_insert_eq).
      rewrite (bind_eq _ _ _ _ _ (load_insn_eq _ _ _ Hfin)). simpl.
      by rewrite (canonical_order_swapped _ _ Hc).
  - unfold canonical_order.
    intros [[H1 H2]|[H1 H2]]; destruct (i_src1 ins), (i_src2 ins); done.
  - done.
Qed.

Lemma canonicalize_compare_swaps_witness :
  exists ins,
    insns Sample.lt_const !! 1%nat = Some ins /\
    canonical_order (i_src1 ins) (i_src2 ins) = false /\
    exists r st',
       canonicalize_compare 0 1 Sample.lt_const = Ok r st' /\
       Z.land r REPEAT_CSE = REPEAT_CSE /\
       insns st' = <[1%nat := set_opcode (opcode_swap (i_opcode ins))
                            (slot_set (slot_set ins Src1 (i_src2 ins)) Src2 (i_src1 ins))]>
                     (insns Sample.lt_const) /\
       use_lists_ok st' /\
       canonicalize_compare 0 1 st' = Ok 0 st'.
Proof.
  exists (Sample.mk OP_SET_LT 32 (REG 1) (VAL 5) (ARG 0) VOID).
  split; [reflexivity|]. split; [reflexivity|].
  apply (canonicalize_compare_swaps 0 1 (Sample.mk OP_SET_LT 32 (REG 1) (VAL 5) (ARG 0) VOID)
           Sample.lt_const).
  - reflexivity.
  - reflexivity.
  - apply use_lists_check_ok. vm_compute. reflexivity.
  - reflexivity.
Defined.

(** ** Associative reordering *)

(** With a second user of the inner result nothing is reordered. *)
Lemma assoc_shared_not_reordered : ~ assoc_reorders 3 AssocScenario.shared 2.
Proof.
  intros H.
  destruct (H (Sample.mk OP_ADD 32 (REG 2) (REG 1) (VAL 2) VOID) 1%nat
              (Sample.mk OP_ADD 32 (REG 1) (ARG 0) (VAL 1) VOID))
    as (r & st' & Hrun & Hr & _); try done.
  vm_compute in Hrun. injection Hrun as <- _. done.
Qed.

(** C8 (amended).  Associative reordering.  Let the live instruction [i]
    have a simple right operand and a REG left operand defined by a live
    instruction [d] of the same opcode with a simple right operand, in a
    state whose use lists are consistent.  When [d] is not [i] itself and the
    target of [d] has exactly one user, the left operand of [d] and the right
    operand of [i] are exchanged, nothing else of the instructions changes,
    the use lists stay consistent and REPEAT_CSE is returned; when [d] is [i]
    or the target of [d] does not have exactly one user, 0 is returned and
    nothing changes. *)
Theorem simplify_associative_binop_swaps fuel i ins d def st :
  insns st !! i = Some ins -> is_live ins = true ->
  simple_pseudo (i_src2 ins) = true -> ptype (i_src1 ins) = PSEUDO_REG ->
  pseudo_def st (i_src1 ins) = InsnAt d -> insns st !! d = Some def ->
  is_live def = true ->
  i_opcode def = i_opcode ins -> simple_pseudo (i_src2 def) = true ->
  use_lists_ok st ->
  (d <> i -> length (users_of st (i_target def)) = 1%nat ->
     exists st',
       simplify_associative_binop fuel i st = Ok REPEAT_CSE st' /\
       insns st' = <[i := slot_set ins Src2 (i_src1 def)]>
                     (<[d := slot_set def Src1 (i_src2 ins)]> (insns st)) /\
       use_lists_ok st') /\
  (d = i \/ length (users_of st (i_target def)) <> 1%nat ->
     simplify_associative_binop fuel i st = Ok 0 st).
Proof.
  intros Hi Hlive Hs2 Hreg Hdef Hd Hdlive Hop Hds2 L.
  assert (forall Y : nat * instruction -> M Z,
            (let* x := deref (InsnAt d) in Y x) st = Y (d, def) st) as Hderef.
  { intros Y. unfold deref. unfold bind at 1. unfold bind at 1.
    by rewrite (load_insn_eq _ _ _ Hd). }
  split.
  - intros Hne Hlen.
    assert (slot_of st (d, Src1) = Some (i_src1 def)) as Hp1
      by (unfold slot_of; simpl; by rewrite Hd).
    assert (slot_of st (i, Src2) = Some (i_src2 ins)) as Hp2
      by (unfold slot_of; simpl; by rewrite Hi).
    destruct (switch_pseudo_total fuel d (d, Src1) i (i, Src2) st _ _ Hp1 Hp2)
      as (st1 & ins1 & ins2 & Hsw & Hi1 & Hi2 & Hins & Hph); [congruence| | |].
    { intros Hu. rewrite (use_lists_ok_entry st d def Src1 _ L Hd Hdlive eq_refl eq_refl Hu). lia. }
    { intros Hu. rewrite (use_lists_ok_entry st i ins Src2 _ L Hi Hlive eq_refl eq_refl Hu). lia. }
    simpl in Hi1, Hi2, Hins. assert (ins1 = def) as -> by congruence.
    rewrite lookup_insert_ne in Hi2 by done. assert (ins2 = ins) as -> by congruence.
    exists st1. split; [|split; [done|]].
    + unfold simplify_associative_binop.
      rewrite (bind_eq _ _ _ _ _ (load_insn_eq _ _ _ Hi)). rewrite Hs2. cbn [negb].
      rewrite bool_decide_eq_true_2 by done. cbn [negb].
      unfold bind at 1. unfold get_state. cbv beta zeta. rewrite Hdef.
      rewrite decide_False by congruence.
      rewrite Hderef. cbn [fst snd].
      rewrite bool_decide_eq_true_2 by done. rewrite Hds2.
      rewrite bool_decide_eq_true_2 by done. cbn [negb].
      by rewrite (bind_eq _ _ _ _ _ Hsw).
    + by apply (switch_pseudo_lists_ok _ _ _ _ _ _ _ _ _ Hsw).
  - intros Hor. unfold simplify_associative_binop.
    rewrite (bind_eq _ _ _ _ _ (load_insn_eq _ _ _ Hi)). rewrite Hs2. cbn [negb].
    rewrite bool_decide_eq_true_2 by done. cbn [negb].
    unfold bind at 1. unfold get_state. cbv beta zeta. rewrite Hdef.
    destruct (decide (InsnAt d = InsnAt i)) as [|Hne]; [done|].
    destruct Hor as [->|Hlen]; [done|].
    rewrite Hderef. cbn [fst snd].
    rewrite bool_decide_eq_true_2 by done. rewrite Hds2.
    by rewrite bool_decide_eq_false_2 by done.
Qed.

Lemma simplify_associative_binop_swaps_witness :
  (1%nat <> 2%nat -> length (users_of AssocScenario.single (REG 1)) = 1%nat ->
     exists st',
       simplify_associative_binop 0 2 AssocScenario.single = Ok REPEAT_CSE st' /\
       insns st' = <[2%nat := slot_set (Sample.mk OP_ADD 32 (REG 2) (REG 1) (VAL 2) VOID)
                                Src2 (ARG 0)]>
                     (<[1%nat := slot_set (Sample.mk OP_ADD 32 (REG 1) (ARG 0) (VAL 1) VOID)
                                   Src1 (VAL 2)]> (insns AssocScenario.single)) /\
       use_lists_ok st') /\
  (1%nat = 2%nat \/ length (users_of AssocScenario.single (REG 1)) <> 1%nat ->
     simplify_associative_binop 0 2 AssocScenario.single = Ok 0 AssocScenario.single).
Proof.
  apply (simplify_associative_binop_swaps 0 2
           (Sample.mk OP_ADD 32 (REG 2) (REG 1) (VAL 2) VOID) 1
           (Sample.mk OP_ADD 32 (REG 1) (ARG 0) (VAL 1) VOID) AssocScenario.single);
    try reflexivity.
  apply use_lists_check_ok. vm_compute. reflexivity.
Defined.

(** ** The retarget of the users of an instruction *)

Lemma wins_refl src ins : wins src ins ins.
Proof. constructor; auto. Qed.

Lemma wins_slot_set src ins s : is_Some (slot_get ins s) -> wins src ins (slot_set ins s src).
Proof.
  intros Hs. constructor; try done. intros t.
  destruct (decide (s = t)) as [<-|Hne].
  - right. split; [done|]. by apply slot_get_set_eq.
  - left. by apply slot_get_set_ne.
Qed.

Lemma wins_trans src a b c : wins src a b -> wins src b c -> wins src a c.
Proof.
  intros K1 K2. constructor.
  - rewrite (wins_opcode _ _ _ K2). apply (wins_opcode _ _ _ K1).
  - rewrite (wins_size _ _ _ K2). apply (wins_size _ _ _ K1).
  - rewrite (wins_bb _ _ _ K2). apply (wins_bb _ _ _ K1).
  - rewrite (wins_pos _ _ _ K2). apply (wins_pos _ _ _ K1).
  - rewrite (wins_type _ _ _ K2). apply (wins_type _ _ _ K1).
  - rewrite (wins_true _ _ _ K2). apply (wins_true _ _ _ K1).
  - rewrite (wins_false _ _ _ K2). apply (wins_false _ _ _ K1).
  - rewrite (wins_multijmp _ _ _ K2). apply (wins_multijmp _ _ _ K1).
  - rewrite (wins_orig_type _ _ _ K2). apply (wins_orig_type _ _ _ K1).
  - rewrite (wins_offset _ _ _ K2). apply (wins_offset _ _ _ K1).
  - intros s. destruct (wins_slot _ _ _ K2 s) as [E2|[S2 E2]];
      destruct (wins_slot _ _ _ K1 s) as [E1|[S1 E1]].
    + left. congruence.
    + right. split; [done|congruence].
    + right. split; [by rewrite <- E1|done].
    + right. split; [done|done].
Qed.

Lemma retarget_slots_wstep l src : forall st,
  (forall pu, pu ∈ l -> is_Some (slot_of st (userp pu))) ->
  exists st', retarget_slots l src st = Ok tt st' /\ wstep src l (users st) st st'.
Proof.
  induction l as [|pu l IH]; intros st Hv; cbn [retarget_slots].
  - exists st. split; [done|]. constructor; try done.
    intros i ins Hi. exists ins. split; [done|apply wins_refl].
  - destruct (Hv pu) as [o Ho]; [by left|].
    destruct (slot_of_Some_insn _ _ _ Ho) as (ins & Hi & Hs).
    rewrite (bind_eq _ _ _ _ _ (write_slot_eq (userp pu) src st ins Hi ltac:(by eexists))).
    set (st1 := with_insns (<[(userp pu).1 := slot_set ins (userp pu).2 src]> (insns st)) st).
    assert (forall b, slot_of st1 b = if decide (b = userp pu) then Some src else slot_of st b)
      as Hs1 by (intros b; apply slot_of_write; [done|by eexists]).
    destruct (IH st1) as (st' & Hrun & W).
    { intros pu' Hin. rewrite Hs1. destruct (decide _); [by eexists|apply Hv; by right]. }
    exists st'. split; [done|]. constructor.
    + intros i x Hx. destruct (decide (i = (userp pu).1)) as [->|Hne].
      * assert (x = ins) as -> by congruence.
        destruct (ws_insns _ _ _ _ _ W (userp pu).1 (slot_set ins (userp pu).2 src))
          as (y & Hy & Ky); [by (simpl; rewrite lookup_insert_eq)|].
        exists y. split; [done|]. eapply wins_trans; [|done].
        apply wins_slot_set. by eexists.
      * apply (ws_insns _ _ _ _ _ W). simpl. by rewrite lookup_insert_ne.
    + intros i Hn. apply (ws_dom _ _ _ _ _ W). simpl.
      rewrite lookup_insert_ne; [done|]. intros <-. congruence.
    + intros b. rewrite (ws_slot _ _ _ _ _ W), Hs1. rewrite fmap_cons.
      destruct (decide (b ∈ userp <$> l)) as [Hin|Hnin].
      * rewrite decide_True; [done|by right].
      * destruct (decide (b = userp pu)) as [->|Hne].
        -- rewrite decide_True; [done|by left].
        -- rewrite decide_False; [done|]. intros [?|?]%elem_of_cons; done.
    + apply (ws_users _ _ _ _ _ W).
    + apply (ws_defs _ _ _ _ _ W).
    + apply (ws_blocks _ _ _ _ _ W).
    + apply (ws_symtab _ _ _ _ _ W).
    + apply (ws_warnings _ _ _ _ _ W).
    + apply (ws_flag _ _ _ _ _ W).
    + apply (ws_phase _ _ _ _ _ W).
Qed.

Lemma retarget_slots_Ok l src : forall st u st',
  retarget_slots l src st = Ok u st' ->
  (forall pu, pu ∈ l -> is_Some (slot_of st (userp pu))).
Proof.
  induction l as [|pu l IH]; intros st u st' H pu' Hin; [by apply elem_of_nil in Hin|].
  cbn [retarget_slots] in H. apply bind_Ok in H as ([] & st1 & H1 & H).
  pose proof H1 as Hw. apply write_slot_Ok in H1 as (ins & Hi & Hs & ->).
  apply elem_of_cons in Hin as [->|Hin].
  - unfold slot_of. by rewrite Hi.
  - specialize (IH _ _ _ H pu' Hin).
    rewrite (slot_of_write _ _ _ _ _ Hi Hs) in IH.
    destruct (decide (userp pu' = userp pu)) as [E|]; [|done].
    rewrite E. unfold slot_of. by rewrite Hi.
Qed.

(** [convert_instruction_target] runs when the entries of the target point
    at slots, and is a retarget with the use lists of [converted_users]. *)
Lemma convert_instruction_target_total i ins src st :
  insns st !! i = Some ins ->
  (forall pu, pu ∈ users_of st (i_target ins) -> is_Some (slot_of st (userp pu))) ->
  exists st',
    convert_instruction_target i src st = Ok tt st' /\
    wstep src (users_of st (i_target ins)) (converted_users st (i_target ins) src) st st'.
Proof.
  intros Hi Hv. unfold convert_instruction_target.
  rewrite (bind_eq _ _ _ _ _ (load_insn_eq _ _ _ Hi)). cbv zeta.
  unfold bind at 1. unfold get_users at 1.
  destruct (retarget_slots_wstep (users_of st (i_target ins)) src st Hv) as (st1 & Hrun & W).
  rewrite (bind_eq _ _ _ _ _ Hrun). unfold bind at 1, set_users at 1.
  unfold converted_users. rewrite (ws_users _ _ _ _ _ W).
  destruct (has_use_list src); eexists; (split; [reflexivity|]).
  - unfold users_of at 1. cbn [users with_users].
    destruct W. constructor; try done.
  - destruct W. constructor; try done.
Qed.

Lemma convert_instruction_target_Ok i src st u st' :
  convert_instruction_target i src st = Ok u st' ->
  exists ins,
    insns st !! i = Some ins /\
    wstep src (users_of st (i_target ins)) (converted_users st (i_target ins) src) st st'.
Proof.
  intros H. pose proof H as H0. unfold convert_instruction_target in H0.
  apply bind_Ok in H0 as (ins & s1 & H1 & H0). apply load_insn_Ok in H1 as [Hi ->].
  exists ins. split; [done|].
  apply bind_Ok in H0 as (l & s1 & H1 & H0). unfold get_users in H1. injection H1 as <- <-.
  apply bind_Ok in H0 as ([] & s1 & H1 & _).
  pose proof (retarget_slots_Ok _ _ _ _ _ H1) as Hv.
  destruct (convert_instruction_target_total i ins src st Hi Hv) as (st2 & Hrun & W).
  rewrite H in Hrun. by injection Hrun as _ ->.
Qed.

Lemma converted_users_of st target src q :
  default [] (converted_users st target src !! q) =
  if has_use_list src && bool_decide (q = src) then
    (if decide (src = target) then [] else users_of st src) ++ users_of st target
  else if decide (q = target) then [] else users_of st q.
Proof.
  unfold converted_users. cbv zeta. destruct (has_use_list src); simpl.
  - case_bool_decide as Hq.
    + subst q. rewrite lookup_insert_eq. simpl.
      destruct (decide (src = target)) as [->|Hne].
      * by rewrite lookup_insert_eq.
      * by rewrite lookup_insert_ne.
    + rewrite lookup_insert_ne by done.
      destruct (decide (q = target)) as [->|Hne].
      * by rewrite lookup_insert_eq.
      * by rewrite lookup_insert_ne.
  - destruct (decide (q = target)) as [->|Hne].
    + by rewrite lookup_insert_eq.
    + by rewrite lookup_insert_ne.
Qed.

Lemma wstep_users_of src l us st st' q :
  wstep src l us st st' -> users_of st' q = default [] (us !! q).
Proof. intros W. unfold users_of. by rewrite (ws_users _ _ _ _ _ W). Qed.

Lemma wstep_live src l us st st' a :
  wstep src l us st st' -> live_operand st' a <-> live_operand st a.
Proof.
  intros W. split.
  - intros (y & Hy & Hl & Ht).
    destruct (insns st !! a.1) as [x|] eqn:Hx;
      [|by rewrite (ws_dom _ _ _ _ _ W _ Hx) in Hy].
    destruct (ws_insns _ _ _ _ _ W _ _ Hx) as (y' & Hy' & Ki).
    assert (y' = y) as -> by congruence.
    exists x. split; [done|]. unfold is_live, tracked in *.
    by rewrite <- (wins_opcode _ _ _ Ki), <- (wins_bb _ _ _ Ki).
  - intros (x & Hx & Hl & Ht).
    destruct (ws_insns _ _ _ _ _ W _ _ Hx) as (y & Hy & Ki).
    exists y. split; [done|]. unfold is_live, tracked in *.
    by rewrite (wins_opcode _ _ _ Ki), (wins_bb _ _ _ Ki).
Qed.

Lemma elem_of_userp_count b (l : list pseudo_user) :
  b ∈ userp <$> l <-> (0 < count_slot b l)%nat.
Proof.
  rewrite count_slot_pos, list_elem_of_fmap. split.
  - intros (pu & -> & Hin). by exists pu.
  - intros (pu & Hin & <-). by exists pu.
Qed.

(** The retarget keeps the use lists consistent. *)
Lemma wstep_use_lists_ok st st' target src :
  wstep src (users_of st target) (converted_users st target src) st st' ->
  use_lists_ok st -> use_lists_ok st'.
Proof.
  intros W (Hc & Hv & Hn). split; [|split].
  - intros p b Hp Hb. apply (wstep_live _ _ _ _ _ _ W) in Hb.
    rewrite (wstep_users_of _ _ _ _ _ p W), converted_users_of, (ws_slot _ _ _ _ _ W).
    pose proof (Hc p b Hp Hb) as Cp. simpl in Cp.
    assert (has_use_list target = true ->
            Z.of_nat (count_slot b (users_of st target))
            = b2z (bool_decide (slot_of st b = Some target))) as Ct.
    { intros Ht. rewrite (Hc target b Ht Hb). lia. }
    assert (has_use_list src = true ->
            Z.of_nat (count_slot b (users_of st src))
            = b2z (bool_decide (slot_of st b = Some src))) as Cs.
    { intros Hs. rewrite (Hc src b Hs Hb). lia. }
    assert (has_use_list target = false -> users_of st target = []) as Nt by apply Hn.
    destruct (decide (b ∈ userp <$> users_of st target)) as [Hin|Hnin].
    + apply elem_of_userp_count in Hin.
      destruct (has_use_list target) eqn:Ht;
        [|rewrite (Nt eq_refl), count_slot_nil in Hin; lia].
      specialize (Ct eq_refl).
      assert (slot_of st b = Some target) as Hsl.
      { destruct (decide (slot_of st b = Some target)) as [E|E]; [done|].
        rewrite bool_decide_eq_false_2 in Ct by done. simpl in Ct. lia. }
      rewrite Hsl in *. rewrite bool_decide_eq_true_2 in Ct by done. simpl in Ct.
      destruct (has_use_list src) eqn:Hs; simpl.
      * destruct (decide (p = src)) as [->|Hq];
          [rewrite (bool_decide_eq_true_2 (src = src)) by done
          |rewrite (bool_decide_eq_false_2 (p = src)) by done].
        -- rewrite bool_decide_eq_true_2 by done. simpl.
           rewrite count_slot_app. destruct (decide (src = target)) as [->|Hne].
           ++ rewrite count_slot_nil. lia.
           ++ specialize (Cs eq_refl).
              rewrite bool_decide_eq_false_2 in Cs by congruence. simpl in Cs. lia.
        -- rewrite (bool_decide_eq_false_2 (Some src = Some p)) by congruence. simpl.
           destruct (decide (p = target)) as [->|Hne]; [by rewrite count_slot_nil|].
           rewrite bool_decide_eq_false_2 in Cp by congruence. simpl in Cp. lia.
      * assert (p <> src) as Hps by (intros ->; congruence).
        rewrite (bool_decide_eq_false_2 (Some src = Some p)) by congruence. simpl.
        destruct (decide (p = target)) as [->|Hne]; [by rewrite count_slot_nil|].
        rewrite bool_decide_eq_false_2 in Cp by congruence. simpl in Cp. lia.
    + assert (count_slot b (users_of st target) = 0%nat) as Hz.
      { destruct (count_slot b (users_of st target)) eqn:E; [done|].
        exfalso. apply Hnin, elem_of_userp_count. lia. }
      destruct (has_use_list src) eqn:Hs; simpl.
      * destruct (decide (p = src)) as [->|Hq];
          [rewrite (bool_decide_eq_true_2 (src = src)) by done
          |rewrite (bool_decide_eq_false_2 (p = src)) by done].
        -- rewrite count_slot_app, Hz.
           destruct (decide (src = target)) as [->|Hne].
           ++ rewrite count_slot_nil. specialize (Cs eq_refl). lia.
           ++ lia.
        -- destruct (decide (p = target)) as [->|Hne]; [|lia].
           rewrite count_slot_nil. specialize (Ct Hp). lia.
      * destruct (decide (p = target)) as [->|Hne]; [|lia].
        rewrite count_slot_nil. specialize (Ct Hp). lia.
  - intros p pu. rewrite (wstep_users_of _ _ _ _ _ p W), converted_users_of.
    intros Hin. rewrite (ws_slot _ _ _ _ _ W).
    destruct (decide (userp pu ∈ userp <$> users_of st target)); [by eexists|].
    destruct (has_use_list src && bool_decide (p = src)).
    + apply elem_of_app in Hin as [Hin|Hin]; [|by apply (Hv target)].
      destruct (decide (src = target)); [by apply elem_of_nil in Hin|by apply (Hv src)].
    + destruct (decide (p = target)); [by apply elem_of_nil in Hin|by apply (Hv p)].
  - intros p Hp. rewrite (wstep_users_of _ _ _ _ _ p W), converted_users_of.
    destruct (has_use_list src) eqn:Hs; simpl.
    + rewrite bool_decide_eq_false_2 by (intros ->; congruence).
      destruct (decide (p = target)); [done|by apply Hn].
    + destruct (decide (p = target)); [done|by apply Hn].
Qed.

Lemma convert_instruction_target_lists_ok i src st u st' :
  convert_instruction_target i src st = Ok u st' -> use_lists_ok st -> use_lists_ok st'.
Proof.
  intros H L. apply convert_instruction_target_Ok in H as (ins & _ & W).
  by eapply wstep_use_lists_ok.
Qed.

Lemma wins_lengths src ins ins' :
  wins src ins ins' ->
  length (i_phi_list ins') = length (i_phi_list ins) /\
  length (i_arguments ins') = length (i_arguments ins).
Proof.
  intros K.
  assert (forall s0, is_Some (slot_get ins' s0) <-> is_Some (slot_get ins s0)) as Hsome.
  { intros s0. destruct (wins_slot _ _ _ K s0) as [->|[? ->]]; [done|].
    split; [done|by eexists]. }
  split.
  - apply Nat.le_antisymm; apply Nat.nlt_ge; intros Hlt.
    + apply lookup_lt_is_Some in Hlt. apply (Hsome (PhiEntry _)) in Hlt.
      simpl in Hlt. apply lookup_lt_is_Some in Hlt. lia.
    + apply lookup_lt_is_Some in Hlt. apply (Hsome (PhiEntry _)) in Hlt.
      simpl in Hlt. apply lookup_lt_is_Some in Hlt. lia.
  - apply Nat.le_antisymm; apply Nat.nlt_ge; intros Hlt.
    + apply lookup_lt_is_Some in Hlt. apply (Hsome (ArgEntry _)) in Hlt.
      simpl in Hlt. apply lookup_lt_is_Some in Hlt. lia.
    + apply lookup_lt_is_Some in Hlt. apply (Hsome (ArgEntry _)) in Hlt.
      simpl in Hlt. apply lookup_lt_is_Some in Hlt. lia.
Qed.

Lemma wins_kill_slots src ins ins' s :
  wins src ins ins' -> s ∈ kill_slots ins' -> slot_get ins' s = slot_get ins s ->
  s ∈ kill_slots ins.
Proof.
  intros K Hs E. revert Hs. unfold kill_slots. rewrite (wins_opcode _ _ _ K).
  destruct (wins_lengths _ _ _ K) as [-> ->].
  destruct (i_opcode ins); try done.
  intros [Hin|Hin]%elem_of_app; apply elem_of_app; [by left|right].
  destruct (bool_decide (ptype (i_src1 ins') = PSEUDO_REG)) eqn:Hb;
    [|by apply elem_of_nil in Hin].
  apply list_elem_of_singleton in Hin. subst s. simpl in E. injection E as E.
  rewrite <- E, Hb. by left.
Qed.

Lemma wstep_total_uses st st' target src :
  wstep src (users_of st target) (converted_users st target src) st st' ->
  (total_uses st' <= total_uses st)%nat.
Proof.
  intros W. pose proof (ws_users _ _ _ _ _ W) as Hu. unfold converted_users in Hu.
  cbv zeta in Hu.
  set (st1 := with_users (<[target := []]> (users st)) st).
  pose proof (total_uses_users st st1 target [] eq_refl) as H1. simpl in H1.
  destruct (has_use_list src).
  - pose proof (total_uses_users st1 st' src _ Hu) as H2.
    rewrite length_app in H2.
    change (default [] (<[target:=[]]> (users st) !! src)) with (users_of st1 src) in H2.
    lia.
  - assert (total_uses st' = total_uses st1) as -> by (unfold total_uses; by rewrite Hu).
    lia.
Qed.

(** The retarget to a pseudo that is no symbol keeps the state ready for
    kills. *)
Lemma wstep_kill_ready st st' target src :
  wstep src (users_of st target) (converted_users st target src) st st' ->
  (forall x, src <> SYM x) ->
  kill_ready st -> kill_ready st'.
Proof.
  intros W Hsym R.
  assert (forall i ins', insns st' !! i = Some ins' ->
            exists ins, insns st !! i = Some ins /\ wins src ins ins') as Hback.
  { intros i ins' Hi'. destruct (insns st !! i) as [x|] eqn:Hx;
      [|by rewrite (ws_dom _ _ _ _ _ W _ Hx) in Hi'].
    destruct (ws_insns _ _ _ _ _ W _ _ Hx) as (y & Hy & Ky). exists x.
    split; [done|]. congruence. }
  constructor.
  - intros i ins' s p Hi' Hs Hp Hu.
    destruct (Hback i ins' Hi') as (ins & Hi & Ki).
    pose proof (ws_slot _ _ _ _ _ W (i, s)) as Hsl.
    unfold slot_of at 1 in Hsl. cbn [fst snd] in Hsl. rewrite Hi', Hp in Hsl.
    rewrite (wstep_users_of _ _ _ _ _ p W), converted_users_of.
    destruct (decide ((i, s) ∈ userp <$> users_of st target)) as [Hin|Hnin];
      [rewrite decide_True in Hsl by done|rewrite decide_False in Hsl by done].
    + injection Hsl as ->. rewrite Hu. rewrite bool_decide_eq_true_2 by done. simpl.
      rewrite count_slot_app. apply elem_of_userp_count in Hin. lia.
    + unfold slot_of in Hsl. cbn [fst snd] in Hsl. rewrite Hi in Hsl.
      assert (s ∈ kill_slots ins) as Hs0
        by (apply (wins_kill_slots src ins ins'); [done|done|congruence]).
      pose proof (kr_entry _ R i ins s p Hi Hs0 (eq_sym Hsl) Hu) as Hpos.
      assert (count_slot (i, s) (users_of st target) = 0%nat) as Hz.
      { destruct (count_slot (i, s) (users_of st target)) eqn:E; [done|].
        exfalso. apply Hnin, elem_of_userp_count. lia. }
      destruct (has_use_list src && bool_decide (p = src)) eqn:Hb.
      * apply andb_prop in Hb as [_ Hb]. apply bool_decide_eq_true_1 in Hb. subst p.
        rewrite count_slot_app. destruct (decide (src = target)) as [->|Hne]; lia.
      * destruct (decide (p = target)) as [->|Hne]; [lia|done].
  - intros p j Hp. rewrite (ws_defs _ _ _ _ _ W) in Hp.
    destruct (kr_defs _ R p j Hp) as [x Hx].
    destruct (ws_insns _ _ _ _ _ W _ _ Hx) as (y & Hy & _). by eexists.
  - intros i ins' s x Hi' Hs Hp.
    destruct (Hback i ins' Hi') as (ins & Hi & Ki).
    destruct (wins_slot _ _ _ Ki s) as [E|[_ E]].
    + apply (kr_nosym _ R i ins s x Hi); [|congruence].
      by apply (wins_kill_slots src ins ins').
    + rewrite E in Hp. injection Hp as Hp. by apply (Hsym x).
Qed.

(** ** Replacing an instruction by a pseudo *)

Lemma kill_use_runs fuel st i s :
  kill_ready st -> (total_uses st <= fuel)%nat ->
  (exists ins, insns st !! i = Some ins /\ s ∈ kill_slots ins) ->
  runs_to (kill_use fuel (Some (i, s))) st (kpost st).
Proof.
  intros R Hn Hi. unfold kill_use.
  apply (kill_use_total (kill_instruction fuel) fuel); [|done|done|done].
  intros ptr st0 Hp R0 Hn0. by apply kill_insn_total.
Qed.

Lemma replace_with_pseudo_lists_ok fuel i src st r st' :
  replace_with_pseudo fuel i src st = Ok r st' -> use_lists_ok st -> use_lists_ok st'.
Proof.
  intros H L. unfold replace_with_pseudo in H.
  apply bind_Ok in H as ([] & st1 & H1 & H).
  apply convert_instruction_target_lists_ok in H1; [|done].
  apply bind_Ok in H as (ins & st2 & H2 & H). apply load_insn_Ok in H2 as [Hi ->].
  cbv zeta in H.
  apply bind_Ok in H as ([] & st3 & H3 & H).
  apply bind_Ok in H as ([] & st4 & H4 & H). apply ret_Ok in H as [_ <-].
  assert (use_lists_ok st3) as L3.
  { destruct (i_opcode ins); norm_range; cbv beta iota in H3;
      repeat first
        [ progress inv_run
        | match goal with
          | H : kill_use _ _ _ = Ok _ _ |- _ =>
              apply kill_use_lists_ok with (sur := fun _ _ => 0) in H; [|assumption]
          end ]; try done. }
  by apply (update_insn_lists_ok _ _ _ _ _ _ H4).
Qed.

(** [replace_with_pseudo] runs to completion: the users of the target are
    retargeted, the operands unbound by cascading kills, and the instruction
    is dead. *)
Lemma replace_with_pseudo_total fuel i ins src st :
  insns st !! i = Some ins -> replaceable (i_opcode ins) = true ->
  use_lists_ok st -> kill_ready st -> (forall x, src <> SYM x) ->
  (total_uses st < fuel)%nat ->
  exists st1 st',
    convert_instruction_target i src st = Ok tt st1 /\
    wstep src (users_of st (i_target ins)) (converted_users st (i_target ins) src) st st1 /\
    replace_with_pseudo fuel i src st = Ok REPEAT_CSE st' /\
    kstep st1 st' /\
    (exists ins', insns st' !! i = Some ins' /\ i_bb ins' = None) /\
    use_lists_ok st'.
Proof.
  intros Hi Hop L R Hsym Hn.
  destruct (convert_instruction_target_total i ins src st Hi) as (st1 & Hconv & W).
  { intros pu Hin. destruct L as (_ & Hv & _). by apply (Hv (i_target ins)). }
  pose proof (wstep_kill_ready _ _ _ _ W Hsym R) as R1.
  pose proof (wstep_total_uses _ _ _ _ W) as Hn1.
  destruct (ws_insns _ _ _ _ _ W i ins Hi) as (ins1 & Hi1 & Ki).
  assert (runs_to (replace_with_pseudo fuel i src) st
            (fun r st' => r = REPEAT_CSE /\ kstep st1 st' /\
               exists ins', insns st' !! i = Some ins' /\ i_bb ins' = None)) as Hrun.
  { unfold replace_with_pseudo. apply runs_bind. exists tt, st1. split; [done|].
    apply runs_bind. exists ins1, st1. split; [by apply load_insn_eq|]. cbv zeta.
    assert (forall st2, kstep st1 st2 -> kill_ready st2) as HR
      by (intros; by eapply kstep_kill_ready).
    assert (forall st2, kstep st1 st2 ->
              runs_to (let* _ := update_insn i (set_bb None) in ret REPEAT_CSE) st2
                (fun r st' => r = REPEAT_CSE /\ kstep st1 st' /\
                   exists ins', insns st' !! i = Some ins' /\ i_bb ins' = None)) as Hfin.
    { intros st2 K2. destruct (ks_insns _ _ K2 i ins1 Hi1) as (ins2 & Hi2 & _).
      apply runs_bind. eexists tt, _. split.
      { unfold update_insn. rewrite (bind_eq _ _ _ _ _ (load_insn_eq _ _ _ Hi2)). reflexivity. }
      apply runs_ret. split; [done|]. split.
      - eapply kstep_trans; [exact K2|by apply kstep_set_bb].
      - eexists. split; [simpl; by rewrite lookup_insert_eq|done]. }
    assert (forall s st2, kstep st1 st2 -> (total_uses st2 <= total_uses st1)%nat ->
              s ∈ kill_slots ins1 -> i_opcode ins1 <> OP_CALL ->
              runs_to (kill_use fuel (Some (i, s))) st2 (kpost st2)) as Hkill.
    { intros s st2 K2 M2 Hs Hc. apply kill_use_runs; [by apply HR|lia|].
      by apply (kstep_slot_member st1 st2 i ins1 s). }
    rewrite <- (wins_opcode _ _ _ Ki) in Hop.
    unfold replaceable in Hop. unfold kill_slots in Hkill.
    destruct (i_opcode ins1) eqn:Hop1; norm_range; try discriminate Hop;
      cbv beta iota in Hkill |- *.
    all: repeat first
      [ match goal with
        | |- runs_to (bind (bind _ _) _) _ _ => apply runs_seq_k
        | |- runs_to (bind (kill_use _ _) _) _ _ => apply runs_seq_k
        | |- runs_to (bind (update_insn _ _) _) _ _ => apply Hfin; kchain
        | |- runs_to (kill_use _ _) _ (kpost _) =>
            eapply runs_weaken;
            [ apply Hkill; [kchain|lia|set_solver|done]
            | intros [] ? [? ?]; split; [kchain|lia] ]
        | |- forall _, _ => intros ? ? ?
        end ]. }
  destruct Hrun as (r & st' & Hrun & -> & K & Hdead).
  exists st1, st'. repeat (split; [done|]).
  by apply (replace_with_pseudo_lists_ok _ _ _ _ _ _ Hrun).
Qed.

Lemma replace_with_pseudo_replaced fuel i ins src st :
  insns st !! i = Some ins -> replaceable (i_opcode ins) = true ->
  use_lists_ok st -> kill_ready st -> (forall x, src <> SYM x) ->
  (total_uses st < fuel)%nat ->
  exists st', replace_with_pseudo fuel i src st = Ok REPEAT_CSE st' /\
              replaced_with st i ins src st'.
Proof.
  intros Hi Hop L R Hsym Hn.
  destruct (replace_with_pseudo_total fuel i ins src st Hi Hop L R Hsym Hn)
    as (st1 & st' & _ & W & Hrun & K & Hdead & L').
  exists st'. split; [done|]. split; [by exists st1|]. split; [|split; [|done]].
  - intros pu Hin.
    assert (slot_of st1 (userp pu) = Some src) as Hs.
    { rewrite (ws_slot _ _ _ _ _ W). rewrite decide_True; [done|].
      by apply list_elem_of_fmap_2. }
    destruct (kstep_slot _ _ (userp pu) K) as [E|[_ E]]; rewrite E; [by left|by right].
  - intros Hne.
    assert (users_of st1 (i_target ins) = []) as Hnil.
    { rewrite (wstep_users_of _ _ _ _ _ _ W), converted_users_of.
      rewrite (bool_decide_eq_false_2 (i_target ins = src)) by done.
      rewrite andb_false_r. by rewrite decide_True. }
    pose proof (ks_sublist _ _ K (i_target ins)) as Hsub. rewrite Hnil in Hsub.
    by apply sublist_nil_r in Hsub.
Qed.

(** ** Identities of a constant right operand *)



(** ** Cast of an AND *)


Lemma shiftr_small v k : 0 <= k -> 0 <= v < 2 ^ k -> k < 64 -> Z.shiftr (u64 v) k = 0.
Proof.
  intros Hk Hv Hk64. unfold u64.
  assert (2 ^ k <= 2 ^ 63) by (apply Z.pow_le_mono_r; lia).
  rewrite Z.mod_small by lia.
  rewrite Z.shiftr_div_pow2 by done. apply Z.div_small. lia.
Qed.



(** ** φ-nodes without a live source *)

Lemma clean_up_phi_loop_none l st :
  no_live_source st l -> clean_up_phi_loop l None true st = Ok (None, true) st.
Proof.
  induction l as [|p l IH]; intros H; cbn [clean_up_phi_loop]; [done|].
  assert (no_live_source st l) as Hl by (intros q Hq; apply H; by right).
  destruct (decide (p = VOID)) as [->|Hne]; [by apply IH|].
  destruct (H p) as [->|(d & def & Hd & Hi & Hdead)]; [by left|done|].
  unfold bind at 1. unfold get_state. rewrite Hd.
  unfold deref. unfold bind at 1. unfold bind at 1. rewrite (load_insn_eq _ _ _ Hi).
  unfold ret at 1. cbn [snd].
  assert (bool_decide (i_src1 def = VOID) || bool_decide (i_bb def = None) = true) as ->.
  { destruct Hdead as [E|E]; rewrite E; [done|]. by rewrite orb_true_r. }
  by apply IH.
Qed.



(** ** Switch folding *)

Lemma find_multijmp_Some l v jmp :
  find_multijmp l v = Some jmp <->
  exists l1 l2, l = l1 ++ jmp :: l2 /\ takes v jmp = true /\
                forall j, j ∈ l1 -> takes v j = false.
Proof.
  induction l as [|x l IH]; simpl.
  - split; [done|]. intros (l1 & l2 & E & _). by destruct l1.
  - destruct (takes v x) eqn:Ex.
    + assert ((if mj_begin x >? mj_end x then Some x
               else if (v >=? mj_begin x) && (v <=? mj_end x) then Some x
                    else find_multijmp l v) = Some x) as ->.
      { unfold takes in Ex. destruct (mj_begin x >? mj_end x); [done|].
        simpl in Ex. by rewrite Ex. }
      split.
      * intros [= ->]. exists [], l. split; [done|]. split; [done|].
        intros j Hj. by apply elem_of_nil in Hj.
      * intros (l1 & l2 & E & Ht & Hn). destruct l1 as [|y l1]; simpl in E.
        -- by injection E as <- _.
        -- injection E as <- _. specialize (Hn x ltac:(by left)). congruence.
    + assert ((if mj_begin x >? mj_end x then Some x
               else if (v >=? mj_begin x) && (v <=? mj_end x) then Some x
                    else find_multijmp l v) = find_multijmp l v) as ->.
      { unfold takes in Ex. destruct (mj_begin x >? mj_end x); [done|].
        simpl in Ex. by rewrite Ex. }
      rewrite IH. split.
      * intros (l1 & l2 & -> & Ht & Hn). exists (x :: l1), l2. split; [done|]. split; [done|].
        intros j [->|Hj]%elem_of_cons; [done|by apply Hn].
      * intros (l1 & l2 & E & Ht & Hn). destruct l1 as [|y l1]; simpl in E.
        -- injection E as <- _. congruence.
        -- injection E as <- ->. exists l1, l2. split; [done|]. split; [done|].
           intros j Hj. apply Hn. by right.
Qed.

Lemma find_multijmp_None l v :
  find_multijmp l v = None <-> forall j, j ∈ l -> takes v j = false.
Proof.
  induction l as [|x l IH]; simpl.
  - split; [|done]. intros _ j Hj. by apply elem_of_nil in Hj.
  - destruct (takes v x) eqn:Ex.
    + assert ((if mj_begin x >? mj_end x then Some x
               else if (v >=? mj_begin x) && (v <=? mj_end x) then Some x
                    else find_multijmp l v) = Some x) as ->.
      { unfold takes in Ex. destruct (mj_begin x >? mj_end x); [done|].
        simpl in Ex. by rewrite Ex. }
      split; [done|]. intros H. specialize (H x ltac:(by left)). congruence.
    + assert ((if mj_begin x >? mj_end x then Some x
               else if (v >=? mj_begin x) && (v <=? mj_end x) then Some x
                    else find_multijmp l v) = find_multijmp l v) as ->.
      { unfold takes in Ex. destruct (mj_begin x >? mj_end x); [done|].
        simpl in Ex. by rewrite Ex. }
      rewrite IH. split.
      * intros H j [->|Hj]%elem_of_cons; [done|by apply H].
      * intros H j Hj. apply H. by right.
Qed.

Lemma bstep_refl st : bstep st st.
Proof. by repeat split. Qed.

Lemma bstep_trans st1 st2 st3 : bstep st1 st2 -> bstep st2 st3 -> bstep st1 st3.
Proof.
  intros (A1 & A2 & A3 & A4 & A5 & A6 & A7 & A8) (B1 & B2 & B3 & B4 & B5 & B6 & B7 & B8).
  repeat split; try congruence. intros n Hn. by apply B8, A8.
Qed.

Lemma bstep_lists_ok st st' sur : bstep st st' -> lists_ok st sur -> lists_ok st' sur.
Proof.
  intros (A1 & A2 & _) (Hc & Hv & Hn).
  assert (forall a, slot_of st' a = slot_of st a) as Hs
    by (intros a; unfold slot_of; by rewrite A1).
  assert (forall p, users_of st' p = users_of st p) as Hu
    by (intros p; unfold users_of; by rewrite A2).
  split; [|split].
  - intros p a Hp (x & Hx & Hl). rewrite Hu, Hs. apply Hc; [done|].
    exists x. by rewrite <- A1.
  - intros p pu. rewrite Hu, Hs. apply Hv.
  - intros p. rewrite Hu. apply Hn.
Qed.

Lemma update_bb_bstep b f st u st' :
  update_bb b f st = Ok u st' ->
  bstep st st' /\ exists blk, blocks st !! b = Some blk /\ blocks st' = <[b := f blk]> (blocks st).
Proof.
  unfold update_bb, bind, load_bb. destruct (blocks st !! b) as [blk|] eqn:E; [|done].
  intros [= H]. subst st'. split; [|exists blk; split; [reflexivity|reflexivity]].
  repeat split; try done. intros n Hn. simpl.
  destruct (decide (b = n)) as [->|Hne]; [rewrite lookup_insert_eq; by eexists|].
  by rewrite lookup_insert_ne.
Qed.

Lemma delete_bb_scan_found l b :
  b ∈ l -> exists l', delete_bb_scan l b 1 = (l', 0, true).
Proof.
  induction l as [|x l IH]; [by intros ?%elem_of_nil|].
  intros Hin. simpl. destruct (decide (x = b)) as [->|Hne]; [by eexists|].
  apply elem_of_cons in Hin as [->|Hin]; [done|].
  destruct (IH Hin) as (l' & ->). by eexists.
Qed.

Lemma detach_edges_total b target children : forall st,
  NoDup children ->
  (forall c, c ∈ children -> exists cb, blocks st !! c = Some cb /\ b ∈ bb_parents cb) ->
  exists kept st',
    detach_edges b children target st = Ok kept st' /\ bstep st st'.
Proof.
  induction children as [|c rest IH]; intros st Hnd Hc; cbn [detach_edges].
  - exists [], st. split; [done|apply bstep_refl].
  - apply NoDup_cons in Hnd as [Hnin Hnd].
    destruct (decide (Some c = target)) as [E|Hne].
    + destruct (IH st Hnd) as (kept & st' & Hrun & B); [intros x Hx; apply Hc; by right|].
      exists (c :: kept), st'. split; [|done]. by rewrite (bind_eq _ _ _ _ _ Hrun).
    + destruct (Hc c) as (cb & Hcb & Hpar); [by left|].
      unfold bind at 1. unfold load_bb at 1. rewrite Hcb.
      destruct (delete_bb_scan_found _ _ Hpar) as (ps & Hps).
      unfold bind at 1. unfold remove_bb_from_list. rewrite Hps. cbn [orb]. unfold ret at 1.
      unfold bind at 1. unfold update_bb at 1. unfold bind at 1. unfold load_bb at 1.
      rewrite Hcb.
      match goal with |- context [detach_edges b rest target ?s] => set (st1 := s) end.
      assert (bstep st st1) as B1.
      { repeat split; try done. intros n Hn. simpl.
        destruct (decide (c = n)) as [->|?]; [rewrite lookup_insert_eq; by eexists|].
        by rewrite lookup_insert_ne. }
      destruct (IH st1 Hnd) as (kept & st' & Hrun & B).
      { intros x Hx. simpl. rewrite lookup_insert_ne by (intros ->; done).
        apply Hc. by right. }
      exists kept, st'. split; [done|]. by eapply bstep_trans.
Qed.

Lemma insert_branch_total b i ins target st :
  insns st !! i = Some ins -> edges_ok st b ->
  exists st',
    insert_branch (Some b) i target st = Ok tt st' /\
    insns st' = <[i := set_branches target None (set_opcode OP_BR ins)]> (insns st) /\
    users st' = users st /\ warnings st' = warnings st.
Proof.
  intros Hi (blk & Hb & Hnd & Hc). unfold insert_branch.
  unfold bind at 1. unfold load_bb at 1. rewrite Hb.
  set (st1 := with_insns (<[i := set_branches target None (set_opcode OP_BR ins)]> (insns st)) st).
  assert (update_insn i (fun x => set_branches target None (set_opcode OP_BR x)) st
          = Ok tt st1) as Hupd.
  { unfold update_insn. by rewrite (bind_eq _ _ _ _ _ (load_insn_eq _ _ _ Hi)). }
  rewrite (bind_eq _ _ _ _ _ Hupd). cbn [default].
  destruct (detach_edges_total b target (bb_children blk) st1 Hnd Hc)
    as (kept & st2 & Hrun & B).
  rewrite (bind_eq _ _ _ _ _ Hrun).
  destruct B as (B1 & B2 & _ & _ & _ & B6 & _ & B8).
  destruct (B8 b) as [blk2 Hb2]; [by eexists|].
  unfold update_bb, bind, load_bb, id. rewrite Hb2.
  eexists. split; [reflexivity|]. simpl. by rewrite B1, B2, B6.
Qed.

Lemma br_not_store ins t f s :
  is_live (set_branches t f (set_opcode OP_BR ins)) = true ->
  tracked (set_branches t f (set_opcode OP_BR ins)) s = true -> tracked ins s = true.
Proof. intros _. unfold tracked. by destruct s. Qed.

(** C7.  Switch folding.  Let the instruction [i] of the live block [b],
    whose edges are well formed, have the VAL [v] as scrutinee.  When a case
    takes [v] (it is the default case, or its range holds [v]), the switch
    becomes an unconditional branch to the target of the first such case of
    the list and REPEAT_CSE is returned; when no case takes [v], the warning
    is recorded, nothing else changes and 0 is returned. *)
Theorem simplify_switch_folds i ins b v st :
  insns st !! i = Some ins -> i_bb ins = Some b -> i_src1 ins = VAL v ->
  edges_ok st b ->
  (forall jmp, jmp ∈ i_multijmp_list ins -> takes v jmp = true ->
     exists first st',
       find_multijmp (i_multijmp_list ins) v = Some first /\
       first ∈ i_multijmp_list ins /\ takes v first = true /\
       simplify_switch i st = Ok REPEAT_CSE st' /\
       insns st' = <[i := set_branches (Some (mj_target first)) None (set_opcode OP_BR ins)]>
                     (insns st) /\
       users st' = users st /\ warnings st' = warnings st) /\
  ((forall jmp, jmp ∈ i_multijmp_list ins -> takes v jmp = false) ->
     simplify_switch i st =
       Ok 0 (with_warnings (warnings st ++ [(i_pos ins, "Impossible case statement")]) st)).
Proof.
  intros Hi Hbb Hv He. unfold simplify_switch.
  rewrite (bind_eq _ _ _ _ _ (load_insn_eq _ _ _ Hi)). cbv zeta. rewrite Hv, Hbb.
  change (constant (VAL v)) with true. cbn [negb pvalue].
  split.
  - intros jmp Hin Ht.
    destruct (find_multijmp (i_multijmp_list ins) v) as [first|] eqn:Hf.
    + pose proof Hf as Hf'. apply find_multijmp_Some in Hf' as (l1 & l2 & El & Htf & _).
      destruct (insert_branch_total b i ins (Some (mj_target first)) st Hi He)
        as (st' & Hrun & H1 & H2 & H3).
      exists first, st'. split; [done|]. split.
      { rewrite El. apply elem_of_app. right. by left. }
      split; [done|]. split; [|done].
      by rewrite (bind_eq _ _ _ _ _ Hrun).
    + pose proof (proj1 (find_multijmp_None _ _) Hf jmp Hin) as Hf0. congruence.
  - intros Hn. by rewrite (proj2 (find_multijmp_None _ _) Hn).
Qed.

Lemma simplify_switch_folds_witness :
  exists first st',
    find_multijmp SwitchScenario.cases 7 = Some first /\
    first ∈ SwitchScenario.cases /\ takes 7 first = true /\
    simplify_switch 1 (SwitchScenario.switch_on 7 SwitchScenario.cases) = Ok REPEAT_CSE st' /\
    insns st' = <[1%nat := set_branches (Some (mj_target first)) None
                             (set_opcode OP_BR
                                (SwitchScenario.mk_switch (VAL 7) SwitchScenario.cases))]>
                  (insns (SwitchScenario.switch_on 7 SwitchScenario.cases)) /\
    users st' = users (SwitchScenario.switch_on 7 SwitchScenario.cases) /\
    warnings st' = warnings (SwitchScenario.switch_on 7 SwitchScenario.cases).
Proof.
  apply (simplify_switch_folds 1 (SwitchScenario.mk_switch (VAL 7) SwitchScenario.cases)
           0 7 (SwitchScenario.switch_on 7 SwitchScenario.cases) eq_refl eq_refl eq_refl)
    with (jmp := {| mj_target := 2%nat; mj_begin := 6; mj_end := 10 |}).
  - exists (SwitchScenario.block [] [1%nat; 2%nat; 3%nat] [1%nat]).
    split; [reflexivity|]. split.
    + apply (bool_decide_unpack _). by vm_compute.
    + intros c Hc. exists (SwitchScenario.block [0%nat] [] []).
      repeat (apply elem_of_cons in Hc as [->|Hc]; [split; [reflexivity|by left]|]).
      by apply elem_of_nil in Hc.
  - right. by left.
  - reflexivity.
Defined.

(** S6: the switch on 7 becomes a branch to block 2 (B), and the edges to
    blocks 1 (A) and 3 (D) are gone from both ends. *)
Example simplify_switch_S6 :
  match simplify_switch 1 (SwitchScenario.switch_on 7 SwitchScenario.cases) with
  | Ok r st' =>
      r = REPEAT_CSE /\
      (i_opcode <$> insns st' !! 1%nat) = Some OP_BR /\
      (i_bb_true <$> insns st' !! 1%nat) = Some (Some 2%nat) /\
      (bb_children <$> blocks st' !! 0%nat) = Some [2%nat] /\
      (bb_parents <$> blocks st' !! 1%nat) = Some [] /\
      (bb_parents <$> blocks st' !! 2%nat) = Some [0%nat] /\
      (bb_parents <$> blocks st' !! 3%nat) = Some []
  | Err _ => False
  end.
Proof. vm_compute. repeat split; reflexivity. Qed.

(** A value no case takes, without a default case. *)
Example simplify_switch_impossible :
  simplify_switch 1 (SwitchScenario.switch_on 42 (take 2 SwitchScenario.cases)) =
  Ok 0 (with_warnings [(0%nat, "Impossible case statement")]
          (SwitchScenario.switch_on 42 (take 2 SwitchScenario.cases))).
Proof. reflexivity. Qed.

(** ** The use-list invariant through the simplifier *)

(** *** Operations that leave the state alone *)

Lemma deref_Ok ptr st x st' :
  deref ptr st = Ok x st' -> ptr = InsnAt x.1 /\ insns st !! x.1 = Some x.2 /\ st' = st.
Proof.
  destruct ptr as [|i|]; simpl; try done. intros H.
  apply bind_Ok in H as (ins & s1 & H1 & H). apply load_insn_Ok in H1 as [Hi ->].
  apply ret_Ok in H as [<- <-]. done.
Qed.

Lemma load_bb_Ok b st blk st' : load_bb b st = Ok blk st' -> st' = st.
Proof.
  unfold load_bb. destruct b as [n|]; [|done]. destruct (blocks st !! n); [|done].
  by intros [= _ <-].
Qed.

Lemma remove_bb_from_list_Ok l e c st r st' :
  remove_bb_from_list l e c st = Ok r st' -> st' = st.
Proof.
  unfold remove_bb_from_list. destruct (delete_bb_scan l e c) as [[l' c'] out].
  destruct (out || (c' <=? 0)); [|done]. by intros [_ <-]%ret_Ok.
Qed.

(** Decompose a successful run down to the operations that change the
    state. *)
Ltac inv_pure :=
  repeat first
    [ progress inv_run
    | match goal with
      | H : deref _ _ = Ok _ _ |- _ =>
          apply deref_Ok in H; destruct H as (? & ? & ?); subst
      | H : load_bb _ _ = Ok _ _ |- _ => apply load_bb_Ok in H; subst
      | H : remove_bb_from_list _ _ _ _ = Ok _ _ |- _ =>
          apply remove_bb_from_list_Ok in H; subst
      | H : read_slot _ _ = Ok _ _ |- _ => apply read_slot_Ok in H; destruct H as [H ?]; subst
      end ].

(** Carry the invariant forward over the operations that keep it whatever
    the surplus. *)
Ltac lok_step :=
  match goal with
  | H : kill_use _ _ ?s = Ok _ ?s', L : lists_ok ?s _ |- _ =>
      pose proof (kill_use_lists_ok _ _ _ _ _ _ H L); clear H
  | H : kill_instruction _ _ ?s = Ok _ ?s', L : lists_ok ?s _ |- _ =>
      pose proof (kill_instruction_lists_ok _ _ _ _ _ _ H L); clear H
  | H : kill_insn _ _ _ ?s = Ok _ ?s', L : lists_ok ?s _ |- _ =>
      pose proof (kill_insn_lists_ok _ _ _ _ _ _ _ H L); clear H
  | H : or_repeat_phase _ ?s = Ok _ ?s', L : lists_ok ?s _ |- _ =>
      pose proof (or_repeat_phase_lists_ok _ _ _ _ _ H L); clear H
  | H : warning _ _ ?s = Ok _ ?s', L : lists_ok ?s _ |- _ =>
      pose proof (warning_lists_ok _ _ _ _ _ _ H L); clear H
  | H : switch_pseudo _ _ _ _ _ ?s = Ok _ ?s', L : lists_ok ?s _ |- _ =>
      pose proof (switch_pseudo_lists_ok _ _ _ _ _ _ _ _ _ H L); clear H
  | H : replace_with_pseudo _ _ _ ?s = Ok _ ?s', L : lists_ok ?s (fun _ _ => 0) |- _ =>
      pose proof (replace_with_pseudo_lists_ok _ _ _ _ _ _ H L); clear H
  | H : convert_instruction_target _ _ ?s = Ok _ ?s', L : lists_ok ?s (fun _ _ => 0) |- _ =>
      pose proof (convert_instruction_target_lists_ok _ _ _ _ _ H L); clear H
  | H : update_insn _ (set_bb None) ?s = Ok _ ?s', L : lists_ok ?s _ |- _ =>
      pose proof (update_insn_lists_ok _ _ _ _ _ _ H
                    ltac:(done) ltac:(done) ltac:(done) L); clear H
  | H : update_insn _ (set_offset _) ?s = Ok _ ?s', L : lists_ok ?s _ |- _ =>
      pose proof (update_insn_lists_ok _ _ _ _ _ _ H
                    ltac:(done) ltac:(done) ltac:(done) L); clear H
  | H : update_insn _ (fun x => set_offset _ x) ?s = Ok _ ?s', L : lists_ok ?s _ |- _ =>
      pose proof (update_insn_lists_ok _ _ _ _ _ _ H
                    ltac:(done) ltac:(done) ltac:(done) L); clear H
  | H : update_insn _ (fun x => set_branches _ _ x) ?s = Ok _ ?s', L : lists_ok ?s _ |- _ =>
      pose proof (update_insn_lists_ok _ _ _ _ _ _ H
                    ltac:(done) ltac:(done) ltac:(done) L); clear H
  end.

Ltac lok := unfold use_lists_ok in *; repeat lok_step; try eassumption.

Lemma set_opcode_tracked op ins s :
  op <> OP_STORE -> tracked (set_opcode op ins) s = true -> tracked ins s = true.
Proof.
  intros Hop. unfold tracked. destruct s; try done. simpl.
  intros H. by apply bool_decide_eq_true_1 in H.
Qed.

Lemma update_opcode_lists_ok i op st u st' sur :
  update_insn i (set_opcode op) st = Ok u st' -> op <> OP_STORE ->
  lists_ok st sur -> lists_ok st' sur.
Proof.
  intros H Hop. apply (update_insn_lists_ok _ _ _ _ _ _ H); try done.
  intros ins s _. by apply set_opcode_tracked.
Qed.

Lemma dead_insn_lists_ok fuel i s1 s2 s3 st r st' :
  dead_insn fuel i s1 s2 s3 st = Ok r st' -> use_lists_ok st -> use_lists_ok st'.
Proof.
  intros H L. unfold dead_insn in H. inv_pure.
  destruct (has_users _ _); inv_pure; [done|]. lok.
Qed.

Lemma canonicalize_commutative_lists_ok fuel i st r st' :
  canonicalize_commutative fuel i st = Ok r st' -> use_lists_ok st -> use_lists_ok st'.
Proof.
  intros H L. unfold canonicalize_commutative in H. inv_pure.
  destruct (canonical_order _ _); inv_pure; [done|]. lok.
Qed.

Lemma canonicalize_compare_lists_ok fuel i st r st' :
  canonicalize_compare fuel i st = Ok r st' -> use_lists_ok st -> use_lists_ok st'.
Proof.
  intros H L. unfold canonicalize_compare in H. inv_pure.
  destruct (canonical_order _ _); inv_pure; [done|].
  unfold store_insn in Hrun2. injection Hrun2 as Hst. subst st2. lok.
  assert (lists_ok (with_insns (<[i:=set_opcode (opcode_swap (i_opcode a1)) a1]> (insns st0)) st0)
            (fun _ _ => 0)) as L2.
  { apply (store_insn_lists_ok i a1 (set_opcode (opcode_swap (i_opcode a1))) st0); try done.
    intros s _. apply set_opcode_tracked, opcode_swap_not_store. }
  lok.
Qed.

Lemma simplify_constant_binop_lists_ok fuel i st r st' :
  simplify_constant_binop fuel i st = Ok r st' -> use_lists_ok st -> use_lists_ok st'.
Proof.
  intros H L. unfold simplify_constant_binop in H. inv_pure.
  destruct (eval_insn _ _ _ _); inv_pure; try done. lok.
Qed.

Lemma simplify_constant_unop_lists_ok fuel i st r st' :
  simplify_constant_unop fuel i st = Ok r st' -> use_lists_ok st -> use_lists_ok st'.
Proof.
  intros H L. unfold simplify_constant_unop in H. inv_pure.
  destruct (i_opcode _); inv_pure; try done;
    destruct (negb _); inv_pure; lok.
Qed.

Lemma simplify_asr_lists_ok fuel i p v st r st' :
  simplify_asr fuel i p v st = Ok r st' -> use_lists_ok st -> use_lists_ok st'.
Proof.
  intros H L. unfold simplify_asr in H. inv_pure.
  assert (st0 = st) as ->.
  { revert Hrun. unfold operand_size. clear. intros H. inv_pure.
    repeat match goal with
           | H : (if ?c then _ else _) _ = Ok _ _ |- _ => destruct c; inv_pure
           | H : match ?x with _ => _ end _ = Ok _ _ |- _ => destruct x; inv_pure
           end; done. }
  destruct (v >=? a); inv_pure; [lok|].
  destruct (v =? 0); inv_pure; [lok|done].
Qed.

(** Case analysis on the conditionals and matches of a successful run. *)
Ltac split_run :=
  repeat first
    [ progress inv_pure
    | match goal with
      | H : (if ?c then _ else _) _ = Ok _ _ |- _ => destruct c eqn:?
      | H : match ?x with _ => _ end _ = Ok _ _ |- _ => destruct x eqn:?
      end ].

Lemma simplify_mul_div_lists_ok fuel i v st r st' :
  simplify_mul_div fuel i v st = Ok r st' -> use_lists_ok st -> use_lists_ok st'.
Proof.
  intros H L. unfold simplify_mul_div in H. cbv zeta in H. split_run; try done; lok.
  all: eapply update_opcode_lists_ok; [eassumption|done|done].
Qed.

Lemma simplify_constant_leftside_lists_ok fuel i st r st' :
  simplify_constant_leftside fuel i st = Ok r st' -> use_lists_ok st -> use_lists_ok st'.
Proof.
  intros H L. unfold simplify_constant_leftside in H. cbv zeta in H.
  split_run; try done; lok.
Qed.

Lemma opcode_negate_not_store op : opcode_negate op <> OP_STORE.
Proof. by destruct op. Qed.

Lemma cmp_range_not_store op :
  op_in_range OP_FPCMP OP_BINCMP_END op = true -> op <> OP_STORE.
Proof. by destruct op. Qed.

Lemma update_insn_slot i f st u st' a :
  update_insn i f st = Ok u st' ->
  (forall ins s, slot_get (f ins) s = slot_get ins s) ->
  slot_of st' a = slot_of st a.
Proof.
  intros H Hs. apply update_insn_Ok in H as (ins & Hi & ->).
  rewrite slot_of_insert. destruct (decide (i = a.1)) as [->|]; [|done].
  unfold slot_of. by rewrite Hi, Hs.
Qed.

Lemma simplify_seteq_setne_lists_ok fuel i ins v st r st' :
  insns st !! i = Some ins -> has_use_list (i_src2 ins) = false ->
  simplify_seteq_setne fuel i v st = Ok r st' -> use_lists_ok st -> use_lists_ok st'.
Proof.
  intros Hi Hc H L. unfold simplify_seteq_setne in H. cbv zeta in H.
  apply bind_Ok in H as (x & s1 & H1 & H). apply load_insn_Ok in H1 as [Hx ->].
  assert (x = ins) as -> by congruence.
  apply bind_Ok in H as (s & s1 & H1 & H). unfold get_state in H1. injection H1 as <- <-.
  destruct (negb (v =? 0) && negb (v =? 1)); [by apply ret_Ok in H as [_ <-]|].
  assert (forall d, (let* d0 := deref d in
             if op_in_range OP_FPCMP OP_BINCMP_END (i_opcode d0.2) then
               let src1 := i_src1 d0.2 in
               let src2 := i_src2 d0.2 in
               let* _ := update_insn i
                 (set_opcode (if b2z (bool_decide (i_opcode ins = OP_SET_NE)) =? v
                              then opcode_negate (i_opcode d0.2) else i_opcode d0.2)) in
               let* _ := use_pseudo i src1 (i, Src1) in
               let* _ := use_pseudo i src2 (i, Src2) in
               let* _ := remove_usage fuel (i_src1 ins) (i, Src1) in ret REPEAT_CSE
             else ret 0) st = Ok r st' -> use_lists_ok st') as Hmain.
  { clear H. intros d H. cbv zeta in H.
    apply bind_Ok in H as (d0 & s1 & H1 & H). apply deref_Ok in H1 as (_ & Hd & ->).
    destruct (op_in_range _ _ _) eqn:Hr; [|by apply ret_Ok in H as [_ <-]].
    apply bind_Ok in H as ([] & st1 & Hu & H).
    apply bind_Ok in H as ([] & st2 & Hu1 & H).
    apply bind_Ok in H as ([] & st3 & Hu2 & H).
    apply bind_Ok in H as ([] & st4 & Hr1 & H). apply ret_Ok in H as [_ <-].
    assert (lists_ok st1 (fun _ _ => 0)) as L1.
    { eapply update_opcode_lists_ok; [exact Hu| |exact L].
      destruct (_ =? _); [apply opcode_negate_not_store|by apply cmp_range_not_store]. }
    assert (forall a, slot_of st1 a = slot_of st a) as Hs1
      by (intros a; by apply (update_insn_slot _ _ _ _ _ _ Hu)).
    assert (slot_of st1 (i, Src1) = Some (i_src1 ins)) as Ho1
      by (rewrite Hs1; unfold slot_of; simpl; by rewrite Hi).
    pose proof (use_pseudo_lists_ok _ _ _ _ _ _ _ _ Hu1 Ho1 L1) as L2.
    assert (slot_of st2 (i, Src2) = Some (i_src2 ins)) as Ho2.
    { apply use_pseudo_Ok in Hu1 as (_ & _ & _ & _ & Hsl & _). rewrite Hsl.
      rewrite decide_False by done. rewrite Hs1. unfold slot_of. simpl. by rewrite Hi. }
    pose proof (use_pseudo_lists_ok _ _ _ _ _ _ _ _ Hu2 Ho2 L2) as L3.
    pose proof (remove_usage_lists_ok _ _ _ _ _ _ _ Hr1 L3) as L4.
    eapply lists_ok_ext; [|exact L4].
    intros p b Hp. cbv beta.
    rewrite (bool_decide_eq_false_2 (i_src2 ins = p))
      by (intros E; rewrite <- E in Hp; congruence).
    sur_solve. }
  destruct (pseudo_def st (i_src1 ins)); [by apply ret_Ok in H as [_ <-]| |]; by eapply Hmain.
Qed.

Lemma write_const_lists_ok a q o st u st' :
  write_slot a q st = Ok u st' -> slot_of st a = Some o ->
  has_use_list o = false -> has_use_list q = false ->
  use_lists_ok st -> use_lists_ok st'.
Proof.
  intros H Ho Hno Hnq L. pose proof (lists_ok_write _ _ _ _ _ _ _ H Ho L) as L1.
  eapply lists_ok_ext; [|exact L1].
  intros p b Hp. cbv beta.
  rewrite !bool_decide_eq_false_2 by (intros E; rewrite <- E in Hp; congruence).
  destruct (decide _); simpl; lia.
Qed.

Lemma simplify_constant_rightside_lists_ok fuel i ins st r st' :
  insns st !! i = Some ins -> has_use_list (i_src2 ins) = false ->
  simplify_constant_rightside fuel i st = Ok r st' -> use_lists_ok st -> use_lists_ok st'.
Proof.
  intros Hi Hc H L. unfold simplify_constant_rightside in H. cbv zeta in H.
  apply bind_Ok in H as (x & s1 & H1 & H). apply load_insn_Ok in H1 as [Hx ->].
  assert (x = ins) as -> by congruence.
  destruct (i_opcode ins) eqn:Hop;
    try (by apply ret_Ok in H as [_ <-]);
    try (by eapply simplify_seteq_setne_lists_ok);
    try (by eapply simplify_mul_div_lists_ok);
    try (by eapply simplify_asr_lists_ok);
    try (split_run; try done; lok; fail).
  (* OP_SUB *)
  destruct (negb _); [|split_run; try done; lok].
  apply bind_Ok in H as ([] & st1 & Hu & H).
  apply bind_Ok in H as ([] & st2 & Hw & H). apply ret_Ok in H as [_ <-].
  assert (lists_ok st1 (fun _ _ => 0)) as L1
    by (eapply update_opcode_lists_ok; [exact Hu|done|exact L]).
  eapply (write_const_lists_ok _ _ (i_src2 ins)); [exact Hw| |done|done|exact L1].
  rewrite (update_insn_slot _ _ _ _ _ _ Hu) by done. unfold slot_of. simpl. by rewrite Hi.
Qed.

Lemma write_slot_live a q st u st' b :
  write_slot a q st = Ok u st' -> live_operand st' b -> live_operand st b.
Proof.
  intros H. apply write_slot_Ok in H as (ins & Hi & Hs & ->).
  by apply (live_operand_insert st a.1 ins).
Qed.

(** [remove_usage(p, a); *a = q] for a pseudo [q] without use list, where
    the slot held [p]. *)
Lemma unbind_then_write_lists_ok fuel p a q st u st1 u' st2 :
  remove_usage fuel p a st = Ok u st1 -> write_slot a q st1 = Ok u' st2 ->
  slot_of st a = Some p -> has_use_list q = false ->
  use_lists_ok st -> use_lists_ok st2.
Proof.
  intros Hr Hw Hp Hq L.
  pose proof (remove_usage_lists_ok _ _ _ _ _ _ _ Hr L) as L1.
  pose proof Hw as Hw'. apply write_slot_Ok in Hw' as (ins & Hi & [o Ho] & _).
  assert (slot_of st1 a = Some o) as Hso by (unfold slot_of; by rewrite Hi).
  pose proof (lists_ok_write _ _ _ _ _ _ _ Hw Hso L1) as (C2 & V2 & N2).
  split; [|done].
  intros p' b Hp' Hb. rewrite (C2 p' b Hp' Hb). cbv beta.
  rewrite (bool_decide_eq_false_2 (q = p')) by (intros E; rewrite <- E in Hp'; congruence).
  destruct (decide (b = a)) as [->|Hne];
    [|rewrite decide_False by (intros [_ ?]; done); simpl; lia].
  apply (write_slot_live _ _ _ _ _ _ Hw) in Hb.
  assert (o = p) as ->.
  { destruct (has_use_list p) eqn:Hup.
    - destruct L1 as (C1 & _). specialize (C1 p a Hup Hb). cbv beta in C1.
      rewrite Hso in C1. rewrite decide_True in C1 by done.
      destruct (decide (o = p)) as [|Hne]; [done|].
      rewrite bool_decide_eq_false_2 in C1 by congruence. simpl in C1. lia.
    - unfold remove_usage, rem_usage in Hr. apply rem_usage_with_Ok in Hr.
      rewrite Hup in Hr. subst st1. congruence. }
  destruct (decide (p' = p)) as [->|Hpp].
  - rewrite (decide_True (P := p = p /\ a = a)) by done.
    rewrite (bool_decide_eq_true_2 (p = p)) by done. simpl. lia.
  - rewrite (decide_False (P := p' = p /\ a = a)) by (intros [? _]; done).
    rewrite (bool_decide_eq_false_2 (p = p')) by done. simpl. lia.
Qed.

Lemma simplify_binop_same_args_lists_ok fuel i ins st r st' :
  insns st !! i = Some ins ->
  simplify_binop_same_args fuel i (i_src2 ins) st = Ok r st' ->
  use_lists_ok st -> use_lists_ok st'.
Proof.
  intros Hi H L. unfold simplify_binop_same_args in H.
  apply bind_Ok in H as (x & s1 & H1 & H). apply load_insn_Ok in H1 as [Hx ->].
  assert (x = ins) as -> by congruence.
  apply bind_Ok in H as (s & s1 & H1 & H). unfold get_state in H1. injection H1 as <- <-.
  destruct (i_opcode ins) eqn:Hop;
    try (by apply ret_Ok in H as [_ <-]);
    try (split_run; try done; lok; fail).
  all: apply bind_Ok in H as ([] & st1 & Hr & H);
    apply bind_Ok in H as ([] & st2 & Hw & H);
    apply bind_Ok in H as ([] & st3 & Hu & H); apply ret_Ok in H as [_ <-];
    (eapply update_opcode_lists_ok; [exact Hu|done|]);
    (eapply unbind_then_write_lists_ok; [exact Hr|exact Hw| |done|exact L]);
    unfold slot_of; simpl; by rewrite Hi.
Qed.

Lemma simplify_binop_lists_ok fuel i st r st' :
  simplify_binop fuel i st = Ok r st' -> use_lists_ok st -> use_lists_ok st'.
Proof.
  intros H L. unfold simplify_binop in H.
  apply bind_Ok in H as (dead & st1 & Hd & H).
  apply dead_insn_lists_ok in Hd; [|done].
  destruct (negb (dead =? 0)); [by apply ret_Ok in H as [_ <-]|].
  apply bind_Ok in H as (ins & s1 & H1 & H). apply load_insn_Ok in H1 as [Hi ->].
  destruct (constant (i_src1 ins)) eqn:Hc1.
  - destruct (constant (i_src2 ins)).
    + by eapply simplify_constant_binop_lists_ok.
    + by eapply simplify_constant_leftside_lists_ok.
  - destruct (constant (i_src2 ins)) eqn:Hc2.
    + eapply simplify_constant_rightside_lists_ok; [exact Hi| |exact H|done].
      unfold constant in Hc2. apply bool_decide_eq_true_1 in Hc2. by destruct (i_src2 ins).
    + destruct (decide (i_src1 ins = i_src2 ins)) as [E|]; [|by apply ret_Ok in H as [_ <-]].
      rewrite E in H. by eapply simplify_binop_same_args_lists_ok.
Qed.

Lemma simplify_associative_binop_lists_ok fuel i st r st' :
  simplify_associative_binop fuel i st = Ok r st' -> use_lists_ok st -> use_lists_ok st'.
Proof.
  intros H L. unfold simplify_associative_binop in H. cbv zeta in H.
  split_run; try done; lok.
Qed.

Lemma simplify_unop_lists_ok fuel i st r st' :
  simplify_unop fuel i st = Ok r st' -> use_lists_ok st -> use_lists_ok st'.
Proof.
  intros H L. unfold simplify_unop in H.
  apply bind_Ok in H as (dead & st1 & Hd & H).
  apply dead_insn_lists_ok in Hd; [|done].
  destruct (negb (dead =? 0)); [by apply ret_Ok in H as [_ <-]|].
  apply bind_Ok in H as (ins & s1 & H1 & H). apply load_insn_Ok in H1 as [Hi ->].
  destruct (constant (i_src1 ins)); [by eapply simplify_constant_unop_lists_ok|].
  cbv zeta in H. split_run; try done; lok.
Qed.

(** [use_pseudo(insn, q, a); remove_usage(o, a)] where the slot held [o]. *)
Lemma rebind_lists_ok fuel i q o a st u st1 u' st2 :
  use_pseudo i q a st = Ok u st1 -> remove_usage fuel o a st1 = Ok u' st2 ->
  slot_of st a = Some o -> use_lists_ok st -> use_lists_ok st2.
Proof.
  intros Hu Hr Ho L.
  pose proof (use_pseudo_lists_ok _ _ _ _ _ _ _ _ Hu Ho L) as L1.
  pose proof (remove_usage_lists_ok _ _ _ _ _ _ _ Hr L1) as L2.
  eapply lists_ok_ext; [|exact L2]. intros p b Hp. cbv beta. sur_solve.
Qed.

(** [kill_use(a); use_pseudo(insn, q, a)]. *)
Lemma kill_then_use_lists_ok fuel i q a st u st1 u' st2 :
  kill_use fuel (Some a) st = Ok u st1 -> use_pseudo i q a st1 = Ok u' st2 ->
  use_lists_ok st -> use_lists_ok st2.
Proof.
  intros Hk Hu L.
  assert (slot_of st1 a = Some VOID) as Ho.
  { apply (kill_use_with_void (kill_instruction fuel)) in Hk; [done|].
    intros d s r s'. apply kill_instruction_kstep. }
  pose proof (kill_use_lists_ok _ _ _ _ _ _ Hk L) as L1.
  pose proof (use_pseudo_lists_ok _ _ _ _ _ _ _ _ Hu Ho L1) as L2.
  eapply lists_ok_ext; [|exact L2]. intros p b Hp. cbv beta.
  rewrite (bool_decide_eq_false_2 (VOID = p)) by (intros <-; done).
  destruct (decide _); simpl; lia.
Qed.

Lemma simplify_one_memop_lists_ok fuel i orig st r st' :
  simplify_one_memop fuel i orig st = Ok r st' -> use_lists_ok st -> use_lists_ok st'.
Proof.
  intros H L. unfold simplify_one_memop in H.
  apply bind_Ok in H as (ins & s1 & H1 & H). apply load_insn_Ok in H1 as [Hi ->].
  cbv zeta in H.
  destruct (bool_decide (ptype (i_src1 ins) = PSEUDO_REG)); [|by apply ret_Ok in H as [_ <-]].
  apply bind_Ok in H as (s & s1 & H1 & H). unfold get_state in H1. injection H1 as <- <-.
  apply bind_Ok in H as (d & s1 & H1 & H). apply deref_Ok in H1 as (_ & Hd & ->).
  assert (forall new off,
    (let* s0 := get_state in
     if bool_decide (new = orig) &&
        (bool_decide (new = VOID) ||
         negb (Z.land (repeat_phase s0) REPEAT_CFG_CLEANUP =? 0))
     then ret 0
     else
       let* new0 := (if bool_decide (new = orig)
                     then let* _ := warning (i_pos ins) "crazy programmer" in ret VOID
                     else ret new) in
       let* _ := update_insn i (fun x => set_offset (u32 (i_offset x + pvalue off)) x) in
       let* _ := use_pseudo i new0 (i, Src1) in
       let* _ := remove_usage fuel (i_src1 ins) (i, Src1) in
       ret (Z.lor REPEAT_CSE REPEAT_SYMBOL_CLEANUP)) st = Ok r st' -> use_lists_ok st') as Hoff.
  { clear H. intros new off H.
    apply bind_Ok in H as (s & s1 & H1 & H). unfold get_state in H1. injection H1 as <- <-.
    destruct (_ && _); [by apply ret_Ok in H as [_ <-]|].
    apply bind_Ok in H as (new0 & st1 & Hn & H).
    assert (lists_ok st1 (fun _ _ => 0) /\ slot_of st1 (i, Src1) = Some (i_src1 ins))
      as [L1 Hs1].
    { assert (slot_of st (i, Src1) = Some (i_src1 ins)) as Hs
        by (unfold slot_of; simpl; by rewrite Hi).
      destruct (bool_decide (new = orig)).
      - apply bind_Ok in Hn as ([] & s2 & Hw & Hn). apply ret_Ok in Hn as [_ <-].
        unfold warning in Hw. injection Hw as Hw. subst s2. split; [exact L|exact Hs].
      - apply ret_Ok in Hn as [_ <-]. done. }
    apply bind_Ok in H as ([] & st2 & Hu & H).
    apply bind_Ok in H as ([] & st3 & Hu1 & H).
    apply bind_Ok in H as ([] & st4 & Hr1 & H). apply ret_Ok in H as [_ <-].
    assert (lists_ok st2 (fun _ _ => 0)) as L2
      by (by apply (update_insn_lists_ok _ _ _ _ _ _ Hu)).
    eapply rebind_lists_ok; [exact Hu1|exact Hr1| |exact L2].
    by rewrite (update_insn_slot _ _ _ _ _ _ Hu). }
  destruct (i_opcode d.2); try (by apply ret_Ok in H as [_ <-]).
  - (* OP_ADD *)
    destruct (constant (i_src2 d.2)); [by eapply Hoff|].
    destruct (constant (i_src1 d.2)); [by eapply Hoff|by apply ret_Ok in H as [_ <-]].
  - (* OP_SYMADDR *)
    apply bind_Ok in H as ([] & st1 & Hk & H).
    apply bind_Ok in H as (d' & s1 & H1 & H). apply load_insn_Ok in H1 as [_ ->].
    apply bind_Ok in H as ([] & st2 & Hu & H). apply ret_Ok in H as [_ <-].
    by eapply kill_then_use_lists_ok.
Qed.

Lemma simplify_memop_loop_lists_ok rounds fuel i orig : forall r0 st r st',
  simplify_memop_loop rounds fuel i orig r0 st = Ok r st' ->
  use_lists_ok st -> use_lists_ok st'.
Proof.
  induction rounds as [|n IH]; intros r0 st r st' H L; [done|].
  cbn [simplify_memop_loop] in H.
  apply bind_Ok in H as (one & st1 & H1 & H).
  apply simplify_one_memop_lists_ok in H1; [|done].
  destruct (negb (one =? 0)); [by eapply IH|by apply ret_Ok in H as [_ <-]].
Qed.

Lemma simplify_memop_lists_ok fuel i st r st' :
  simplify_memop fuel i st = Ok r st' -> use_lists_ok st -> use_lists_ok st'.
Proof.
  intros H L. unfold simplify_memop in H.
  apply bind_Ok in H as (ins & s1 & H1 & H). apply load_insn_Ok in H1 as [_ ->].
  by eapply simplify_memop_loop_lists_ok.
Qed.

Lemma simplify_cast_lists_ok fuel i st r st' :
  simplify_cast fuel i st = Ok r st' -> use_lists_ok st -> use_lists_ok st'.
Proof.
  intros H L. unfold simplify_cast in H.
  apply bind_Ok in H as (dead & st1 & Hd & H).
  apply dead_insn_lists_ok in Hd; [|done].
  destruct (negb (dead =? 0)); [by apply ret_Ok in H as [_ <-]|].
  cbv zeta in H. split_run; try done; lok.
Qed.

Lemma simplify_range_lists_ok fuel i st r st' :
  simplify_range fuel i st = Ok r st' -> use_lists_ok st -> use_lists_ok st'.
Proof.
  intros H L. unfold simplify_range in H. split_run; try done; lok.
Qed.

Lemma simplify_select_lists_ok fuel i st r st' :
  simplify_select fuel i st = Ok r st' -> use_lists_ok st -> use_lists_ok st'.
Proof.
  intros H L. unfold simplify_select in H.
  apply bind_Ok in H as (dead & st1 & Hd & H).
  apply dead_insn_lists_ok in Hd; [|done].
  destruct (negb (dead =? 0)); [by apply ret_Ok in H as [_ <-]|].
  apply bind_Ok in H as (ins & s1 & H1 & H). apply load_insn_Ok in H1 as [Hi ->].
  cbv zeta in H.
  destruct (constant (i_src1 ins) || bool_decide (i_src2 ins = i_src3 ins)).
  { split_run; try done; lok. }
  assert ((if bool_decide (i_src1 ins = i_src3 ins) && is_zero (i_src2 ins)
           then
             let* _ := kill_use fuel (Some (i, Src1)) in
             let* _ := kill_use fuel (Some (i, Src3)) in
             let* _ := replace_with_pseudo fuel i (value_pseudo 0) in ret REPEAT_CSE
           else ret 0) st1 = Ok r st' -> use_lists_ok st') as Hlast.
  { clear H. intros H. split_run; try done; lok. }
  destruct (i_src2 ins) as [| | |val1| |] eqn:Hs2; try (by apply Hlast).
  destruct (i_src3 ins) as [| | |val2| |] eqn:Hs3; try (by apply Hlast).
  destruct (Z.lor val1 val2 =? 1); [|by apply Hlast].
  apply bind_Ok in H as ([] & st2 & Hu & H).
  apply bind_Ok in H as ([] & st3 & Hw & H). apply ret_Ok in H as [_ <-].
  assert (lists_ok st2 (fun _ _ => 0)) as L2.
  { eapply update_opcode_lists_ok; [exact Hu| |exact Hd]. by destruct (truthy _). }
  eapply (write_const_lists_ok _ _ (VAL val1)); [exact Hw| | | |exact L2].
  - rewrite (update_insn_slot _ _ _ _ _ _ Hu) by done.
    unfold slot_of. simpl. by rewrite Hi, Hs2.
  - done.
  - by destruct (truthy _).
Qed.

(** *** Control flow *)

Lemma update_bb_lists_ok b f st u st' sur :
  update_bb b f st = Ok u st' -> lists_ok st sur -> lists_ok st' sur.
Proof. intros H. apply bstep_lists_ok. by apply update_bb_bstep in H as [? _]. Qed.

Lemma detach_edges_bstep b target children : forall st kept st',
  detach_edges b children target st = Ok kept st' -> bstep st st'.
Proof.
  induction children as [|c rest IH]; intros st kept st' H; cbn [detach_edges] in H.
  - apply ret_Ok in H as [_ <-]. apply bstep_refl.
  - destruct (decide (Some c = target)).
    + apply bind_Ok in H as (k & s1 & H1 & H). apply ret_Ok in H as [_ <-]. by eapply IH.
    + apply bind_Ok in H as (cb & s1 & H1 & H). apply load_bb_Ok in H1 as ->.
      apply bind_Ok in H as (ps & s1 & H1 & H). apply remove_bb_from_list_Ok in H1 as ->.
      apply bind_Ok in H as ([] & s1 & H1 & H). apply update_bb_bstep in H1 as [B _].
      eapply bstep_trans; [exact B|by eapply IH].
Qed.

Lemma insert_branch_lists_ok bb i target st u st' sur :
  insert_branch bb i target st = Ok u st' -> lists_ok st sur -> lists_ok st' sur.
Proof.
  intros H L. unfold insert_branch in H.
  apply bind_Ok in H as (blk & s1 & H1 & H). apply load_bb_Ok in H1 as ->.
  apply bind_Ok in H as ([] & st1 & Hu & H).
  apply bind_Ok in H as (kept & st2 & Hd & H).
  apply (update_bb_lists_ok _ _ _ _ _ _ H).
  apply (bstep_lists_ok st1); [by eapply detach_edges_bstep|].
  apply (update_insn_lists_ok _ _ _ _ _ _ Hu); try done.
  intros ins s. apply br_not_store.
Qed.

Lemma simplify_switch_lists_ok i st r st' :
  simplify_switch i st = Ok r st' -> use_lists_ok st -> use_lists_ok st'.
Proof.
  intros H L. unfold simplify_switch in H. cbv zeta in H. split_run; try done.
  - by eapply insert_branch_lists_ok.
  - lok.
Qed.

Lemma simplify_cond_branch_lists_ok fuel br cond def pp st r st' :
  slot_of st (br, Src1) = Some cond ->
  simplify_cond_branch fuel br cond def pp st = Ok r st' ->
  use_lists_ok st -> use_lists_ok st'.
Proof.
  intros Hs H L. unfold simplify_cond_branch in H.
  apply bind_Ok in H as (p & s1 & H1 & H). apply read_slot_Ok in H1 as [_ ->].
  apply bind_Ok in H as ([] & st1 & Hu & H).
  apply bind_Ok in H as ([] & st2 & Hr & H).
  pose proof (rebind_lists_ok _ _ _ _ _ _ _ _ _ _ Hu Hr Hs L) as L2.
  apply bind_Ok in H as (d & s1 & H1 & H). apply load_insn_Ok in H1 as [_ ->].
  apply bind_Ok in H as ([] & st3 & Hc & H). apply ret_Ok in H as [_ <-].
  destruct (bool_decide _); [|by apply ret_Ok in Hc as [_ <-]].
  by apply (update_insn_lists_ok _ _ _ _ _ _ Hc).
Qed.

Lemma simplify_branch_lists_ok fuel i st r st' :
  simplify_branch fuel i st = Ok r st' -> use_lists_ok st -> use_lists_ok st'.
Proof.
  intros H L. unfold simplify_branch in H.
  apply bind_Ok in H as (ins & s1 & H1 & H). apply load_insn_Ok in H1 as [Hi ->].
  cbv zeta in H.
  assert (slot_of st (i, Src1) = Some (i_src1 ins)) as Hs
    by (unfold slot_of; simpl; by rewrite Hi).
  destruct (constant (i_src1 ins)).
  { apply bind_Ok in H as ([] & st1 & Hb & H). apply ret_Ok in H as [_ <-].
    by eapply insert_branch_lists_ok. }
  destruct (decide (i_bb_true ins = i_bb_false ins)).
  { inv_pure.
    repeat match goal with
    | H : update_bb _ _ ?s = Ok _ ?s', L : lists_ok ?s _ |- _ =>
        pose proof (update_bb_lists_ok _ _ _ _ _ _ H L); clear H
    | L : use_lists_ok _ |- _ => unfold use_lists_ok in L
    end.
    lok. eapply update_opcode_lists_ok; [eassumption|done|]. lok. }
  destruct (bool_decide (ptype (i_src1 ins) = PSEUDO_REG)); [|by apply ret_Ok in H as [_ <-]].
  apply bind_Ok in H as (s & s1 & H1 & H). unfold get_state in H1. injection H1 as <- <-.
  apply bind_Ok in H as (d & s1 & H1 & H). apply deref_Ok in H1 as (_ & Hd & ->).
  assert (forall q st1 (u u' : unit) st2 st3,
            slot_of st1 (i, Src1) = Some (i_src1 ins) -> lists_ok st1 (fun _ _ => 0) ->
            use_pseudo i q (i, Src1) st1 = Ok u st2 ->
            remove_usage fuel (i_src1 ins) (i, Src1) st2 = Ok u' st3 ->
            use_lists_ok st3) as Hreb.
  { intros q st1 u u' st2 st3 Hs1 L1 Hu Hr. by eapply rebind_lists_ok. }
  assert (forall X : M Z,
    (if bool_decide (i_opcode d.2 = OP_SEL) && constant (i_src2 d.2) && constant (i_src3 d.2)
     then
       if negb (truthy (pvalue (i_src2 d.2))) && negb (truthy (pvalue (i_src3 d.2)))
       then let* _ := insert_branch (i_bb ins) i (i_bb_false ins) in ret REPEAT_CSE
       else if truthy (pvalue (i_src2 d.2)) && truthy (pvalue (i_src3 d.2))
       then let* _ := insert_branch (i_bb ins) i (i_bb_true ins) in ret REPEAT_CSE
       else
         let* _ := (if truthy (pvalue (i_src3 d.2))
                    then update_insn i (fun x => set_branches (i_bb_false x) (i_bb_true x) x)
                    else ret tt) in
         let* _ := use_pseudo i (i_src1 d.2) (i, Src1) in
         let* _ := remove_usage fuel (i_src1 ins) (i, Src1) in ret REPEAT_CSE
     else
       if bool_decide (i_opcode d.2 = OP_CAST) || bool_decide (i_opcode d.2 = OP_SCAST)
       then
         if i_size d.2 >? match i_orig_type d.2 with Some t => bit_size t | None => 0 end
         then
           let* _ := use_pseudo i (i_src1 d.2) (i, Src1) in
           let* _ := remove_usage fuel (i_src1 ins) (i, Src1) in ret REPEAT_CSE
         else ret 0
       else ret 0) st = Ok r st' -> use_lists_ok st') as Hsel.
  { clear H. intros _ H.
    destruct (_ && _ && _).
    - destruct (negb _ && negb _).
      { apply bind_Ok in H as ([] & st1 & Hb & H). apply ret_Ok in H as [_ <-].
        by eapply insert_branch_lists_ok. }
      destruct (truthy _ && truthy _).
      { apply bind_Ok in H as ([] & st1 & Hb & H). apply ret_Ok in H as [_ <-].
        by eapply insert_branch_lists_ok. }
      apply bind_Ok in H as ([] & st1 & Hu0 & H).
      apply bind_Ok in H as ([] & st2 & Hu & H).
      apply bind_Ok in H as ([] & st3 & Hr & H). apply ret_Ok in H as [_ <-].
      destruct (truthy (pvalue (i_src3 d.2))).
      + eapply (Hreb _ st1); [| |exact Hu|exact Hr].
        * by rewrite (update_insn_slot _ _ _ _ _ _ Hu0).
        * by apply (update_insn_lists_ok _ _ _ _ _ _ Hu0).
      + apply ret_Ok in Hu0 as [_ <-]. by eapply (Hreb _ st).
    - destruct (_ || _); [|by apply ret_Ok in H as [_ <-]].
      destruct (_ >? _); [|by apply ret_Ok in H as [_ <-]].
      apply bind_Ok in H as ([] & st2 & Hu & H).
      apply bind_Ok in H as ([] & st3 & Hr & H). apply ret_Ok in H as [_ <-].
      by eapply (Hreb _ st). }
  destruct (_ || _); [|by apply (Hsel (ret 0))].
  destruct (_ && _); [by eapply simplify_cond_branch_lists_ok|].
  destruct (_ && _); [by eapply simplify_cond_branch_lists_ok|].
  by apply (Hsel (ret 0)).
Qed.

(** *** φ-nodes *)

Lemma fresh_insn_None st : insns st !! fresh_insn st = None.
Proof.
  unfold fresh_insn.
  assert (forall k, is_Some (insns st !! k) ->
            (k <= map_fold (fun k _ acc => Nat.max k acc) 0 (insns st))%nat) as Hmax.
  { apply (map_fold_weak_ind
             (fun r (m : gmap nat instruction) => forall k, is_Some (m !! k) -> (k <= r)%nat)).
    - intros k [x Hx]. by rewrite lookup_empty in Hx.
    - intros j x m r Hj IH k Hk. destruct (decide (j = k)) as [->|Hne]; [lia|].
      rewrite lookup_insert_ne in Hk by done. specialize (IH k Hk). lia. }
  destruct (insns st !! S _) eqn:E; [|done].
  specialize (Hmax _ ltac:(by eexists)). lia.
Qed.

Lemma store_fresh_lists_ok j ins st :
  insns st !! j = None ->
  (forall s p, tracked ins s = true -> slot_get ins s = Some p -> p = VOID) ->
  use_lists_ok st -> use_lists_ok (with_insns (<[j := ins]> (insns st)) st).
Proof.
  intros Hj Hv (Hc & He & Hn).
  assert (forall p pu, pu ∈ users_of st p -> (userp pu).1 <> j) as Hfar.
  { intros p pu Hin E. destruct (He p pu Hin) as [q Hq].
    unfold slot_of in Hq. by rewrite E, Hj in Hq. }
  split; [|split; [|exact Hn]].
  - intros p b Hp Hb. change (users_of (with_insns _ st) p) with (users_of st p).
    rewrite slot_of_insert. destruct (decide (j = b.1)) as [E|Hne].
    + assert (count_slot b (users_of st p) = 0%nat) as ->.
      { apply count_slot_zero. intros pu Hin Eb. apply (Hfar p pu Hin). by rewrite Eb. }
      rewrite bool_decide_eq_false_2; [done|].
      intros Hs. destruct Hb as (x & Hx & _ & Ht). simpl in Hx.
      rewrite <- E, lookup_insert_eq in Hx. injection Hx as <-.
      apply Hv in Hs; [|done]. subst p. done.
    + destruct Hb as (x & Hx & Hl). simpl in Hx. rewrite lookup_insert_ne in Hx by done.
      apply Hc; [done|]. by exists x.
  - intros p pu Hin. change (users_of (with_insns _ st) p) with (users_of st p) in Hin.
    rewrite slot_of_insert. rewrite decide_False by (intros E; by apply (Hfar p pu Hin)).
    by apply (He p).
Qed.

Lemma use_void_lists_ok i q a st u st' :
  use_pseudo i q a st = Ok u st' -> slot_of st a = Some VOID ->
  use_lists_ok st -> use_lists_ok st'.
Proof.
  intros Hu Ho L. pose proof (use_pseudo_lists_ok _ _ _ _ _ _ _ _ Hu Ho L) as L2.
  eapply lists_ok_ext; [|exact L2]. intros p b Hp. cbv beta.
  rewrite (bool_decide_eq_false_2 (VOID = p)) by (intros <-; done).
  destruct (decide _); simpl; lia.
Qed.

Lemma insert_select_lists_ok bb br phi t f st u st' :
  insert_select bb br phi t f st = Ok u st' -> use_lists_ok st -> use_lists_ok st'.
Proof.
  intros H L. unfold insert_select in H.
  apply bind_Ok in H as (b & s1 & H1 & H). apply load_insn_Ok in H1 as [_ ->].
  apply bind_Ok in H as (ph & s1 & H1 & H). apply load_insn_Ok in H1 as [_ ->].
  apply bind_Ok in H as (s & s1 & H1 & H). unfold get_state in H1. injection H1 as <- <-.
  cbv zeta in H.
  apply bind_Ok in H as ([] & st1 & Hs & H). unfold store_insn in Hs. injection Hs as Hs.
  apply bind_Ok in H as ([] & st2 & Hu1 & H).
  apply bind_Ok in H as ([] & st3 & Hd & H). injection Hd as Hd.
  apply bind_Ok in H as ([] & st4 & Hu2 & H).
  apply bind_Ok in H as ([] & st5 & Hu3 & H).
  apply (update_bb_lists_ok _ _ _ _ _ _ H).
  assert (use_lists_ok st1) as L1.
  { subst st1. apply store_fresh_lists_ok; [apply fresh_insn_None| |done].
    intros s p. destruct s; simpl; try congruence; try done. }
  assert (forall s, s ∈ [Src1; Src2; Src3] -> slot_of st1 (fresh_insn st, s) = Some VOID) as Hv1.
  { intros s Hin. subst st1. unfold slot_of. simpl. rewrite lookup_insert_eq.
    repeat (apply elem_of_cons in Hin as [->|Hin]; [done|]). by apply elem_of_nil in Hin. }
  pose proof (use_void_lists_ok _ _ _ _ _ _ Hu1 (Hv1 Src1 ltac:(by left)) L1) as L2.
  assert (forall s, s ∈ [Src2; Src3] -> slot_of st2 (fresh_insn st, s) = Some VOID) as Hv2.
  { intros s Hin. apply use_pseudo_Ok in Hu1 as (_ & _ & _ & _ & Hsl & _). rewrite Hsl.
    rewrite decide_False.
    - apply Hv1. by right.
    - intros [= ->]. repeat (apply elem_of_cons in Hin as [?|Hin]; [done|]).
      by apply elem_of_nil in Hin. }
  assert (use_lists_ok st3) as L3 by (subst st3; exact L2).
  assert (forall a, slot_of st3 a = slot_of st2 a) as Hs3 by (intros a; by subst st3).
  pose proof (use_void_lists_ok _ _ _ _ _ _ Hu2
                ltac:(rewrite Hs3; apply Hv2; by left) L3) as L4.
  eapply use_void_lists_ok; [exact Hu3| |exact L4].
  apply use_pseudo_Ok in Hu2 as (_ & _ & _ & _ & Hsl & _). rewrite Hsl.
  rewrite decide_False by done. rewrite Hs3. apply Hv2. right. by left.
Qed.

Lemma phi_parent_Ok source p st r st' : phi_parent source p st = Ok r st' -> st' = st.
Proof. unfold phi_parent. intros H. split_run; done. Qed.

Lemma get_phisources_loop_Ok l nbr : forall acc st r st',
  get_phisources_loop l nbr acc st = Ok r st' -> st' = st.
Proof.
  induction l as [|p l IH]; intros acc st r st' H; cbn [get_phisources_loop] in H.
  - by apply ret_Ok in H as [_ <-].
  - destruct (decide (p = VOID)); [by eapply IH|].
    destruct (bool_decide _); [by apply ret_Ok in H as [_ <-]|].
    apply bind_Ok in H as (s & s1 & H1 & H). unfold get_state in H1. injection H1 as <- <-.
    apply bind_Ok in H as (d & s1 & H1 & H). apply deref_Ok in H1 as (_ & _ & ->).
    destruct (bool_decide _); [by eapply IH|done].
Qed.

Lemma get_phisources_Ok nbr i st r st' : get_phisources nbr i st = Ok r st' -> st' = st.
Proof.
  unfold get_phisources. intros H.
  apply bind_Ok in H as (ins & s1 & H1 & H). apply load_insn_Ok in H1 as [_ ->].
  destruct (bool_decide _); [by eapply get_phisources_loop_Ok|done].
Qed.

Lemma clean_up_phi_loop_Ok l : forall last same st r st',
  clean_up_phi_loop l last same st = Ok r st' -> st' = st.
Proof.
  induction l as [|p l IH]; intros last same st r st' H; cbn [clean_up_phi_loop] in H.
  - by apply ret_Ok in H as [_ <-].
  - destruct (decide (p = VOID)); [by eapply IH|].
    apply bind_Ok in H as (s & s1 & H1 & H). unfold get_state in H1. injection H1 as <- <-.
    apply bind_Ok in H as (d & s1 & H1 & H). apply deref_Ok in H1 as (_ & _ & ->).
    cbv zeta in H. destruct (_ || _); [by eapply IH|].
    destruct last; by eapply IH.
Qed.

Lemma if_convert_phi_lists_ok fuel i st r st' :
  if_convert_phi fuel i st = Ok r st' -> use_lists_ok st -> use_lists_ok st'.
Proof.
  intros H L. unfold if_convert_phi in H.
  apply bind_Ok in H as (ins & s1 & H1 & H). apply load_insn_Ok in H1 as [_ ->].
  apply bind_Ok in H as (got & s1 & H1 & H). apply get_phisources_Ok in H1 as ->.
  destruct (negb _); [by apply ret_Ok in H as [_ <-]|].
  apply bind_Ok in H as (blk & s1 & H1 & H). apply load_bb_Ok in H1 as ->.
  destruct (got.2) as [|a0 [|a1 [|]]]; try (by apply ret_Ok in H as [_ <-]).
  destruct (bb_parents blk) as [|p0 [|p1 [|]]]; try (by apply ret_Ok in H as [_ <-]).
  cbv zeta in H.
  destruct (_ && _); [by apply ret_Ok in H as [_ <-]|].
  apply bind_Ok in H as (src & s1 & H1 & H). apply phi_parent_Ok in H1 as ->.
  apply bind_Ok in H as (src2 & s1 & H1 & H). apply phi_parent_Ok in H1 as ->.
  destruct (negb _); [by apply ret_Ok in H as [_ <-]|].
  apply bind_Ok in H as (sblk & s1 & H1 & H). apply load_bb_Ok in H1 as ->.
  destruct (last _); [|by apply ret_Ok in H as [_ <-]].
  apply bind_Ok in H as (b & s1 & H1 & H). apply load_insn_Ok in H1 as [_ ->].
  destruct (negb _); [by apply ret_Ok in H as [_ <-]|].
  destruct (bool_decide _); [done|].
  apply bind_Ok in H as ([] & st1 & Hs & H).
  apply insert_select_lists_ok in Hs; [|done].
  apply bind_Ok in H as (k & st2 & Hk & H). apply ret_Ok in H as [_ <-].
  by eapply kill_instruction_lists_ok.
Qed.

Lemma clean_up_phi_lists_ok fuel i st r st' :
  clean_up_phi fuel i st = Ok r st' -> use_lists_ok st -> use_lists_ok st'.
Proof.
  intros H L. unfold clean_up_phi in H.
  apply bind_Ok in H as (ins & s1 & H1 & H). apply load_insn_Ok in H1 as [_ ->].
  apply bind_Ok in H as (res & s1 & H1 & H). apply clean_up_phi_loop_Ok in H1 as ->.
  destruct (res.2); [|by eapply if_convert_phi_lists_ok].
  cbv zeta in H.
  apply bind_Ok in H as ([] & st1 & Hc & H).
  apply convert_instruction_target_lists_ok in Hc; [|done].
  apply bind_Ok in H as (k & st2 & Hk & H). apply ret_Ok in H as [_ <-].
  by eapply kill_instruction_lists_ok.
Qed.

Lemma kill_use_list_phi_list_lists_ok fuel i st u st' :
  kill_use_list_phi_list fuel i st = Ok u st' -> use_lists_ok st -> use_lists_ok st'.
Proof.
  intros H. apply kstep_lists_ok.
  unfold kill_use_list_phi_list, kill_use_list_phi in H.
  apply bind_Ok in H as (ins & s1 & H1 & H). apply load_insn_Ok in H1 as [_ ->].
  apply (kill_use_list_loop_kstep (kill_instruction fuel)) in H; [done|].
  intros d s r s'. apply kill_instruction_kstep.
Qed.

(** C1.  The use-list invariant is preserved by the simplifier: whenever
    [simplify_instruction] returns on a state in which, for every pseudo [p]
    with a use list (every REG in particular) and every live instruction,
    the operand slots of the instruction holding [p] are exactly the entries
    of the use list of [p] pointing into it, one entry per slot, the same
    holds of the state it returns. *)
Theorem simplify_instruction_preserves_use_lists fuel i st r st' :
  use_lists_ok st -> simplify_instruction fuel i st = Ok r st' -> use_lists_ok st'.
Proof.
  intros L H. unfold simplify_instruction in H.
  apply bind_Ok in H as (ins & s1 & H1 & H). apply load_insn_Ok in H1 as [Hi ->].
  destruct (i_bb ins); [|by apply ret_Ok in H as [_ <-]].
  destruct (i_opcode ins); try (by apply ret_Ok in H as [_ <-]);
    try (by eapply simplify_binop_lists_ok);
    try (by eapply simplify_unop_lists_ok);
    try (by eapply simplify_memop_lists_ok);
    try (by eapply simplify_cast_lists_ok);
    try (by eapply simplify_select_lists_ok);
    try (by eapply simplify_branch_lists_ok);
    try (by eapply simplify_switch_lists_ok);
    try (by eapply simplify_range_lists_ok).
  all: repeat match goal with
    | H : bind (canonicalize_commutative _ _) _ _ = Ok _ _ |- _ =>
        apply bind_Ok in H as (? & ? & Hc & H);
        apply canonicalize_commutative_lists_ok in Hc; [|assumption]
    | H : bind (canonicalize_compare _ _) _ _ = Ok _ _ |- _ =>
        apply bind_Ok in H as (? & ? & Hc & H);
        apply canonicalize_compare_lists_ok in Hc; [|assumption]
    | H : bind (simplify_binop _ _) _ _ = Ok _ _ |- _ =>
        apply bind_Ok in H as (? & ? & Hb & H);
        apply simplify_binop_lists_ok in Hb; [|assumption]
    | H : bind (dead_insn _ _ _ _ _) _ _ = Ok _ _ |- _ =>
        apply bind_Ok in H as (? & ? & Hd & H);
        apply dead_insn_lists_ok in Hd; [|assumption]
    | H : bind (kill_use_list_phi_list _ _) _ _ = Ok _ _ |- _ =>
        apply bind_Ok in H as (? & ? & Hk & H);
        apply kill_use_list_phi_list_lists_ok in Hk; [|assumption]
    | H : bind get_state _ _ = Ok _ _ |- _ =>
        apply bind_Ok in H as (? & ? & Hg & H); unfold get_state in Hg;
        injection Hg as <- <-
    | H : (if ?c then _ else _) _ = Ok _ _ |- _ => destruct c
    | H : ret _ _ = Ok _ _ |- _ => apply ret_Ok in H as [_ <-]
    end;
    try done;
    try (by eapply simplify_binop_lists_ok);
    try (by eapply simplify_associative_binop_lists_ok);
    try (by eapply simplify_memop_lists_ok);
    try (by eapply kill_instruction_lists_ok);
    try (by eapply replace_with_pseudo_lists_ok);
    try (by eapply clean_up_phi_lists_ok).
Qed.

Lemma simplify_instruction_preserves_use_lists_witness :
  use_lists_ok Sample.add_zero /\
  exists st', simplify_instruction 3 1 Sample.add_zero = Ok REPEAT_CSE st' /\
              use_lists_ok st'.
Proof.
  assert (use_lists_ok Sample.add_zero) as L
    by (apply use_lists_check_ok; vm_compute; reflexivity).
  split; [exact L|].
  destruct (simplify_instruction 3 1 Sample.add_zero) as [r st'|e] eqn:E.
  - exists st'. split.
    + vm_compute in E. injection E as <- _. reflexivity.
    + exact (simplify_instruction_preserves_use_lists 3 1 Sample.add_zero r st' L E).
  - vm_compute in E. discriminate E.
Defined.

(** * Further properties of the code *)

(** ** The masks of the evaluator *)

Lemma pow2_lt_63 n : 1 <= n < 64 -> 0 < 2 ^ (n - 1) < 2 ^ 63.
Proof. intros Hn. split; [apply Z.pow_pos_nonneg; lia|apply Z.pow_lt_mono_r; lia]. Qed.

Lemma pow2_double n : 1 <= n -> 2 ^ n = 2 * 2 ^ (n - 1).
Proof. intros Hn. rewrite <- Z.pow_succ_r by lia. f_equal. lia. Qed.

Lemma s64_small z : in_s64 z -> s64 z = z.
Proof.
  unfold in_s64, s64. intros Hz.
  rewrite Z.mod_small; lia.
Qed.

Lemma s64_range z : in_s64 (s64 z).
Proof.
  unfold in_s64, s64. pose proof (Z.mod_pos_bound (z + 2 ^ 63) (2 ^ 64) ltac:(lia)). lia.
Qed.

Lemma sign_mask_lt n : 1 <= n < 64 -> sign_mask n = 2 ^ (n - 1).
Proof.
  intros Hn. unfold sign_mask. rewrite Z.shiftl_1_l.
  apply s64_small. pose proof (pow2_lt_63 n Hn). unfold in_s64. lia.
Qed.

Lemma all_bits_lt n : 1 <= n < 64 -> all_bits n = Z.ones n.
Proof.
  intros Hn. unfold all_bits. rewrite sign_mask_lt by done.
  pose proof (pow2_lt_63 n Hn).
  rewrite s64_small by (unfold in_s64; lia).
  rewrite <- Z.add_nocarry_lor.
  - rewrite Z.ones_equiv, (pow2_double n) by lia. lia.
  - replace (2 ^ (n - 1) - 1) with (Z.ones (n - 1)) by (rewrite Z.ones_equiv; lia).
    rewrite Z.land_ones by lia. apply Z.mod_same. lia.
Qed.

Lemma sign_mask_64 : sign_mask 64 = - 2 ^ 63.
Proof. reflexivity. Qed.

Lemma all_bits_64 : all_bits 64 = -1.
Proof. reflexivity. Qed.

Lemma land_all_bits n x : 1 <= n < 64 -> Z.land x (all_bits n) = x mod 2 ^ n.
Proof. intros Hn. rewrite all_bits_lt by done. apply Z.land_ones. lia. Qed.

(** ** Sign extension *)

Lemma extend_64 v : extend 64 v = v.
Proof.
  unfold extend. rewrite all_bits_64. change (Z.lnot (-1)) with 0.
  rewrite Z.lor_0_r. by destruct (_ =? _).
Qed.

Lemma extend_mod n v : 1 <= n < 64 -> extend n v mod 2 ^ n = v mod 2 ^ n.
Proof.
  intros Hn. unfold extend. destruct (_ =? _); [done|].
  rewrite all_bits_lt by done. rewrite <- !Z.land_ones by lia.
  rewrite Z.land_lor_distr_l, Z.land_comm with (a := Z.lnot _), Z.land_lnot_diag.
  apply Z.lor_0_r.
Qed.

Lemma signed_of_unique n v x :
  1 <= n -> x mod 2 ^ n = v mod 2 ^ n -> - 2 ^ (n - 1) <= x < 2 ^ (n - 1) ->
  x = signed_of n v.
Proof.
  intros Hn Hx Hr. pose proof (pow2_double n Hn) as Hd. unfold signed_of.
  assert ((v + 2 ^ (n - 1)) mod 2 ^ n = x + 2 ^ (n - 1)) as ->; [|lia].
  rewrite Zplus_mod, <- Hx, <- Zplus_mod. apply Z.mod_small. lia.
Qed.

Lemma testbit_high_nonneg n v k : 0 <= n <= k -> 0 <= v < 2 ^ n -> Z.testbit v k = false.
Proof.
  intros Hk Hv. rewrite <- (Z.mod_small v (2 ^ n)) by done.
  apply Z.mod_pow2_bits_high. lia.
Qed.

Lemma testbit_high_neg n v k : 0 <= n <= k -> - 2 ^ n <= v < 0 -> Z.testbit v k = true.
Proof.
  intros Hk Hv. replace v with (Z.lnot (- v - 1)) by (unfold Z.lnot; lia).
  rewrite Z.lnot_spec by lia. rewrite (testbit_high_nonneg n) by lia. reflexivity.
Qed.

(** On a constant of width [n], given as a pattern or sign-extended, the
    extension is the signed reading. *)
Lemma extend_signed n v :
  1 <= n < 64 -> - 2 ^ (n - 1) <= v < 2 ^ n -> extend n v = signed_of n v.
Proof.
  intros Hn Hv. pose proof (pow2_lt_63 n Hn) as Hp. pose proof (pow2_double n ltac:(lia)) as Hd.
  apply signed_of_unique; [lia|by apply extend_mod|].
  unfold extend. rewrite sign_mask_lt by done.
  assert (Z.land v (2 ^ (n - 1)) = if Z.testbit v (n - 1) then 2 ^ (n - 1) else 0) as Hbit.
  { apply Z.bits_inj'. intros k Hk. rewrite Z.land_spec, Z.pow2_bits_eqb by lia.
    destruct (Z.eqb_spec (n - 1) k) as [<-|Hne].
    - destruct (Z.testbit v (n - 1)); [by rewrite Z.pow2_bits_true by lia|by rewrite Z.bits_0].
    - rewrite andb_false_r. destruct (Z.testbit v (n - 1));
        [by rewrite Z.pow2_bits_false|by rewrite Z.bits_0]. }
  rewrite Hbit.
  assert (Z.testbit v (n - 1) = negb (bool_decide (0 <= v < 2 ^ (n - 1)))) as Htb.
  { rewrite Z.testbit_eqb by lia.
    destruct (decide (0 <= v < 2 ^ (n - 1))) as [Hs|Hs].
    - rewrite bool_decide_eq_true_2 by done. rewrite Z.div_small by lia. reflexivity.
    - rewrite bool_decide_eq_false_2 by done.
      destruct (decide (v < 0)).
      + replace (v / 2 ^ (n - 1)) with (-1); [reflexivity|].
        apply Z.div_unique with (r := v + 2 ^ (n - 1)); lia.
      + replace (v / 2 ^ (n - 1)) with 1; [reflexivity|].
        apply Z.div_unique with (r := v - 2 ^ (n - 1)); lia. }
  rewrite Htb. destruct (decide (0 <= v < 2 ^ (n - 1))) as [Hs|Hs].
  - rewrite bool_decide_eq_true_2 by done. simpl. lia.
  - rewrite bool_decide_eq_false_2 by done. cbn [negb].
    rewrite (proj2 (Z.eqb_neq _ _)) by lia.
    rewrite all_bits_lt by done.
    replace (Z.lnot (Z.ones n)) with (- 2 ^ n) by (rewrite Z.ones_equiv; unfold Z.lnot; lia).
    destruct (decide (v < 0)).
    + assert (Z.lor v (- 2 ^ n) = v) as ->; [|lia].
      apply Z.bits_inj'. intros k Hk. rewrite Z.lor_spec, Z.opp_pow2_spec by lia.
      destruct (decide (n <= k)).
      * rewrite bool_decide_eq_true_2 by done. rewrite orb_true_r.
        symmetry. apply (testbit_high_neg n); lia.
      * rewrite bool_decide_eq_false_2 by done. apply orb_false_r.
    + rewrite <- Z.add_nocarry_lor; [lia|].
      apply Z.bits_inj'. intros k Hk. rewrite Z.land_spec, Z.opp_pow2_spec, Z.bits_0 by lia.
      destruct (decide (n <= k)).
      * rewrite (testbit_high_nonneg n) by lia. reflexivity.
      * rewrite bool_decide_eq_false_2 by done. apply andb_false_r.
Qed.

(** ** Congruences modulo a power of two *)

Lemma pow2_divide n m : 0 <= n <= m -> (2 ^ n | 2 ^ m).
Proof.
  intros H. exists (2 ^ (m - n)). rewrite <- Z.pow_add_r by lia. f_equal. lia.
Qed.

Lemma s64_mod n z : 0 <= n <= 64 -> s64 z mod 2 ^ n = z mod 2 ^ n.
Proof.
  intros Hn. unfold s64.
  rewrite Zminus_mod, (Z.mod_mod_divide _ (2 ^ 64)) by (by apply pow2_divide).
  rewrite <- Zminus_mod. f_equal. lia.
Qed.

Lemma u64_mod n z : 0 <= n <= 64 -> u64 z mod 2 ^ n = z mod 2 ^ n.
Proof. intros Hn. unfold u64. apply Z.mod_mod_divide. by apply pow2_divide. Qed.

Lemma s64_u64 z : s64 (u64 z) = s64 z.
Proof. unfold s64, u64. by rewrite Zplus_mod_idemp_l. Qed.

Lemma s64_cong x y : x mod 2 ^ 64 = y mod 2 ^ 64 -> s64 x = s64 y.
Proof.
  intros E. unfold s64. by rewrite <- (Zplus_mod_idemp_l x), E, Zplus_mod_idemp_l.
Qed.

Lemma u64_small z : 0 <= z < 2 ^ 64 -> u64 z = z.
Proof. intros Hz. unfold u64. by apply Z.mod_small. Qed.

Lemma mod_testbit_eq n x a k :
  0 <= k < n -> x mod 2 ^ n = a mod 2 ^ n -> Z.testbit x k = Z.testbit a k.
Proof.
  intros Hk E. rewrite <- (Z.mod_pow2_bits_low x n k), <- (Z.mod_pow2_bits_low a n k) by lia.
  by rewrite E.
Qed.

Lemma mod_bitwise (f : Z -> Z -> Z) (g : bool -> bool -> bool) n x y a b :
  (forall u v k, 0 <= k -> Z.testbit (f u v) k = g (Z.testbit u k) (Z.testbit v k)) ->
  0 <= n -> x mod 2 ^ n = a mod 2 ^ n -> y mod 2 ^ n = b mod 2 ^ n ->
  f x y mod 2 ^ n = f a b mod 2 ^ n.
Proof.
  intros Hf Hn Hx Hy. apply Z.bits_inj'. intros k Hk.
  rewrite !Z.testbit_mod_pow2 by lia. destruct (Z.ltb_spec k n); [|done]. cbn [andb].
  rewrite !Hf by done. by rewrite (mod_testbit_eq n x a), (mod_testbit_eq n y b) by lia.
Qed.

(** ** The evaluator in normal form *)

Lemma eval_insn_lt n op a b :
  1 <= n < 64 ->
  eval_insn n op a b =
  match eval_op op (2 ^ (n - 1)) (extend n a) (extend n b) (a mod 2 ^ n) (b mod 2 ^ n) with
  | Folded res => Folded (res mod 2 ^ n)
  | r => r
  end.
Proof.
  intros Hn. unfold eval_insn.
  replace ((1 <=? n) && (n <=? 64)) with true by (symmetry; apply andb_true_intro; lia).
  cbv zeta. rewrite sign_mask_lt by done. rewrite !land_all_bits by done.
  assert (forall x, u64 (x mod 2 ^ n) = x mod 2 ^ n) as Hu.
  { intros x. apply u64_small. pose proof (Z.mod_pos_bound x (2 ^ n) ltac:(lia)).
    assert (2 ^ n < 2 ^ 64) by (apply Z.pow_lt_mono_r; lia). lia. }
  rewrite !Hu, !extend_mod by done.
  destruct (eval_op _ _ _ _ _ _); [|done|done]. by rewrite land_all_bits.
Qed.

Lemma eval_insn_64 op a b :
  eval_insn 64 op a b = eval_op op (- 2 ^ 63) a b (u64 a) (u64 b).
Proof.
  unfold eval_insn. cbn [Z.leb Z.compare Pos.compare Pos.compare_cont andb]. cbv zeta.
  rewrite sign_mask_64, all_bits_64, !extend_64, !Z.land_m1_r.
  destruct (eval_op _ _ _ _ _ _); [|done|done]. by rewrite Z.land_m1_r.
Qed.

Lemma canon_lt n v : n < 64 -> canon n v = v mod 2 ^ n.
Proof. intros Hn. unfold canon. by rewrite (proj2 (Z.ltb_lt _ _)). Qed.

Lemma canon_64 v : canon 64 v = s64 v.
Proof. reflexivity. Qed.

(** X1.  ADD, SUB and MUL of two constants fold, at every width [n] from 1
    to 64, to the constant of width [n] of the sum, the difference and the
    product: the arithmetic of the evaluator is arithmetic modulo [2^n],
    whatever the bits of the operands above the width. *)
Theorem eval_insn_wraps n a b :
  1 <= n <= 64 ->
  eval_insn n OP_ADD a b = Folded (canon n (a + b)) /\
  eval_insn n OP_SUB a b = Folded (canon n (a - b)) /\
  eval_insn n OP_MUL a b = Folded (canon n (a * b)).
Proof.
  intros Hn. destruct (decide (n = 64)) as [->|Hne].
  - rewrite !eval_insn_64, !canon_64. cbn [eval_op]. repeat split.
    rewrite s64_u64. f_equal. apply s64_cong. unfold u64. by rewrite <- Zmult_mod.
  - assert (1 <= n < 64) as Hn' by lia.
    rewrite !eval_insn_lt, !canon_lt by lia. cbn [eval_op].
    pose proof (extend_mod n a Hn') as Ha. pose proof (extend_mod n b Hn') as Hb.
    rewrite s64_u64, !s64_mod by lia. repeat split; f_equal.
    + by rewrite Zplus_mod, Ha, Hb, <- Zplus_mod.
    + by rewrite Zminus_mod, Ha, Hb, <- Zminus_mod.
    + by rewrite <- Zmult_mod.
Qed.

Lemma eval_insn_wraps_witness :
  eval_insn 8 OP_ADD 200 100 = Folded (canon 8 (200 + 100)) /\
  eval_insn 8 OP_SUB 200 100 = Folded (canon 8 (200 - 100)) /\
  eval_insn 8 OP_MUL 200 100 = Folded (canon 8 (200 * 100)).
Proof. apply (eval_insn_wraps 8 200 100). lia. Defined.

(** ** Ranges of bitwise results *)

Lemma range_bits k x :
  0 <= k -> (- 2 ^ k <= x < 2 ^ k <-> forall j, k <= j -> Z.testbit x j = (x <? 0)).
Proof.
  intros Hk. split.
  - intros Hx j Hj. destruct (Z.ltb_spec x 0).
    + apply (testbit_high_neg k); lia.
    + apply (testbit_high_nonneg k); lia.
  - intros Hb. pose proof (Z.pow_pos_nonneg 2 k ltac:(lia) Hk).
    destruct (Z.ltb_spec x 0) as [Hneg|Hpos].
    + assert (Z.lnot x < 2 ^ k); [|unfold Z.lnot in *; lia].
      apply Z.bounded_iff_bits_nonneg; [lia|unfold Z.lnot; lia|].
      intros j Hj. rewrite Z.lnot_spec by lia. by rewrite Hb.
    + split; [lia|]. apply Z.bounded_iff_bits_nonneg; [lia|lia|done].
Qed.

Lemma bitwise_range (f : Z -> Z -> Z) (g : bool -> bool -> bool) k a b :
  (forall u v j, 0 <= j -> Z.testbit (f u v) j = g (Z.testbit u j) (Z.testbit v j)) ->
  (forall u v, (f u v <? 0) = g (u <? 0) (v <? 0)) ->
  0 <= k -> - 2 ^ k <= a < 2 ^ k -> - 2 ^ k <= b < 2 ^ k -> - 2 ^ k <= f a b < 2 ^ k.
Proof.
  intros Hf Hs Hk Ha Hb. apply range_bits; [done|]. intros j Hj.
  rewrite Hf, Hs by lia.
  by rewrite (proj1 (range_bits k a Hk) Ha j Hj), (proj1 (range_bits k b Hk) Hb j Hj).
Qed.

Lemma land_sign u v : (Z.land u v <? 0) = (u <? 0) && (v <? 0).
Proof.
  pose proof (Z.land_neg u v).
  destruct (Z.ltb_spec (Z.land u v) 0), (Z.ltb_spec u 0), (Z.ltb_spec v 0); simpl; lia.
Qed.

Lemma lor_sign u v : (Z.lor u v <? 0) = (u <? 0) || (v <? 0).
Proof.
  pose proof (Z.lor_neg u v).
  destruct (Z.ltb_spec (Z.lor u v) 0), (Z.ltb_spec u 0), (Z.ltb_spec v 0); simpl; lia.
Qed.

Lemma lxor_sign u v : (Z.lxor u v <? 0) = xorb (u <? 0) (v <? 0).
Proof.
  pose proof (Z.lxor_nonneg u v).
  destruct (Z.ltb_spec (Z.lxor u v) 0), (Z.ltb_spec u 0), (Z.ltb_spec v 0); simpl; lia.
Qed.

Lemma land_in_s64 a b : in_s64 a -> in_s64 b -> in_s64 (Z.land a b).
Proof.
  apply (bitwise_range Z.land andb 63); [|apply land_sign|lia].
  intros u v j Hj. apply Z.land_spec.
Qed.

Lemma lor_in_s64 a b : in_s64 a -> in_s64 b -> in_s64 (Z.lor a b).
Proof.
  apply (bitwise_range Z.lor orb 63); [|apply lor_sign|lia].
  intros u v j Hj. apply Z.lor_spec.
Qed.

Lemma lxor_in_s64 a b : in_s64 a -> in_s64 b -> in_s64 (Z.lxor a b).
Proof.
  apply (bitwise_range Z.lxor xorb 63); [|apply lxor_sign|lia].
  intros u v j Hj. apply Z.lxor_spec.
Qed.

(** X2.  AND, OR and XOR of two constants fold, at every width [n] from 1
    to 64, to the constant of width [n] of the bitwise operation on the
    operands: sign extension of the operands changes nothing below the
    width, and the mask drops what it adds above. *)
Theorem eval_insn_bitwise n a b :
  1 <= n <= 64 -> in_s64 a -> in_s64 b ->
  eval_insn n OP_AND a b = Folded (canon n (Z.land a b)) /\
  eval_insn n OP_OR a b = Folded (canon n (Z.lor a b)) /\
  eval_insn n OP_XOR a b = Folded (canon n (Z.lxor a b)).
Proof.
  intros Hn Ha Hb. destruct (decide (n = 64)) as [->|Hne].
  - rewrite !eval_insn_64, !canon_64. cbn [eval_op].
    rewrite !s64_small; [done|by apply lxor_in_s64|by apply lor_in_s64|by apply land_in_s64].
  - assert (1 <= n < 64) as Hn' by lia.
    rewrite !eval_insn_lt, !canon_lt by lia. cbn [eval_op].
    pose proof (extend_mod n a Hn') as Ea. pose proof (extend_mod n b Hn') as Eb.
    repeat split; f_equal.
    + apply (mod_bitwise Z.land andb); [|lia|done|done]. intros; apply Z.land_spec.
    + apply (mod_bitwise Z.lor orb); [|lia|done|done]. intros; apply Z.lor_spec.
    + apply (mod_bitwise Z.lxor xorb); [|lia|done|done]. intros; apply Z.lxor_spec.
Qed.

Lemma eval_insn_bitwise_witness :
  eval_insn 8 OP_AND (-1) 240 = Folded (canon 8 (Z.land (-1) 240)) /\
  eval_insn 8 OP_OR (-1) 240 = Folded (canon 8 (Z.lor (-1) 240)) /\
  eval_insn 8 OP_XOR (-1) 240 = Folded (canon 8 (Z.lxor (-1) 240)).
Proof. apply (eval_insn_bitwise 8 (-1) 240); unfold in_s64; lia. Defined.

(** ** Comparisons *)

Lemma signed_of_small n v : 1 <= n -> - 2 ^ (n - 1) <= v < 2 ^ (n - 1) -> signed_of n v = v.
Proof. intros Hn Hv. symmetry. by apply signed_of_unique. Qed.

Lemma b2z_mod n (c : bool) : 1 <= n -> b2z c mod 2 ^ n = b2z c.
Proof.
  intros Hn. apply Z.mod_small.
  assert (2 ^ 1 <= 2 ^ n) by (apply Z.pow_le_mono_r; lia).
  destruct c; simpl; lia.
Qed.

Lemma operand_zero n v : 1 <= n <= 64 -> operand_of n v -> (signed_of n v =? 0) = (unsigned_of n v =? 0).
Proof.
  intros Hn [Hs Hv]. unfold signed_of, unsigned_of.
  pose proof (pow2_double n ltac:(lia)) as Hd.
  assert (0 < 2 ^ (n - 1)) by (apply Z.pow_pos_nonneg; lia).
  destruct (decide (v < 0)); [|destruct (decide (v < 2 ^ (n - 1)))].
  - rewrite (Z.mod_small (v + 2 ^ (n - 1))) by lia.
    replace (v mod 2 ^ n) with (v + 2 ^ n)
      by (apply Z.mod_unique with (q := -1); lia).
    destruct (Z.eqb_spec (v + 2 ^ (n - 1) - 2 ^ (n - 1)) 0), (Z.eqb_spec (v + 2 ^ n) 0); lia.
  - rewrite (Z.mod_small (v + 2 ^ (n - 1))), (Z.mod_small v) by lia. f_equal. lia.
  - replace ((v + 2 ^ (n - 1)) mod 2 ^ n) with (v - 2 ^ (n - 1))
      by (apply Z.mod_unique with (q := 1); lia).
    rewrite (Z.mod_small v) by lia.
    destruct (Z.eqb_spec (v - 2 ^ (n - 1) - 2 ^ (n - 1)) 0), (Z.eqb_spec v 0); lia.
Qed.

(** The operands as [eval_insn] compares them. *)
Lemma eval_insn_operands n op a b :
  1 <= n <= 64 -> operand_of n a -> operand_of n b ->
  eval_insn n op a b =
  match eval_op op (sign_mask n) (signed_of n a) (signed_of n b)
          (unsigned_of n a) (unsigned_of n b) with
  | Folded res => Folded (if n <? 64 then res mod 2 ^ n else res)
  | r => r
  end.
Proof.
  intros Hn [Ha Ha'] [Hb Hb']. destruct (decide (n = 64)) as [->|Hne].
  - rewrite eval_insn_64. rewrite !signed_of_small by (unfold in_s64 in *; lia).
    change (sign_mask 64) with (- 2 ^ 63). unfold unsigned_of, u64.
    by destruct (eval_op _ _ _ _ _ _).
  - rewrite eval_insn_lt, !extend_signed, sign_mask_lt by lia.
    rewrite (proj2 (Z.ltb_lt n 64)) by lia. done.
Qed.

(** X3.  The comparisons and the logical operations of two constants of
    width [n] fold to 1 or 0: SET_EQ, SET_NE, SET_LE, SET_GE, SET_LT and
    SET_GT compare the signed readings of the operands, SET_B, SET_A, SET_BE
    and SET_AE the unsigned readings, AND_BOOL and OR_BOOL combine the truth
    values. *)
Theorem eval_insn_compares n a b :
  1 <= n <= 64 -> operand_of n a -> operand_of n b ->
  let sa := signed_of n a in let sb := signed_of n b in
  let ua := unsigned_of n a in let ub := unsigned_of n b in
  eval_insn n OP_SET_EQ a b = Folded (b2z (sa =? sb)) /\
  eval_insn n OP_SET_NE a b = Folded (b2z (negb (sa =? sb))) /\
  eval_insn n OP_SET_LE a b = Folded (b2z (sa <=? sb)) /\
  eval_insn n OP_SET_GE a b = Folded (b2z (sb <=? sa)) /\
  eval_insn n OP_SET_LT a b = Folded (b2z (sa <? sb)) /\
  eval_insn n OP_SET_GT a b = Folded (b2z (sb <? sa)) /\
  eval_insn n OP_SET_B a b = Folded (b2z (ua <? ub)) /\
  eval_insn n OP_SET_A a b = Folded (b2z (ub <? ua)) /\
  eval_insn n OP_SET_BE a b = Folded (b2z (ua <=? ub)) /\
  eval_insn n OP_SET_AE a b = Folded (b2z (ub <=? ua)) /\
  eval_insn n OP_AND_BOOL a b = Folded (b2z (negb (ua =? 0) && negb (ub =? 0))) /\
  eval_insn n OP_OR_BOOL a b = Folded (b2z (negb (ua =? 0) || negb (ub =? 0))).
Proof.
  intros Hn Ha Hb sa sb ua ub.
  assert (forall c : bool, (if n <? 64 then b2z c mod 2 ^ n else b2z c) = b2z c) as Hc.
  { intros c. destruct (n <? 64); [apply b2z_mod; lia|done]. }
  rewrite !eval_insn_operands by done. cbn [eval_op]. rewrite !Hc.
  rewrite !Z.geb_leb, !Z.gtb_ltb. unfold truthy.
  rewrite (operand_zero n a), (operand_zero n b) by done.
  repeat split.
Qed.

Lemma eval_insn_compares_witness :
  eval_insn 8 OP_SET_LT 255 1 = Folded 1 /\ eval_insn 8 OP_SET_B 255 1 = Folded 0.
Proof.
  assert (operand_of 8 255) as Ha by (unfold operand_of, in_s64; lia).
  assert (operand_of 8 1) as Hb by (unfold operand_of, in_s64; lia).
  destruct (eval_insn_compares 8 255 1 ltac:(lia) Ha Hb)
    as (_ & _ & _ & _ & Hlt & _ & Hbelow & _).
  split; [exact Hlt|exact Hbelow].
Defined.

(** ** Division *)

Lemma extend_zero n : extend n 0 = 0.
Proof. unfold extend. by rewrite Z.land_0_l. Qed.

Lemma canon_small n v : 1 <= n <= 64 -> 0 <= v < 2 ^ n -> n < 64 -> canon n v = v.
Proof. intros Hn Hv Hlt. rewrite canon_lt by done. by apply Z.mod_small. Qed.

(** X4.  A division by the constant zero is never folded: DIVU, DIVS, MODU
    and MODS with a zero divisor hand back no constant, whatever the
    dividend and the width.  With a divisor that is not zero modulo [2^n],
    DIVU and MODU fold to the quotient and the remainder of the unsigned
    readings of the operands. *)
Theorem eval_insn_divides n a b :
  1 <= n <= 64 ->
  (eval_insn n OP_DIVU a 0 = NoFold /\ eval_insn n OP_DIVS a 0 = NoFold /\
   eval_insn n OP_MODU a 0 = NoFold /\ eval_insn n OP_MODS a 0 = NoFold) /\
  (unsigned_of n b <> 0 ->
   eval_insn n OP_DIVU a b = Folded (canon n (unsigned_of n a / unsigned_of n b)) /\
   eval_insn n OP_MODU a b = Folded (canon n (unsigned_of n a mod unsigned_of n b))).
Proof.
  intros Hn. unfold unsigned_of. destruct (decide (n = 64)) as [->|Hne].
  - rewrite !eval_insn_64, !canon_64. cbn [eval_op]. split; [done|].
    intros Hb. unfold u64. rewrite !(proj2 (Z.eqb_neq (b mod 2 ^ 64) 0) Hb). done.
  - assert (1 <= n < 64) as Hn' by lia.
    rewrite !eval_insn_lt, !canon_lt by lia. rewrite extend_zero. cbn [eval_op].
    rewrite Z.mod_0_l by lia. split; [done|].
    intros Hb. rewrite !(proj2 (Z.eqb_neq (b mod 2 ^ n) 0) Hb).
    by rewrite !s64_mod by lia.
Qed.

Lemma eval_insn_divides_witness :
  eval_insn 8 OP_DIVU 200 7 = Folded (canon 8 (unsigned_of 8 200 / unsigned_of 8 7)) /\
  eval_insn 8 OP_MODU 200 7 = Folded (canon 8 (unsigned_of 8 200 mod unsigned_of 8 7)).
Proof. apply (eval_insn_divides 8 200 7); [lia|]. vm_compute. discriminate. Defined.

(** ** Shifts *)

Lemma div_pow2_in_s64 x c : 0 <= c -> in_s64 x -> in_s64 (x / 2 ^ c).
Proof.
  unfold in_s64. intros Hc Hx. assert (0 < 2 ^ c) by (apply Z.pow_pos_nonneg; lia). split.
  - apply Z.div_le_lower_bound; [done|nia].
  - apply Z.div_lt_upper_bound; [done|nia].
Qed.

(** X5.  A shift of a constant of width [n] by a constant count that is
    below 64 and non-negative at that width folds to the constant of width
    [n] of: the operand times [2^c] for SHL, the unsigned reading divided by
    [2^c] for LSR, the signed reading divided by [2^c], rounding down, for
    ASR.  A count of the width or more is no special case: SHL and LSR then
    give 0. *)
Theorem eval_insn_shifts n a c :
  1 <= n <= 64 -> operand_of n a -> 0 <= c < 64 -> c < 2 ^ (n - 1) ->
  eval_insn n OP_SHL a c = Folded (canon n (a * 2 ^ c)) /\
  eval_insn n OP_LSR a c = Folded (canon n (unsigned_of n a / 2 ^ c)) /\
  eval_insn n OP_ASR a c = Folded (canon n (signed_of n a / 2 ^ c)).
Proof.
  intros Hn Ha Hc Hc'.
  assert (operand_of n c) as Hoc.
  { split; [unfold in_s64; lia|].
    assert (0 < 2 ^ (n - 1)) by (apply Z.pow_pos_nonneg; lia).
    rewrite (pow2_double n) by lia. lia. }
  assert (signed_of n c = c) as Hsc by (apply signed_of_small; lia).
  assert (unsigned_of n c = c) as Huc.
  { unfold unsigned_of. apply Z.mod_small. rewrite (pow2_double n) by lia. lia. }
  rewrite !eval_insn_operands by done. cbn [eval_op]. rewrite Hsc, Huc.
  replace ((0 <=? c) && (c <? 64)) with true by (symmetry; apply andb_true_intro; lia).
  replace (c <? 64) with true by (symmetry; apply Z.ltb_lt; lia).
  rewrite Z.shiftl_mul_pow2, !Z.shiftr_div_pow2 by lia.
  destruct Ha as [Ha Ha'].
  destruct (decide (n = 64)) as [->|Hne].
  - unfold canon. cbn [Z.ltb Z.compare Pos.compare Pos.compare_cont].
    rewrite signed_of_small by (unfold in_s64 in *; lia).
    rewrite (s64_small (a / 2 ^ c)) by (apply div_pow2_in_s64; [lia|done]).
    done.
  - rewrite (proj2 (Z.ltb_lt n 64)) by lia. rewrite !canon_lt by lia.
    rewrite !s64_mod by lia. repeat split. f_equal.
    rewrite Zmult_mod. unfold signed_of.
    rewrite <- (Zminus_mod_idemp_l ((a + _) mod _)), Zmod_mod, Zminus_mod_idemp_l.
    replace (a + 2 ^ (n - 1) - 2 ^ (n - 1)) with a by lia.
    by rewrite <- Zmult_mod.
Qed.

Lemma eval_insn_shifts_witness :
  eval_insn 8 OP_SHL 129 1 = Folded (canon 8 (129 * 2 ^ 1)) /\
  eval_insn 8 OP_LSR 129 1 = Folded (canon 8 (unsigned_of 8 129 / 2 ^ 1)) /\
  eval_insn 8 OP_ASR 129 1 = Folded (canon 8 (signed_of 8 129 / 2 ^ 1)).
Proof.
  apply (eval_insn_shifts 8 129 1); [lia| |lia|lia].
  unfold operand_of, in_s64. lia.
Defined.

(** ** The width of a folded constant *)

(** X6.  Whatever the opcode, a constant folded at width [n] from two
    [long long] operands is a [long long] and has no bit set at or above the
    width: below 64 bits it lies in [0, 2^n). *)
Theorem eval_insn_masked n op a b r :
  in_s64 a -> in_s64 b -> eval_insn n op a b = Folded r ->
  1 <= n <= 64 /\ in_s64 r /\ (n < 64 -> 0 <= r < 2 ^ n).
Proof.
  intros Ha Hb H.
  assert (1 <= n <= 64) as Hn.
  { unfold eval_insn in H. destruct (Z.leb_spec 1 n), (Z.leb_spec n 64); try done. }
  split; [done|]. destruct (decide (n = 64)) as [->|Hne].
  - split; [|intros Hlt; by apply Z.lt_irrefl in Hlt]. rewrite eval_insn_64 in H.
    destruct op; cbn [eval_op] in H;
      repeat match type of H with
             | (if ?c then _ else _) = _ => destruct c eqn:?
             end;
      try discriminate H; injection H as <-;
      try apply s64_range;
      try (by destruct (_ : bool); unfold in_s64; simpl; lia).
    + match goal with
      | E : (_ && _) = true |- _ => apply andb_prop in E as [E _]; apply Z.leb_le in E
      end.
      rewrite Z.shiftr_div_pow2 by done. by apply div_pow2_in_s64.
    + by apply land_in_s64.
    + by apply lor_in_s64.
    + by apply lxor_in_s64.
  - rewrite eval_insn_lt in H by lia.
    destruct (eval_op _ _ _ _ _ _) as [res| |]; try discriminate H. injection H as <-.
    assert (0 < 2 ^ n <= 2 ^ 63).
    { split; [apply Z.pow_pos_nonneg; lia|apply Z.pow_le_mono_r; lia]. }
    pose proof (Z.mod_pos_bound res (2 ^ n) ltac:(lia)).
    unfold in_s64. lia.
Qed.

Lemma eval_insn_masked_witness :
  1 <= 8 <= 64 /\ in_s64 44 /\ (8 < 64 -> 0 <= 44 < 2 ^ 8).
Proof.
  apply (eval_insn_masked 8 OP_ADD 200 100 44); [unfold in_s64; lia|unfold in_s64; lia|].
  reflexivity.
Defined.

(** ** The size of a value *)

Lemma div_zero_iff x d : 0 < d -> x / d = 0 <-> 0 <= x < d.
Proof.
  intros Hd. rewrite Z.div_small_iff by lia. lia.
Qed.

(** X7.  [value_size] is the least of 8, 16 and 32 bits that hold the value
    as an unsigned integer, and 64 for a value of [2^32] or more or a
    negative one (whose right shifts never reach zero). *)
Theorem value_size_fits v :
  (value_size v = 8 <-> 0 <= v < 2 ^ 8) /\
  (value_size v = 16 <-> 2 ^ 8 <= v < 2 ^ 16) /\
  (value_size v = 32 <-> 2 ^ 16 <= v < 2 ^ 32) /\
  (value_size v = 64 <-> v < 0 \/ 2 ^ 32 <= v).
Proof.
  unfold value_size. cbv zeta.
  rewrite !Z.shiftr_div_pow2 by lia. rewrite !Z.div_div by lia.
  change (2 ^ 8 * 2 ^ 8) with (2 ^ 16). change (2 ^ 16 * 2 ^ 16) with (2 ^ 32).
  pose proof (div_zero_iff v (2 ^ 8) ltac:(lia)) as H8.
  pose proof (div_zero_iff v (2 ^ 16) ltac:(lia)) as H16.
  pose proof (div_zero_iff v (2 ^ 32) ltac:(lia)) as H32.
  destruct (Z.eqb_spec (v / 2 ^ 8) 0) as [E8|E8];
    [|destruct (Z.eqb_spec (v / 2 ^ 16) 0) as [E16|E16];
      [|destruct (Z.eqb_spec (v / 2 ^ 32) 0) as [E32|E32]]];
    repeat split; intros; try discriminate; try lia.
Qed.

(** ** The value of a cast constant *)

Lemma int_shl1_small k : 0 <= k <= 30 -> int_shl1 k = Some (2 ^ k).
Proof.
  intros Hk. unfold int_shl1.
  replace ((0 <=? k) && (k <=? 31)) with true by (symmetry; apply andb_true_intro; lia).
  rewrite Z.shiftl_1_l. f_equal. unfold s32.
  assert (0 < 2 ^ k < 2 ^ 31).
  { split; [apply Z.pow_pos_nonneg; lia|apply Z.pow_lt_mono_r; lia]. }
  rewrite Z.mod_small; lia.
Qed.

Lemma mask_ones k : 1 <= k <= 31 -> Z.lor (2 ^ (k - 1)) (s64 (2 ^ (k - 1) - 1)) = Z.ones k.
Proof.
  intros Hk. rewrite <- (all_bits_lt k) by lia. unfold all_bits.
  by rewrite sign_mask_lt by lia.
Qed.

Lemma get_cast_value_low_bits v old new sign :
  1 <= new <= 31 -> sign = false \/ new <= old ->
  get_cast_value v old new sign = Some (v mod 2 ^ new).
Proof.
  intros Hn Hs. unfold get_cast_value.
  assert (sign && (new >? old) = false) as ->.
  { destruct Hs as [->|Hs]; [done|]. rewrite Z.gtb_ltb, (proj2 (Z.ltb_ge _ _)) by lia.
    apply andb_false_r. }
  rewrite int_shl1_small by lia. rewrite mask_ones by lia.
  f_equal. apply Z.land_ones. lia.
Qed.

(** X8.  A cast of a constant to a width [new] of 1 to 31 bits that does
    not widen a signed type keeps the low [new] bits of the value:
    truncation and zero extension are reduction modulo [2^new]. *)
Theorem get_cast_value_truncates v old new sign :
  1 <= new <= 31 -> sign = false \/ new <= old ->
  get_cast_value v old new sign = Some (v mod 2 ^ new).
Proof. apply get_cast_value_low_bits. Qed.

Lemma get_cast_value_truncates_witness :
  get_cast_value 511 32 8 true = Some (511 mod 2 ^ 8).
Proof. apply (get_cast_value_truncates 511 32 8 true); [lia|right; lia]. Defined.

(** X9.  A cast of a constant of a signed type of [old] bits to a wider
    type of at most 31 bits sign-extends: the result is the pattern, at the
    new width, of the signed reading of the value.  Casting the result back
    to the old width returns the value. *)
Theorem get_cast_value_sign_extends v old new :
  1 <= old -> old < new <= 31 -> 0 <= v < 2 ^ old ->
  get_cast_value v old new true = Some (signed_of old v mod 2 ^ new) /\
  get_cast_value (signed_of old v mod 2 ^ new) new old true = Some v.
Proof.
  intros Ho Hn Hv. split.
  - unfold get_cast_value.
    rewrite Z.gtb_ltb, (proj2 (Z.ltb_lt old new)) by lia. cbn [andb].
    rewrite !int_shl1_small by lia.
    assert ((if Z.land v (2 ^ (old - 1)) =? 0 then v
             else Z.lor v (Z.lnot (Z.lor (2 ^ (old - 1)) (s64 (2 ^ (old - 1) - 1)))))
            = extend old v) as ->.
    { unfold extend, all_bits. by rewrite sign_mask_lt by lia. }
    assert (0 < 2 ^ (old - 1)) by (apply Z.pow_pos_nonneg; lia).
    rewrite extend_signed by lia.
    rewrite mask_ones by lia. f_equal. apply Z.land_ones. lia.
  - rewrite get_cast_value_low_bits by (try right; lia). f_equal.
    rewrite Z.mod_mod_divide by (apply pow2_divide; lia).
    unfold signed_of. rewrite Zminus_mod_idemp_l.
    replace (v + 2 ^ (old - 1) - 2 ^ (old - 1)) with v by lia.
    by apply Z.mod_small.
Qed.

Lemma get_cast_value_sign_extends_witness :
  get_cast_value 255 8 16 true = Some (signed_of 8 255 mod 2 ^ 16) /\
  get_cast_value (signed_of 8 255 mod 2 ^ 16) 16 8 true = Some 255.
Proof. apply (get_cast_value_sign_extends 255 8 16); lia. Defined.

(** ** Deleting entries of a use list *)

Lemma delete_scan_first l1 pu l2 a :
  count_slot a l1 = 0%nat -> userp pu = a ->
  delete_scan (l1 ++ pu :: l2) a 1 = (l1 ++ l2, 0, true).
Proof.
  intros Hz He. induction l1 as [|x l1 IH]; simpl.
  - by rewrite decide_True.
  - rewrite count_slot_cons in Hz. destruct (decide (userp x = a)); [lia|].
    by rewrite IH by lia.
Qed.

Lemma delete_scan_all l a : forall c,
  c <= 0 ->
  delete_scan l a c =
  (filter (fun pu => userp pu <> a) l, c - Z.of_nat (count_slot a l), false).
Proof.
  induction l as [|x l IH]; intros c Hc; simpl.
  - rewrite count_slot_nil. do 2 f_equal; lia.
  - rewrite count_slot_cons, filter_cons. destruct (decide (userp x = a)) as [He|Hne].
    + rewrite decide_False by (intros H; by apply H).
      rewrite (proj2 (Z.eqb_neq (c - 1) 0)) by lia.
      rewrite IH by lia. do 2 f_equal; lia.
    + rewrite decide_True by done. rewrite IH by done. do 2 f_equal; lia.
Qed.

(** X10.  [delete_pseudo_user_list_entry] with count 1 takes the first entry
    for the slot off the list and leaves every other entry, in order; when
    the list has no entry for the slot the assert fails.  With count 0 it
    takes every entry for the slot off and hands back minus their number. *)
Theorem delete_pseudo_user_list_entry_first p a st :
  (count_slot a (users_of st p) = 0%nat ->
   delete_pseudo_user_list_entry p a 1 st = Err AssertFailed) /\
  (forall l1 pu l2,
     users_of st p = l1 ++ pu :: l2 -> count_slot a l1 = 0%nat -> userp pu = a ->
     delete_pseudo_user_list_entry p a 1 st =
     Ok 0 (with_users (<[p := l1 ++ l2]> (users st)) st)) /\
  delete_pseudo_user_list_entry p a 0 st =
  Ok (- Z.of_nat (count_slot a (users_of st p)))
     (with_users (<[p := filter (fun pu => userp pu <> a) (users_of st p)]> (users st)) st).
Proof.
  unfold delete_pseudo_user_list_entry, bind, get_users, set_users, ret.
  split; [|split].
  - intros Hz. by rewrite (delete_scan_missing _ _ Hz).
  - intros l1 pu l2 -> Hz He. by rewrite (delete_scan_first _ _ _ _ Hz He).
  - rewrite delete_scan_all by lia. cbn [orb].
    replace (0 - Z.of_nat (count_slot a (users_of st p)) <=? 0) with true
      by (symmetry; apply Z.leb_le; lia).
    done.
Qed.

(** ** Binding and unbinding a slot *)

Lemma users_of_with_insns m st p : users_of (with_insns m st) p = users_of st p.
Proof. done. Qed.

(** What [remove_use] does to a slot holding [p] whose entry is listed. *)
Lemma remove_use_run fuel a p st :
  slot_of st a = Some p ->
  (has_use_list p = true -> (0 < count_slot a (users_of st p))%nat) ->
  exists st',
    remove_use fuel a st = Ok tt st' /\
    (exists ins, insns st !! a.1 = Some ins /\
                 insns st' = <[a.1 := slot_set ins a.2 VOID]> (insns st)) /\
    (forall q, users_of st' q =
       if decide (has_use_list p = true /\ q = p)
       then (delete_scan (users_of st p) a 1).1.1 else users_of st q) /\
    repeat_phase st' =
      (if has_use_list p && bool_decide (ptype p = PSEUDO_SYM)
       then Z.lor (repeat_phase st) REPEAT_SYMBOL_CLEANUP else repeat_phase st) /\
    defs st' = defs st /\ blocks st' = blocks st /\ warnings st' = warnings st.
Proof.
  intros Hs Hent. unfold remove_use.
  rewrite (bind_eq _ _ _ _ _ (read_slot_eq _ _ _ Hs)).
  pose proof Hs as Hs'. unfold slot_of in Hs'.
  destruct (insns st !! a.1) as [ins|] eqn:Hi; [|done].
  rewrite (bind_eq _ _ _ _ _ (write_slot_eq a VOID st ins Hi ltac:(by eexists))).
  unfold rem_usage, rem_usage_with.
  destruct (has_use_list p) eqn:Hp; cbn [andb].
  - specialize (Hent eq_refl).
    destruct (delete_scan_found _ _ Hent) as (l' & Hscan & _).
    set (st1 := with_insns (<[a.1:=slot_set ins a.2 VOID]> (insns st)) st).
    assert (forall s0, users s0 = users st ->
              (let* _ := delete_pseudo_user_list_entry p a 1 in
               let* l := get_users p in
               if false && bool_decide (l = []) then
                 let* s := get_state in
                 let* _ := kill_instruction fuel (pseudo_def s p) in ret tt
               else ret tt) s0 = Ok tt (with_users (<[p:=l']> (users s0)) s0)) as Hrun.
    { intros s0 E. unfold delete_pseudo_user_list_entry, bind, get_users, set_users, ret.
      unfold users_of at 1. rewrite E. fold (users_of st p). rewrite Hscan. simpl. by rewrite E. }
    destruct (bool_decide (ptype p = PSEUDO_SYM)).
    + unfold bind at 1. unfold or_repeat_phase. rewrite Hrun by done.
      eexists. split; [reflexivity|]. split; [by exists ins|]. split; [|done].
      intros q. unfold users_of at 1. simpl. rewrite lookup_insert, Hscan.
      destruct (decide (p = q)) as [->|Hne]; simpl.
      * by rewrite decide_True.
      * by rewrite decide_False by (intros [_ ->]; done).
    + unfold bind at 1. unfold ret at 1. rewrite Hrun by done.
      eexists. split; [reflexivity|]. split; [by exists ins|]. split; [|done].
      intros q. unfold users_of at 1. simpl. rewrite lookup_insert, Hscan.
      destruct (decide (p = q)) as [->|Hne]; simpl.
      * by rewrite decide_True.
      * by rewrite decide_False by (intros [_ ->]; done).
  - eexists. split; [reflexivity|]. split; [by exists ins|]. split; [|done].
    intros q. by rewrite decide_False by (intros [? _]; done).
Qed.

(** X11.  [remove_use] unbinds and nothing more: the slot holds VOID, the
    first entry for the slot is off the use list of the pseudo it held (a
    VOID or VAL has none), and every instruction keeps its block, so no
    definition is killed even when the list becomes empty, whatever the
    recursion budget. *)
Theorem remove_use_no_cascade fuel a p st :
  slot_of st a = Some p ->
  (has_use_list p = true -> (0 < count_slot a (users_of st p))%nat) ->
  exists st',
    remove_use fuel a st = Ok tt st' /\
    slot_of st' a = Some VOID /\
    (forall b, b <> a -> slot_of st' b = slot_of st b) /\
    (forall i ins, insns st !! i = Some ins ->
       exists ins', insns st' !! i = Some ins' /\
                    i_bb ins' = i_bb ins /\ i_opcode ins' = i_opcode ins) /\
    (has_use_list p = true ->
       S (length (users_of st' p)) = length (users_of st p) /\
       forall b, count_slot b (users_of st' p) =
                 (count_slot b (users_of st p) - if decide (b = a) then 1 else 0)%nat) /\
    (forall q, q <> p -> users_of st' q = users_of st q).
Proof.
  intros Hs Hent.
  destruct (remove_use_run fuel a p st Hs Hent)
    as (st' & Hrun & (ins & Hi & Hins) & Hus & _).
  assert (is_Some (slot_get ins a.2)) as Hsome.
  { unfold slot_of in Hs. rewrite Hi in Hs. by eexists. }
  assert (forall b, slot_of st' b = if decide (b = a) then Some VOID else slot_of st b) as Hso.
  { intros b. unfold slot_of at 1. rewrite Hins.
    apply (slot_of_write st a ins VOID b Hi Hsome). }
  exists st'. split; [done|]. split; [by rewrite Hso, decide_True|].
  split; [intros b Hb; by rewrite Hso, decide_False|]. split; [|split].
  - intros i x Hx. rewrite Hins. destruct (decide (a.1 = i)) as [<-|Hne].
    + rewrite lookup_insert_eq. eexists. split; [done|].
      rewrite Hi in Hx. injection Hx as <-. by rewrite slot_set_bb, slot_set_opcode.
    + rewrite lookup_insert_ne by done. by exists x.
  - intros Hp. rewrite Hus, decide_True by done.
    destruct (delete_scan_found _ _ (Hent Hp)) as (l' & -> & _ & Hlen & Hcnt). done.
  - intros q Hq. rewrite Hus. by rewrite decide_False by (intros [_ ?]; done).
Qed.

Lemma remove_use_no_cascade_witness :
  exists st',
    remove_use 0 (2%nat, Src1) Scenario.neg_of_add = Ok tt st' /\
    slot_of st' (2%nat, Src1) = Some VOID /\
    users_of st' (REG 1) = [] /\
    (i_bb <$> insns st' !! 1%nat) = Some (Some 0%nat).
Proof.
  destruct (remove_use_no_cascade 0 (2%nat, Src1) (REG 1) Scenario.neg_of_add)
    as (st' & Hrun & Hv & _ & Hbb & Hlen & _).
  - reflexivity.
  - intros _. vm_compute. lia.
  - exists st'. split; [done|]. split; [done|]. split.
    + destruct (Hlen eq_refl) as [Hl _]. destruct (users_of st' (REG 1)); [done|].
      vm_compute in Hl. simpl in Hl. lia.
    + destruct (Hbb 1%nat _ eq_refl) as (ins' & E1 & E2 & _).
      rewrite E1. simpl. by rewrite E2.
Defined.

(** X12.  Binding a pseudo to a slot with [use_pseudo] and unbinding it
    with [remove_use] is a round trip on the use lists: when the slot had no
    entry in the list of the pseudo, every use list is back to what it was,
    the slot holds VOID and no other slot has changed. *)
Theorem use_then_remove_use fuel i p a q st :
  slot_of st a = Some q -> count_slot a (users_of st p) = 0%nat ->
  exists st1 st2,
    use_pseudo i p a st = Ok tt st1 /\ remove_use fuel a st1 = Ok tt st2 /\
    slot_of st1 a = Some p /\
    (has_use_list p = true -> users_of st1 p = users_of st p ++ [{| pu_insn := i; userp := a |}]) /\
    slot_of st2 a = Some VOID /\
    (forall b, b <> a -> slot_of st2 b = slot_of st b) /\
    (forall r, users_of st2 r = users_of st r).
Proof.
  intros Hs Hz. pose proof Hs as Hs'. unfold slot_of in Hs'.
  destruct (insns st !! a.1) as [ins|] eqn:Hi; [|done].
  assert (is_Some (slot_get ins a.2)) as Hsome by by eexists.
  destruct (use_pseudo_total i p a st ins Hi Hsome) as (st1 & Hu).
  pose proof (use_pseudo_Ok _ _ _ _ _ _ Hu) as (ins0 & Hi0 & _ & Hins1 & Hso1 & Hcnt1).
  assert (forall r, users_of st1 r =
            if decide (has_use_list p = true /\ r = p)
            then users_of st p ++ [{| pu_insn := i; userp := a |}] else users_of st r) as Hus1.
  { intros r. unfold use_pseudo in Hu.
    rewrite (bind_eq _ _ _ _ _ (write_slot_eq a p st ins Hi Hsome)) in Hu.
    destruct (has_use_list p) eqn:Hp.
    - unfold bind, get_users, set_users in Hu. injection Hu as <-.
      unfold users_of at 1. simpl. rewrite lookup_insert.
      destruct (decide (p = r)) as [->|Hne]; simpl.
      + by rewrite decide_True.
      + by rewrite decide_False by (intros [_ ->]; done).
    - apply ret_Ok in Hu as [_ <-].
      by rewrite decide_False by (intros [? _]; done). }
  assert (slot_of st1 a = Some p) as Hsa by (by rewrite Hso1, decide_True).
  destruct (remove_use_run fuel a p st1 Hsa) as (st2 & Hr & (ins1 & Hi1 & Hins2) & Hus2 & _).
  { intros Hp. rewrite Hcnt1. rewrite decide_True by done. lia. }
  exists st1, st2. split; [done|]. split; [done|]. split; [done|].
  split; [intros Hp; by rewrite Hus1, decide_True|].
  assert (is_Some (slot_get ins1 a.2)) as Hsome1.
  { unfold slot_of in Hsa. rewrite Hi1 in Hsa. by eexists. }
  assert (forall b, slot_of st2 b = if decide (b = a) then Some VOID else slot_of st1 b) as Hso2.
  { intros b. unfold slot_of at 1. rewrite Hins2.
    apply (slot_of_write st1 a ins1 VOID b Hi1 Hsome1). }
  split; [by rewrite Hso2, decide_True|]. split.
  - intros b Hb. by rewrite Hso2, decide_False, Hso1, decide_False.
  - intros r. rewrite Hus2. destruct (decide (has_use_list p = true /\ r = p)) as [[Hp ->]|Hn].
    + rewrite Hus1, decide_True by done.
      rewrite (delete_scan_first (users_of st p) {| pu_insn := i; userp := a |} [] a Hz eq_refl).
      simpl. apply app_nil_r.
    + rewrite Hus1. by rewrite decide_False.
Qed.

Lemma use_then_remove_use_witness :
  exists st1 st2,
    use_pseudo 2 (ARG 1) (2%nat, Src2) Scenario.neg_of_add = Ok tt st1 /\
    remove_use 0 (2%nat, Src2) st1 = Ok tt st2 /\
    users_of st1 (ARG 1) = [Sample.use 1 Src2; Sample.use 2 Src2] /\
    users_of st2 (ARG 1) = [Sample.use 1 Src2].
Proof.
  destruct (use_then_remove_use 0 2 (ARG 1) (2%nat, Src2) VOID Scenario.neg_of_add)
    as (st1 & st2 & H1 & H2 & _ & H3 & _ & _ & H4).
  - reflexivity.
  - reflexivity.
  - exists st1, st2. split; [done|]. split; [done|]. split.
    + by rewrite (H3 eq_refl).
    + by rewrite H4.
Defined.

(** ** Killing twice *)

(** X13.  A kill is idempotent: once [kill_insn] has returned a non-zero
    mask for an instruction, the instruction is dead, and every further kill
    of it, forced or not, returns 0 and leaves the state as it is. *)
Theorem kill_insn_idempotent fuel i force st r st' :
  kill_insn fuel (InsnAt i) force st = Ok r st' -> r <> 0 ->
  (exists ins', insns st' !! i = Some ins' /\ i_bb ins' = None) /\
  forall fuel' force', kill_insn (S fuel') (InsnAt i) force' st' = Ok 0 st'.
Proof.
  intros H Hr. destruct fuel as [|fuel]; [done|].
  assert (exists ins', insns st' !! i = Some ins' /\ i_bb ins' = None) as Hdead.
  { cbn [kill_insn] in H. pose proof H as H0. unfold kill_insn_body in H0.
    apply bind_Ok in H0 as (ins & s1 & H1 & H0). apply load_insn_Ok in H1 as [Hi ->].
    destruct (i_bb ins) as [b|] eqn:Hbb; [|apply ret_Ok in H0 as [<- _]; done].
    clear H0.
    assert (is_live ins = true) as Hlive by (unfold is_live; by rewrite Hbb).
    destruct (refused st force ins) eqn:Href.
    - pose proof (kill_insn_refused fuel i ins st force Hi Hlive Href) as E.
      cbn [kill_insn] in E. rewrite E in H. injection H as <- _. done.
    - apply (kill_insn_body_post _ (fun d s r' s' => kill_insn_kstep fuel d false s r' s')
               i force st r st' ins Hi Hlive Href) in H as (_ & Hd & _).
      exact Hd. }
  split; [done|]. intros fuel' force'. destruct Hdead as (ins' & Hi' & Hbb').
  cbn [kill_insn]. unfold kill_insn_body.
  rewrite (bind_eq _ _ _ _ _ (load_insn_eq _ _ _ Hi')). by rewrite Hbb'.
Qed.

Lemma kill_insn_idempotent_witness :
  exists r st',
    kill_insn 3 (InsnAt 2) false Scenario.neg_of_add = Ok r st' /\ r <> 0 /\
    kill_insn 1 (InsnAt 2) true st' = Ok 0 st'.
Proof.
  destruct (kill_insn 3 (InsnAt 2) false Scenario.neg_of_add) as [r st'|e] eqn:E.
  - assert (r <> 0) as Hr by (vm_compute in E; injection E as <- _; done).
    exists r, st'. split; [done|]. split; [done|].
    apply (kill_insn_idempotent 3 2 false Scenario.neg_of_add r st' E Hr).
  - vm_compute in E. discriminate E.
Defined.

(** ** Trivially dead instructions *)

Lemma kill_use_opt_runs fuel st0 st i ins s :
  kill_ready st0 -> (total_uses st0 < fuel)%nat ->
  kstep st0 st -> (total_uses st <= total_uses st0)%nat ->
  insns st0 !! i = Some ins -> i_opcode ins <> OP_CALL ->
  (forall a, s = Some a -> a.1 = i /\ a.2 ∈ kill_slots ins) ->
  runs_to (kill_use fuel s) st
    (fun _ st' => kstep st st' /\ (total_uses st' <= total_uses st)%nat /\
                  forall a, s = Some a -> slot_of st' a = Some VOID).
Proof.
  intros R Hn K Hm Hi Hc Hs. destruct s as [[j t]|].
  - destruct (Hs _ eq_refl) as [Hj Ht]. simpl in Hj, Ht. subst j.
    destruct (kill_use_runs fuel st i t) as ([] & st' & Hrun & K' & M').
    + by eapply kstep_kill_ready.
    + lia.
    + by apply (kstep_slot_member st0 st i ins t).
    + exists tt, st'. split; [done|]. split; [done|]. split; [done|].
      intros a [= <-]. unfold kill_use in Hrun.
      apply (kill_use_with_void (kill_instruction fuel)) in Hrun; [done|].
      intros d s r s'. apply kill_instruction_kstep.
  - exists tt, st. split; [done|]. split; [apply kstep_refl|]. split; [done|]. done.
Qed.



(** ** Identities of a constant left operand *)

Ltac elem_cases H :=
  repeat (apply elem_of_cons in H as [H|H]; [|]); [..|by apply elem_of_nil in H].

Lemma binary_no_sym st i ins s x :
  kill_ready st -> insns st !! i = Some ins ->
  op_in_range OP_BINARY OP_BINCMP_END (i_opcode ins) = true ->
  s ∈ [Src1; Src2] -> slot_get ins s <> Some (SYM x).
Proof.
  intros R Hi Hop Hs. apply (kr_nosym _ R i ins s x Hi).
  unfold kill_slots. destruct (i_opcode ins); try done; vm_compute in Hop; done.
Qed.



(** ** Both operands the same pseudo *)

Lemma replaced_with_warnings st i ins src st' :
  replaced_with st i ins src st' -> warnings st' = warnings st.
Proof.
  intros ((st1 & W & K) & _). by rewrite (ks_warnings _ _ K), (ws_warnings _ _ _ _ _ W).
Qed.



(** X17.  AND_BOOL and OR_BOOL of a pseudo with itself are rewritten in
    place to [SET_NE x, $0]: the right operand is unbound without a kill
    (the left one keeps the pseudo in use), the constant 0 takes its place
    and the opcode changes; no other instruction and no other use list
    changes. *)
Theorem simplify_binop_same_args_bool fuel i ins st :
  insns st !! i = Some ins -> is_live ins = true ->
  i_opcode ins ∈ [OP_AND_BOOL; OP_OR_BOOL] -> i_src2 ins = i_src1 ins ->
  use_lists_ok st ->
  exists st',
    simplify_binop_same_args fuel i (i_src1 ins) st = Ok REPEAT_CSE st' /\
    insns st' = <[i := set_opcode OP_SET_NE (slot_set ins Src2 (VAL 0))]> (insns st) /\
    (forall q c, count_slot c (users_of st' q) =
       (count_slot c (users_of st q) -
        if decide (has_use_list (i_src1 ins) = true /\ q = i_src1 ins /\ c = (i, Src2))
        then 1 else 0)%nat) /\
    use_lists_ok st'.
Proof.
  intros Hi Hlive Hop Hsame L.
  assert (forall s, s ∈ [Src1; Src2] -> has_use_list (i_src1 ins) = true ->
            (0 < count_slot (i, s) (users_of st (i_src1 ins)))%nat) as Hent.
  { intros s Hs Hu.
    rewrite (use_lists_ok_entry st i ins s (i_src1 ins) L Hi Hlive); [lia| | |done].
    - by elem_cases Hs; subst s.
    - elem_cases Hs; subst s; simpl; by rewrite ?Hsame. }
  destruct (rem_usage_keep fuel (i_src1 ins) (i, Src2) (i, Src1) st)
    as (st1 & Hrem & Hins1 & _ & Hcnt1).
  { apply Hent. right. by left. }
  { apply Hent. by left. }
  { done. }
  assert (exists st',
            simplify_binop_same_args fuel i (i_src1 ins) st = Ok REPEAT_CSE st' /\
            insns st' = <[i := set_opcode OP_SET_NE (slot_set ins Src2 (VAL 0))]> (insns st) /\
            users st' = users st1) as (st' & Hrun & Hins & Hus).
  { unfold simplify_binop_same_args.
    rewrite (bind_eq _ _ _ _ _ (load_insn_eq _ _ _ Hi)).
    rewrite (bind_eq get_state _ st st st eq_refl).
    assert (insns st1 !! i = Some ins) as Hi1 by (by rewrite Hins1).
    pose proof (write_slot_eq (i, Src2) (value_pseudo 0) st1 ins Hi1 ltac:(by eexists)) as Hw.
    set (st2 := with_insns _ st1) in Hw.
    assert (update_insn i (set_opcode OP_SET_NE) st2 =
            Ok tt (with_insns (<[i := set_opcode OP_SET_NE (slot_set ins Src2 (VAL 0))]>
                                 (insns st2)) st2)) as Hupd.
    { assert (insns st2 !! i = Some (slot_set ins Src2 (VAL 0))) as Hi2
        by (unfold st2; simpl; by rewrite lookup_insert_eq).
      unfold update_insn. by rewrite (bind_eq _ _ _ _ _ (load_insn_eq _ _ _ Hi2)). }
    eexists.
    elem_cases Hop; rewrite Hop; unfold remove_usage;
      rewrite (bind_eq _ _ _ _ _ Hrem), (bind_eq _ _ _ _ _ Hw), (bind_eq _ _ _ _ _ Hupd);
      (split; [reflexivity|]); (split; [|done]);
      simpl; by rewrite insert_insert_eq, Hins1. }
  exists st'. split; [done|]. split; [done|]. split.
  - intros q c. unfold users_of at 1. rewrite Hus. apply Hcnt1.
  - rewrite <- Hsame in Hrun at 1.
    by apply (simplify_binop_same_args_lists_ok fuel i ins st _ st' Hi Hrun).
Qed.

Lemma simplify_binop_same_args_bool_witness :
  exists st',
    simplify_binop_same_args 0 1 (ARG 0) (Extra.same_args OP_AND_BOOL) = Ok REPEAT_CSE st' /\
    (i_opcode <$> insns st' !! 1%nat) = Some OP_SET_NE /\
    (i_src2 <$> insns st' !! 1%nat) = Some (VAL 0) /\
    count_slot (1%nat, Src2) (users_of st' (ARG 0)) = 0%nat.
Proof.
  destruct (simplify_binop_same_args_bool 0 1
              (Sample.mk OP_AND_BOOL 32 (REG 1) (ARG 0) (ARG 0) VOID)
              (Extra.same_args OP_AND_BOOL))
    as (st' & Hrun & Hins & Hcnt & _).
  - reflexivity.
  - reflexivity.
  - by left.
  - reflexivity.
  - apply use_lists_check_ok. vm_compute. reflexivity.
  - exists st'. split; [exact Hrun|]. rewrite Hins, Hcnt. by vm_compute.
Defined.

(** ** Multiplication and division by 1, 0 and -1 *)

Lemma lor_neg_pow2 n c : 0 <= n -> Z.lor c (- 2 ^ n) = c mod 2 ^ n - 2 ^ n.
Proof.
  intros Hn. assert (0 < 2 ^ n) by (apply Z.pow_pos_nonneg; lia).
  pose proof (Z.mod_pos_bound c (2 ^ n) ltac:(lia)) as Hm.
  rewrite <- Z.add_opp_r. rewrite Z.add_nocarry_lor.
  - apply Z.bits_inj'. intros k Hk. rewrite !Z.lor_spec, Z.opp_pow2_spec by lia.
    destruct (decide (n <= k)).
    + rewrite bool_decide_eq_true_2 by done. by rewrite !orb_true_r.
    + rewrite bool_decide_eq_false_2 by done. rewrite !orb_false_r.
      symmetry. apply Z.mod_pow2_bits_low. lia.
  - apply Z.bits_inj'. intros k Hk. rewrite Z.land_spec, Z.opp_pow2_spec, Z.bits_0 by lia.
    destruct (decide (n <= k)).
    + rewrite Z.mod_pow2_bits_high by lia. done.
    + rewrite bool_decide_eq_false_2 by done. apply andb_false_r.
Qed.

Lemma minus_one_at_width n c :
  1 <= n <= 64 -> in_s64 c -> unsigned_of n c = 2 ^ n - 1 ->
  let sbit := Z.shiftl 1 (n - 1) in
  let bits := Z.lor sbit (sbit - 1) in
  (Z.land c sbit =? 0) = false /\ Z.lor c (Z.lnot bits) = -1.
Proof.
  intros Hn Hc Hu sbit bits. unfold unsigned_of in Hu.
  assert (0 < 2 ^ (n - 1)) as Hp by (apply Z.pow_pos_nonneg; lia).
  pose proof (pow2_double n ltac:(lia)) as Hd.
  subst bits sbit. rewrite !Z.shiftl_1_l.
  assert (Z.lor (2 ^ (n - 1)) (2 ^ (n - 1) - 1) = Z.ones n) as ->.
  { rewrite <- Z.add_nocarry_lor.
    - rewrite Z.ones_equiv. lia.
    - replace (2 ^ (n - 1) - 1) with (Z.ones (n - 1)) by (rewrite Z.ones_equiv; lia).
      rewrite Z.land_ones by lia. apply Z.mod_same. lia. }
  split.
  - apply Z.eqb_neq. intros E.
    assert (Z.testbit c (n - 1) = true) as Hb.
    { rewrite <- (Z.mod_pow2_bits_low c n) by lia. rewrite Hu.
      replace (2 ^ n - 1) with (Z.ones n) by (rewrite Z.ones_equiv; lia).
      apply Z.ones_spec_low. lia. }
    assert (Z.testbit (Z.land c (2 ^ (n - 1))) (n - 1) = true) as Hb'.
    { rewrite Z.land_spec, Hb, Z.pow2_bits_true by lia. done. }
    rewrite E, Z.bits_0 in Hb'. done.
  - replace (Z.lnot (Z.ones n)) with (- 2 ^ n) by (rewrite Z.ones_equiv; unfold Z.lnot; lia).
    rewrite lor_neg_pow2 by lia. lia.
Qed.



(** ** Unary operations *)

Lemma dead_insn_kept fuel i ins s1 s2 s3 st :
  insns st !! i = Some ins -> has_users st (i_target ins) = true ->
  dead_insn fuel i s1 s2 s3 st = Ok 0 st.
Proof.
  intros Hi Hu. unfold dead_insn.
  rewrite (bind_eq _ _ _ _ _ (load_insn_eq _ _ _ Hi)).
  rewrite (bind_eq get_state _ st st st eq_refl). by rewrite Hu.
Qed.

Lemma land_all_bits_canon n x : 1 <= n <= 64 -> in_s64 x -> Z.land x (all_bits n) = canon n x.
Proof.
  intros Hn Hx. destruct (decide (n = 64)) as [->|Hne].
  - rewrite all_bits_64, Z.land_m1_r, canon_64. symmetry. by apply s64_small.
  - rewrite land_all_bits, canon_lt by lia. done.
Qed.





(** ** What a kill spares *)

Lemma spares_refl roots st : spares roots st st.
Proof. split; [done|]. intros j ins Hj _. by exists ins. Qed.

Lemma defines_nothing_kstep st st' j :
  kstep st st' -> defines_nothing st j -> defines_nothing st' j.
Proof. intros K H q. rewrite (pseudo_def_kstep _ _ q K). apply H. Qed.

Lemma spares_trans r1 r2 roots st1 st2 st3 :
  kstep st1 st2 -> spares r1 st1 st2 -> spares r2 st2 st3 ->
  (forall j, j ∈ r1 -> j ∈ roots) ->
  (forall j, j ∈ r2 -> j ∈ roots \/ ~ defines_nothing st1 j) ->
  spares roots st1 st3.
Proof.
  intros K [A1 B1] [A2 B2] H1 H2. split.
  - intros j Hj Hd.
    assert (j ∉ r1) as N1 by (intros Hin; by apply Hj, H1).
    assert (j ∉ r2) as N2.
    { intros Hin. destruct (H2 j Hin) as [?|Hn]; [by apply Hj|by apply Hn]. }
    rewrite (A2 j N2 (defines_nothing_kstep _ _ _ K Hd)). by apply A1.
  - intros j ins Hi Hop. destruct (B1 j ins Hi Hop) as (ins1 & Hi1 & E1).
    destruct (ks_insns _ _ K j ins Hi) as (x & Hx & Hk).
    assert (x = ins1) as -> by congruence.
    destruct (B2 j ins1 Hi1) as (ins2 & Hi2 & E2).
    { by rewrite (kins_opcode _ _ Hk). }
    exists ins2. split; [done|congruence].
Qed.

Lemma spares_same_insns roots st st' : insns st' = insns st -> spares roots st st'.
Proof. intros E. split; [intros; by rewrite E|]. intros j ins Hj _. exists ins. by rewrite E. Qed.

(** Overwriting a slot of [a.1] that is not the target of a non-store. *)
Lemma spares_write st st' a ins p :
  insns st !! a.1 = Some ins ->
  (a.2 = Target -> i_opcode ins = OP_STORE) ->
  insns st' = <[a.1 := slot_set ins a.2 p]> (insns st) ->
  spares [a.1] st st'.
Proof.
  intros Hi Ht E. split.
  - intros j Hj _. rewrite E, lookup_insert_ne; [done|]. intros <-. apply Hj. by left.
  - intros j x Hj Hop. rewrite E. destruct (decide (a.1 = j)) as [<-|Hne].
    + rewrite lookup_insert_eq. eexists. split; [done|].
      rewrite Hi in Hj. injection Hj as <-.
      destruct (a.2); try done. by destruct Hop, Ht.
    + rewrite lookup_insert_ne by done. by exists x.
Qed.

Section KillSpares.

Variable k : insn_ptr -> M Z.
Hypothesis k_frame : forall d st r st', k d st = Ok r st' -> kstep st st'.
Hypothesis k_spares : forall d st r st', k d st = Ok r st' -> spares (ptr_roots d) st st'.

Lemma kill_use_with_spares a st u st' :
  (forall ins, insns st !! a.1 = Some ins -> a.2 = Target -> i_opcode ins = OP_STORE) ->
  kill_use_with k (Some a) st = Ok u st' -> spares [a.1] st st'.
Proof using k_frame k_spares.
  intros Ht H. simpl in H.
  apply bind_Ok in H as (p & s1 & H1 & H). apply read_slot_Ok in H1 as [Hp ->].
  apply bind_Ok in H as (u1 & s2 & H2 & H).
  apply write_slot_Ok in H2 as (ins & Hins & Hsome & ->).
  assert (slot_get ins a.2 = Some p) as Hslot by (unfold slot_of in Hp; by rewrite Hins in Hp).
  set (st1 := with_insns _ st) in H.
  assert (spares [a.1] st st1) as S1 by (by apply (spares_write st st1 a ins VOID); auto).
  pose proof H as H0. apply rem_usage_with_Ok in H0.
  destruct (has_use_list p) eqn:Hup; [|by subst st'].
  destruct H0 as (x & l' & Hx & Hpos & Hsub & Hlen & Hcnt & Hend).
  cbv zeta in Hend.
  set (st3 := with_users (<[p:=l']> (users st1)) (with_repeat_phase x st1)) in Hend.
  assert (kstep st st3) as K3.
  { eapply (kstep_unbind _ _ a p ins); try done. rewrite Hup. by exists l'. }
  assert (spares [a.1] st st3) as S3.
  { destruct S1 as [A B]. split; [exact A|exact B]. }
  destruct Hend as [[-> _]|(_ & _ & r & Hk)]; [done|].
  apply (spares_trans [a.1] (ptr_roots (pseudo_def st3 p)) [a.1] st st3 st'); try done.
  - by apply (k_spares _ _ _ _ Hk).
  - intros j Hj. right. intros Hd. apply (Hd p).
    rewrite <- (pseudo_def_kstep _ _ p K3).
    destruct (pseudo_def st3 p); simpl in Hj; try (by apply elem_of_nil in Hj).
    by apply list_elem_of_singleton in Hj as ->.
Qed.

Lemma kill_use_list_loop_spares insn entry ks :
  (forall x, entry x <> Target) ->
  forall st u st',
    kill_use_list_loop k insn entry ks st = Ok u st' -> spares [insn] st st'.
Proof using k_frame k_spares.
  intros He. induction ks as [|x ks IH]; intros st u st' H; cbn [kill_use_list_loop] in H.
  - apply ret_Ok in H as [_ <-]. apply spares_refl.
  - apply bind_Ok in H as (p & s1 & H1 & H). apply read_slot_Ok in H1 as [_ ->].
    apply bind_Ok in H as (u1 & s2 & H2 & H). apply IH in H.
    destruct (decide (p = VOID)).
    + apply ret_Ok in H2 as [_ <-]. done.
    + pose proof (kill_use_with_kstep _ k_frame _ _ _ _ H2) as K2.
      apply kill_use_with_spares in H2; [|intros ? _ E; by destruct (He x)].
      apply (spares_trans [insn] [insn] [insn] st s2 st'); auto.
Qed.

Lemma kill_finish_spares i st r st' : kill_finish i st = Ok r st' -> spares [i] st st'.
Proof.
  unfold kill_finish. intros H. inv_run.
  apply update_insn_Ok in Hrun as (ins & Hi & ->).
  apply or_repeat_phase_Ok in Hrun0 as [-> ->]. split.
  - intros j Hj _. simpl. rewrite lookup_insert_ne; [done|]. intros <-. apply Hj. by left.
  - intros j x Hj _. simpl. destruct (decide (i = j)) as [<-|Hne].
    + rewrite lookup_insert_eq. eexists. split; [done|].
      rewrite Hi in Hj. by injection Hj as <-.
    + rewrite lookup_insert_ne by done. by exists x.
Qed.

Lemma kill_insn_body_spares insn force st r st' :
  kill_insn_body k insn force st = Ok r st' -> spares (ptr_roots insn) st st'.
Proof using k_frame k_spares.
  unfold kill_insn_body, kill_use_list_phi, kill_use_list_args.
  destruct insn as [|i|]; [intros H; inv_run; apply spares_refl| |done].
  cbn [ptr_roots]. intros H. inv_run. rename a into ins. rename Hrun into Hi.
  destruct (i_bb ins); [|inv_run; apply spares_refl].
  assert (forall s st1 u st2,
            kstep st st1 -> (s = Target -> i_opcode ins = OP_STORE) ->
            kill_use_with k (Some (i, s)) st1 = Ok u st2 -> spares [i] st1 st2) as Hku.
  { intros s st1 u st2 K Hs H. apply (kill_use_with_spares (i, s) st1 u st2); [|done].
    simpl. intros x Hx Et. destruct (ks_insns _ _ K i ins Hi) as (y & Hy & Hk).
    assert (y = x) as -> by congruence. rewrite (kins_opcode _ _ Hk). by apply Hs. }
  assert (forall s1 s2 s3, kstep s1 s2 -> spares [i] s1 s2 -> spares [i] s2 s3 ->
            spares [i] s1 s3) as Htr.
  { intros s1 s2 s3 K A B. apply (spares_trans [i] [i] [i] s1 s2 s3); auto. }
  destruct (i_opcode ins) eqn:Hop; norm_range; cbv iota in Hrun0;
    repeat first
      [ progress inv_run
      | match goal with
        | H : (if ?c then _ else _) _ = Ok _ _ |- _ => destruct c eqn:?
        | H : or_repeat_phase _ _ = Ok _ _ |- _ => apply or_repeat_phase_Ok in H as [-> ->]
        end ];
    try (apply spares_refl).
  all: repeat match goal with
       | H : kill_use_with _ _ ?s1 = Ok _ ?s2 |- _ =>
           lazymatch goal with
           | K : kstep s1 s2 |- _ => fail
           | _ => pose proof (kill_use_with_kstep _ k_frame _ _ _ _ H)
           end
       | H : kill_use_list_loop _ _ _ _ ?s1 = Ok _ ?s2 |- _ =>
           lazymatch goal with
           | K : kstep s1 s2 |- _ => fail
           | _ => pose proof (kill_use_list_loop_kstep _ k_frame _ _ _ _ _ _ H)
           end
       | H : kill_finish _ ?s1 = Ok _ ?s2 |- _ =>
           lazymatch goal with
           | K : kstep s1 s2 |- _ => fail
           | _ => pose proof (proj1 (kill_finish_Ok _ _ _ _ H))
           end
       end.
  all: repeat match goal with
       | H : kill_use_with _ (Some (?j, ?s)) ?s1 = Ok _ ?s2 |- _ =>
           let S := fresh "S" in
           assert (spares [j] s1 s2) as S
             by (eapply (Hku s s1); [kchain|done|exact H]);
           clear H
       | H : kill_use_list_loop _ ?j _ _ ?s1 = Ok _ ?s2 |- _ =>
           let S := fresh "S" in
           assert (spares [j] s1 s2) as S
             by (eapply kill_use_list_loop_spares; [|exact H]; done);
           clear H
       | H : kill_finish ?j ?s1 = Ok _ ?s2 |- _ =>
           let S := fresh "S" in
           assert (spares [j] s1 s2) as S by (apply (kill_finish_spares _ _ _ _ H));
           clear H
       end.
  all: try assumption.
  all: repeat match goal with
       | K : kstep ?a ?b, S1 : spares [?j] ?a ?b, S2 : spares [?j] ?b ?c |- _ =>
           let S := fresh "S" in
           assert (spares [j] a c) as S by (apply (Htr a b c K S1 S2));
           let K' := fresh "K" in
           assert (kstep a c) as K' by kchain;
           clear S2
       end.
  all: try assumption.
  all: try (apply (Htr _ _ _ (kstep_phase _ _));
            [apply spares_same_insns; done|assumption]).
Qed.

End KillSpares.

Lemma kill_spares_ptr fuel : forall insn force st r st',
  kill_insn fuel insn force st = Ok r st' -> spares (ptr_roots insn) st st'.
Proof.
  induction fuel as [|n IH]; [done|].
  intros insn force st r st'. simpl. apply kill_insn_body_spares.
  - intros d s r' s'. apply kill_insn_kstep.
  - intros d s r' s'. apply IH.
Qed.

Lemma defines_nothing_check st j : defines_nothing_b st j = true -> defines_nothing st j.
Proof.
  unfold defines_nothing_b. intros H%bool_decide_eq_true_1 q E.
  unfold pseudo_def in E.
  destruct q; try done;
    try (destruct (defs st !! _) as [d|] eqn:D; [|done]; injection E as ->;
         by apply (H _ _ D)).
  by destruct (value =? 0).
Qed.

Lemma kill_use_spares fuel a st u st' :
  (forall ins, insns st !! a.1 = Some ins -> a.2 = Target -> i_opcode ins = OP_STORE) ->
  kill_use fuel (Some a) st = Ok u st' -> spares [a.1] st st'.
Proof.
  intros Ht H. unfold kill_use in H.
  apply (kill_use_with_spares (kill_instruction fuel)) in H; try done.
  - intros d s r s'. apply kill_instruction_kstep.
  - intros d s r s'. apply kill_spares_ptr.
Qed.

(** X21.  A kill reaches only definitions: apart from the instruction it is
    given, every instruction that is the definition of no pseudo (a branch,
    a store, a return) is exactly as it was, however far the cascade went;
    and no instruction other than a store has another target afterwards. *)
Theorem kill_insn_spares fuel i force st r st' :
  kill_insn fuel (InsnAt i) force st = Ok r st' ->
  (forall j, j <> i -> defines_nothing st j -> insns st' !! j = insns st !! j) /\
  (forall j ins, insns st !! j = Some ins -> i_opcode ins <> OP_STORE ->
     exists ins', insns st' !! j = Some ins' /\ i_target ins' = i_target ins).
Proof.
  intros H. apply kill_spares_ptr in H as [A B]. split; [|exact B].
  intros j Hj Hd. apply A; [|done]. by intros ->%list_elem_of_singleton.
Qed.

Lemma kill_insn_spares_witness :
  exists r st',
    kill_insn 3 (InsnAt 1) false Sample.add_zero = Ok r st' /\
    insns st' !! 2%nat = insns Sample.add_zero !! 2%nat.
Proof.
  destruct (kill_insn 3 (InsnAt 1) false Sample.add_zero) as [r st'|e] eqn:E.
  - exists r, st'. split; [done|].
    destruct (kill_insn_spares 3 1 false Sample.add_zero r st' E) as [A _].
    apply A; [done|]. apply defines_nothing_check. vm_compute. reflexivity.
  - vm_compute in E. discriminate E.
Defined.

(** ** Rebinding a slot *)

Lemma kill_slots_slot_set ins t p s :
  s <> t -> s ∈ kill_slots (slot_set ins t p) -> s ∈ kill_slots ins.
Proof.
  intros Hne. unfold kill_slots. rewrite slot_set_opcode.
  assert (length (i_phi_list (slot_set ins t p)) = length (i_phi_list ins)) as ->
    by (destruct t; simpl; try done; apply length_insert).
  assert (length (i_arguments (slot_set ins t p)) = length (i_arguments ins)) as ->
    by (destruct t; simpl; try done; apply length_insert).
  destruct (i_opcode ins); try done.
  rewrite !elem_of_app. intros [H|H]; [by left|]. right.
  destruct t; simpl in *; try done.
  destruct (bool_decide _); [|by apply elem_of_nil in H].
  apply list_elem_of_singleton in H. done.
Qed.

(** [use_pseudo(insn, new, a); remove_usage(old, a)] on a slot that holds
    [old]: the slot holds [new], the entry of the slot has moved from the
    list of [old] to that of [new], and the definition of [old] has been
    killed when its list became empty. *)
Lemma rebind_runs fuel i a old new st :
  slot_of st a = Some old ->
  (has_use_list old = true -> (0 < count_slot a (users_of st old))%nat) ->
  (forall x, old <> SYM x) -> (forall x, new <> SYM x) ->
  kill_ready st -> (S (total_uses st) < fuel)%nat ->
  exists ins st2 st',
    insns st !! a.1 = Some ins /\
    (let* _ := use_pseudo i new a in remove_usage fuel old a) st = Ok tt st' /\
    insns st2 = <[a.1 := slot_set ins a.2 new]> (insns st) /\
    (forall q b, count_slot b (users_of st2 q) =
       (count_slot b (users_of st q) +
        (if decide (has_use_list new = true /\ q = new /\ b = a) then 1 else 0) -
        (if decide (has_use_list old = true /\ q = old /\ b = a) then 1 else 0))%nat) /\
    defs st2 = defs st /\ blocks st2 = blocks st /\ warnings st2 = warnings st /\
    repeat_phase st2 = repeat_phase st /\
    kill_ready st2 /\
    kstep st2 st' /\ spares (ptr_roots (pseudo_def st old)) st2 st'.
Proof.
  intros Hs Hent Hold Hnew R Hn.
  destruct (slot_of_Some_insn _ _ _ Hs) as (ins & Hi & Hslot).
  assert (is_Some (slot_get ins a.2)) as Hsome by by eexists.
  destruct (use_pseudo_total i new a st ins Hi Hsome) as (st1 & Hu).
  pose proof (use_pseudo_frame _ _ _ _ _ _ Hu) as (Hph1 & Hd1 & Hb1 & Hsy1 & Hw1 & Hf1).
  pose proof (use_pseudo_Ok _ _ _ _ _ _ Hu) as (x & Hx & _ & Hins1 & Hso1 & Hcnt1).
  assert (x = ins) as -> by congruence.
  rewrite (bind_eq _ _ _ _ _ Hu).
  (* the state after the entry of [old] is taken off *)
  assert (exists st2,
            insns st2 = insns st1 /\ defs st2 = defs st1 /\ blocks st2 = blocks st1 /\
            symtab st2 = symtab st1 /\ warnings st2 = warnings st1 /\
            repeat_phase st2 = repeat_phase st1 /\
            Wtautological_compare st2 = Wtautological_compare st1 /\
            (forall q b, count_slot b (users_of st2 q) =
               (count_slot b (users_of st1 q) -
                (if decide (has_use_list old = true /\ q = old /\ b = a) then 1 else 0))%nat) /\
            (total_uses st2 <= total_uses st1)%nat /\
            forall k,
              rem_usage_with k old a true st1 =
              if has_use_list old && bool_decide (users_of st2 old = [])
              then (let* _ := k (pseudo_def st2 old) in ret tt) st2
              else Ok tt st2) as (st2 & Hins2 & Hd2 & Hb2 & Hsy2 & Hw2 & Hph2 & Hf2 & Hcnt2 & Hm2 & Hrem).
  { destruct (has_use_list old) eqn:Hup.
    - assert (0 < count_slot a (users_of st1 old))%nat as Hpos.
      { rewrite Hcnt1. specialize (Hent eq_refl). lia. }
      destruct (delete_entry_total old a st1 Hpos) as (l' & Hdel & Hsub & Hlen & Hcnt).
      exists (with_users (<[old:=l']> (users st1)) st1).
      do 7 (split; [done|]). split; [|split].
      + intros q b. rewrite users_of_insert. destruct (decide (old = q)) as [<-|Hne].
        * rewrite Hcnt. destruct (decide (b = a)) as [->|Hb].
          -- by rewrite decide_True.
          -- by rewrite decide_False by (intros (_ & _ & ?); done).
        * rewrite decide_False by (intros (_ & ? & _); done). lia.
      + pose proof (total_uses_users st1 (with_users (<[old:=l']> (users st1)) st1) old l' eq_refl) as E. lia.
      + intros k. unfold rem_usage_with. rewrite Hup.
        rewrite bool_decide_eq_false_2 by (destruct old; try done; by destruct (Hold sym)).
        unfold bind at 1. unfold ret at 1.
        rewrite (bind_eq _ _ _ _ _ Hdel).
        unfold bind at 1. unfold get_users.
        rewrite !users_of_insert, !decide_True by done. cbn [andb].
        destruct (bool_decide (l' = [])); [|done].
        by rewrite (bind_eq get_state _ _ _ _ eq_refl).
    - exists st1. do 7 (split; [done|]). split; [|split; [done|]].
      + intros q b. rewrite decide_False by (intros (? & _); done). lia.
      + intros k. unfold rem_usage_with. by rewrite Hup. }
  assert (forall q b, count_slot b (users_of st2 q) =
            (count_slot b (users_of st q) +
             (if decide (has_use_list new = true /\ q = new /\ b = a) then 1 else 0) -
             (if decide (has_use_list old = true /\ q = old /\ b = a) then 1 else 0))%nat) as Hcnt.
  { intros q b. by rewrite Hcnt2, Hcnt1. }
  assert (kill_ready st2) as R2.
  { constructor.
    - intros j y s p Hj Hsl Hp Hup. rewrite Hcnt.
      rewrite Hins2, Hins1 in Hj.
      destruct (decide ((j, s) = a)) as [<-|Hne].
      + simpl in Hj. rewrite lookup_insert_eq in Hj. injection Hj as <-.
        simpl in Hp. rewrite slot_get_set_eq in Hp by done. injection Hp as <-.
        rewrite (decide_True (P := _ /\ new = new /\ _)) by done.
        destruct (has_use_list old) eqn:Ho, (decide (new = old)) as [E|E].
        * subst new. rewrite decide_True by done. specialize (Hent eq_refl). lia.
        * rewrite decide_False by (intros (_ & ? & _); done). lia.
        * rewrite decide_False by (intros (? & _); done). lia.
        * rewrite decide_False by (intros (? & _); done). lia.
      + rewrite (decide_False (P := _ /\ _ /\ (j, s) = a)) by (intros (_ & _ & ?); done).
        rewrite (decide_False (P := _ /\ _ /\ (j, s) = a)) by (intros (_ & _ & ?); done).
        rewrite Nat.add_0_r, Nat.sub_0_r.
        destruct (decide (a.1 = j)) as [E|E].
        * subst j. rewrite lookup_insert_eq in Hj. injection Hj as <-.
          assert (s <> a.2) as Hsa by (intros ->; apply Hne; by destruct a).
          rewrite slot_get_set_ne in Hp by done.
          apply (kr_entry _ R a.1 ins s p Hi); [|done|done].
          by apply (kill_slots_slot_set ins a.2 new s).
        * rewrite lookup_insert_ne in Hj by done. by apply (kr_entry _ R j y s p).
    - intros p j Hp. rewrite Hd2, Hd1 in Hp. rewrite Hins2, Hins1.
      destruct (decide (a.1 = j)) as [<-|E]; [by rewrite lookup_insert_eq|].
      rewrite lookup_insert_ne by done. by apply (kr_defs _ R p).
    - intros j y s z Hj Hsl Hp. rewrite Hins2, Hins1 in Hj.
      destruct (decide (a.1 = j)) as [E|E].
      + subst j. rewrite lookup_insert_eq in Hj. injection Hj as <-.
        destruct (decide (a.2 = s)) as [<-|Hsa].
        * rewrite slot_get_set_eq in Hp by done. injection Hp as Hp. by destruct (Hnew z).
        * rewrite slot_get_set_ne in Hp by done.
          apply (kr_nosym _ R a.1 ins s z Hi); [|done].
          apply (kill_slots_slot_set ins a.2 new s); [congruence|done].
      + rewrite lookup_insert_ne in Hj by done. by apply (kr_nosym _ R j y s z). }
  assert (total_uses st1 <= S (total_uses st))%nat as Hm1.
  { unfold use_pseudo in Hu.
    rewrite (bind_eq _ _ _ _ _ (write_slot_eq a new st ins Hi Hsome)) in Hu.
    destruct (has_use_list new).
    - unfold bind, get_users, set_users in Hu. injection Hu as <-.
      pose proof (total_uses_users st
                    (with_users (<[new := users_of st new ++ [{| pu_insn := i; userp := a |}]]>
                                   (users st)) (with_insns (<[a.1:=slot_set ins a.2 new]> (insns st)) st))
                    new _ eq_refl) as E.
      rewrite length_app in E. simpl in E.
      change (users_of (with_insns _ st) new) with (users_of st new) in *. lia.
    - apply ret_Ok in Hu as [_ <-]. change (total_uses (with_insns _ st)) with (total_uses st). lia. }
  exists ins, st2. unfold remove_usage, rem_usage. rewrite Hrem.
  assert (pseudo_def st2 old = pseudo_def st old) as Hpd.
  { unfold pseudo_def. by rewrite Hd2, Hd1. }
  destruct (has_use_list old && bool_decide (users_of st2 old = [])) eqn:Hk.
  - apply andb_prop in Hk as [Hup _].
    destruct (kill_insn_total fuel (pseudo_def st2 old) false st2)
      as (r & st' & Hrun & K & _); [by apply pseudo_def_ok|done|lia|].
    exists st'. split; [done|]. split.
    { unfold kill_instruction. by rewrite (bind_eq _ _ _ _ _ Hrun). }
    split; [by rewrite Hins2|]. split; [done|].
    split; [by rewrite Hd2|]. split; [by rewrite Hb2|]. split; [by rewrite Hw2|].
    split; [by rewrite Hph2|]. split; [done|]. split; [done|].
    rewrite <- Hpd. by apply (kill_spares_ptr fuel _ false st2 r st').
  - exists st2. split; [done|]. split; [done|].
    split; [by rewrite Hins2|]. split; [done|].
    split; [by rewrite Hd2|]. split; [by rewrite Hb2|]. split; [by rewrite Hw2|].
    split; [by rewrite Hph2|]. split; [done|]. split; [apply kstep_refl|apply spares_refl].
Qed.

(** ** Branches *)

Lemma bind_seq_eq {A B C : Type} (m : M A) (n : M B) (g : B -> M C) st b st' :
  (let* _ := m in n) st = Ok b st' -> (let* _ := m in let* x := n in g x) st = g b st'.
Proof. unfold bind. destruct (m st); [|done]. by intros ->. Qed.



(** ** Select, range checks and casts of constants *)



Lemma kill_use_with_constant k a st ins v :
  insns st !! a.1 = Some ins -> slot_get ins a.2 = Some (VAL v) ->
  kill_use_with k (Some a) st
  = Ok tt (with_insns (<[a.1 := slot_set ins a.2 VOID]> (insns st)) st).
Proof.
  intros Hi Hs. unfold kill_use_with.
  assert (read_slot a st = Ok (VAL v) st) as Hread
    by (apply read_slot_eq; unfold slot_of; by rewrite Hi).
  rewrite (bind_eq _ _ _ _ _ Hread).
  by rewrite (bind_eq _ _ _ _ _ (write_slot_eq a VOID st ins Hi ltac:(by eexists))).
Qed.

(** X24.  A live range check on three constants is removed exactly when the
    value lies between the bounds, both included: its operands are unbound
    and it leaves its block, while no use list, definition or block changes
    and nothing is reported; a value outside the bounds leaves everything as
    it was. *)
Theorem simplify_range_constant fuel i ins v low high st :
  insns st !! i = Some ins -> i_opcode ins = OP_RANGE -> is_live ins = true ->
  i_src1 ins = VAL v -> i_src2 ins = VAL low -> i_src3 ins = VAL high ->
  (0 < fuel)%nat ->
  (low <= v <= high ->
     exists st',
       simplify_range fuel i st = Ok REPEAT_CSE st' /\
       insns st' = <[i := set_bb None
                             (slot_set (slot_set (slot_set ins Src3 VOID) Src2 VOID) Src1 VOID)]>
                     (insns st) /\
       users st' = users st /\ defs st' = defs st /\ blocks st' = blocks st /\
       warnings st' = warnings st /\
       repeat_phase st' = Z.lor (repeat_phase st) REPEAT_CSE) /\
  (~ (low <= v <= high) -> simplify_range fuel i st = Ok 0 st).
Proof.
  intros Hi Hop Hlive H1 H2 H3 Hf.
  unfold simplify_range. rewrite (bind_eq _ _ _ _ _ (load_insn_eq _ _ _ Hi)).
  rewrite H1, H2, H3. cbn [is_in_range]. split; intros Hr.
  - replace ((v >=? low) && (v <=? high)) with true by (symmetry; apply andb_true_intro; lia).
    destruct fuel as [|n]; [lia|].
    unfold is_live in Hlive. destruct (i_bb ins) as [b|] eqn:Hb; [|done].
    set (k := fun d => kill_insn n d false).
    set (x3 := slot_set ins Src3 VOID).
    set (x2 := slot_set x3 Src2 VOID).
    set (x1 := slot_set x2 Src1 VOID).
    set (st3 := with_insns (<[i := x3]> (insns st)) st).
    set (st2 := with_insns (<[i := x2]> (insns st3)) st3).
    set (st1 := with_insns (<[i := x1]> (insns st2)) st2).
    assert (kill_use_with k (Some (i, Src3)) st = Ok tt st3) as E3.
    { apply (kill_use_with_constant k (i, Src3) st ins high); [done|simpl; by rewrite H3]. }
    assert (kill_use_with k (Some (i, Src2)) st3 = Ok tt st2) as E2.
    { apply (kill_use_with_constant k (i, Src2) st3 x3 low).
      - simpl. by rewrite lookup_insert_eq.
      - simpl. by rewrite H2. }
    assert (kill_use_with k (Some (i, Src1)) st2 = Ok tt st1) as E1.
    { apply (kill_use_with_constant k (i, Src1) st2 x2 v).
      - simpl. by rewrite lookup_insert_eq.
      - simpl. by rewrite H1. }
    assert (insns st1 !! i = Some x1) as Hx1 by (simpl; by rewrite lookup_insert_eq).
    assert (kill_instruction (S n) (InsnAt i) st
            = Ok (Z.lor (repeat_phase st) REPEAT_CSE)
                 (with_repeat_phase (Z.lor (repeat_phase st) REPEAT_CSE)
                    (with_insns (<[i := set_bb None x1]> (insns st1)) st1))) as Hk.
    { unfold kill_instruction. cbn [kill_insn]. fold k. unfold kill_insn_body.
      rewrite (bind_eq _ _ _ _ _ (load_insn_eq _ _ _ Hi)). rewrite Hb, Hop. cbv zeta iota.
      rewrite (bind_eq _ _ _ _ _ E3), (bind_eq _ _ _ _ _ E2), (bind_eq _ _ _ _ _ E1).
      unfold kill_finish, update_insn.
      rewrite (bind_eq (bind (load_insn i) _) _ st1 tt
                 (with_insns (<[i := set_bb None x1]> (insns st1)) st1)); [done|].
      by rewrite (bind_eq _ _ _ _ _ (load_insn_eq _ _ _ Hx1)). }
    rewrite (bind_eq _ _ _ _ _ Hk).
    eexists. split; [reflexivity|]. simpl.
    by rewrite !insert_insert_eq.
  - replace ((v >=? low) && (v <=? high)) with false; [done|].
    symmetry. apply andb_false_iff. rewrite Z.geb_leb, !Z.leb_gt. lia.
Qed.

Lemma simplify_range_constant_witness :
  exists st',
    simplify_range 1 1
      (Sample.mk_state [ (1%nat, Sample.mk OP_RANGE 32 VOID (VAL 3) (VAL 0) (VAL 7)) ] [] [])
    = Ok REPEAT_CSE st' /\
    (i_bb <$> insns st' !! 1%nat) = Some None.
Proof.
  destruct (simplify_range_constant 1 1 (Sample.mk OP_RANGE 32 VOID (VAL 3) (VAL 0) (VAL 7))
              3 0 7
              (Sample.mk_state
                 [ (1%nat, Sample.mk OP_RANGE 32 VOID (VAL 3) (VAL 0) (VAL 7)) ] [] []))
    as [Hin _].
  - reflexivity.
  - reflexivity.
  - reflexivity.
  - reflexivity.
  - reflexivity.
  - reflexivity.
  - lia.
  - destruct Hin as (st' & Hrun & Hi & _); [lia|].
    exists st'. split; [exact Hrun|]. rewrite Hi. reflexivity.
Defined.



(** ** Commutative operations *)

(** X26.  After the canonicalization of a commutative instruction its
    operands are in canonical order, so a constant is never left of a
    pseudo that is not one: the operands are exchanged when they were not in
    order and left alone when they were, nothing else of the instructions
    changes, the result is 0 exactly when nothing was exchanged, the use
    lists are consistent again and a second canonicalization changes
    nothing. *)
Theorem canonicalize_commutative_orders fuel i ins st :
  insns st !! i = Some ins -> is_live ins = true -> use_lists_ok st ->
  exists r st' ins',
    canonicalize_commutative fuel i st = Ok r st' /\
    ins' = (if canonical_order (i_src1 ins) (i_src2 ins) then ins
            else slot_set (slot_set ins Src1 (i_src2 ins)) Src2 (i_src1 ins)) /\
    insns st' = <[i := ins']> (insns st) /\
    canonical_order (i_src1 ins') (i_src2 ins') = true /\
    (r = 0 <-> canonical_order (i_src1 ins) (i_src2 ins) = true) /\
    use_lists_ok st' /\
    canonicalize_commutative fuel i st' = Ok 0 st'.
Proof.
  intros Hi Hlive L. unfold canonicalize_commutative at 1.
  rewrite (bind_eq _ _ _ _ _ (load_insn_eq _ _ _ Hi)).
  destruct (canonical_order (i_src1 ins) (i_src2 ins)) eqn:Hc.
  - exists 0, st, ins. split; [done|]. split; [done|]. split; [by rewrite insert_id|].
    split; [done|]. split; [done|]. split; [done|].
    unfold canonicalize_commutative.
    rewrite (bind_eq _ _ _ _ _ (load_insn_eq _ _ _ Hi)). by rewrite Hc.
  - assert (slot_of st (i, Src1) = Some (i_src1 ins)) as Hp1
      by (unfold slot_of; simpl; by rewrite Hi).
    assert (slot_of st (i, Src2) = Some (i_src2 ins)) as Hp2
      by (unfold slot_of; simpl; by rewrite Hi).
    destruct (switch_pseudo_total fuel i (i, Src1) i (i, Src2) st _ _ Hp1 Hp2)
      as (st1 & ins1 & ins2 & Hsw & Hi1 & Hi2 & Hins & Hph); [done| | |].
    { intros Hu. rewrite (use_lists_ok_entry st i ins Src1 _ L Hi Hlive eq_refl eq_refl Hu). lia. }
    { intros Hu. rewrite (use_lists_ok_entry st i ins Src2 _ L Hi Hlive eq_refl eq_refl Hu). lia. }
    simpl in Hi1, Hi2, Hins. assert (ins1 = ins) as -> by congruence.
    rewrite lookup_insert_eq in Hi2. injection Hi2 as <-.
    rewrite insert_insert_eq in Hins.
    set (mid := slot_set (slot_set ins Src1 (i_src2 ins)) Src2 (i_src1 ins)) in *.
    pose proof (switch_pseudo_lists_ok _ _ _ _ _ _ _ _ _ Hsw L) as L1.
    exists (Z.lor (repeat_phase st1) REPEAT_CSE),
           (with_repeat_phase (Z.lor (repeat_phase st1) REPEAT_CSE) st1), mid.
    split; [by rewrite (bind_eq _ _ _ _ _ Hsw)|]. split; [done|]. split; [done|].
    split; [by apply canonical_order_swapped|]. split; [|split; [done|]].
    + split; [|done]. intros E. apply Z.lor_eq_0_iff in E as [_ E]. done.
    + unfold canonicalize_commutative.
      assert (insns (with_repeat_phase (Z.lor (repeat_phase st1) REPEAT_CSE) st1) !! i
              = Some mid) as Hmid by (simpl; by rewrite Hins, lookup_insert_eq).
      rewrite (bind_eq _ _ _ _ _ (load_insn_eq _ _ _ Hmid)). simpl.
      by rewrite (canonical_order_swapped _ _ Hc).
Qed.

Lemma canonicalize_commutative_orders_witness :
  exists r st',
    canonicalize_commutative 0 1 (Extra.const_left OP_ADD 3) = Ok r st' /\
    insns st' !! 1%nat = Some (Sample.mk OP_ADD 32 (REG 1) (ARG 0) (VAL 3) VOID) /\
    r <> 0.
Proof.
  destruct (canonicalize_commutative_orders 0 1
              (Sample.mk OP_ADD 32 (REG 1) (VAL 3) (ARG 0) VOID)
              (Extra.const_left OP_ADD 3))
    as (r & st' & ins' & Hrun & -> & Hins & _ & Hr & _).
  - reflexivity.
  - reflexivity.
  - apply use_lists_check_ok. vm_compute. reflexivity.
  - exists r, st'. split; [exact Hrun|]. split.
    + rewrite Hins. apply lookup_insert_eq.
    + intros E. apply Hr in E. discriminate E.
Defined.

(** ** Two constant operands *)



(** ** Arithmetic shifts to the right *)


